(* ===== verification/_CoqProject ===== *)
-Q . S2P
Prelude.v
CMem.v
Riscv.v
Kalloc.v
Vm.v
PageTable.v
Freewalk.v
UserMem.v
UserCopy.v
UserSpace.v
VmTheorems.v
KernelSpace.v
KState.v
Spin.v
Harts.v
Sched.v
Conc.v
Printf.v
Bio.v
BioSpec.v
Virtio.v
Log.v
LogSpec.v
LogCrash.v
Fs.v
FsSpec.v
InodeSpec.v
DirSpec.v
Console.v
File.v
PipeSpec.v
Proc.v
Exec.v
Sysproc.v
Sysfile.v
Syscall.v
Trap.v
TrapSpec.v
Limits.v
Grep.v
Umalloc.v
Sh.v
ShRun.v
Mkfs.v
Uprintf.v
Ulib.v
Uprog.v
Utools.v
Uinit.v
Upipes.v
ShMain.v
Asm.v
Boot.v
