(* ===== verification/Prelude.v ===== *)
(** * EAFITos (xv6-riscv): a verification development

    EAFITos is a fork of the teaching kernel xv6 for RISC-V.  The sources are
    the kernel (src/kernel), the program that makes the disk image (src/mkfs)
    and the user programs (src/user).  This library models them as functions
    and step relations and proves what makes them correct.

    ** The program

    A hart starts in [_entry], runs [start] in machine mode and enters [main].
    Hart 0 initialises the kernel, the others wait for it; then all run the
    scheduler.  A process is in user space or in the kernel: it enters through
    [uservec] and [usertrap], by a system call, a page fault or an interrupt,
    and leaves through [userret].  In the kernel it works on page tables and
    physical pages, on the process table, on open files, pipes and the console,
    and on the file system, which is built in layers: the disk driver, the
    buffer cache, the log, inodes, directories and paths.  A process that has
    to wait gives the hart to the scheduler by [swtch].  User programs run on
    a small C library; [init] starts the shell, and the shell starts the rest.
    This fork adds memory shared by [fork], lazy regions filled with a letter
    ([mapzero]), read-only pages ([map_ro]), tracing of system calls, a dump
    of the page table, and some commands.

    ** How the code is modelled

    Prelude.v has the monad of all sequential code: a computation takes a state
    and ends in [Ok] with a result and a state, in [Panic] with the message of
    the panic, in [Swtch] with the state and the rest of the computation (the
    process has called [sched]), or in [NoFuel].  [wp m Q s] is total
    correctness: [m] ends in [Ok] from [s] and [Q] holds of the end.  C integers
    are kept in [Z] with their conversions written out ([u8] to [u64], [i32],
    [i64]).  Locks of the single-threaded model are names in a list of locks
    held; the harts and the lock code itself are step relations of their own.
    A lens ([Lens]) runs a component on its part of a larger state ([zoom]).

    ** Files

    Memory and the machine
    - CMem.v: byte memory, little-endian accesses, kernel/string.c.
    - Riscv.v: riscv.h, memlayout.h, param.h: constants and page-table macros.
    - Asm.v: trampoline.S, kernelvec.S, swtch.S, entry.S, one instruction a line.
      A trap gives every user register back ([trap_roundtrip]) and a context
      is resumed as it was saved ([swtch_roundtrip]).
    - Boot.v: start.c with the control registers of a hart, plic.c (Module
      Plic), the programming of the UART (Module Uart), and main.c on any
      number of harts (Module Main): a hart enters the scheduler only when all
      it relies on is initialised ([harts_enter_ready]).

    Memory management
    - Kalloc.v: kalloc.c; the allocator refines a stack of pages
      ([kmem_refines_stack]).
    - Vm.v: vm.c.  PageTable.v describes a page table by the map of its leaves
      and proves [walk], [mappages] and [uvmunmap] against it; Freewalk.v its
      release; UserMem.v who owns each page and the memory a program sees;
      UserCopy.v [copyin], [copyout], [copyinstr]; UserSpace.v growth, copy and
      release; VmTheorems.v the results: [copyout_writes_view],
      [uvmcopy_same_memory], [vmfault_demand_zero], [uvmfree_no_leak].
    - KernelSpace.v: [kvmmake] after [kinit] ([kernel_space_boots]).

    Locks, processes and scheduling
    - Spin.v: spinlock.c at the grain of memory accesses on any number of harts
      ([spin_mutual_exclusion], [spin_refines_lock]).
    - Harts.v: [scheduler] and [sched] on any number of harts
      ([processes_run_once], [scheduler_never_crashes]).
    - KState.v: the structures and variables of the kernel.  Sched.v: locks,
      sleep locks, [sleep] and [wakeup] as one process sees them.  Conc.v:
      reasoning about code that sleeps while others run.
    - Proc.v: proc.c and crear_memoria_compartida.c.  Exec.v: exec.c.

    Devices and files
    - Printf.v: printf.c.  Console.v: console.c and uart.c.
    - Virtio.v: virtio_disk.c with its rings, against a device that completes
      requests in any order; it refines the transfer of whole blocks
      ([rw_refines_transfer]), which is what the buffer cache assumes.
    - Bio.v and BioSpec.v: bio.c; one copy of every block.
    - Log.v, LogSpec.v, LogCrash.v: log.c; a crash at any disk write leaves all
      of a transaction or nothing ([commit_crash_safe]), also when it happens
      during recovery ([recovery_restartable]).
    - Fs.v: fs.c.  FsSpec.v: blocks, bitmap and inodes inside a transaction.
      InodeSpec.v: file contents ([writei_correct], [writei_readi],
      [write_isolated]).  DirSpec.v: a directory is a finite map
      ([dirlink_dirlookup]).
    - File.v: file.c and pipe.c.  PipeSpec.v: a pipe is a queue whatever other
      processes do ([pipewrite_fifo], [piperead_fifo]).

    System calls and traps
    - Sysproc.v, Sysfile.v, Syscall.v: sysproc.c, sysfile.c, syscall.c.
    - Trap.v: trap.c.  TrapSpec.v: page faults, sbrk, mapzero and map_ro as the
      process sees them ([pagefault_ends], [sbrk_moves_break],
      [mapzero_first_touch]).
    - Limits.v: runs from a booted machine that end where the code does not
      mean to: panics a user program can provoke, a page freed while mapped.

    User space
    - Ulib.v, Umalloc.v, Uprintf.v: ulib.c, umalloc.c, printf.c
      ([umalloc_conserves], [malloc_hands_out], [vprintf_renders],
      [uprintint_bounds]).
    - Sh.v: the parser of sh.c against a grammar ([parsecmd_grammar],
      [parsecmd_total]).  ShRun.v: [runcmd] ([runcmd_wires]).  ShMain.v: the
      whole shell, from the bytes it reads to the programs it starts
      ([shell_session]).
    - Grep.v: grep.c ([match_re_language], [grep_filters_lines]).
    - Uprog.v: cat, leer, wc, echo, calc.  Utools.v: ls, listar, trace, mkdir,
      rm, ln, kill and the main of grep.  Uinit.v: init.
    - Upipes.v: the demonstrations of pipes.c, two processes on a pipe.
    - Mkfs.v: mkfs.c builds an image that satisfies the invariants the kernel
      relies on and holds the given files ([mkfs_image]).

    ** Bounds

    - [loop] runs a body at most 2^64 times.  A counter of the code that made
      as many rounds would have wrapped, and each [wp] of a loop is proved with
      a measure below that bound, so no theorem about it can hold because it
      ran out; Conc.v, where a sleeping process may be woken any number of
      times, is the exception and says so.
    - The digits of a number: 64 rounds, one for each bit.
    - [freewalk] and [walk]: the three levels of a page table.
    - A chain of descriptors has at most [NUM] links.
    - The shell parser: a depth of four calls for each byte of the line,
      proved enough ([parsecmd_total]).
    - The loops of grep: the length of the text left.
    - The strings of string.c and ulib.c: a loop over the bytes, whose
      theorems assume the string ends.

    ** Assumptions

    What is not in the sources is a parameter: where the linker puts the kernel
    ([KLayout]), what a control register keeps of the bits written to it
    ([Machine]), the translation behind [satp] in Asm.v, the answers of the
    devices in Trap.v and Virtio.v, and, for the user programs, the answers of
    the kernel.  The laws they must satisfy are named, and instances show that
    they can hold.  Memory is sequentially consistent.

    ** Not modelled

    - usertests, grind, stressfs, forktest, logstress and the other test
      programs: they make system calls in a fixed order and print whether the
      outcome is the expected one.  They hold no state of the system and
      promise nothing to other parts.  Of pipes.c, the demonstrations with one
      process or a single read.
    - ayuda, tiempo, salir, hello, dumpvm: a fixed text, or a system call whose
      result is printed.
    - [initlock], [initsleeplock] and the init functions that only name a lock
      or fill the device table (trapinit, fileinit, init_shm, printfinit,
      consoleinit): their effect is the initial state; their order in [main] is
      modelled.
    - [start], [stat] and the sbrk wrappers of ulib.c, and the stubs usys.pl
      generates: they pass a system call on.  [cpuid] and [mycpu] read the hart
      number.  The headers defs.h, user.h and types.h hold declarations.
    - The control-register functions of riscv.h outside the boot: the trap and
      scheduler models have the registers as fields.
    - Timing, the translation cache ([sfence_vma]) and weak memory. *)

From Stdlib Require Export ZArith Lia.
From Stdlib Require Import Ascii.
From stdpp Require Export base tactics list gmap sets strings.

#[global] Open Scope Z_scope.

(** ** Strings *)

(** A C string literal: its bytes without the NUL. *)
Fixpoint str (s : string) : list Z :=
  match s with
  | EmptyString => []
  | String c s' => Z.of_nat (nat_of_ascii c) :: str s'
  end.

Definition chr (c : ascii) : Z := Z.of_nat (nat_of_ascii c).

(** ** Machine integers

    A C integer is a [Z] kept inside the range of its type.  Unsigned
    arithmetic wraps around; the conversions below are the C conversions of
    the RISC-V LP64 ABI the kernel is compiled for. *)

Definition u8 (x : Z) : Z := x `mod` 2 ^ 8.

Definition u16 (x : Z) : Z := x `mod` 2 ^ 16.

Definition u32 (x : Z) : Z := x `mod` 2 ^ 32.

Definition u64 (x : Z) : Z := x `mod` 2 ^ 64.

Definition i8 (x : Z) : Z := (x + 2 ^ 7) `mod` 2 ^ 8 - 2 ^ 7.

Definition i16 (x : Z) : Z := (x + 2 ^ 15) `mod` 2 ^ 16 - 2 ^ 15.

Definition i32 (x : Z) : Z := (x + 2 ^ 31) `mod` 2 ^ 32 - 2 ^ 31.

Definition i64 (x : Z) : Z := (x + 2 ^ 63) `mod` 2 ^ 64 - 2 ^ 63.

Definition is_u64 (x : Z) : Prop := 0 <= x < 2 ^ 64.

Definition is_u32 (x : Z) : Prop := 0 <= x < 2 ^ 32.

Definition is_byte (x : Z) : Prop := 0 <= x < 2 ^ 8.

(** [x & m] as a C condition. *)
Definition has (x m : Z) : bool := negb (Z.land x m =? 0).

(** ** Record update

    [r <| f := v |>] is [r] with field [f] set to [v].  A record type gets the
    notation by declaring its eta-expansion as an [Eta] instance; the setter of
    a field is then derived by replacing that projection in it. *)

Class Eta (T : Type) := eta : T -> T.

Class Upd {T A : Type} (f : T -> A) := upd : (A -> A) -> T -> T.

Ltac derive_upd :=
  lazymatch goal with
  | |- @Upd ?T ?A ?f =>
      let e := constr:(fun (g : A -> A) (x : T) =>
        ltac:(let b := eval hnf in (eta x) in
              let p := eval pattern (f x) in b in
              lazymatch p with
              | ?h _ => let r := eval cbv beta in (h (g (f x))) in exact r
              end)) in
      exact e
  end.

#[export] Hint Extern 1 (Upd _) => derive_upd : typeclass_instances.

Notation "r <| f := v |>" := (upd (f:=f) (fun _ => v) r)
  (at level 1, f at level 10, format "r  <| f  :=  v |>").

Notation "r <| f ::= g |>" := (upd (f:=f) g r)
  (at level 1, f at level 10, format "r  <| f  ::=  g |>").

(** ** Outcomes

    A kernel function run from a state ends in one of four ways: it returns;
    it calls [panic], which never returns; it switches to the scheduler, which
    may later resume it in whatever state the kernel is in by then; or the
    model's loop bound is exhausted.  The last never happens in the theorems:
    each of them proves that the outcome is one of the others. *)

Inductive result (S A : Type) :=
  | Ok (a : A) (s : S)
  | Panic (msg : string)
  | Swtch (s : S) (k : S -> result S A)
  | NoFuel.

Arguments Ok {S A} a s.
Arguments Panic {S A} msg.
Arguments Swtch {S A} s k.
Arguments NoFuel {S A}.

Definition M (S A : Type) : Type := S -> result S A.

#[export] Instance M_ret {S} : MRet (M S) := fun A a s => Ok a s.

Fixpoint result_bind {S A B} (r : result S A) (f : A -> M S B) : result S B :=
  match r with
  | Ok a s' => f a s'
  | Panic msg => Panic msg
  | Swtch s' k => Swtch s' (fun s => result_bind (k s) f)
  | NoFuel => NoFuel
  end.

#[export] Instance M_bind {S} : MBind (M S) := fun A B f m s => result_bind (m s) f.

Definition panic {S A} (msg : string) : M S A := fun _ => Panic msg.

Definition nofuel {S A} : M S A := fun _ => NoFuel.

(** The [swtch] to the scheduler: resumes where it left off. *)
Definition swtch {S} : M S unit := fun s => Swtch s (fun s' => Ok tt s').

Definition gets {S A} (f : S -> A) : M S A := fun s => Ok (f s) s.

Definition modify {S} (f : S -> S) : M S unit := fun s => Ok tt (f s).

Definition when {S} (b : bool) (m : M S unit) : M S unit :=
  if b then m else mret tt.

(** A component's operations run inside a larger state through a lens. *)
Class Lens (S T : Type) := {
  lget : S -> T;
  lset : T -> S -> S;
  lget_lset : forall t s, lget (lset t s) = t;
  lset_lget : forall s, lset (lget s) s = s;
  lset_lset : forall t t' s, lset t (lset t' s) = lset t s
}.

Fixpoint zoom_result {S T A} `{Lens S T} (r : result T A) (s : S) : result S A :=
  match r with
  | Ok a t => Ok a (lset t s)
  | Panic msg => Panic msg
  | Swtch t k => Swtch (lset t s) (fun s' => zoom_result (k (lget s')) s')
  | NoFuel => NoFuel
  end.

Definition zoom {S T A} `{Lens S T} (m : M T A) : M S A := fun s => zoom_result (m (lget s)) s.

(** A C loop: the body returns [inl st] to go round again with loop variables
    [st] and [inr r] to leave with [r].  [loop_pow k] goes round at most [2^k]
    times (by doubling, so that a large bound costs nothing when the loop
    leaves early); [loop] allows [2^64] rounds, more than any loop driven by a
    machine counter makes. *)
Fixpoint loop_pow {S St R} (k : nat) (body : St -> M S (St + R)) (st : St) : M S (St + R) :=
  match k with
  | O => body st
  | Datatypes.S k' =>
      r ← loop_pow k' body st;
      match r with inl st' => loop_pow k' body st' | inr a => mret (inr a) end
  end.

Definition loop {S St R} (body : St -> M S (St + R)) (st : St) : M S R :=
  r ← loop_pow 64 body st;
  match r with inl _ => nofuel | inr a => mret a end.

(** [for(i = lo; i < lo + n; i++) body] with no early exit. *)
Fixpoint for_range {S} (n : nat) (i : Z) (body : Z -> M S unit) : M S unit :=
  match n with
  | O => mret tt
  | Datatypes.S n' => body i;; for_range n' (i + 1) body
  end.

(** ** Total correctness: [wp m Q s] says that [m] run from [s] returns, and
    that what it returns and the state it leaves satisfy [Q]. *)

Definition wp {S A} (m : M S A) (Q : A -> S -> Prop) (s : S) : Prop :=
  match m s with Ok a s' => Q a s' | _ => False end.

Section wp.
Context {S : Type}.
Implicit Types s : S.

Lemma wp_ret {A} (a : A) (Q : A -> S -> Prop) s : Q a s -> wp (mret a) Q s.
Proof. done. Qed.

Lemma wp_bind {A B} (m : M S A) (f : A -> M S B) Q s :
  wp m (fun a s' => wp (f a) Q s') s -> wp (m ≫= f) Q s.
Proof.
  unfold wp. unfold mbind, M_bind. by destruct (m s).
Qed.

Lemma wp_bind_inv {A B} (m : M S A) (f : A -> M S B) Q s :
  wp (m ≫= f) Q s -> wp m (fun a s' => wp (f a) Q s') s.
Proof. unfold wp, mbind, M_bind. by destruct (m s). Qed.

Lemma wp_mono {A} (m : M S A) (P Q : A -> S -> Prop) s :
  wp m P s -> (forall a s', P a s' -> Q a s') -> wp m Q s.
Proof. unfold wp. destruct (m s); naive_solver. Qed.

Lemma wp_gets {A} (f : S -> A) (Q : A -> S -> Prop) s : Q (f s) s -> wp (gets f) Q s.
Proof. done. Qed.

Lemma wp_modify (f : S -> S) (Q : unit -> S -> Prop) s : Q tt (f s) -> wp (modify f) Q s.
Proof. done. Qed.

Lemma wp_run {A} (m : M S A) (Q : A -> S -> Prop) s a s' :
  m s = Ok a s' -> Q a s' -> wp m Q s.
Proof. unfold wp. by intros ->. Qed.

Lemma wp_inv {A} (m : M S A) (Q : A -> S -> Prop) s :
  wp m Q s -> exists a s', m s = Ok a s' /\ Q a s'.
Proof. unfold wp. destruct (m s); naive_solver. Qed.

Lemma wp_ok {A} (m : M S A) (Q : A -> S -> Prop) s a s' : wp m Q s -> m s = Ok a s' -> Q a s'.
Proof. unfold wp. intros Hw E. by rewrite E in Hw. Qed.

(** [Inv n st s]: the loop, entered with loop variables [st] in state [s], is
    left within [n] rounds. *)
Lemma wp_loop_pow {St R} (Inv : Z -> St -> S -> Prop) (body : St -> M S (St + R)) Q :
  (forall n st s, Inv n st s ->
     0 < n /\
     wp (body st) (fun r s' => match r with
       | inl st' => exists n', n' < n /\ Inv n' st' s' | inr a => Q a s' end) s) ->
  forall k n st s, Inv n st s ->
    wp (loop_pow k body st) (fun r s' => match r with
      | inl st' => exists n', n' <= n - 2 ^ Z.of_nat k /\ Inv n' st' s' | inr a => Q a s' end) s.
Proof.
  intros HS k. induction k as [|k IH]; intros n st s HI.
  - destruct (HS n st s HI) as [_ Hb]. eapply wp_mono; [exact Hb|].
    intros [st'|a] s'; [|done]. intros (n' & Hn & HI'). exists n'. split; [simpl; lia|done].
  - cbn [loop_pow]. apply wp_bind. eapply wp_mono; [by eapply IH|].
    intros [st'|a] s'; [|done]. intros (n' & Hn & HI').
    eapply wp_mono; [by eapply IH|]. intros [st''|a] s''; [|done].
    intros (n'' & Hn' & HI''). exists n''. split; [|done].
    rewrite Nat2Z.inj_succ, Z.pow_succ_r by lia. lia.
Qed.

Lemma wp_loop {St R} (Inv : Z -> St -> S -> Prop) (body : St -> M S (St + R)) Q n st s :
  (forall n st s, Inv n st s ->
     0 < n /\
     wp (body st) (fun r s' => match r with
       | inl st' => exists n', n' < n /\ Inv n' st' s' | inr a => Q a s' end) s) ->
  n <= 2 ^ 64 -> Inv n st s -> wp (loop body st) Q s.
Proof.
  intros HS Hn HI. unfold loop. apply wp_bind. eapply wp_mono; [by apply (wp_loop_pow Inv)|].
  intros [st'|a] s'; [|done]. intros (n' & Hn' & HI').
  destruct (HS _ _ _ HI') as [? _]. lia.
Qed.

Lemma wp_for_range (Inv : Z -> S -> Prop) (body : Z -> M S unit) Q n lo s :
  Inv lo s ->
  (forall i s, lo <= i < lo + Z.of_nat n -> Inv i s -> wp (body i) (fun _ s' => Inv (i + 1) s') s) ->
  (forall s, Inv (lo + Z.of_nat n) s -> Q tt s) ->
  wp (for_range n lo body) Q s.
Proof.
  revert lo s. induction n as [|n IH]; intros lo s Hlo Hstep Hend; simpl.
  - apply wp_ret, Hend. by replace (lo + Z.of_nat 0) with lo by lia.
  - apply wp_bind. eapply wp_mono; [apply Hstep; [lia|done]|].
    intros [] s' H'. apply IH; [done| |].
    + intros i s'' Hi. apply Hstep. lia.
    + intros s''. replace (lo + 1 + Z.of_nat n) with (lo + Z.of_nat (Datatypes.S n)) by lia. apply Hend.
Qed.
End wp.

Lemma wp_zoom {S T A} `{Lens S T} (m : M T A) (Q : A -> S -> Prop) s :
  wp m (fun a t => Q a (lset t s)) (lget s) -> wp (zoom m) Q s.
Proof. unfold wp, zoom. by destruct (m (lget s)). Qed.

(** The symbolic execution of straight-line code.  The database [wp_prim] holds
    the components' names for reads and writes of single fields. *)
Create HintDb wp_prim.

#[export] Hint Unfold when : wp_prim.

Ltac wp_step :=
  cbv beta zeta;
  lazymatch goal with
  | |- wp (mret _) _ _ => apply wp_ret
  | |- wp (_ ≫= _) _ _ => apply wp_bind
  | |- wp (gets _) _ _ => apply wp_gets
  | |- wp (modify _) _ _ => apply wp_modify
  | |- wp (zoom _) _ _ => apply wp_zoom
  | |- wp _ _ _ => progress autounfold with wp_prim
  end; cbv beta.

Ltac wp_steps := repeat wp_step.

(** ** Bits *)

Lemma i32_id x : - 2 ^ 31 <= x < 2 ^ 31 -> i32 x = x.
Proof. intros Hx. unfold i32. rewrite Z.mod_small; lia. Qed.

Lemma i32_range x : - 2 ^ 31 <= i32 x < 2 ^ 31.
Proof. unfold i32. pose proof (Z.mod_pos_bound (x + 2 ^ 31) (2 ^ 32)). lia. Qed.

Lemma land_neg_pow2 a n : 0 <= n -> Z.land a (Z.lnot (2 ^ n - 1)) = a - a `mod` 2 ^ n.
Proof.
  intros Hn. rewrite <- Z.ldiff_land.
  replace (2 ^ n - 1) with (Z.ones n) by (rewrite Z.ones_equiv; lia).
  rewrite Z.ldiff_ones_r, Z.shiftr_div_pow2, Z.shiftl_mul_pow2 by lia.
  pose proof (Z.div_mod a (2 ^ n) ltac:(lia)). lia.
Qed.

Lemma testbit_small a n i : 0 <= a < 2 ^ n -> 0 <= n <= i -> Z.testbit a i = false.
Proof.
  intros Ha Hn. rewrite <- (Z.mod_small a (2 ^ n)) by lia.
  apply Z.mod_pow2_bits_high. lia.
Qed.

Lemma testbit_mult_pow2 a n i : 0 <= n -> i < n -> a `mod` 2 ^ n = 0 -> Z.testbit a i = false.
Proof.
  intros Hn Hi Ha. destruct (decide (i < 0)); [by rewrite Z.testbit_neg_r by lia|].
  rewrite <- (Z.mod_pow2_bits_low a n i) by lia. by rewrite Ha, Z.bits_0.
Qed.

Lemma lor_range a b n : 0 <= n -> 0 <= a < 2 ^ n -> 0 <= b < 2 ^ n -> 0 <= Z.lor a b < 2 ^ n.
Proof.
  intros Hn Ha Hb. replace (Z.lor a b) with (Z.lor a b `mod` 2 ^ n); [apply Z.mod_pos_bound; lia|].
  apply Z.bits_inj'. intros i Hi. destruct (decide (i < n)).
  - by rewrite Z.mod_pow2_bits_low by lia.
  - rewrite Z.mod_pow2_bits_high, Z.lor_spec by lia.
    by rewrite (testbit_small a n), (testbit_small b n) by lia.
Qed.
