(* ===== verification/CMem.v ===== *)
(** * Physical memory and kernel/string.c

    Physical memory is a finite map from addresses to bytes; an address that
    was never written reads as 0.  Multi-byte loads and stores are little
    endian, as on RISC-V.  The string functions of kernel/string.c are
    translated loop for loop over that memory. *)

From S2P Require Import Prelude.

Abbreviation memory := (gmap Z Z).

(** ** Loads and stores *)

Definition ldb (m : memory) (a : Z) : Z := u8 (default 0 (m !! a)).

Definition stb (m : memory) (a v : Z) : memory := <[a := u8 v]> m.

Fixpoint ld (n : nat) (m : memory) (a : Z) : Z :=
  match n with
  | O => 0
  | S n' => ldb m a + 2 ^ 8 * ld n' m (a + 1)
  end.

Fixpoint st (n : nat) (m : memory) (a v : Z) : memory :=
  match n with
  | O => m
  | S n' => st n' (stb m a v) (a + 1) (v / 2 ^ 8)
  end.

Definition ld16 := ld 2.
Definition ld32 := ld 4.
Definition ld64 := ld 8.
Definition st16 := st 2.
Definition st32 := st 4.
Definition st64 := st 8.

(** A run of bytes, as a C array of [char] outside physical memory holds it. *)
Fixpoint ld_bytes (n : nat) (m : memory) (a : Z) : list Z :=
  match n with
  | O => []
  | S n' => ldb m a :: ld_bytes n' m (a + 1)
  end.

Fixpoint st_bytes (m : memory) (a : Z) (bs : list Z) : memory :=
  match bs with
  | [] => m
  | b :: bs' => st_bytes (stb m a b) (a + 1) bs'
  end.

(** ** kernel/string.c *)

(** [for(i = 0; i < n; i++) cdst[i] = c;] *)
Fixpoint memset_loop (n : nat) (m : memory) (cdst c : Z) : memory :=
  match n with
  | O => m
  | S n' => memset_loop n' (stb m cdst c) (cdst + 1) c
  end.

Definition memset (m : memory) (dst c n : Z) : memory :=
  memset_loop (Z.to_nat n) m dst c.

Fixpoint memcmp_loop (n : nat) (m : memory) (s1 s2 : Z) : Z :=
  match n with
  | O => 0
  | S n' =>
      if ldb m s1 =? ldb m s2 then memcmp_loop n' m (s1 + 1) (s2 + 1)
      else ldb m s1 - ldb m s2
  end.

Definition memcmp (m : memory) (v1 v2 n : Z) : Z := memcmp_loop (Z.to_nat n) m v1 v2.

(** [while(n-- > 0) *--d = *--s;] *)
Fixpoint memmove_down (n : nat) (m : memory) (d s : Z) : memory :=
  match n with
  | O => m
  | S n' => memmove_down n' (stb m (d - 1) (ldb m (s - 1))) (d - 1) (s - 1)
  end.

(** [while(n-- > 0) *d++ = *s++;] *)
Fixpoint memmove_up (n : nat) (m : memory) (d s : Z) : memory :=
  match n with
  | O => m
  | S n' => memmove_up n' (stb m d (ldb m s)) (d + 1) (s + 1)
  end.

Definition memmove (m : memory) (dst src n : Z) : memory :=
  if n =? 0 then m
  else if (src <? dst) && (dst <? src + n) then
    memmove_down (Z.to_nat n) m (dst + n) (src + n)
  else memmove_up (Z.to_nat n) m dst src.

Definition memcpy (m : memory) (dst src n : Z) : memory := memmove m dst src n.

Fixpoint strncmp_loop (n : nat) (m : memory) (p q : Z) : Z :=
  match n with
  | O => 0
  | S n' =>
      if negb (ldb m p =? 0) && (ldb m p =? ldb m q)
      then strncmp_loop n' m (p + 1) (q + 1)
      else ldb m p - ldb m q
  end.

Definition strncmp (m : memory) (p q n : Z) : Z := strncmp_loop (Z.to_nat n) m p q.

(** The first loop copies up to and including a NUL; the second one zeroes
    what is left of the [n] bytes. *)
Fixpoint strncpy_loop (n : nat) (m : memory) (s t : Z) : memory :=
  match n with
  | O => m
  | S n' =>
      let c := ldb m t in
      let m' := stb m s c in
      if c =? 0 then memset_loop n' m' (s + 1) 0
      else strncpy_loop n' m' (s + 1) (t + 1)
  end.

Definition strncpy (m : memory) (s t n : Z) : memory := strncpy_loop (Z.to_nat n) m s t.

Fixpoint safestrcpy_loop (n : nat) (m : memory) (s t : Z) : memory :=
  match n with
  | O => stb m s 0
  | S n' =>
      let c := ldb m t in
      let m' := stb m s c in
      if c =? 0 then stb m' (s + 1) 0
      else safestrcpy_loop n' m' (s + 1) (t + 1)
  end.

Definition safestrcpy (m : memory) (s t n : Z) : memory :=
  if n <=? 0 then m else safestrcpy_loop (Z.to_nat (n - 1)) m s t.

(** [for(n = 0; s[n]; n++)].  A finite memory cannot hold more than [size m]
    non-zero bytes in a row, so that many rounds are enough. *)
Fixpoint strlen_loop (fuel : nat) (m : memory) (s n : Z) : Z :=
  match fuel with
  | O => n
  | S f => if ldb m (s + n) =? 0 then n else strlen_loop f m s (n + 1)
  end.

Definition strlen (m : memory) (s : Z) : Z := strlen_loop (size m) m s 0.

(** ** Facts about loads and stores *)

(** Two memories that agree on a set of addresses. *)
Definition agree (P : Z -> Prop) (m m' : memory) : Prop :=
  forall a, P a -> ldb m' a = ldb m a.

Lemma agree_refl P m : agree P m m.
Proof. done. Qed.

Lemma agree_trans P m1 m2 m3 : agree P m1 m2 -> agree P m2 m3 -> agree P m1 m3.
Proof. intros H1 H2 a Ha. by rewrite H2, H1. Qed.

Lemma agree_sub (P Q : Z -> Prop) m m' : agree P m m' -> (forall a, Q a -> P a) -> agree Q m m'.
Proof. intros H HPQ a Ha. auto. Qed.

Lemma ldb_byte m a : is_byte (ldb m a).
Proof. apply Z.mod_pos_bound. lia. Qed.

Lemma ldb_stb m a v b : ldb (stb m a v) b = if decide (a = b) then u8 v else ldb m b.
Proof.
  unfold ldb, stb. case_decide; subst.
  - rewrite lookup_insert_eq. simpl. unfold u8. by rewrite Z.mod_mod.
  - by rewrite lookup_insert_ne.
Qed.

Lemma ldb_stb_eq m a v : ldb (stb m a v) a = u8 v.
Proof. rewrite ldb_stb. by rewrite decide_True. Qed.

Lemma ldb_stb_ne m a v b : a <> b -> ldb (stb m a v) b = ldb m b.
Proof. intros. rewrite ldb_stb. by rewrite decide_False. Qed.

Lemma ld_range n m a : 0 <= ld n m a < 2 ^ (8 * Z.of_nat n).
Proof.
  revert a. induction n as [|n IH]; intros a; simpl ld; [lia|].
  pose proof (ldb_byte m a) as Hb. specialize (IH (a + 1)). unfold is_byte in Hb.
  replace (8 * Z.of_nat (S n)) with (8 + 8 * Z.of_nat n) by lia.
  rewrite Z.pow_add_r by lia. nia.
Qed.

Lemma ld_ext n m m' a :
  agree (fun b => a <= b < a + Z.of_nat n) m m' -> ld n m' a = ld n m a.
Proof.
  revert a. induction n as [|n IH]; intros a H; simpl; [done|].
  rewrite (H a) by lia. rewrite IH; [done|]. intros b Hb. apply H. lia.
Qed.

Lemma st_agree n m a v : agree (fun b => ~ (a <= b < a + Z.of_nat n)) m (st n m a v).
Proof.
  revert m a v. induction n as [|n IH]; intros m a v b Hb; simpl; [done|].
  rewrite IH by lia. apply ldb_stb_ne. lia.
Qed.

Lemma ld_st_eq n m a v : ld n (st n m a v) a = v `mod` 2 ^ (8 * Z.of_nat n).
Proof.
  revert m a v. induction n as [|n IH]; intros m a v.
  - simpl. by rewrite Z.mod_1_r.
  - simpl. rewrite IH. rewrite st_agree by lia. rewrite ldb_stb_eq. unfold u8.
    replace (8 * Z.of_nat (S n)) with (8 + 8 * Z.of_nat n) by lia.
    rewrite Z.pow_add_r by lia. rewrite Z.rem_mul_r by lia. lia.
Qed.

Lemma ld_st_ne n k m a b v :
  b + Z.of_nat k <= a \/ a + Z.of_nat n <= b -> ld k (st n m a v) b = ld k m b.
Proof. intros H. apply ld_ext. intros c Hc. apply st_agree. lia. Qed.

Lemma ld64_range m a : is_u64 (ld64 m a).
Proof. apply (ld_range 8). Qed.

Lemma ld64_st64_eq m a v : is_u64 v -> ld64 (st64 m a v) a = v.
Proof. intros H. unfold ld64, st64. rewrite ld_st_eq. by apply Z.mod_small. Qed.

Lemma ld64_st64_ne m a b v : b + 8 <= a \/ a + 8 <= b -> ld64 (st64 m a v) b = ld64 m b.
Proof. intros H. apply (ld_st_ne 8 8). lia. Qed.

Lemma ld_bytes_length n m a : length (ld_bytes n m a) = n.
Proof. revert a. induction n as [|n IH]; intros a; simpl; [done|]. by rewrite IH. Qed.

Lemma ld_bytes_ext n m m' a :
  agree (fun b => a <= b < a + Z.of_nat n) m m' -> ld_bytes n m' a = ld_bytes n m a.
Proof.
  revert a. induction n as [|n IH]; intros a H; simpl; [done|].
  rewrite (H a) by lia. rewrite IH; [done|]. intros b Hb. apply H. lia.
Qed.

Lemma st_bytes_agree bs m a :
  agree (fun b => ~ (a <= b < a + Z.of_nat (length bs))) m (st_bytes m a bs).
Proof.
  revert m a. induction bs as [|c bs IH]; intros m a b Hb; simpl in *; [done|].
  rewrite IH by lia. apply ldb_stb_ne. lia.
Qed.

Lemma ldb_st_bytes bs m a i :
  Forall is_byte bs -> (i < length bs)%nat ->
  Some (ldb (st_bytes m a bs) (a + Z.of_nat i)) = bs !! i.
Proof.
  revert m a i. induction bs as [|c bs IH]; intros m a i HF Hi; simpl in *; [lia|].
  apply Forall_cons in HF as [Hc HF]. destruct i as [|i]; simpl.
  - rewrite Z.add_0_r, st_bytes_agree, ldb_stb_eq by lia. f_equal. by apply Z.mod_small.
  - rewrite <- (IH (stb m a c) (a + 1) i) by (done || lia). do 2 f_equal. lia.
Qed.

Lemma ld_st_bytes bs m a : Forall is_byte bs -> ld_bytes (length bs) (st_bytes m a bs) a = bs.
Proof.
  revert m a. induction bs as [|c bs IH]; intros m a HF; simpl; [done|].
  apply Forall_cons in HF as [Hc HF]. f_equal; [|by apply IH].
  rewrite st_bytes_agree, ldb_stb_eq by lia. by apply Z.mod_small.
Qed.

(** ** memset *)

Lemma memset_loop_spec n m d c a :
  ldb (memset_loop n m d c) a = if decide (d <= a < d + Z.of_nat n) then u8 c else ldb m a.
Proof.
  revert m d. induction n as [|n IH]; intros m d; cbn [memset_loop].
  - by rewrite decide_False by lia.
  - rewrite IH, ldb_stb. repeat case_decide; try lia; done.
Qed.

Lemma memset_spec m d c n a :
  0 <= n -> ldb (memset m d c n) a = if decide (d <= a < d + n) then u8 c else ldb m a.
Proof. intros Hn. unfold memset. rewrite memset_loop_spec. by rewrite Z2Nat.id. Qed.

Lemma memset_agree m d c n : 0 <= n -> agree (fun a => ~ (d <= a < d + n)) m (memset m d c n).
Proof. intros Hn a Ha. rewrite memset_spec by done. by rewrite decide_False. Qed.

Lemma ld_memset_0 k m d n a :
  0 <= n -> d <= a -> a + Z.of_nat k <= d + n -> ld k (memset m d 0 n) a = 0.
Proof.
  intros Hn. revert a. induction k as [|k IH]; intros a H1 H2; simpl; [done|].
  rewrite memset_spec, decide_True, IH by lia. done.
Qed.

(** ** memmove *)

Lemma memmove_up_spec n m d s a :
  d <= s \/ s + Z.of_nat n <= d ->
  ldb (memmove_up n m d s) a
  = if decide (d <= a < d + Z.of_nat n) then ldb m (s + (a - d)) else ldb m a.
Proof.
  revert m d s. induction n as [|n IH]; intros m d s Hds; cbn [memmove_up].
  - by rewrite decide_False by lia.
  - rewrite IH by lia. rewrite !ldb_stb. pose proof (ldb_byte m s) as Hb.
    assert (u8 (ldb m s) = ldb m s) as Hu by (apply Z.mod_small, Hb).
    repeat case_decide; try lia; try done.
    + f_equal. lia.
    + rewrite Hu. f_equal. lia.
Qed.

Lemma memmove_down_spec n m d s a :
  s <= d ->
  ldb (memmove_down n m d s) a
  = if decide (d - Z.of_nat n <= a < d) then ldb m (s + (a - d)) else ldb m a.
Proof.
  revert m d s. induction n as [|n IH]; intros m d s Hds; cbn [memmove_down].
  - by rewrite decide_False by lia.
  - rewrite IH by lia. rewrite !ldb_stb. pose proof (ldb_byte m (s - 1)) as Hb.
    assert (u8 (ldb m (s - 1)) = ldb m (s - 1)) as Hu by (apply Z.mod_small, Hb).
    repeat case_decide; try lia; try done.
    + f_equal. lia.
    + rewrite Hu. f_equal. lia.
Qed.

Lemma memmove_ldb m dst src n a :
  0 <= n ->
  ldb (memmove m dst src n) a
  = if decide (dst <= a < dst + n) then ldb m (src + (a - dst)) else ldb m a.
Proof.
  intros Hn. unfold memmove.
  destruct (Z.eqb_spec n 0) as [->|]; [by rewrite decide_False by lia|].
  destruct (Z.ltb_spec src dst); destruct (Z.ltb_spec dst (src + n)); simpl;
    [rewrite memmove_down_spec by lia|rewrite memmove_up_spec by lia..];
    rewrite Z2Nat.id by lia; repeat case_decide; try lia; f_equal; lia.
Qed.

(** [memmove] copies [n] bytes even when source and destination overlap:
    afterwards every destination byte is the byte the source held before the
    call, and every other byte is unchanged. *)
Theorem memmove_overlap m dst src n a :
  0 <= n ->
  ldb (memmove m dst src n) a
  = if decide (dst <= a < dst + n) then ldb m (src + (a - dst)) else ldb m a.
Proof. apply memmove_ldb. Qed.

(** ** C strings *)

(** The bytes of the string at [p], up to its NUL or to [n] bytes. *)
Fixpoint cstr (n : nat) (m : memory) (p : Z) : list Z :=
  match n with
  | O => []
  | S n' => if ldb m p =? 0 then [] else ldb m p :: cstr n' m (p + 1)
  end.

Lemma cstr_length n m p : (length (cstr n m p) <= n)%nat.
Proof.
  revert p. induction n as [|n IH]; intros p; simpl; [lia|].
  destruct (ldb m p =? 0); simpl; [lia|]. specialize (IH (p + 1)). lia.
Qed.

Lemma cstr_ext n m m' p :
  agree (fun b => p <= b < p + Z.of_nat n) m m' -> cstr n m' p = cstr n m p.
Proof.
  revert p. induction n as [|n IH]; intros p H; simpl; [done|].
  rewrite (H p) by lia. rewrite IH; [done|]. intros b Hb. apply H. lia.
Qed.

Lemma strncmp_loop_zero n m p q : strncmp_loop n m p q = 0 <-> cstr n m p = cstr n m q.
Proof.
  revert p q. induction n as [|n IH]; intros p q; simpl; [done|].
  destruct (Z.eqb_spec (ldb m p) 0) as [Hp|Hp];
    destruct (Z.eqb_spec (ldb m q) 0) as [Hq|Hq]; simpl.
  - split; [done|]. intros _. lia.
  - split; [lia|done].
  - destruct (Z.eqb_spec (ldb m p) (ldb m q)); [lia|]. split; [lia|done].
  - destruct (Z.eqb_spec (ldb m p) (ldb m q)) as [He|He].
    + rewrite IH, He. split; [by intros ->|by intros [= ->]].
    + split; [lia|]. intros [= ?]. lia.
Qed.

Lemma strncpy_loop_agree n m s t :
  agree (fun a => ~ (s <= a < s + Z.of_nat n)) m (strncpy_loop n m s t).
Proof.
  revert m s t. induction n as [|n IH]; intros m s t a Ha; cbn [strncpy_loop]; [done|].
  destruct (ldb m t =? 0).
  - rewrite memset_loop_spec, decide_False by lia. apply ldb_stb_ne. lia.
  - rewrite IH by lia. apply ldb_stb_ne. lia.
Qed.

Lemma strncpy_loop_spec n m s t i :
  s + Z.of_nat n <= t \/ t + Z.of_nat n <= s -> 0 <= i < Z.of_nat n ->
  ldb (strncpy_loop n m s t) (s + i) = nth (Z.to_nat i) (cstr n m t) 0.
Proof.
  revert m s t i. induction n as [|n IH]; intros m s t i Hd Hi; [lia|]. cbn [strncpy_loop cstr].
  destruct (Z.eqb_spec (ldb m t) 0) as [H0|H0].
  - rewrite memset_loop_spec. destruct (decide (i = 0)) as [->|].
    + rewrite decide_False by lia. rewrite Z.add_0_r, ldb_stb_eq, H0. done.
    + rewrite decide_True by lia. by destruct (Z.to_nat i).
  - destruct (decide (i = 0)) as [->|].
    + rewrite Z.add_0_r. simpl.
      rewrite strncpy_loop_agree by lia. rewrite ldb_stb_eq. apply Z.mod_small, ldb_byte.
    + replace (s + i) with (s + 1 + (i - 1)) by lia. rewrite IH by lia.
      replace (Z.to_nat i) with (S (Z.to_nat (i - 1))) by lia. simpl. f_equal.
      apply cstr_ext. intros b Hb. apply ldb_stb_ne. lia.
Qed.

(** The NUL-terminated result of [safestrcpy]: at most [n] source bytes, then
    a NUL. *)
Lemma safestrcpy_loop_agree n m s t :
  agree (fun a => ~ (s <= a < s + Z.of_nat (S n))) m (safestrcpy_loop n m s t).
Proof.
  revert m s t. induction n as [|n IH]; intros m s t a Ha; cbn [safestrcpy_loop].
  - apply ldb_stb_ne. lia.
  - destruct (ldb m t =? 0); [|rewrite IH by lia]; rewrite ?ldb_stb_ne by lia; done.
Qed.

Lemma safestrcpy_loop_spec n m s t :
  s + Z.of_nat (S n) <= t \/ t + Z.of_nat n <= s ->
  cstr (S n) (safestrcpy_loop n m s t) s = cstr n m t.
Proof.
  revert m s t. induction n as [|n IH]; intros m s t Hd; cbn [safestrcpy_loop].
  - simpl. by rewrite ldb_stb_eq.
  - cbn [cstr]. pose proof (ldb_byte m t) as Hb.
    assert (u8 (ldb m t) = ldb m t) as Hu by (apply Z.mod_small, Hb).
    destruct (Z.eqb_spec (ldb m t) 0) as [H0|H0].
    + rewrite ldb_stb_ne, ldb_stb_eq by lia. by rewrite Hu, H0.
    + rewrite safestrcpy_loop_agree by lia. rewrite ldb_stb_eq, Hu.
      destruct (Z.eqb_spec (ldb m t) 0); [done|]. f_equal.
      change (cstr (S n) (safestrcpy_loop n (stb m s (ldb m t)) (s + 1) (t + 1)) (s + 1) = cstr n m (t + 1)).
      rewrite IH by lia. apply cstr_ext. intros b Hb'. apply ldb_stb_ne. lia.
Qed.

(** A run of [n] non-zero bytes needs [n] entries of the memory. *)
Lemma nonzero_run_size m s n :
  (forall i, 0 <= i < Z.of_nat n -> ldb m (s + i) <> 0) -> (n <= size m)%nat.
Proof.
  intros H.
  assert (NoDup ((fun i : nat => s + Z.of_nat i) <$> seq 0 n)) as Hnd.
  { apply NoDup_fmap_2; [|apply NoDup_seq]. intros x y. lia. }
  replace n with (length ((fun i : nat => s + Z.of_nat i) <$> seq 0 n)) at 1
    by (by rewrite length_fmap, length_seq).
  rewrite <- (size_list_to_set (C:=gset Z)) by done.
  rewrite <- size_dom. apply subseteq_size. intros a.
  rewrite elem_of_list_to_set, list_elem_of_fmap. intros (i & -> & Hi).
  apply elem_of_seq in Hi. apply elem_of_dom.
  specialize (H (Z.of_nat i) ltac:(lia)). unfold ldb in H.
  destruct (m !! (s + Z.of_nat i)); [by eexists|]. simpl in H. done.
Qed.

Lemma strlen_loop_spec fuel m s n :
  0 <= n ->
  (forall i, 0 <= i < n -> ldb m (s + i) <> 0) ->
  (size m <= Z.to_nat n + fuel)%nat ->
  ldb m (s + strlen_loop fuel m s n) = 0 /\
  n <= strlen_loop fuel m s n /\
  (forall i, 0 <= i < strlen_loop fuel m s n -> ldb m (s + i) <> 0).
Proof.
  revert n. induction fuel as [|f IH]; intros n Hn Hnz Hsz; cbn [strlen_loop].
  - split; [|done]. destruct (decide (ldb m (s + n) = 0)); [done|exfalso].
    assert (S (Z.to_nat n) <= size m)%nat; [|lia].
    apply (nonzero_run_size m s). intros i Hi.
    destruct (decide (i = n)) as [->|]; [done|]. apply Hnz. lia.
  - destruct (Z.eqb_spec (ldb m (s + n)) 0) as [H0|H0]; [done|].
    destruct (IH (n + 1)) as (H1 & H2 & H3); [lia| |lia|].
    + intros i Hi. destruct (decide (i = n)) as [->|]; [done|]. apply Hnz. lia.
    + split; [done|]. split; [lia|done].
Qed.

(** [strlen] always terminates and returns the index of the first NUL of
    the string. *)
Theorem strlen_first_nul m s :
  ldb m (s + strlen m s) = 0 /\ 0 <= strlen m s /\
  (forall i, 0 <= i < strlen m s -> ldb m (s + i) <> 0).
Proof. apply strlen_loop_spec; [lia| |lia]. intros i Hi. lia. Qed.

(** [strncmp] returns 0 exactly when the two strings, cut at their NUL or
    at [n] bytes, are the same; directory lookup compares names with it. *)
Theorem strncmp_eq m p q n :
  strncmp m p q n = 0 <-> cstr (Z.to_nat n) m p = cstr (Z.to_nat n) m q.
Proof. apply strncmp_loop_zero. Qed.

(** [strncpy] into a buffer that does not overlap the source fills exactly
    [n] bytes: the source string up to its NUL, then zeroes. *)
Theorem strncpy_pads m s t n i :
  s + n <= t \/ t + n <= s -> 0 <= i < n ->
  ldb (strncpy m s t n) (s + i) = nth (Z.to_nat i) (cstr (Z.to_nat n) m t) 0.
Proof. intros Hd Hi. apply strncpy_loop_spec; rewrite Z2Nat.id; lia. Qed.

(** [safestrcpy] into a buffer of [n > 0] bytes writes inside the buffer
    only and leaves a NUL-terminated string there: the first [n - 1] bytes of
    the source string. *)
Theorem safestrcpy_terminates m s t n :
  0 < n -> s + n <= t \/ t + n <= s ->
  cstr (Z.to_nat n) (safestrcpy m s t n) s = cstr (Z.to_nat (n - 1)) m t /\
  agree (fun a => ~ (s <= a < s + n)) m (safestrcpy m s t n).
Proof.
  intros Hn Hd. unfold safestrcpy. destruct (Z.leb_spec n 0); [lia|].
  replace (Z.to_nat n) with (S (Z.to_nat (n - 1))) by lia. split.
  - apply safestrcpy_loop_spec. lia.
  - eapply agree_sub; [apply safestrcpy_loop_agree|]. intros a. simpl. lia.
Qed.

Lemma memmove_overlap_witness : ldb (memmove (st_bytes ∅ 100 [1; 2; 3; 4]) 101 100 3) (101 + 2) = 3.
Proof.
  rewrite (memmove_overlap _ 101 100 3 (101 + 2)) by lia. vm_compute. reflexivity.
Defined.

Lemma strncpy_pads_witness :
  ldb (strncpy (st_bytes ∅ 100 [104; 105; 0; 7]) 200 100 4) (200 + 3) = 0.
Proof.
  rewrite (strncpy_pads _ 200 100 4 3) by lia. vm_compute. reflexivity.
Defined.

Lemma safestrcpy_terminates_witness :
  cstr 3 (safestrcpy (st_bytes ∅ 100 [104; 105; 106; 7]) 200 100 3) 200 = [104; 105].
Proof.
  destruct (safestrcpy_terminates (st_bytes ∅ 100 [104; 105; 106; 7]) 200 100 3) as [H _];
    [lia|lia|]. change (Z.to_nat 3) with 3%nat in H. rewrite H. vm_compute. reflexivity.
Defined.
