(* ===== verification/Riscv.v ===== *)
(** * kernel/riscv.h, kernel/memlayout.h, kernel/param.h, kernel/kernel.ld

    The constants and macros of the Sv39 page-table format and of the memory
    layout, with the arithmetic facts about them the other files use. *)

From S2P Require Import Prelude CMem.

(** ** kernel/param.h *)

Definition NPROC : Z := 64.
Definition NCPU : Z := 8.
Definition NOFILE : Z := 16.
Definition NFILE : Z := 100.
Definition NINODE : Z := 50.
Definition NDEV : Z := 10.
Definition ROOTDEV : Z := 1.
Definition MAXARG : Z := 32.
Definition MAXOPBLOCKS : Z := 10.
Definition LOGBLOCKS : Z := MAXOPBLOCKS * 3.
Definition NBUF : Z := MAXOPBLOCKS * 3.
Definition FSSIZE : Z := 2000.
Definition MAXPATH : Z := 128.
Definition USERSTACK : Z := 1.

(** ** kernel/riscv.h *)

Definition SATP_SV39 : Z := Z.shiftl 8 60.

Definition MAKE_SATP (pagetable : Z) : Z := Z.lor SATP_SV39 (Z.shiftr pagetable 12).

Definition PGSIZE : Z := 4096.
Definition PGSHIFT : Z := 12.

Definition PGROUNDUP (sz : Z) : Z := Z.land (u64 (sz + PGSIZE - 1)) (Z.lnot (PGSIZE - 1)).

Definition PGROUNDDOWN (a : Z) : Z := Z.land a (Z.lnot (PGSIZE - 1)).

Definition PTE_V : Z := Z.shiftl 1 0.
Definition PTE_R : Z := Z.shiftl 1 1.
Definition PTE_W : Z := Z.shiftl 1 2.
Definition PTE_X : Z := Z.shiftl 1 3.
Definition PTE_U : Z := Z.shiftl 1 4.

Definition PA2PTE (pa : Z) : Z := Z.shiftl (Z.shiftr pa 12) 10.

Definition PTE2PA (pte : Z) : Z := u64 (Z.shiftl (Z.shiftr pte 10) 12).

Definition PTE_FLAGS (pte : Z) : Z := Z.land pte 0x3FF.

Definition PXMASK : Z := 0x1FF.

Definition PXSHIFT (level : Z) : Z := PGSHIFT + 9 * level.

Definition PX (level va : Z) : Z := Z.land (Z.shiftr va (PXSHIFT level)) PXMASK.

Definition MAXVA : Z := Z.shiftl 1 (9 + 9 + 9 + 12 - 1).

(** ** kernel/memlayout.h *)

Definition UART0 : Z := 0x10000000.
Definition UART0_IRQ : Z := 10.
Definition VIRTIO0 : Z := 0x10001000.
Definition VIRTIO0_IRQ : Z := 1.
Definition PLIC : Z := 0x0c000000.
Definition PLIC_SENABLE (hart : Z) : Z := PLIC + 0x2080 + hart * 0x100.
Definition PLIC_SPRIORITY (hart : Z) : Z := PLIC + 0x201000 + hart * 0x2000.
Definition PLIC_SCLAIM (hart : Z) : Z := PLIC + 0x201004 + hart * 0x2000.
Definition KERNBASE : Z := 0x80000000.
Definition PHYSTOP : Z := KERNBASE + 128 * 1024 * 1024.
Definition TRAMPOLINE : Z := MAXVA - PGSIZE.
Definition KSTACK (p : Z) : Z := TRAMPOLINE - (p + 1) * 2 * PGSIZE.
Definition TRAPFRAME : Z := TRAMPOLINE - PGSIZE.

(** ** kernel/kernel.ld

    The symbols the linker script defines: the code starts at [KERNBASE], the
    trampoline page is the last page of the text section, [etext] is the end
    of that section, and [kend] (the symbol [end]) is the first address after
    the kernel image.  Their values depend on the size of the image, so they
    are the fields of a class; the constraints are the ALIGN and ASSERT
    directives of the script. *)
Class KLayout := {
  kend : Z;
  etext : Z;
  trampoline : Z;
  layout_trampoline : KERNBASE <= trampoline /\ trampoline `mod` PGSIZE = 0;
  layout_etext : etext = trampoline + PGSIZE;
  layout_kend : etext <= kend <= PHYSTOP
}.

(** An image that leaves [n] pages of memory for the allocator. *)
Definition small_layout (n : Z) (H : 0 <= n <= 1024) : KLayout.
Proof.
  refine {| kend := PHYSTOP - n * PGSIZE; etext := KERNBASE + 16 * PGSIZE;
            trampoline := KERNBASE + 15 * PGSIZE |}.
  all: unfold KERNBASE, PHYSTOP, KERNBASE, PGSIZE; try split; try reflexivity; lia.
Defined.

(** ** Arithmetic of the macros *)

Definition pg_aligned (a : Z) : Prop := a `mod` PGSIZE = 0.

Lemma lor_add_low a b n : 0 <= n -> a `mod` 2 ^ n = 0 -> 0 <= b < 2 ^ n -> Z.lor a b = a + b.
Proof.
  intros Hn Ha Hb. symmetry. rewrite Z.add_nocarry_lxor; [apply Z.lxor_lor|].
  all: apply Z.bits_inj'; intros i Hi; rewrite Z.land_spec, Z.bits_0.
  all: destruct (decide (i < n)); [by rewrite (testbit_mult_pow2 a n)|].
  all: by rewrite (testbit_small b n), andb_false_r by lia.
Qed.

Lemma PGROUNDDOWN_eq a : PGROUNDDOWN a = a - a `mod` PGSIZE.
Proof. unfold PGROUNDDOWN, PGSIZE. apply (land_neg_pow2 a 12). lia. Qed.

Lemma PGROUNDDOWN_aligned a : pg_aligned (PGROUNDDOWN a).
Proof. rewrite PGROUNDDOWN_eq. unfold pg_aligned, PGSIZE. Z.div_mod_to_equations. lia. Qed.

Lemma PGROUNDUP_eq sz :
  0 <= sz <= 2 ^ 64 - PGSIZE -> PGROUNDUP sz = (sz + PGSIZE - 1) / PGSIZE * PGSIZE.
Proof.
  unfold PGROUNDUP, PGSIZE. intros H. rewrite (land_neg_pow2 _ 12) by lia.
  unfold u64. rewrite Z.mod_small by lia. change (2 ^ 12) with 4096.
  pose proof (Z.div_mod (sz + 4096 - 1) 4096). lia.
Qed.

Lemma PTE2PA_eq e : 0 <= e < 2 ^ 54 -> PTE2PA e = e / 1024 * 4096.
Proof.
  intros He. unfold PTE2PA, u64. rewrite Z.shiftr_div_pow2, Z.shiftl_mul_pow2 by lia.
  change (2 ^ 10) with 1024. change (2 ^ 12) with 4096.
  apply Z.mod_small. Z.div_mod_to_equations. lia.
Qed.

Lemma PA2PTE_eq pa : PA2PTE pa = pa / 4096 * 1024.
Proof. unfold PA2PTE. by rewrite Z.shiftr_div_pow2, Z.shiftl_mul_pow2 by lia. Qed.

Lemma PTE_FLAGS_eq e : PTE_FLAGS e = e `mod` 1024.
Proof. unfold PTE_FLAGS. change 0x3FF with (Z.ones 10). by rewrite Z.land_ones by lia. Qed.

Lemma PX_eq level va : 0 <= level -> PX level va = (va / 2 ^ (12 + 9 * level)) `mod` 512.
Proof.
  intros H. unfold PX, PXSHIFT, PXMASK, PGSHIFT. rewrite Z.shiftr_div_pow2 by lia.
  change 0x1FF with (Z.ones 9). by rewrite Z.land_ones by lia.
Qed.

Lemma PX_range level va : 0 <= level -> 0 <= PX level va < 512.
Proof. intros H. rewrite PX_eq by done. apply Z.mod_pos_bound. lia. Qed.

(** A page-table entry built by the kernel: the address of a page and ten
    bits of flags. *)
Definition mkpte (pa flags : Z) : Z := Z.lor (PA2PTE pa) flags.

Definition page_addr (pa : Z) : Prop := 0 <= pa < 2 ^ 56 /\ pg_aligned pa.

Lemma mkpte_eq pa fl : 0 <= fl < 1024 -> mkpte pa fl = pa / 4096 * 1024 + fl.
Proof.
  intros Hf. unfold mkpte. rewrite PA2PTE_eq. apply (lor_add_low _ _ 10); [lia| |lia].
  apply Z.mod_mul. lia.
Qed.

Lemma mkpte_range pa fl : page_addr pa -> 0 <= fl < 1024 -> 0 <= mkpte pa fl < 2 ^ 54.
Proof.
  intros [Hp _] Hf. rewrite mkpte_eq by done. Z.div_mod_to_equations. lia.
Qed.

Lemma PTE2PA_mkpte pa fl : page_addr pa -> 0 <= fl < 1024 -> PTE2PA (mkpte pa fl) = pa.
Proof.
  intros Hp Hf. rewrite PTE2PA_eq by by apply mkpte_range. rewrite mkpte_eq by done.
  destruct Hp as [Hp Ha]. unfold pg_aligned, PGSIZE in Ha. Z.div_mod_to_equations. lia.
Qed.

Lemma PTE_FLAGS_mkpte pa fl : 0 <= fl < 1024 -> PTE_FLAGS (mkpte pa fl) = fl.
Proof.
  intros Hf. rewrite PTE_FLAGS_eq, mkpte_eq by done.
  rewrite Z.add_comm, Z.mod_add by lia. by apply Z.mod_small.
Qed.

(** Testing a flag only looks at the low ten bits. *)
Lemma has_flags e f : 0 <= f < 1024 -> has (PTE_FLAGS e) f = has e f.
Proof.
  intros Hf. unfold has, PTE_FLAGS. rewrite <- Z.land_assoc. f_equal. f_equal. f_equal.
  rewrite Z.land_comm. change 0x3FF with (Z.ones 10). rewrite Z.land_ones by lia.
  by apply Z.mod_small.
Qed.

Lemma has_mkpte pa fl f : 0 <= fl < 1024 -> 0 <= f < 1024 -> has (mkpte pa fl) f = has fl f.
Proof. intros Hl Hf. by rewrite <- has_flags, PTE_FLAGS_mkpte by done. Qed.

Lemma has_lor a b f : has (Z.lor a b) f = has a f || has b f.
Proof.
  unfold has. rewrite Z.land_lor_distr_l.
  destruct (Z.eqb_spec (Z.land a f) 0) as [->|Ha]; simpl; [done|].
  destruct (Z.eqb_spec (Z.lor (Z.land a f) (Z.land b f)) 0) as [H|]; [|done].
  apply Z.lor_eq_0_iff in H as [? _]. done.
Qed.
