(* ===== verification/Kalloc.v ===== *)
(** * kernel/kalloc.c

    The physical page allocator: a singly linked list of free pages threaded
    through the pages themselves.  The state is physical memory together with
    the allocator's [kmem] structure; the spinlock in it is a flag, with the
    checks [acquire] and [release] make on one hart (kernel/spinlock.c is
    modelled with several harts in its own file). *)

From S2P Require Import Prelude CMem Riscv.

(** ** State *)

Record phys := mkphys {
  mem : memory;
  freelist : Z;
  kmem_locked : bool
}.

#[export] Instance eta_phys : Eta phys := fun s => mkphys (mem s) (freelist s) (kmem_locked s).

(** [acquire] panics when this hart already holds the lock, [release] when it
    does not. *)
Definition acquire_flag {S} (held : S -> bool) (set : bool -> S -> S) : M S unit :=
  b ← gets held; if b : bool then panic "acquire" else modify (set true).

Definition release_flag {S} (held : S -> bool) (set : bool -> S -> S) : M S unit :=
  b ← gets held; if b : bool then modify (set false) else panic "release".

Definition acquire_kmem : M phys unit :=
  acquire_flag kmem_locked (fun b s => s <| kmem_locked := b |>).

Definition release_kmem : M phys unit :=
  release_flag kmem_locked (fun b s => s <| kmem_locked := b |>).

(** Memory accesses of kernel code. *)
Definition load64 (a : Z) : M phys Z := gets (fun s => ld64 (mem s) a).

Definition store64 (a v : Z) : M phys unit := modify (fun s => s <| mem ::= fun m => st64 m a v |>).

Definition fill (a c n : Z) : M phys unit := modify (fun s => s <| mem ::= fun m => memset m a c n |>).

Definition move (dst src n : Z) : M phys unit :=
  modify (fun s => s <| mem ::= fun m => memmove m dst src n |>).

#[export] Hint Unfold load64 store64 fill move : wp_prim.

Section kalloc.
Context {KL : KLayout}.

(** ** Operations *)

Definition kfree (pa : Z) : M phys unit :=
  if negb (pa `mod` PGSIZE =? 0) || (pa <? kend) || (PHYSTOP <=? pa) then panic "kfree"
  else
    fill pa 1 PGSIZE;;
    let r := pa in
    acquire_kmem;;
    fl ← gets freelist;
    store64 r fl;;
    modify (fun s => s <| freelist := r |>);;
    release_kmem.

Definition kalloc : M phys Z :=
  acquire_kmem;;
  r ← gets freelist;
  when (negb (r =? 0)) (next ← load64 r; modify (fun s => s <| freelist := next |>));;
  release_kmem;;
  when (negb (r =? 0)) (fill r 5 PGSIZE);;
  mret r.

Definition freerange (pa_start pa_end : Z) : M phys unit :=
  loop (fun p =>
    if p + PGSIZE <=? pa_end then kfree p;; mret (inl (p + PGSIZE)) else mret (inr tt))
    (PGROUNDUP pa_start).

Definition kinit : M phys unit :=
  modify (fun s => s <| kmem_locked := false |>);;
  freerange kend PHYSTOP.

(** ** The allocator's invariant: the free list is the list [l] of distinct
    pages of the allocation area *)

Definition freeable (pa : Z) : Prop := pg_aligned pa /\ kend <= pa < PHYSTOP.

Definition in_page (p a : Z) : Prop := p <= a < p + PGSIZE.

Fixpoint chain (m : memory) (p : Z) (l : list Z) : Prop :=
  match l with
  | [] => p = 0
  | q :: l' => p = q /\ chain m (ld64 m q) l'
  end.

Definition kmem_ok (s : phys) (l : list Z) : Prop :=
  chain (mem s) (freelist s) l /\ Forall freeable l /\ NoDup l /\ kmem_locked s = false.

#[export] Instance freeable_dec pa : Decision (freeable pa).
Proof. unfold freeable, pg_aligned. apply _. Defined.

#[export] Instance chain_dec m p l : Decision (chain m p l).
Proof. revert p. induction l; intros p; simpl; apply _. Defined.

#[export] Instance kmem_ok_dec s l : Decision (kmem_ok s l).
Proof. unfold kmem_ok. apply _. Defined.

(** The pages of [freerange], first to last. *)
Fixpoint pages_from (n : nat) (p : Z) : list Z :=
  match n with O => [] | S n' => p :: pages_from n' (p + PGSIZE) end.

Definition all_pages : list Z :=
  pages_from (Z.to_nat ((PHYSTOP - PGROUNDUP kend) / PGSIZE)) (PGROUNDUP kend).

(** ** Lemmas *)

Lemma freeable_pos p : freeable p -> KERNBASE <= p < PHYSTOP.
Proof.
  intros [_ H]. destruct layout_trampoline, layout_kend. pose proof layout_etext.
  unfold PGSIZE in *. lia.
Qed.

Lemma freeable_page_addr p : freeable p -> page_addr p.
Proof.
  intros H. pose proof (freeable_pos p H) as Hp. destruct H. split; [|done].
  unfold KERNBASE, PHYSTOP, KERNBASE in Hp. lia.
Qed.

Lemma freeable_nonzero p : freeable p -> p <> 0.
Proof. intros H%freeable_pos. unfold KERNBASE in H. lia. Qed.

Lemma page_disjoint p q a : pg_aligned p -> pg_aligned q -> p <> q -> in_page p a -> ~ in_page q a.
Proof. unfold pg_aligned, in_page, PGSIZE. intros. Z.div_mod_to_equations. lia. Qed.

Lemma memset_page_agree m p c : agree (fun a => ~ in_page p a) m (memset m p c PGSIZE).
Proof. intros a Ha. by apply memset_agree. Qed.

Lemma st64_page_agree m p i v :
  0 <= i < 512 -> agree (fun a => ~ in_page p a) m (st64 m (p + 8 * i) v).
Proof.
  intros Hi. eapply agree_sub; [apply (st_agree 8)|]. unfold in_page, PGSIZE. simpl. lia.
Qed.

(** A change of memory that leaves the pages of [l] alone leaves a chain alone. *)
Lemma chain_frame m m' p l (P : Z -> Prop) :
  agree P m m' -> Forall (fun q => forall a, in_page q a -> P a) l -> chain m p l -> chain m' p l.
Proof.
  intros Hag. revert p. induction l as [|q l IH]; intros p HF; [done|].
  apply Forall_cons in HF as [Hq HF]. intros [-> Hc]. split; [done|].
  unfold ld64. rewrite (ld_ext 8 m m'); [by apply IH|].
  intros a Ha. apply Hag, Hq. unfold in_page, PGSIZE. lia.
Qed.

Lemma chain_frame_page m m' p l q :
  agree (fun a => ~ in_page q a) m m' -> pg_aligned q -> q ∉ l -> Forall freeable l ->
  chain m p l -> chain m' p l.
Proof.
  intros Hag Hq Hn HF. eapply chain_frame; [done|].
  apply Forall_forall. intros x Hx a Ha Hqa.
  rewrite Forall_forall in HF. destruct (HF x Hx).
  eapply (page_disjoint x q a); [done..| |done|done]. intros ->. done.
Qed.

Lemma kmem_ok_frame s m' l P :
  kmem_ok s l -> agree P (mem s) m' -> (forall q a, q ∈ l -> in_page q a -> P a) ->
  kmem_ok (s <| mem := m' |>) l.
Proof.
  intros (Hc & HF & Hnd & Hl) Hag HP. split; [|done].
  eapply chain_frame; [done| |done]. apply Forall_forall. intros q Hq a Ha. by eapply HP.
Qed.

Lemma kmem_ok_freeable s l p : kmem_ok s l -> p ∈ l -> freeable p.
Proof. intros (_ & HF & _) Hp. rewrite Forall_forall in HF. auto. Qed.

Lemma wp_kalloc s l (Q : Z -> phys -> Prop) :
  kmem_ok s l ->
  (l = [] -> Q 0 s) ->
  (forall p l' s', l = p :: l' -> freeable p -> p ∉ l' -> kmem_ok s' l' ->
     (forall a, in_page p a -> ldb (mem s') a = 5) ->
     agree (fun a => ~ in_page p a) (mem s) (mem s') -> Q p s') ->
  wp kalloc Q s.
Proof.
  intros Hok H0 H1. pose proof Hok as (Hc & HF & Hnd & Hl). destruct s as [m fl lk]. simpl in *. subst lk.
  destruct l as [|p l']; simpl in Hc.
  - subst. apply (wp_run _ _ _ 0 (mkphys m 0 false)); [done|]. by apply H0.
  - destruct Hc as [-> Hc]. apply Forall_cons in HF as [Hp HF]. apply NoDup_cons in Hnd as [Hni Hnd].
    pose proof (freeable_nonzero p Hp) as Hnz.
    apply (wp_run _ _ _ p (mkphys (memset m p 5 PGSIZE) (ld64 m p) false)).
    { unfold kalloc. cbv -[memset ld64 Z.eqb PGSIZE]. by destruct (Z.eqb_spec p 0). }
    pose proof (memset_page_agree m p 5) as Hag.
    eapply H1; try done.
    + split; [|done]. eapply chain_frame_page; [done| |done..]. apply Hp.
    + intros a Ha. simpl. rewrite memset_spec by done. by rewrite decide_True by exact Ha.
Qed.

Lemma wp_kfree s l pa (Q : unit -> phys -> Prop) :
  kmem_ok s l -> freeable pa -> pa ∉ l ->
  (forall s', kmem_ok s' (pa :: l) -> agree (fun a => ~ in_page pa a) (mem s) (mem s') -> Q tt s') ->
  wp (kfree pa) Q s.
Proof.
  intros (Hc & HF & Hnd & Hl) Hp Hni HQ. destruct s as [m fl lk]. simpl in *. subst lk.
  apply (wp_run _ _ _ tt (mkphys (st64 (memset m pa 1 PGSIZE) pa fl) pa false)).
  { unfold kfree. destruct Hp as [Ha Hr]. unfold pg_aligned in Ha. rewrite Ha.
    destruct (Z.ltb_spec pa kend); [lia|]. destruct (Z.leb_spec PHYSTOP pa); [lia|]. done. }
  assert (is_u64 fl) as Hfl.
  { destruct l as [|q l]; simpl in Hc; [subst; done|]. destruct Hc as [-> _].
    apply Forall_cons in HF as [Hq _]. apply freeable_pos in Hq.
    unfold KERNBASE, PHYSTOP, KERNBASE in Hq. unfold is_u64. lia. }
  assert (agree (fun a => ~ in_page pa a) m (st64 (memset m pa 1 PGSIZE) pa fl)) as Hag.
  { eapply agree_trans; [apply memset_page_agree|].
    replace pa with (pa + 8 * 0) at 3 by lia. by apply st64_page_agree. }
  apply HQ; [|done]. repeat split; simpl.
  - rewrite ld64_st64_eq by done. eapply chain_frame_page; [done| |done..]. apply Hp.
  - by constructor.
  - by constructor.
Qed.

Lemma kfree_panic s pa : ~ freeable pa -> kfree pa s = Panic "kfree".
Proof.
  intros Hn. unfold kfree. destruct (Z.eqb_spec (pa `mod` PGSIZE) 0); simpl; [|done].
  destruct (Z.ltb_spec pa kend); simpl; [done|]. destruct (Z.leb_spec PHYSTOP pa); simpl; [done|].
  destruct Hn. split; [done|lia].
Qed.

Lemma pages_from_snoc n p :
  pages_from (S n) p = pages_from n p ++ [p + Z.of_nat n * PGSIZE].
Proof.
  revert p. induction n as [|n IH]; intros p; [simpl; f_equal; lia|].
  change (pages_from (S (S n)) p) with (p :: pages_from (S n) (p + PGSIZE)).
  rewrite IH. simpl. do 3 f_equal. lia.
Qed.

Lemma elem_of_pages_from n p x :
  x ∈ pages_from n p <-> exists i, 0 <= i < Z.of_nat n /\ x = p + i * PGSIZE.
Proof.
  revert p. induction n as [|n IH]; intros p; simpl.
  - rewrite elem_of_nil. split; [done|]. intros (i & ? & ?). lia.
  - rewrite elem_of_cons, IH. split.
    + intros [->|(i & Hi & ->)]; [exists 0|exists (i + 1)]; lia.
    + intros (i & Hi & ->). destruct (decide (i = 0)) as [->|]; [left; lia|].
      right. exists (i - 1). lia.
Qed.

Lemma elem_of_all_pages p : p ∈ all_pages <-> freeable p.
Proof.
  unfold all_pages, freeable. rewrite elem_of_pages_from.
  destruct layout_trampoline, layout_kend. pose proof layout_etext.
  assert (KERNBASE <= kend) by (unfold PGSIZE in *; lia).
  assert (0 <= PHYSTOP - PGROUNDUP kend /\ pg_aligned (PHYSTOP - PGROUNDUP kend)
          /\ kend <= PGROUNDUP kend < kend + PGSIZE /\ pg_aligned (PGROUNDUP kend)) as (Hr & Ha & Hk & Hka).
  { unfold pg_aligned. rewrite PGROUNDUP_eq by (unfold PHYSTOP, KERNBASE, PGSIZE in *; lia).
    unfold PHYSTOP, KERNBASE, PGSIZE in *. Z.div_mod_to_equations. lia. }
  rewrite Z2Nat.id by (apply Z.div_pos; [lia|done]). unfold pg_aligned, PGSIZE in *.
  split.
  - intros (i & Hi & ->). Z.div_mod_to_equations. lia.
  - intros [Hp Hpr]. exists ((p - PGROUNDUP kend) / 4096). Z.div_mod_to_equations. lia.
Qed.

Lemma pages_from_NoDup n p : NoDup (pages_from n p).
Proof.
  revert p. induction n as [|n IH]; intros p; simpl; constructor; [|apply IH].
  rewrite elem_of_pages_from. unfold PGSIZE. intros (i & ? & ?). lia.
Qed.

Lemma wp_freerange s (Q : unit -> phys -> Prop) :
  kmem_ok s [] ->
  (forall s', kmem_ok s' (reverse all_pages) -> Q tt s') ->
  wp (freerange kend PHYSTOP) Q s.
Proof.
  intros Hok HQ. set (N := (PHYSTOP - PGROUNDUP kend) / PGSIZE).
  assert (0 <= N < 2 ^ 20 /\ PHYSTOP - PGROUNDUP kend = N * PGSIZE) as [HN HNe].
  { destruct layout_trampoline, layout_kend. pose proof layout_etext. unfold N.
    rewrite PGROUNDUP_eq by (unfold PHYSTOP, KERNBASE, PGSIZE in *; lia).
    unfold PHYSTOP, KERNBASE, PGSIZE in *. Z.div_mod_to_equations. lia. }
  unfold freerange.
  apply (wp_loop (fun n p s => exists k : nat, p = PGROUNDUP kend + Z.of_nat k * PGSIZE /\
    Z.of_nat k <= N /\ kmem_ok s (reverse (pages_from k (PGROUNDUP kend))) /\
    n = N - Z.of_nat k + 1)) with (n := N + 1); [|lia|].
  - clear s Hok. intros n p s (k & -> & Hk & Hok & ->). split; [lia|].
    destruct (Z.leb_spec (PGROUNDUP kend + Z.of_nat k * PGSIZE + PGSIZE) PHYSTOP) as [Hle|Hle].
    + assert (Z.of_nat k < N) by (unfold PGSIZE in *; lia).
      wp_step. eapply wp_kfree; [done| | |].
      * apply elem_of_all_pages, elem_of_pages_from. exists (Z.of_nat k). fold N. lia.
      * rewrite elem_of_reverse, elem_of_pages_from. unfold PGSIZE. intros (i & ? & ?). lia.
      * intros s' Hok' _. wp_step. exists (N - Z.of_nat k). split; [lia|].
        exists (S k). rewrite pages_from_snoc, reverse_app. simpl. unfold PGSIZE in *.
        split; [lia|]. split; [lia|]. split; [done|lia].
    + wp_step. apply HQ. replace all_pages with (pages_from k (PGROUNDUP kend)); [done|].
      unfold all_pages. fold N. f_equal. unfold PGSIZE in *. lia.
  - exists 0%nat. split; [lia|]. split; [lia|]. split; [done|lia].
Qed.

(** ** The allocator as a stack of pages *)

Inductive kop := KAlloc | KFree (pa : Z).

Definition kop_run (o : kop) : M phys Z :=
  match o with KAlloc => kalloc | KFree pa => kfree pa;; mret 0 end.

Fixpoint kops_run (os : list kop) : M phys (list Z) :=
  match os with
  | [] => mret []
  | o :: os' => r ← kop_run o; rs ← kops_run os'; mret (r :: rs)
  end.

(** The contract: [kalloc] pops, [kfree] pushes a page that is not free; a
    client that frees anything else breaks the contract. *)
Definition kop_spec (l : list Z) (o : kop) : option (Z * list Z) :=
  match o, l with
  | KAlloc, [] => Some (0, [])
  | KAlloc, p :: l' => Some (p, l')
  | KFree pa, _ => if decide (pa `mod` PGSIZE = 0 /\ kend <= pa < PHYSTOP /\ pa ∉ l)
                   then Some (0, pa :: l) else None
  end.

Fixpoint kops_spec (l : list Z) (os : list kop) : option (list Z * list Z) :=
  match os with
  | [] => Some ([], l)
  | o :: os' =>
      match kop_spec l o with
      | Some (r, l') =>
          match kops_spec l' os' with
          | Some (rs, l'') => Some (r :: rs, l'')
          | None => None
          end
      | None => None
      end
  end.

Lemma wp_kop s l o r l' (Q : Z -> phys -> Prop) :
  kmem_ok s l -> kop_spec l o = Some (r, l') ->
  (forall s', kmem_ok s' l' -> Q r s') -> wp (kop_run o) Q s.
Proof.
  intros Hok Hs HQ. destruct o as [|pa]; simpl in *.
  - eapply wp_kalloc; [done| |].
    + intros ->. simplify_eq. by apply HQ.
    + intros p l0 s' -> _ _ Hok' _ _. simplify_eq. by apply HQ.
  - case_decide as Hd; [|done]. simplify_eq. destruct Hd as (? & ? & ?). wp_step.
    eapply wp_kfree; [done|by split|done|]. intros s' Hok' _. wp_step. by apply HQ.
Qed.

Lemma wp_kops os s l rs l' (Q : list Z -> phys -> Prop) :
  kmem_ok s l -> kops_spec l os = Some (rs, l') ->
  (forall s', kmem_ok s' l' -> Q rs s') -> wp (kops_run os) Q s.
Proof.
  revert s l rs Q. induction os as [|o os IH]; intros s l rs Q Hok Hs HQ; simpl in *.
  - simplify_eq. by apply HQ.
  - destruct (kop_spec l o) as [[r l1]|] eqn:Ho; [|done].
    destruct (kops_spec l1 os) as [[rs1 l2]|] eqn:Hos; [|done]. simplify_eq.
    wp_step. eapply wp_kop; [done..|]. intros s1 Hok1. wp_step.
    eapply IH; [done..|]. intros s2 Hok2. wp_step. by apply HQ.
Qed.

(** [kinit], run on the zeroed [kmem] of a fresh kernel, terminates with a
    free list that holds every page between [end] and [PHYSTOP], each once. *)
Theorem kinit_frees_all_pages m lk :
  wp kinit (fun _ s => exists l, kmem_ok s l /\ NoDup l /\ forall p, p ∈ l <-> freeable p)
     (mkphys m 0 lk).
Proof.
  unfold kinit. wp_step. wp_step. apply wp_freerange; [by repeat split; constructor|].
  intros s' Hok. exists (reverse all_pages). split; [done|]. split; [apply Hok|].
  intros p. by rewrite elem_of_reverse, elem_of_all_pages.
Qed.

(** C32: any sequence of [kalloc] and [kfree] calls that frees only pages it may
    free runs without panic and returns what a stack of pages returns. *)
Theorem kmem_refines_stack os s l rs l' :
  kmem_ok s l -> kops_spec l os = Some (rs, l') ->
  wp (kops_run os) (fun rs' s' => rs' = rs /\ kmem_ok s' l') s.
Proof. intros Hok Hs. by eapply wp_kops. Qed.

(** [kfree] of an address that is not a page of the allocation area
    panics, whatever the state. *)
Theorem kfree_rejects s pa :
  freeable pa \/ kfree pa s = Panic "kfree".
Proof.
  destruct (decide (pa `mod` PGSIZE = 0 /\ kend <= pa < PHYSTOP)) as [H|H]; [by left|].
  right. apply kfree_panic. intros Hf. by apply H.
Qed.

End kalloc.

Lemma kmem_refines_stack_witness :
  let KL := small_layout 2 ltac:(lia) in
  exists s, kmem_ok s [PHYSTOP - 4096; PHYSTOP - 8192] /\
    wp (kops_run [KAlloc; KAlloc; KAlloc; KFree (PHYSTOP - 8192); KAlloc])
       (fun rs' s' => rs' = [PHYSTOP - 4096; PHYSTOP - 8192; 0; 0; PHYSTOP - 8192] /\ kmem_ok s' []) s.
Proof.
  set (KL := small_layout 2 ltac:(lia)).
  assert (kmem_ok (mkphys (st64 ∅ (PHYSTOP - 4096) (PHYSTOP - 8192)) (PHYSTOP - 4096) false)
    [PHYSTOP - 4096; PHYSTOP - 8192]) as H.
  { apply (bool_decide_unpack _). vm_compute. exact I. }
  eexists. split; [exact H|].
  apply (kmem_refines_stack _ _ _ _ _ H). vm_compute. reflexivity.
Defined.
