(* ===== verification/Vm.v ===== *)
(** * kernel/vm.c

    Sv39 page tables in physical memory and the routines that build, read and
    tear them down, the copies between kernel and user memory, and the lazy
    allocation of [vmfault].  Every routine is a computation over the physical
    memory of Kalloc.v; the theorems about them are in PageTable.v, UserMem.v,
    UserCopy.v, UserSpace.v, VmTheorems.v and KernelSpace.v.

    [copyout] takes its kernel-side source as the list of bytes it copies, and
    [copyin] and [copyinstr] return the bytes they wrote to the kernel buffer
    next to their status: the kernel buffers are C objects outside the pages
    the allocator hands out. *)

From S2P Require Import Prelude CMem Riscv Kalloc.

(** The fields of [myproc()] that [vmfault] reads. *)
Record vmproc := mkvmproc { vp_sz : Z; vp_pagetable : Z }.

(** A load through a pointer that may be NULL: address 0 is not mapped in the
    kernel's page table, so it ends in [kerneltrap]'s panic. *)
Definition deref64 (a : Z) : M phys Z :=
  if a =? 0 then panic "kerneltrap" else load64 a.

Definition load_bytes (n a : Z) : M phys (list Z) :=
  gets (fun s => ld_bytes (Z.to_nat n) (mem s) a).

Definition store_bytes (a : Z) (bs : list Z) : M phys unit :=
  modify (fun s => s <| mem ::= fun m => st_bytes m a bs |>).

#[export] Hint Unfold load_bytes store_bytes : wp_prim.

Section vm.
Context {KL : KLayout}.

(** One round of the loop of [walk]: the table below [pagetable] on the path
    to [va], or [None] where the code returns 0. *)
Definition walk_level (level pagetable va : Z) (alloc : bool) : M phys (option Z) :=
  let pte := pagetable + 8 * PX level va in
  e ← load64 pte;
  if has e PTE_V then mret (Some (PTE2PA e))
  else if negb alloc then mret None
  else
    new ← kalloc;
    if new =? 0 then mret None
    else
      fill new 0 PGSIZE;;
      store64 pte (Z.lor (PA2PTE new) PTE_V);;
      mret (Some new).

Definition walk (pagetable va : Z) (alloc : bool) : M phys Z :=
  if MAXVA <=? va then panic "walk"
  else
    r ← walk_level 2 pagetable va alloc;
    match r with
    | None => mret 0
    | Some p1 =>
        r ← walk_level 1 p1 va alloc;
        match r with
        | None => mret 0
        | Some p0 => mret (p0 + 8 * PX 0 va)
        end
    end.

Definition walkaddr (pagetable va : Z) : M phys Z :=
  if MAXVA <=? va then mret 0
  else
    pte ← walk pagetable va false;
    if pte =? 0 then mret 0
    else
      e ← load64 pte;
      if negb (has e PTE_V) then mret 0
      else if negb (has e PTE_U) then mret 0
      else mret (PTE2PA e).

Definition mappages (pagetable va size pa perm : Z) : M phys Z :=
  if negb (va `mod` PGSIZE =? 0) then panic "mappages: va not aligned"
  else if negb (size `mod` PGSIZE =? 0) then panic "mappages: size not aligned"
  else if size =? 0 then panic "mappages: size"
  else
    let last := u64 (va + size - PGSIZE) in
    loop (fun '(a, pa) =>
      pte ← walk pagetable a true;
      if pte =? 0 then mret (inr (-1))
      else
        e ← load64 pte;
        if has e PTE_V then panic "mappages: remap"
        else
          store64 pte (Z.lor (Z.lor (PA2PTE pa) perm) PTE_V);;
          if a =? last then mret (inr 0)
          else mret (inl (u64 (a + PGSIZE), u64 (pa + PGSIZE))))
      (va, pa).

Definition kvmmap (kpgtbl va pa sz perm : Z) : M phys unit :=
  r ← mappages kpgtbl va sz pa perm;
  if r =? 0 then mret tt else panic "kvmmap".

(** kernel/proc.c: a kernel stack page for each process. *)
Definition proc_mapstacks (kpgtbl : Z) : M phys unit :=
  for_range (Z.to_nat NPROC) 0 (fun i =>
    pa ← kalloc;
    if pa =? 0 then panic "kalloc"
    else kvmmap kpgtbl (KSTACK i) pa PGSIZE (Z.lor PTE_R PTE_W)).

Definition kvmmake : M phys Z :=
  kpgtbl ← kalloc;
  fill kpgtbl 0 PGSIZE;;
  kvmmap kpgtbl UART0 UART0 PGSIZE (Z.lor PTE_R PTE_W);;
  kvmmap kpgtbl VIRTIO0 VIRTIO0 PGSIZE (Z.lor PTE_R PTE_W);;
  kvmmap kpgtbl 0x100000 0x100000 PGSIZE (Z.lor PTE_R PTE_W);;
  kvmmap kpgtbl PLIC PLIC 0x4000000 (Z.lor PTE_R PTE_W);;
  kvmmap kpgtbl KERNBASE KERNBASE (etext - KERNBASE) (Z.lor PTE_R PTE_X);;
  kvmmap kpgtbl etext etext (PHYSTOP - etext) (Z.lor PTE_R PTE_W);;
  kvmmap kpgtbl TRAMPOLINE trampoline PGSIZE (Z.lor PTE_R PTE_X);;
  proc_mapstacks kpgtbl;;
  mret kpgtbl.

Definition uvmcreate : M phys Z :=
  pagetable ← kalloc;
  if pagetable =? 0 then mret 0
  else fill pagetable 0 PGSIZE;; mret pagetable.

Definition uvmunmap (pagetable va npages : Z) (do_free : bool) : M phys unit :=
  if negb (va `mod` PGSIZE =? 0) then panic "uvmunmap: not aligned"
  else
    let stop := u64 (va + npages * PGSIZE) in
    loop (fun a =>
      if negb (a <? stop) then mret (inr tt)
      else
        let next := u64 (a + PGSIZE) in
        pte ← walk pagetable a false;
        if pte =? 0 then mret (inl next)
        else
          e ← load64 pte;
          if negb (has e PTE_V) then mret (inl next)
          else
            when do_free (kfree (PTE2PA e));;
            store64 pte 0;;
            mret (inl next))
      va.

Definition uvmdealloc (pagetable oldsz newsz : Z) : M phys Z :=
  if oldsz <=? newsz then mret oldsz
  else
    when (PGROUNDUP newsz <? PGROUNDUP oldsz)
      (let npages := i32 (u64 (PGROUNDUP oldsz - PGROUNDUP newsz) / PGSIZE) in
       uvmunmap pagetable (PGROUNDUP newsz) (u64 npages) true);;
    mret newsz.

Definition uvmalloc (pagetable oldsz newsz xperm : Z) : M phys Z :=
  if newsz <? oldsz then mret oldsz
  else
    let oldsz := PGROUNDUP oldsz in
    loop (fun a =>
      if negb (a <? newsz) then mret (inr newsz)
      else
        m ← kalloc;
        if m =? 0 then
          uvmdealloc pagetable a oldsz;;
          mret (inr 0)
        else
          fill m 0 PGSIZE;;
          r ← mappages pagetable a PGSIZE m (Z.lor (Z.lor PTE_R PTE_U) xperm);
          if negb (r =? 0) then
            kfree m;;
            uvmdealloc pagetable a oldsz;;
            mret (inr 0)
          else mret (inl (u64 (a + PGSIZE))))
      oldsz.

(** The recursion goes down one level of the tree per call; a tree of the
    hardware's format has three levels, the bound allows 64. *)
Fixpoint freewalk_rec (depth : nat) (pagetable : Z) : M phys unit :=
  match depth with
  | O => nofuel
  | S d =>
      for_range 512 0 (fun i =>
        pte ← load64 (pagetable + 8 * i);
        if has pte PTE_V && negb (has pte (Z.lor (Z.lor PTE_R PTE_W) PTE_X)) then
          let child := PTE2PA pte in
          freewalk_rec d child;;
          store64 (pagetable + 8 * i) 0
        else if has pte PTE_V then panic "freewalk: leaf"
        else mret tt);;
      kfree pagetable
  end.

Definition freewalk (pagetable : Z) : M phys unit := freewalk_rec 64 pagetable.

Definition uvmfree (pagetable sz : Z) : M phys unit :=
  when (0 <? sz) (uvmunmap pagetable 0 (PGROUNDUP sz / PGSIZE) true);;
  freewalk pagetable.

Definition uvmcopy (old new sz : Z) : M phys Z :=
  let err i := uvmunmap new 0 (i / PGSIZE) true;; mret (inr (-1)) in
  loop (fun i =>
    if negb (i <? sz) then mret (inr 0)
    else
      let next := u64 (i + PGSIZE) in
      pte ← walk old i false;
      if pte =? 0 then mret (inl next)
      else
        e ← load64 pte;
        if negb (has e PTE_V) then mret (inl next)
        else
          let pa := PTE2PA e in
          let flags := PTE_FLAGS e in
          m ← kalloc;
          if m =? 0 then err i
          else
            move m pa PGSIZE;;
            r ← mappages new i PGSIZE m flags;
            if negb (r =? 0) then kfree m;; err i
            else mret (inl next))
    0.

Definition uvmclear (pagetable va : Z) : M phys unit :=
  pte ← walk pagetable va false;
  if pte =? 0 then panic "uvmclear"
  else e ← load64 pte; store64 pte (Z.land e (Z.lnot PTE_U)).

Definition ismapped (pagetable va : Z) : M phys bool :=
  pte ← walk pagetable va false;
  if pte =? 0 then mret false
  else e ← load64 pte; mret (has e PTE_V).

Definition vmfault (p : vmproc) (pagetable va : Z) : M phys Z :=
  if vp_sz p <=? va then mret 0
  else
    let va := PGROUNDDOWN va in
    b ← ismapped pagetable va;
    if b : bool then mret 0
    else
      m ← kalloc;
      if m =? 0 then mret 0
      else
        fill m 0 PGSIZE;;
        r ← mappages (vp_pagetable p) va PGSIZE m (Z.lor (Z.lor PTE_W PTE_U) PTE_R);
        if negb (r =? 0) then kfree m;; mret 0
        else mret m.

Definition copyout (p : vmproc) (pagetable dstva : Z) (src : list Z) : M phys Z :=
  loop (fun '(dstva, src) =>
    let len := Z.of_nat (length src) in
    if len =? 0 then mret (inr 0)
    else
      let va0 := PGROUNDDOWN dstva in
      if MAXVA <=? va0 then mret (inr (-1))
      else
        pa0 ← walkaddr pagetable va0;
        pa0 ← (if pa0 =? 0 then vmfault p pagetable va0 else mret pa0);
        if pa0 =? 0 then mret (inr (-1))
        else
          pte ← walk pagetable va0 false;
          e ← deref64 pte;
          if negb (has e PTE_W) then mret (inr (-1))
          else
            let n := PGSIZE - (dstva - va0) in
            let n := if len <? n then len else n in
            store_bytes (pa0 + (dstva - va0)) (take (Z.to_nat n) src);;
            mret (inl (u64 (va0 + PGSIZE), drop (Z.to_nat n) src)))
    (dstva, src).

Definition copyin (p : vmproc) (pagetable srcva len : Z) : M phys (Z * list Z) :=
  loop (fun '(srcva, len, dst) =>
    if len =? 0 then mret (inr (0, dst))
    else
      let va0 := PGROUNDDOWN srcva in
      pa0 ← walkaddr pagetable va0;
      pa0 ← (if pa0 =? 0 then vmfault p pagetable va0 else mret pa0);
      if pa0 =? 0 then mret (inr (-1, dst))
      else
        let n := PGSIZE - (srcva - va0) in
        let n := if len <? n then len else n in
        bs ← load_bytes n (pa0 + (srcva - va0));
        mret (inl (u64 (va0 + PGSIZE), len - n, dst ++ bs)))
    (srcva, len, []).

(** The inner loop of [copyinstr] over [n] bytes at [p]: the bytes written to
    [dst] and whether the last of them is the NUL. *)
Fixpoint copyinstr_page (n : nat) (m : memory) (p : Z) : list Z * bool :=
  match n with
  | O => ([], false)
  | S n' =>
      if ldb m p =? 0 then ([0], true)
      else let '(bs, got_null) := copyinstr_page n' m (p + 1) in (ldb m p :: bs, got_null)
  end.

Definition copyinstr (pagetable srcva max : Z) : M phys (Z * list Z) :=
  loop (fun '(srcva, max, dst) =>
    if max =? 0 then mret (inr (-1, dst))
    else
      let va0 := PGROUNDDOWN srcva in
      pa0 ← walkaddr pagetable va0;
      if pa0 =? 0 then mret (inr (-1, dst))
      else
        let n := PGSIZE - (srcva - va0) in
        let n := if max <? n then max else n in
        r ← gets (fun s => copyinstr_page (Z.to_nat n) (mem s) (pa0 + (srcva - va0)));
        let '(bs, got_null) := r in
        if got_null : bool then mret (inr (0, dst ++ bs))
        else mret (inl (u64 (va0 + PGSIZE), max - n, dst ++ bs)))
    (srcva, max, []).

End vm.
