(* ===== verification/PageTable.v ===== *)
(** * The page tables of kernel/vm.c, abstractly

    A page table in memory is described by two finite maps: [T], which gives
    the page that holds each table (a table is named by its level and by the
    bits of the virtual address above it), and [A], which gives the leaf entry
    of each mapped virtual page.  [aspace] relates them to physical memory and
    to the allocator; this file proves that [walk], [mappages] and [uvmunmap]
    act on [A] as lookup, insertion and deletion, and touch no memory but that
    of the table pages. *)

From S2P Require Import Prelude CMem Riscv Kalloc Vm.

Abbreviation tables := (gmap (Z * Z) Z).
Abbreviation leaves := (gmap Z Z).

(** The bits of [va] above the index at level [lv]. *)
Definition pfx (lv va : Z) : Z := va / 2 ^ (12 + 9 * (lv + 1)).

Definition vpn_of (va : Z) : Z := va / PGSIZE.

(** Addresses outside every table page. *)
Definition outside (T : tables) (a : Z) : Prop :=
  forall k p, T !! k = Some p -> ~ in_page p a.

Definition is_table (T : tables) (p : Z) : Prop := exists k, T !! k = Some p.

Definition pte_at (m : memory) (T : tables) (vpn : Z) : Z :=
  match T !! (0, vpn / 512) with
  | Some q => ld64 m (q + 8 * (vpn `mod` 512))
  | None => 0
  end.

Section pagetable.
Context {KL : KLayout}.

Record pt_ok (m : memory) (T : tables) (root : Z) : Prop := {
  pt_root : T !! (2, 0) = Some root;
  pt_key : forall l x p, T !! (l, x) = Some p -> 0 <= l <= 2 /\ 0 <= x /\ (l = 2 -> x = 0);
  pt_page : forall k p, T !! k = Some p -> freeable p;
  pt_inj : forall k k' p, T !! k = Some p -> T !! k' = Some p -> k = k';
  pt_parent : forall l x p, T !! (l, x) = Some p -> l < 2 -> is_Some (T !! (l + 1, x / 512));
  pt_interior : forall l x p i, T !! (l, x) = Some p -> 0 < l -> 0 <= i < 512 ->
    ld64 m (p + 8 * i) = match T !! (l - 1, x * 512 + i) with
                         | Some c => mkpte c PTE_V
                         | None => 0
                         end
}.

Definition leaves_ok (m : memory) (T : tables) (A : leaves) : Prop :=
  (forall vpn, pte_at m T vpn = default 0 (A !! vpn)) /\
  (forall vpn e, A !! vpn = Some e -> has e PTE_V = true).

(** The state [s], whose free list is [l], holds the page table [T] with
    leaves [A] at [root]; no table page is free. *)
Definition aspace (s : phys) (l : list Z) (root : Z) (T : tables) (A : leaves) : Prop :=
  kmem_ok s l /\ pt_ok (mem s) T root /\ leaves_ok (mem s) T A /\
  (forall p, is_table T p -> p ∉ l).

(** ** Arithmetic of the indices *)

Lemma pfx_child lv va : 0 <= lv -> pfx (lv - 1) va = pfx lv va * 512 + PX lv va.
Proof.
  intros H. unfold pfx. rewrite PX_eq by done.
  replace (12 + 9 * (lv + 1)) with ((12 + 9 * lv) + 9) by lia.
  replace (12 + 9 * (lv - 1 + 1)) with (12 + 9 * lv) by lia.
  rewrite (Z.pow_add_r 2 _ 9) by lia. rewrite <- Z.div_div by lia.
  change (2 ^ 9) with 512. set (D := va / 2 ^ (12 + 9 * lv)).
  pose proof (Z.div_mod D 512 ltac:(lia)). lia.
Qed.

Lemma pfx_2 va : 0 <= va < MAXVA -> pfx 2 va = 0.
Proof. intros H. change MAXVA with (2 ^ 38) in H. apply Z.div_small. change (2 ^ (12 + 9 * (2 + 1))) with (2 ^ 39). lia. Qed.

Lemma pfx_0 va : pfx 0 va = vpn_of va / 512.
Proof. unfold pfx, vpn_of, PGSIZE. rewrite Z.div_div by lia. done. Qed.

Lemma PX_0 va : PX 0 va = vpn_of va `mod` 512.
Proof. by rewrite PX_eq. Qed.

Lemma mkpte_V pa : Z.lor (PA2PTE pa) PTE_V = mkpte pa PTE_V.
Proof. done. Qed.

Lemma mkpte_V_valid pa : has (mkpte pa PTE_V) PTE_V = true.
Proof. by rewrite has_mkpte. Qed.

Lemma has_0 f : has 0 f = false.
Proof. done. Qed.

Lemma ld64_slot_page m m' q i :
  0 <= i < 512 -> agree (fun a => in_page q a) m m' -> ld64 m' (q + 8 * i) = ld64 m (q + 8 * i).
Proof.
  intros Hi Hag. apply (ld_ext 8). intros a Ha. apply Hag. unfold in_page, PGSIZE. lia.
Qed.

(** ** Frame: only the table pages matter *)

Lemma outside_in_page T q a : (forall p, is_table T p -> pg_aligned p) -> pg_aligned q ->
  ~ is_table T q -> in_page q a -> outside T a.
Proof.
  intros Hal Hq Hn Ha k p Hk Hpa. apply (page_disjoint p q a); [|done| |done|done].
  - apply Hal. by exists k.
  - intros ->. apply Hn. by exists k.
Qed.

Lemma pt_ok_aligned m T root p : pt_ok m T root -> is_table T p -> pg_aligned p.
Proof. intros H [k Hk]. by destruct (pt_page _ _ _ H k p Hk). Qed.

Lemma pt_ok_frame m m' T root :
  pt_ok m T root -> agree (fun a => ~ outside T a) m m' -> pt_ok m' T root.
Proof.
  intros [H1 H2 H3 H4 H5 H6] Hag. split; try done.
  intros l x p i Hk Hl Hi. rewrite <- (H6 l x p i Hk Hl Hi). apply ld64_slot_page; [done|].
  eapply agree_sub; [done|]. intros a Ha Ho. by apply (Ho (l, x) p).
Qed.

Lemma leaves_ok_frame m m' T A :
  leaves_ok m T A -> agree (fun a => ~ outside T a) m m' -> leaves_ok m' T A.
Proof.
  intros [H1 H2] Hag. split; [|done]. intros vpn. rewrite <- H1. unfold pte_at.
  destruct (T !! (0, vpn / 512)) as [q|] eqn:Hq; [|done].
  apply ld64_slot_page; [apply Z.mod_pos_bound; lia|].
  eapply agree_sub; [done|]. intros a Ha Ho. by apply (Ho (0, vpn / 512) q).
Qed.

(** ** A new table *)

(** [m'] is [m] with a zeroed page at [c] and the entry for it at index [i] of
    the table [p]. *)
Definition linked (m m' : memory) (p i c : Z) : Prop :=
  agree (fun a => ~ in_page c a /\ ~ (p + 8 * i <= a < p + 8 * i + 8)) m m' /\
  ld64 m' (p + 8 * i) = mkpte c PTE_V /\
  (forall j, 0 <= j < 512 -> ld64 m' (c + 8 * j) = 0).

Lemma linked_intro m m1 p i c :
  agree (fun a => ~ in_page c a) m m1 -> freeable c -> freeable p -> p <> c -> 0 <= i < 512 ->
  linked m (st64 (memset m1 c 0 PGSIZE) (p + 8 * i) (Z.lor (PA2PTE c) PTE_V)) p i c.
Proof.
  intros Hag Hc Hp Hne Hi. split; [|split].
  - intros a [Ha1 Ha2]. unfold st64. rewrite (st_agree 8) by (simpl; lia).
    rewrite memset_page_agree by done. by apply Hag.
  - rewrite mkpte_V. apply ld64_st64_eq.
    pose proof (mkpte_range c PTE_V (freeable_page_addr c Hc) ltac:(done)). unfold is_u64. lia.
  - intros j Hj. rewrite ld64_st64_ne.
    + apply (ld_memset_0 8); unfold PGSIZE; lia.
    + destruct Hc as [Hc _], Hp as [Hp _]. unfold pg_aligned, PGSIZE in *.
      Z.div_mod_to_equations. lia.
Qed.

(** In a page other than [c], the entries but the one at [p + 8 * i] are as
    before. *)
Lemma linked_slot m m' p i c q j :
  linked m m' p i c -> pg_aligned p -> pg_aligned q -> pg_aligned c -> q <> c ->
  0 <= i < 512 -> 0 <= j < 512 -> q <> p \/ j <> i ->
  ld64 m' (q + 8 * j) = ld64 m (q + 8 * j).
Proof.
  intros (Hag & _) Hp Hq Hc Hne Hi Hj Hd. apply (ld_ext 8). intros a Ha. apply Hag.
  unfold in_page, pg_aligned, PGSIZE in *. Z.div_mod_to_equations. lia.
Qed.

Lemma pt_ok_link m m' T root lv x p i c :
  pt_ok m T root -> T !! (lv, x) = Some p -> 0 < lv -> 0 <= i < 512 ->
  T !! (lv - 1, x * 512 + i) = None -> freeable c -> ~ is_table T c ->
  linked m m' p i c -> pt_ok m' (<[(lv - 1, x * 512 + i) := c]> T) root.
Proof.
  intros [H1 H2 H3 H4 H5 H6] Hp Hlv Hi Hnone Hc Hnt Hln.
  assert (p <> c) as Hpc by (intros ->; apply Hnt; by eexists).
  destruct (H2 _ _ _ Hp) as (Hlr & Hx & _).
  split.
  - rewrite lookup_insert_ne; [done|]. intros [=]. lia.
  - intros l y q Hq. apply lookup_insert_Some in Hq as [[[=<-<-] <-]|[_ Hq]]; [lia|by apply (H2 _ _ q)].
  - intros k q Hq. apply lookup_insert_Some in Hq as [[_ <-]|[_ Hq]]; [done|by apply (H3 k)].
  - intros k k' q Hk Hk'. apply lookup_insert_Some in Hk, Hk'.
    destruct Hk as [[<- <-]|[? Hk]], Hk' as [[<- ?]|[? Hk']]; try done; subst.
    + by destruct Hnt; exists k'.
    + by destruct Hnt; exists k.
    + by eapply H4.
  - intros l y q Hq Hl. apply lookup_insert_is_Some'.
    apply lookup_insert_Some in Hq as [[[=<-<-] _]|[_ Hq]]; [|right; by eapply H5].
    right. rewrite Z.div_add_l, Z.div_small by lia. rewrite Z.add_0_r.
    replace (lv - 1 + 1) with lv by lia. by exists p.
  - intros l y q j Hq Hl Hj. apply lookup_insert_Some in Hq as [[[=<-<-] <-]|[Hne Hq]].
    + destruct Hln as (_ & _ & Hz). rewrite Hz by done. rewrite lookup_insert_ne.
      * destruct (T !! (lv - 1 - 1, (x * 512 + i) * 512 + j)) as [d|] eqn:Hd; [|done]. destruct (H5 _ _ _ Hd) as [r Hr]; [lia|].
        revert Hr. replace (lv - 1 - 1 + 1) with (lv - 1) by lia.
        rewrite Z.div_add_l, Z.div_small by lia. rewrite Z.add_0_r, Hnone. done.
      * intros [=]. lia.
    + destruct (decide ((l, y, j) = (lv, x, i))) as [[=-> -> ->]|Hd].
      * rewrite lookup_insert_eq. assert (q = p) as -> by congruence. apply Hln.
      * rewrite lookup_insert_ne by (intros [=]; apply Hd; f_equal; [f_equal|]; lia).
        rewrite <- (H6 l y q j) by done.
        eapply linked_slot; [done|..]; try done; try (eapply H3; done); try apply Hc.
        -- intros ->. apply Hnt. by eexists.
        -- destruct (decide (q = p)) as [->|]; [right|by left].
           intros ->. apply Hd. specialize (H4 _ _ _ Hq Hp). congruence.
Qed.

Lemma leaves_ok_link m m' T root A lv x p i c :
  pt_ok m T root -> T !! (lv, x) = Some p -> 0 < lv -> 0 <= i < 512 ->
  T !! (lv - 1, x * 512 + i) = None -> freeable c -> ~ is_table T c ->
  linked m m' p i c -> leaves_ok m T A ->
  leaves_ok m' (<[(lv - 1, x * 512 + i) := c]> T) A.
Proof.
  intros Hpt Hp Hlv Hi Hnone Hc Hnt Hln [HA HV]. split; [|done]. intros vpn. rewrite <- HA.
  unfold pte_at. pose proof (Z.mod_pos_bound vpn 512 ltac:(lia)) as Hm.
  destruct (decide ((lv - 1, x * 512 + i) = (0, vpn / 512))) as [He|He].
  - rewrite <- He, lookup_insert_eq, Hnone. by apply Hln.
  - rewrite lookup_insert_ne by done. destruct (T !! (0, vpn / 512)) as [q|] eqn:Hq; [|done].
    eapply linked_slot; [done|..]; try done; try (eapply (pt_page _ _ _ Hpt); done); try apply Hc.
    + intros ->. apply Hnt. by eexists.
    + left. intros ->. specialize (pt_inj _ _ _ Hpt _ _ _ Hq Hp). intros [=]. lia.
Qed.

(** ** walk *)

Lemma wp_walk_level s l root T A lv va p alloc (Q : option Z -> phys -> Prop) :
  aspace s l root T A -> 1 <= lv <= 2 -> T !! (lv, pfx lv va) = Some p ->
  (forall c, T !! (lv - 1, pfx (lv - 1) va) = Some c -> Q (Some c) s) ->
  (T !! (lv - 1, pfx (lv - 1) va) = None -> alloc = false \/ l = [] -> Q None s) ->
  (forall c l' s', T !! (lv - 1, pfx (lv - 1) va) = None -> alloc = true -> l = c :: l' ->
     aspace s' l' root (<[(lv - 1, pfx (lv - 1) va) := c]> T) A ->
     agree (outside (<[(lv - 1, pfx (lv - 1) va) := c]> T)) (mem s) (mem s') -> Q (Some c) s') ->
  wp (walk_level lv p va alloc) Q s.
Proof.
  intros (Hk & Hpt & HA & Hd) Hlv Hp Hfound Hnone Hnew. unfold walk_level.
  pose proof (PX_range lv va ltac:(lia)) as Hi. rewrite pfx_child in * by lia.
  wp_step. wp_step. wp_step.
  rewrite (pt_interior _ _ _ Hpt lv (pfx lv va)) by (done || lia).
  destruct (T !! (lv - 1, pfx lv va * 512 + PX lv va)) as [c|] eqn:Hc.
  { rewrite mkpte_V_valid. wp_step. rewrite PTE2PA_mkpte; [by apply Hfound| |done].
    by eapply freeable_page_addr, pt_page. }
  rewrite has_0. destruct alloc; simpl negb; cbv iota; [|wp_step; apply Hnone; auto].
  wp_step. eapply wp_kalloc; [done| |].
  { intros ->. simpl. wp_step. apply Hnone; auto. }
  intros c l' s' -> Hcf Hcl Hk' _ Hag. pose proof (freeable_nonzero c Hcf).
  destruct (Z.eqb_spec c 0); [done|]. wp_steps.
  assert (~ is_table T c) as Hnt by (intros Ht; destruct (Hd c Ht); left).
  assert (freeable p) as Hpf by by eapply pt_page.
  assert (p <> c) as Hpc by (intros ->; apply Hnt; by eexists).
  assert (linked (mem s) (st64 (memset (mem s') c 0 PGSIZE) (p + 8 * PX lv va)
    (Z.lor (PA2PTE c) PTE_V)) p (PX lv va) c) as Hln by by apply linked_intro.
  assert (forall a, outside (<[(lv - 1, pfx lv va * 512 + PX lv va):=c]> T) a ->
    ~ in_page c a /\ ~ (p + 8 * PX lv va <= a < p + 8 * PX lv va + 8)) as Hout.
  { intros a Ha. split; [eapply Ha, lookup_insert_eq|]. intros Hs. eapply (Ha (lv, pfx lv va) p).
    - rewrite lookup_insert_ne; [done|]. intros [=]. lia.
    - unfold in_page, PGSIZE. lia. }
  apply Hnew with l'; [done|done|done| |].
  - split; [|split; [eapply pt_ok_link; (done || lia)|split; [eapply leaves_ok_link; (done || lia)|]]].
    + apply (kmem_ok_frame s' _ l' (fun a => ~ in_page c a /\ ~ in_page p a)); [done| |].
      * intros a [Ha1 Ha2]. simpl. rewrite (st64_page_agree _ p) by done.
        by rewrite memset_page_agree.
      * intros q a Hq Ha. pose proof (kmem_ok_freeable _ _ _ Hk' Hq) as [Hqa _].
        split; (eapply page_disjoint; [done| | |done]).
        all: try apply Hcf; try apply Hpf.
        -- intros ->. done.
        -- intros ->. eapply Hd; [by eexists|]. by right.
    + intros q [k Hq]. apply lookup_insert_Some in Hq as [[_ <-]|[_ Hq]]; [done|].
      intros Hq'. eapply Hd; [by eexists|]. by right.
  - intros a Ha. apply Hln. by apply Hout.
Qed.

(** The tables of [T'] are those of [T] and the pages taken from the free list;
    nothing outside them was written. *)
Definition grows (s : phys) (l : list Z) (T : tables) (s' : phys) (l' : list Z) (T' : tables) : Prop :=
  (exists k, l = k ++ l' /\ forall p, is_table T' p <-> is_table T p \/ p ∈ k) /\
  agree (outside T') (mem s) (mem s').

Lemma outside_sub T T' a : (forall p, is_table T p -> is_table T' p) -> outside T' a -> outside T a.
Proof. intros H Ho k p Hk. destruct (H p) as [k' Hk']; [by exists k|]. by apply (Ho k'). Qed.

Lemma grows_refl s l T : grows s l T s l T.
Proof.
  split; [|apply agree_refl]. exists []. split; [done|]. intros p.
  split; [by left|]. intros [?|?%elem_of_nil]; done.
Qed.

Lemma grows_table s l T s' l' T' p : grows s l T s' l' T' -> is_table T p -> is_table T' p.
Proof. intros ((k & -> & Hk) & _) Hp. apply Hk. by left. Qed.

Lemma grows_trans s l T s1 l1 T1 s2 l2 T2 :
  grows s l T s1 l1 T1 -> grows s1 l1 T1 s2 l2 T2 -> grows s l T s2 l2 T2.
Proof.
  intros ((k1 & -> & Hk1) & Ha1) ((k2 & -> & Hk2) & Ha2). split.
  - exists (k1 ++ k2). split; [by rewrite (assoc_L (++))|]. intros p.
    rewrite Hk2, Hk1, elem_of_app. tauto.
  - eapply agree_trans; [|done]. eapply agree_sub; [done|]. intros a. apply outside_sub.
    intros p Hp. apply Hk2. by left.
Qed.

Lemma is_table_insert T k c p :
  T !! k = None -> is_table (<[k := c]> T) p <-> is_table T p \/ p = c.
Proof.
  intros Hn. split.
  - intros [k' Hk']. apply lookup_insert_Some in Hk' as [[_ <-]|[_ ?]]; [by right|left; by exists k'].
  - intros [[k' Hk']| ->]; [|exists k; apply lookup_insert_eq].
    exists k'. rewrite lookup_insert_ne; [done|]. intros ->. congruence.
Qed.

Lemma grows_insert s l T s' k c :
  T !! k = None -> agree (outside (<[k := c]> T)) (mem s) (mem s') ->
  grows s (c :: l) T s' l (<[k := c]> T).
Proof.
  intros Hn Hag. split; [|done]. exists [c]. split; [done|]. intros p.
  rewrite is_table_insert by done. by rewrite list_elem_of_singleton.
Qed.

(** The new tables of [T'] are on the path to an address of [P]. *)
Definition adds (P : Z -> Prop) (T T' : tables) : Prop :=
  forall k, is_Some (T' !! k) -> is_Some (T !! k) \/ exists lv a, 0 <= lv <= 1 /\ P a /\ k = (lv, pfx lv a).

Lemma adds_refl P T : adds P T T.
Proof. by left. Qed.

Lemma adds_trans P T T1 T2 : adds P T T1 -> adds P T1 T2 -> adds P T T2.
Proof. intros H1 H2 k Hk. destruct (H2 k Hk) as [Hk1|?]; [by apply H1|by right]. Qed.

Lemma adds_weaken (P P' : Z -> Prop) T T' : (forall a, P a -> P' a) -> adds P T T' -> adds P' T T'.
Proof. intros HP H k Hk. destruct (H k Hk) as [?|(lv & a & ? & ? & ?)]; [by left|right]. exists lv, a. auto. Qed.

Lemma adds_insert (P : Z -> Prop) T lv a c : 0 <= lv <= 1 -> P a -> adds P T (<[(lv, pfx lv a) := c]> T).
Proof.
  intros Hlv Ha k Hk. destruct (decide (k = (lv, pfx lv a))) as [->|Hne]; [right; by exists lv, a|].
  left. by rewrite lookup_insert_ne in Hk by done.
Qed.

Lemma parent_none m T root lv va :
  pt_ok m T root -> 1 <= lv <= 2 -> T !! (lv, pfx lv va) = None -> T !! (lv - 1, pfx (lv - 1) va) = None.
Proof.
  intros Hpt Hlv Hn. destruct (T !! (lv - 1, pfx (lv - 1) va)) as [c|] eqn:Hc; [|done].
  destruct (pt_parent _ _ _ Hpt _ _ _ Hc) as [p Hp]; [lia|].
  revert Hp. rewrite pfx_child by lia. pose proof (PX_range lv va ltac:(lia)).
  rewrite Z.div_add_l, Z.div_small by lia. rewrite Z.add_0_r.
  replace (lv - 1 + 1) with lv by lia. congruence.
Qed.

Lemma MAXVA_leb va : va < MAXVA -> (MAXVA <=? va) = false.
Proof. intros H. by apply Z.leb_gt. Qed.

Lemma wp_walk_lookup s l root T A va (Q : Z -> phys -> Prop) :
  aspace s l root T A -> 0 <= va < MAXVA ->
  Q (match T !! (0, pfx 0 va) with Some q => q + 8 * PX 0 va | None => 0 end) s ->
  wp (walk root va false) Q s.
Proof.
  intros Has Hva HQ. pose proof Has as (_ & Hpt & _). unfold walk. rewrite MAXVA_leb by lia. wp_step.
  eapply wp_walk_level; [done|lia|rewrite pfx_2 by done; apply (pt_root _ _ _ Hpt)| | |done].
  - intros p1 Hp1. eapply wp_bind, wp_walk_level; [done|lia|done| | |done].
    + intros p0 Hp0. wp_step. change (1 - 1) with 0 in Hp0. by rewrite Hp0 in HQ.
    + intros Hn _. wp_step. change (1 - 1) with 0 in Hn. by rewrite Hn in HQ.
  - intros Hn _. wp_step. change (2 - 1) with 1 in Hn.
    apply (parent_none (mem s) T root 1 va Hpt ltac:(lia)) in Hn. change (1 - 1) with 0 in Hn. by rewrite Hn in HQ.
Qed.

Lemma wp_walk_alloc s l root T A va (Q : Z -> phys -> Prop) :
  aspace s l root T A -> 0 <= va < MAXVA ->
  (forall s' T', aspace s' [] root T' A -> grows s l T s' [] T' -> adds (eq va) T T' -> Q 0 s') ->
  (forall s' l' T' q, aspace s' l' root T' A -> grows s l T s' l' T' -> adds (eq va) T T' ->
     T' !! (0, pfx 0 va) = Some q -> Q (q + 8 * PX 0 va) s') ->
  wp (walk root va true) Q s.
Proof.
  intros Has Hva Hfail Hok. pose proof Has as (_ & Hpt & _). unfold walk. rewrite MAXVA_leb by lia.
  assert (forall s1 l1 T1 p1, aspace s1 l1 root T1 A -> grows s l T s1 l1 T1 -> adds (eq va) T T1 ->
    T1 !! (1, pfx 1 va) = Some p1 ->
    wp (r ← walk_level 1 p1 va true;
        match r with Some p0 => mret (p0 + 8 * PX 0 va) | None => mret 0 end) Q s1) as Hlow.
  { intros s1 l1 T1 p1 Has1 Hg1 Hd1 Hp1. eapply wp_bind, wp_walk_level; [done|lia|done| | |].
    - intros p0 Hp0. wp_step. by eapply Hok.
    - intros _ [?| ->]; [done|]. wp_step. by eapply Hfail.
    - intros c l' s' Hn _ -> Has' Hag. wp_step. eapply Hok; [done| | |apply lookup_insert_eq].
      + eapply grows_trans; [done|]. by apply grows_insert.
      + eapply adds_trans; [done|]. by apply adds_insert. }
  eapply wp_bind, wp_walk_level; [done|lia|rewrite pfx_2 by done; apply (pt_root _ _ _ Hpt)| | |].
  - intros p1 Hp1. eapply Hlow; [done|apply grows_refl|apply adds_refl|done].
  - intros _ [?| ->]; [done|]. wp_step. eapply Hfail; [done|apply grows_refl|apply adds_refl].
  - intros c l' s' Hn _ -> Has' Hag. eapply Hlow; [done|by apply grows_insert|by apply adds_insert|apply lookup_insert_eq].
Qed.

(** ** Writing a leaf entry *)

Lemma leaf_store_other m T root q vpn vpn' e :
  pt_ok m T root -> T !! (0, vpn / 512) = Some q -> vpn' <> vpn ->
  pte_at (st64 m (q + 8 * (vpn `mod` 512)) e) T vpn' = pte_at m T vpn'.
Proof.
  intros Hpt Hq Hne. unfold pte_at. destruct (T !! (0, vpn' / 512)) as [q'|] eqn:Hq'; [|done].
  pose proof (Z.mod_pos_bound vpn 512 ltac:(lia)). pose proof (Z.mod_pos_bound vpn' 512 ltac:(lia)).
  destruct (decide (q' = q)) as [->|Hqq].
  - pose proof (pt_inj _ _ _ Hpt _ _ _ Hq Hq') as [= He]. apply ld64_st64_ne.
    pose proof (Z.div_mod vpn 512 ltac:(lia)). pose proof (Z.div_mod vpn' 512 ltac:(lia)). lia.
  - apply ld64_slot_page; [done|]. intros a Ha. apply (st64_page_agree m q); [done|].
    apply (page_disjoint q' q); try done; by eapply pt_page.
Qed.

Lemma aspace_store s l root T A q vpn e (A' : leaves) :
  aspace s l root T A -> T !! (0, vpn / 512) = Some q -> is_u64 e ->
  (forall vpn', default 0 (A' !! vpn') = if decide (vpn' = vpn) then e else default 0 (A !! vpn')) ->
  (forall vpn' e', A' !! vpn' = Some e' -> has e' PTE_V = true) ->
  let s' := s <| mem := st64 (mem s) (q + 8 * (vpn `mod` 512)) e |> in
  aspace s' l root T A' /\ agree (outside T) (mem s) (mem s').
Proof.
  intros (Hk & Hpt & [HA HV] & Hd) Hq He HA' HV' s'.
  pose proof (Z.mod_pos_bound vpn 512 ltac:(lia)) as Hm.
  pose proof (st64_page_agree (mem s) q _ e Hm) as Hag. split.
  - split; [|split; [|split; [split|done]]].
    + eapply kmem_ok_frame; [done|exact Hag|]. intros p a Hp Ha.
      apply (page_disjoint p q a); [|by eapply pt_page| |done].
      * by eapply kmem_ok_freeable.
      * intros ->. eapply Hd; [by eexists|done].
    + destruct Hpt as [H1 H2 H3 H4 H5 H6]. split; try done. intros lv x p i Hp Hlv Hi.
      rewrite <- (H6 lv x p i) by done. apply ld64_slot_page; [done|]. intros a Ha. apply Hag.
      apply (page_disjoint p q); [by eapply H3..| |done].
      intros ->. pose proof (H4 _ _ _ Hp Hq) as [=]. lia.
    + intros vpn'. rewrite HA'. case_decide as Hv.
      * subst. unfold pte_at. rewrite Hq. by apply ld64_st64_eq.
      * rewrite <- HA. by eapply leaf_store_other.
    + done.
  - eapply agree_sub; [exact Hag|]. intros a Ha. by apply (Ha (0, vpn / 512)).
Qed.

Lemma aspace_map s l root T A q vpn e :
  aspace s l root T A -> T !! (0, vpn / 512) = Some q -> is_u64 e -> has e PTE_V = true ->
  let s' := s <| mem := st64 (mem s) (q + 8 * (vpn `mod` 512)) e |> in
  aspace s' l root T (<[vpn := e]> A) /\ agree (outside T) (mem s) (mem s').
Proof.
  intros Has Hq He HV. eapply aspace_store; [done..| |].
  - intros vpn'. case_decide; subst; [by rewrite lookup_insert_eq|by rewrite lookup_insert_ne].
  - destruct Has as (_ & _ & [_ HVA] & _). intros vpn' e' Hl.
    apply lookup_insert_Some in Hl as [[_ <-]|[_ ?]]; [done|by eapply HVA].
Qed.

Lemma aspace_unmap s l root T A q vpn :
  aspace s l root T A -> T !! (0, vpn / 512) = Some q ->
  let s' := s <| mem := st64 (mem s) (q + 8 * (vpn `mod` 512)) 0 |> in
  aspace s' l root T (delete vpn A) /\ agree (outside T) (mem s) (mem s').
Proof.
  intros Has Hq. eapply aspace_store; [done..| | |].
  - done.
  - intros vpn'. case_decide; subst; [by rewrite lookup_delete_eq|by rewrite lookup_delete_ne].
  - destruct Has as (_ & _ & [_ HVA] & _). intros vpn' e' Hl.
    apply lookup_delete_Some in Hl as [_ ?]. by eapply HVA.
Qed.

Lemma pte_load s l root T A va q :
  aspace s l root T A -> T !! (0, pfx 0 va) = Some q ->
  ld64 (mem s) (q + 8 * PX 0 va) = default 0 (A !! vpn_of va).
Proof.
  intros (_ & _ & [HA _] & _) Hq. rewrite <- HA. unfold pte_at.
  rewrite pfx_0 in Hq. by rewrite Hq, PX_0.
Qed.

Lemma slot_nonzero s l root T A va q :
  aspace s l root T A -> T !! (0, pfx 0 va) = Some q -> (q + 8 * PX 0 va =? 0) = false.
Proof.
  intros (_ & Hpt & _) Hq. pose proof (pt_page _ _ _ Hpt _ _ Hq) as Hf%freeable_pos.
  pose proof (PX_range 0 va ltac:(lia)). unfold KERNBASE in Hf. apply Z.eqb_neq. lia.
Qed.

Lemma no_table_no_leaf s l root T A va :
  aspace s l root T A -> T !! (0, pfx 0 va) = None -> A !! vpn_of va = None.
Proof.
  intros (_ & _ & [HA HV] & _) Hq. specialize (HA (vpn_of va)). unfold pte_at in HA.
  rewrite pfx_0 in Hq. rewrite Hq in HA. destruct (A !! vpn_of va) as [e|] eqn:He; [|done].
  simpl in HA. subst e. by apply HV in He.
Qed.

(** The outcome of [walk] without allocation followed by the read of the
    entry, as the callers use it. *)
Lemma wp_walk_read {B} s l root T A va (none : M phys B) (some : Z -> Z -> M phys B) Q :
  aspace s l root T A -> 0 <= va < MAXVA ->
  (T !! (0, pfx 0 va) = None -> A !! vpn_of va = None -> wp none Q s) ->
  (forall q, T !! (0, pfx 0 va) = Some q ->
     wp (some (q + 8 * PX 0 va) (default 0 (A !! vpn_of va))) Q s) ->
  wp (pte ← walk root va false; if pte =? 0 then none else e ← load64 pte; some pte e) Q s.
Proof.
  intros Has Hva Hn Hs. eapply wp_bind, wp_walk_lookup; [done..|].
  destruct (T !! (0, pfx 0 va)) as [q|] eqn:Hq.
  - erewrite slot_nonzero by done. wp_step. do 2 wp_step. erewrite pte_load by done. by apply Hs.
  - apply Hn; [done|]. by eapply no_table_no_leaf.
Qed.

(** ** Frame for a whole address space *)

Lemma aspace_frame s l root T A m' P :
  aspace s l root T A -> agree P (mem s) m' -> (forall a, ~ outside T a -> P a) ->
  (forall q a, q ∈ l -> in_page q a -> P a) -> aspace (s <| mem := m' |>) l root T A.
Proof.
  intros (Hk & Hpt & HA & Hd) Hag HT Hl. split; [by eapply kmem_ok_frame|].
  split; [eapply pt_ok_frame; [done|by eapply agree_sub]|].
  split; [eapply leaves_ok_frame; [done|by eapply agree_sub]|done].
Qed.

(** A page that is neither free nor a table can be written at will. *)
Lemma aspace_frame_page s l root T A m' p :
  aspace s l root T A -> pg_aligned p -> p ∉ l -> ~ is_table T p ->
  agree (fun a => ~ in_page p a) (mem s) m' -> aspace (s <| mem := m' |>) l root T A.
Proof.
  intros Has Hp Hnl Hnt Hag. eapply aspace_frame; [done|exact Hag| |].
  - intros a Ho Ha. apply Ho. eapply outside_in_page; [|done..].
    intros q. eapply pt_ok_aligned. apply Has.
  - intros q a Hq Ha. apply (page_disjoint q p a); [|done| |done].
    + eapply kmem_ok_freeable; [apply Has|done].
    + intros ->. done.
Qed.

Lemma aspace_replace s s' l l' root T A :
  aspace s l root T A -> agree (fun a => ~ outside T a) (mem s) (mem s') -> kmem_ok s' l' ->
  (forall p, is_table T p -> p ∉ l') -> aspace s' l' root T A.
Proof.
  intros (_ & Hpt & HA & _) Hag Hk Hd. split; [done|].
  split; [by eapply pt_ok_frame|]. split; [by eapply leaves_ok_frame|done].
Qed.

Lemma not_outside_not_page m T root p a :
  pt_ok m T root -> pg_aligned p -> ~ is_table T p -> ~ outside T a -> ~ in_page p a.
Proof.
  intros Hpt Hp Hnt Ho Ha. apply Ho. eapply outside_in_page; [|done..].
  intros q. by eapply pt_ok_aligned.
Qed.

Lemma wp_kalloc_aspace s l root T A (Q : Z -> phys -> Prop) :
  aspace s l root T A ->
  (l = [] -> Q 0 s) ->
  (forall p l' s', l = p :: l' -> freeable p -> p ∉ l' -> ~ is_table T p -> aspace s' l' root T A ->
     agree (fun a => ~ in_page p a) (mem s) (mem s') -> Q p s') ->
  wp kalloc Q s.
Proof.
  intros Has H0 H1. pose proof Has as (Hk & Hpt & _ & Hd). eapply wp_kalloc; [done..|].
  intros p l' s' -> Hp Hni Hk' _ Hag.
  assert (~ is_table T p) as Hnt by (intros Ht; destruct (Hd p Ht); left).
  eapply H1; try done. eapply aspace_replace; [done| |done|].
  - eapply agree_sub; [done|]. intros a. eapply not_outside_not_page; [done|apply Hp|done].
  - intros q Hq Hql. eapply Hd; [done|]. by right.
Qed.

Lemma wp_kfree_aspace s l root T A pa (Q : unit -> phys -> Prop) :
  aspace s l root T A -> freeable pa -> pa ∉ l -> ~ is_table T pa ->
  (forall s', aspace s' (pa :: l) root T A ->
     agree (fun a => ~ in_page pa a) (mem s) (mem s') -> Q tt s') ->
  wp (kfree pa) Q s.
Proof.
  intros Has Hp Hni Hnt HQ. pose proof Has as (Hk & Hpt & _ & Hd). eapply wp_kfree; [done..|].
  intros s' Hk' Hag. apply HQ; [|done]. eapply aspace_replace; [done| |done|].
  - eapply agree_sub; [done|]. intros a. eapply not_outside_not_page; [done|apply Hp|done].
  - intros q Hq Hql. apply elem_of_cons in Hql as [->|Hql]; [done|]. by eapply Hd.
Qed.

(** ** mappages *)

(** [A] with the [n] pages from [vpn] on mapped to consecutive pages. *)
Fixpoint map_range (n : nat) (A : leaves) (vpn pa flags : Z) : leaves :=
  match n with
  | O => A
  | S j => <[vpn + Z.of_nat j := mkpte (pa + Z.of_nat j * PGSIZE) flags]> (map_range j A vpn pa flags)
  end.

Lemma lookup_map_range n A vpn pa flags v :
  map_range n A vpn pa flags !! v =
  if decide (vpn <= v < vpn + Z.of_nat n) then Some (mkpte (pa + (v - vpn) * PGSIZE) flags)
  else A !! v.
Proof.
  induction n as [|n IH]; cbn [map_range]; [by rewrite decide_False by lia|].
  destruct (decide (v = vpn + Z.of_nat n)) as [->|Hne].
  - rewrite lookup_insert_eq, decide_True by lia. do 3 f_equal. lia.
  - rewrite lookup_insert_ne, IH by done. repeat case_decide; try done; lia.
Qed.

Lemma vpn_of_add va j : pg_aligned va -> vpn_of (va + j * PGSIZE) = vpn_of va + j.
Proof. intros H. unfold vpn_of, PGSIZE, pg_aligned in *. by rewrite Z.div_add by lia. Qed.

Lemma page_addr_step pa j n :
  page_addr pa -> pa + n * PGSIZE <= 2 ^ 56 -> 0 <= j < n -> page_addr (pa + j * PGSIZE).
Proof.
  intros [Hr Ha] Hn Hj. unfold page_addr, pg_aligned, PGSIZE in *. split; [lia|].
  by rewrite Z.mod_add by lia.
Qed.

Lemma mappages_entry pa perm :
  Z.lor (Z.lor (PA2PTE pa) perm) PTE_V = mkpte pa (Z.lor perm PTE_V).
Proof. unfold mkpte. by rewrite Z.lor_assoc. Qed.

Lemma perm_V_range perm : 0 <= perm < 1024 -> 0 <= Z.lor perm PTE_V < 1024.
Proof. intros H. apply (lor_range _ _ 10); [lia|done|done]. Qed.

Lemma mkpte_entry_ok pa perm :
  page_addr pa -> 0 <= perm < 1024 ->
  is_u64 (mkpte pa (Z.lor perm PTE_V)) /\ has (mkpte pa (Z.lor perm PTE_V)) PTE_V = true.
Proof.
  intros Hpa Hp%perm_V_range. split.
  - pose proof (mkpte_range _ _ Hpa Hp). unfold is_u64. lia.
  - rewrite has_mkpte by done. by rewrite has_lor, orb_true_r.
Qed.

(** One round of the loop of [mappages]. *)
Lemma wp_map_one {B} s l root T A a pa perm (fail k : M phys B) Q :
  aspace s l root T A -> 0 <= a < MAXVA -> page_addr pa -> 0 <= perm < 1024 ->
  A !! vpn_of a = None ->
  (forall s' T', aspace s' [] root T' A -> grows s l T s' [] T' -> adds (eq a) T T' -> wp fail Q s') ->
  (forall s' l' T', aspace s' l' root T' (<[vpn_of a := mkpte pa (Z.lor perm PTE_V)]> A) ->
     grows s l T s' l' T' -> adds (eq a) T T' -> wp k Q s') ->
  wp (pte ← walk root a true;
      if pte =? 0 then fail
      else e ← load64 pte;
           if has e PTE_V then panic "mappages: remap"
           else store64 pte (Z.lor (Z.lor (PA2PTE pa) perm) PTE_V);; k) Q s.
Proof.
  intros Has Ha Hpa Hperm Hn Hfail Hk. eapply wp_bind, wp_walk_alloc; [done..| |].
  - intros s' T' Has' Hg Hd. by eapply Hfail.
  - intros s' l' T' q Has' Hg Hd Hq. erewrite slot_nonzero by done. wp_step. do 2 wp_step.
    erewrite pte_load by done. rewrite Hn. simpl default. rewrite has_0. wp_steps.
    destruct (mkpte_entry_ok pa perm Hpa Hperm) as [He HV].
    rewrite mappages_entry, PX_0. rewrite pfx_0 in Hq.
    destruct (aspace_map _ _ _ _ _ _ _ _ Has' Hq He HV) as [Has'' Hag].
    eapply Hk; [exact Has''| |done]. destruct Hg as [Hg Hag']. split; [done|].
    by eapply agree_trans.
Qed.

Lemma wp_mappages n s l root T A va pa perm (Q : Z -> phys -> Prop) :
  aspace s l root T A -> 1 <= n -> 0 <= va -> pg_aligned va -> va + n * PGSIZE <= MAXVA ->
  page_addr pa -> pa + n * PGSIZE <= 2 ^ 56 -> 0 <= perm < 1024 ->
  (forall v, vpn_of va <= v < vpn_of va + n -> A !! v = None) ->
  (forall s' T' j, (Z.of_nat j < n) -> grows s l T s' [] T' -> adds (fun a => va <= a < va + n * PGSIZE) T T' ->
     aspace s' [] root T' (map_range j A (vpn_of va) pa (Z.lor perm PTE_V)) -> Q (-1) s') ->
  (forall s' l' T', grows s l T s' l' T' -> adds (fun a => va <= a < va + n * PGSIZE) T T' ->
     aspace s' l' root T' (map_range (Z.to_nat n) A (vpn_of va) pa (Z.lor perm PTE_V)) -> Q 0 s') ->
  wp (mappages root va (n * PGSIZE) pa perm) Q s.
Proof.
  intros Has Hn Hva Hal Hend Hpa Hpe Hperm Hfree Hfail Hok. unfold mappages.
  unfold pg_aligned in Hal. rewrite Hal, Z.mod_mul by done. simpl negb. cbv iota.
  destruct (Z.eqb_spec (n * PGSIZE) 0); [unfold PGSIZE in *; lia|].
  change MAXVA with (2 ^ 38) in Hend.
  replace (u64 (va + n * PGSIZE - PGSIZE)) with (va + (n - 1) * PGSIZE)
    by (unfold u64; rewrite Z.mod_small; unfold PGSIZE in *; lia).
  cbv zeta. apply (wp_loop (fun c '(a, b) s1 => exists j l1 T1,
    c = n - Z.of_nat j /\ 0 < c /\ a = va + Z.of_nat j * PGSIZE /\ b = pa + Z.of_nat j * PGSIZE /\
    grows s l T s1 l1 T1 /\ adds (fun a => va <= a < va + n * PGSIZE) T T1 /\ aspace s1 l1 root T1 (map_range j A (vpn_of va) pa (Z.lor perm PTE_V))))
    with (n := n); [|unfold PGSIZE in *; lia|].
  2: { exists 0%nat, l, T. do 4 (split; [lia|]). split; [apply grows_refl|]. split; [apply adds_refl|exact Has]. }
  intros c [a b] s1 (j & l1 & T1 & -> & Hj & -> & -> & Hg & Hd & Has1). split; [done|].
  assert (u64 (va + Z.of_nat j * PGSIZE + PGSIZE) = va + Z.of_nat (S j) * PGSIZE /\
          u64 (pa + Z.of_nat j * PGSIZE + PGSIZE) = pa + Z.of_nat (S j) * PGSIZE) as [Hu1 Hu2].
  { destruct Hpa as [? _]. unfold u64. rewrite !Z.mod_small; unfold PGSIZE in *; lia. }
  rewrite Hu1, Hu2. clear Hu1 Hu2.
  assert (forall T', adds (eq (va + Z.of_nat j * PGSIZE)) T1 T' -> adds (fun a => va <= a < va + n * PGSIZE) T T') as Hd'.
  { intros T' H. eapply adds_trans; [exact Hd|]. eapply adds_weaken; [|exact H]. intros a <-. unfold PGSIZE in *. lia. }
  eapply wp_map_one; [done| |by eapply page_addr_step; [| |split; [lia|]; apply Z.lt_0_sub]|done| | |].
  - change MAXVA with (2 ^ 38). unfold PGSIZE in *. lia.
  - rewrite vpn_of_add, lookup_map_range, decide_False by (done || lia). apply Hfree. lia.
  - intros s' T' Has' Hg' Hd1. wp_step. eapply (Hfail s' T' j); [lia|by eapply grows_trans|by apply Hd'|done].
  - intros s' l' T' Has' Hg' Hd1. rewrite vpn_of_add in Has' by done.
    change (<[_:=_]> (map_range j _ _ _ _)) with
      (map_range (S j) A (vpn_of va) pa (Z.lor perm PTE_V)) in Has'.
    destruct (Z.eqb_spec (va + Z.of_nat j * PGSIZE) (va + (n - 1) * PGSIZE)) as [He|He]; wp_step.
    + replace (S j) with (Z.to_nat n) in Has' by (unfold PGSIZE in *; lia).
      eapply Hok; [|by apply Hd'|done]. by eapply grows_trans.
    + exists (n - Z.of_nat (S j)). split; [lia|]. exists (S j), l', T'. unfold PGSIZE in *.
      split; [done|]. split; [lia|]. do 2 (split; [done|]). split; [by eapply grows_trans|]. split; [by apply Hd'|done].
Qed.

(** ** uvmunmap *)

Fixpoint unmap_range (n : nat) (A : leaves) (vpn : Z) : leaves :=
  match n with
  | O => A
  | S j => delete (vpn + Z.of_nat j) (unmap_range j A vpn)
  end.

(** The pages the leaves of a range refer to, last one first: the order in
    which [uvmunmap] leaves them on the free list. *)
Definition leaf_page (A : leaves) (v : Z) : list Z :=
  match A !! v with Some e => [PTE2PA e] | None => [] end.

Fixpoint range_pages (n : nat) (A : leaves) (vpn : Z) : list Z :=
  match n with
  | O => []
  | S j => leaf_page A (vpn + Z.of_nat j) ++ range_pages j A vpn
  end.

Lemma elem_of_leaf_page A v p : p ∈ leaf_page A v <-> exists e, A !! v = Some e /\ p = PTE2PA e.
Proof.
  unfold leaf_page. destruct (A !! v) as [e|].
  - rewrite list_elem_of_singleton. split; [intros ->; by exists e|]. by intros (? & [= <-] & ->).
  - split; [by intros ?%elem_of_nil|]. by intros (? & [=] & _).
Qed.

Lemma lookup_unmap_range n A vpn v :
  unmap_range n A vpn !! v = if decide (vpn <= v < vpn + Z.of_nat n) then None else A !! v.
Proof.
  induction n as [|n IH]; cbn [unmap_range]; [by rewrite decide_False by lia|].
  destruct (decide (v = vpn + Z.of_nat n)) as [->|Hne].
  - by rewrite lookup_delete_eq, decide_True by lia.
  - rewrite lookup_delete_ne, IH by done. repeat case_decide; try done; lia.
Qed.

Lemma elem_of_range_pages n A vpn p :
  p ∈ range_pages n A vpn <->
  exists v e, vpn <= v < vpn + Z.of_nat n /\ A !! v = Some e /\ p = PTE2PA e.
Proof.
  induction n as [|n IH]; cbn [range_pages].
  - rewrite elem_of_nil. split; [done|]. intros (v & e & ? & _). lia.
  - rewrite elem_of_app, elem_of_leaf_page, IH. split.
    + intros [(e & He & ->)|(v & e & Hv & He & ->)]; [exists (vpn + Z.of_nat n), e|exists v, e].
      all: split; [lia|done].
    + intros (v & e & Hv & He & ->). destruct (decide (v = vpn + Z.of_nat n)) as [->|].
      * left. by exists e.
      * right. exists v, e. split; [lia|done].
Qed.

(** The pages the leaves of a range refer to may be given back: they are
    distinct pages of the allocation area, not free and not tables. *)
Definition releasable (n : nat) (l : list Z) (T : tables) (A : leaves) (vpn : Z) : Prop :=
  NoDup (range_pages n A vpn ++ l) /\
  (forall p, p ∈ range_pages n A vpn -> freeable p /\ ~ is_table T p).

Lemma releasable_step n l T A vpn :
  releasable (S n) l T A vpn ->
  releasable n l T A vpn /\
  (forall p, p ∈ leaf_page A (vpn + Z.of_nat n) ->
     freeable p /\ ~ is_table T p /\ p ∉ range_pages n A vpn ++ l).
Proof.
  intros [Hnd Hp]. cbn [range_pages] in *. rewrite <- (assoc_L (++)) in Hnd.
  apply NoDup_app in Hnd as (_ & Hni & Hnd). split; [split; [done|]|].
  - intros p Hin. apply Hp, elem_of_app. by right.
  - intros p Hin. destruct (Hp p); [apply elem_of_app; by left|]. auto.
Qed.

Lemma releasable_le j n l T A vpn :
  (j <= n)%nat -> releasable n l T A vpn -> releasable j l T A vpn.
Proof. induction 1 as [|n Hle IH]; [done|]. intros H. by apply IH, releasable_step. Qed.

(** What [uvmunmap] gives back to the allocator, and the addresses it leaves
    alone. *)
Definition given_back (do_free : bool) (pages : list Z) : list Z := if do_free then pages else [].

Definition untouched (T : tables) (fr : list Z) (a : Z) : Prop :=
  outside T a /\ forall p, p ∈ fr -> ~ in_page p a.

Lemma untouched_app T fr1 fr2 a : untouched T (fr1 ++ fr2) a <-> untouched T fr1 a /\ untouched T fr2 a.
Proof. unfold untouched. setoid_rewrite elem_of_app. naive_solver. Qed.

(** One round of the loop of [uvmunmap]. *)
Lemma wp_unmap_one {B} s l root T A a do_free (k : M phys B) Q :
  aspace s l root T A -> 0 <= a < MAXVA ->
  let fr := given_back do_free (leaf_page A (vpn_of a)) in
  (forall p, p ∈ fr -> freeable p /\ ~ is_table T p /\ p ∉ l) ->
  (forall s', aspace s' (fr ++ l) root T (delete (vpn_of a) A) ->
     agree (untouched T fr) (mem s) (mem s') -> wp k Q s') ->
  wp (pte ← walk root a false;
      if pte =? 0 then k
      else e ← load64 pte;
           if negb (has e PTE_V) then k
           else when do_free (kfree (PTE2PA e));; store64 pte 0;; k) Q s.
Proof.
  intros Has Ha fr Hfr Hk.
  assert (A !! vpn_of a = None -> wp k Q s) as Hnone.
  { intros HA. apply Hk; [|apply agree_refl]. rewrite delete_id by done.
    unfold fr, leaf_page. rewrite HA. by destruct do_free. }
  eapply wp_walk_read; [done|done|auto|]. intros q Hq.
  destruct (A !! vpn_of a) as [e|] eqn:He; simpl default; [|rewrite has_0; by apply Hnone].
  clear Hnone. assert (has e PTE_V = true) as -> by by eapply Has.
  simpl negb. cbv iota.
  assert (forall s1, aspace s1 (fr ++ l) root T A -> agree (untouched T fr) (mem s) (mem s1) ->
    wp (store64 (q + 8 * PX 0 a) 0;; k) Q s1) as Hst.
  { intros s1 Has1 Hag. rewrite PX_0. rewrite pfx_0 in Hq. wp_step. do 2 wp_step.
    destruct (aspace_unmap _ _ _ _ _ _ _ Has1 Hq) as [Has2 Hag2]. apply Hk; [exact Has2|].
    eapply agree_trans; [done|]. eapply agree_sub; [exact Hag2|]. by intros b [? _]. }
  unfold fr, leaf_page in *. rewrite He in *. destruct do_free; cbn [given_back] in *.
  - destruct (Hfr (PTE2PA e)) as (? & ? & ?); [left|]. wp_step. eapply wp_kfree_aspace; [done..|].
    intros s1 Has1 Hag. apply Hst; [done|]. eapply agree_sub; [done|]. intros b [_ Hb]. apply Hb. left.
  - wp_step. apply Hst; [done|apply agree_refl].
Qed.

Lemma wp_uvmunmap n s l root T A va do_free (Q : unit -> phys -> Prop) :
  aspace s l root T A -> 0 <= n -> 0 <= va -> pg_aligned va -> va + n * PGSIZE <= MAXVA ->
  let fr := given_back do_free (range_pages (Z.to_nat n) A (vpn_of va)) in
  (do_free = true -> releasable (Z.to_nat n) l T A (vpn_of va)) ->
  (forall s', aspace s' (fr ++ l) root T (unmap_range (Z.to_nat n) A (vpn_of va)) ->
     agree (untouched T fr) (mem s) (mem s') -> Q tt s') ->
  wp (uvmunmap root va n do_free) Q s.
Proof.
  intros Has Hn Hva Hal Hend fr Hrel HQ. unfold uvmunmap. unfold pg_aligned in Hal. rewrite Hal.
  simpl negb. cbv iota. change MAXVA with (2 ^ 38) in Hend.
  replace (u64 (va + n * PGSIZE)) with (va + n * PGSIZE)
    by (unfold u64; rewrite Z.mod_small; unfold PGSIZE in *; lia).
  cbv zeta. set (frj := fun j => given_back do_free (range_pages j A (vpn_of va))).
  apply (wp_loop (fun c a s1 => exists j, c = n - Z.of_nat j + 1 /\ 0 < c /\
    a = va + Z.of_nat j * PGSIZE /\ aspace s1 (frj j ++ l) root T (unmap_range j A (vpn_of va)) /\
    agree (untouched T (frj j)) (mem s) (mem s1))) with (n := n + 1); [|unfold PGSIZE in *; lia|].
  2: { exists 0%nat. do 3 (split; [lia|]). unfold frj. by destruct do_free. }
  intros c a s1 (j & -> & Hj & -> & Has1 & Hag1). split; [done|].
  destruct (Z.ltb_spec (va + Z.of_nat j * PGSIZE) (va + n * PGSIZE)) as [Hlt|Hge].
  2: { wp_step. assert (Z.to_nat n = j) as Hnj by (unfold PGSIZE in *; lia).
       rewrite <- Hnj in *. by apply HQ. }
  replace (u64 (va + Z.of_nat j * PGSIZE + PGSIZE)) with (va + Z.of_nat (S j) * PGSIZE)
    by (unfold u64; rewrite Z.mod_small; unfold PGSIZE in *; lia).
  assert (Z.of_nat j < n) as Hjn by (unfold PGSIZE in *; lia).
  assert (leaf_page (unmap_range j A (vpn_of va)) (vpn_of va + Z.of_nat j)
          = leaf_page A (vpn_of va + Z.of_nat j)) as Hlp.
  { unfold leaf_page. by rewrite lookup_unmap_range, decide_False by lia. }
  eapply wp_unmap_one; [done|change MAXVA with (2 ^ 38); unfold PGSIZE in *; lia|..].
  all: rewrite vpn_of_add, Hlp by done.
  - intros p Hp. destruct do_free; [|by apply elem_of_nil in Hp].
    eapply releasable_step; [|exact Hp]. eapply releasable_le; [|by apply Hrel]. lia.
  - intros s2 Has2 Hag2. wp_step. exists (n - Z.of_nat (S j) + 1). split; [lia|]. exists (S j).
    do 3 (split; [lia|]).
    assert (frj (S j) = given_back do_free (leaf_page A (vpn_of va + Z.of_nat j)) ++ frj j) as ->
      by (unfold frj; by destruct do_free).
    split; [by rewrite <- (assoc_L (++))|]. intros b [Hb1 Hb2]%untouched_app.
    by rewrite Hag2, Hag1.
Qed.
End pagetable.
