(* ===== verification/Freewalk.v ===== *)
(** * freewalk: tearing down a page table

    [freewalk] gives back every page of a page table whose leaves have all
    been removed, each exactly once.  The proof goes through the list of the
    pages in the order the recursion frees them. *)

From S2P Require Import Prelude CMem Riscv Kalloc Vm PageTable.

Section freewalk.
Context {KL : KLayout}.

(** The pages below and including [p], in the order they are freed. *)
Fixpoint tree_pages (d : nat) (m : memory) (p : Z) : list Z :=
  mjoin ((fun i : nat =>
    let e := ld64 m (p + 8 * Z.of_nat i) in
    if has e PTE_V then match d with O => [] | S d' => tree_pages d' m (PTE2PA e) end else [])
    <$> seq 0 512) ++ [p].

(** Every valid entry is an interior entry whose child is such a tree. *)
Fixpoint tree_wf (d : nat) (m : memory) (p : Z) : Prop :=
  forall i : nat, (i < 512)%nat ->
    let e := ld64 m (p + 8 * Z.of_nat i) in
    has e PTE_V = true ->
    has e (Z.lor (Z.lor PTE_R PTE_W) PTE_X) = false /\
    match d with O => False | S d' => tree_wf d' m (PTE2PA e) end.

(** The pages freed by the first [i] rounds of the loop. *)
Definition children_pages (d : nat) (m : memory) (p : Z) (i : nat) : list Z :=
  mjoin ((fun i : nat =>
    let e := ld64 m (p + 8 * Z.of_nat i) in
    if has e PTE_V then match d with O => [] | S d' => tree_pages d' m (PTE2PA e) end else [])
    <$> seq 0 i).

Definition child_pages (d : nat) (m : memory) (p : Z) (i : nat) : list Z :=
  let e := ld64 m (p + 8 * Z.of_nat i) in
  if has e PTE_V then match d with O => [] | S d' => tree_pages d' m (PTE2PA e) end else [].

Lemma tree_pages_eq d m p : tree_pages d m p = children_pages d m p 512 ++ [p].
Proof. by destruct d. Qed.

Lemma children_pages_S d m p i :
  children_pages d m p (S i) = children_pages d m p i ++ child_pages d m p i.
Proof.
  unfold children_pages, child_pages. rewrite seq_S, fmap_app. simpl.
  rewrite join_app. simpl. by rewrite app_nil_r.
Qed.

Lemma elem_of_children d m p i q :
  q ∈ children_pages d m p i <-> exists j : nat, (j < i)%nat /\ q ∈ child_pages d m p j.
Proof.
  induction i as [|i IH].
  - split; [by intros ?%elem_of_nil|]. intros (j & ? & _). lia.
  - rewrite children_pages_S, elem_of_app, IH. split.
    + intros [(j & ? & ?)|?]; [exists j; split; [lia|done]|exists i; split; [lia|done]].
    + intros (j & Hj & Hq). destruct (decide (j = i)) as [->|]; [by right|].
      left. exists j. split; [lia|done].
Qed.

(** A tree depends on the memory of its own pages only. *)
Lemma tree_frame d m m' p :
  (forall q a, q ∈ tree_pages d m p -> in_page q a -> ldb m' a = ldb m a) ->
  tree_pages d m' p = tree_pages d m p /\ (tree_wf d m p -> tree_wf d m' p).
Proof.
  revert p. induction d as [|d IH]; intros p Hag.
  all: assert (forall i : nat, (i < 512)%nat ->
    ld64 m' (p + 8 * Z.of_nat i) = ld64 m (p + 8 * Z.of_nat i)) as He.
  1, 3: intros i Hi; apply ld64_slot_page; [lia|]; intros a Ha;
    apply (Hag p); [rewrite tree_pages_eq, elem_of_app; right; by left|done].
  - split.
    + rewrite !tree_pages_eq. f_equal. unfold children_pages. f_equal.
      apply list_fmap_ext. intros k i Hk%lookup_seq. rewrite He by lia. done.
    + intros Hwf i Hi. cbv zeta. rewrite He by done. by apply Hwf.
  - assert (forall i : nat, (i < 512)%nat ->
      let e := ld64 m (p + 8 * Z.of_nat i) in has e PTE_V = true ->
      tree_pages d m' (PTE2PA e) = tree_pages d m (PTE2PA e) /\
      (tree_wf d m (PTE2PA e) -> tree_wf d m' (PTE2PA e))) as Hc.
    { intros i Hi e HV. apply IH. intros q a Hq. apply Hag.
      rewrite tree_pages_eq, elem_of_app, elem_of_children. left. exists i. split; [done|].
      unfold child_pages. fold e. by rewrite HV. }
    split.
    + rewrite !tree_pages_eq. f_equal. unfold children_pages. f_equal.
      apply list_fmap_ext. intros k i [-> Hk]%lookup_seq. cbv zeta. rewrite He by lia.
      destruct (has _ PTE_V) eqn:HV; [|done]. by apply Hc.
    + intros Hwf i Hi. cbv zeta. rewrite He by done. intros HV.
      destruct (Hwf i Hi HV) as [? Hw]. split; [done|]. by apply Hc.
Qed.

Lemma children_prefix d m p i n :
  (i <= n)%nat -> exists rest, children_pages d m p n = children_pages d m p i ++ rest.
Proof.
  induction 1 as [|n Hle [rest IH]]; [exists []; by rewrite app_nil_r|].
  exists (rest ++ child_pages d m p n). by rewrite children_pages_S, IH, (assoc_L (++)).
Qed.

(** Round [i] of the loop works on pages no earlier round freed. *)
Lemma children_fresh d m p i l :
  (i < 512)%nat -> NoDup (tree_pages d m p ++ l) ->
  NoDup (child_pages d m p i ++ reverse (children_pages d m p i) ++ l) /\
  (p ∉ child_pages d m p i) /\ (p ∉ children_pages d m p i) /\ (p ∉ l).
Proof.
  intros Hi Hnd. rewrite tree_pages_eq in Hnd.
  destruct (children_prefix d m p (S i) 512) as [rest Hr]; [lia|].
  rewrite Hr, children_pages_S in Hnd. rewrite reverse_Permutation.
  rewrite (assoc_L (++)), (Permutation_app_comm (child_pages _ _ _ _)).
  assert ((((children_pages d m p i ++ child_pages d m p i) ++ rest) ++ [p]) ++ l
    ≡ₚ ((children_pages d m p i ++ child_pages d m p i) ++ l) ++ (rest ++ [p])) as Hpm.
  { rewrite <- !(assoc_L (++)). do 2 f_equiv. rewrite (assoc_L (++) rest). apply (comm (++)). }
  rewrite Hpm in Hnd. apply NoDup_app in Hnd as (H1 & H2 & _). split; [done|].
  assert (forall q, q ∈ children_pages d m p i ++ child_pages d m p i ++ l -> q <> p) as Hp.
  { intros q Hq ->. apply (H2 p); [by rewrite <- (assoc_L (++))|]. rewrite elem_of_app. right. by left. }
  setoid_rewrite elem_of_app in Hp. setoid_rewrite elem_of_app in Hp.
  split; [|split]; intros Hin; by eapply (Hp p); auto.
Qed.

(** The state before round [i]. *)
Definition freewalk_inv (d : nat) (s : phys) (l : list Z) (p : Z) (i : nat) (s' : phys) : Prop :=
  kmem_ok s' (reverse (children_pages d (mem s) p i) ++ l) /\
  agree (fun a => (forall q, q ∈ children_pages d (mem s) p i -> ~ in_page q a) /\
                  ~ (p <= a < p + 8 * Z.of_nat i)) (mem s) (mem s').

Lemma freewalk_inv_entry d s l p i s' :
  freewalk_inv d s l p i s' -> (i < 512)%nat -> NoDup (tree_pages d (mem s) p ++ l) ->
  Forall freeable (tree_pages d (mem s) p) ->
  ld64 (mem s') (p + 8 * Z.of_nat i) = ld64 (mem s) (p + 8 * Z.of_nat i).
Proof.
  intros [_ Hag] Hi Hnd HF. apply (ld_ext 8). intros a Ha. apply Hag.
  destruct (children_fresh d (mem s) p i l Hi Hnd) as (_ & _ & Hp & _).
  rewrite Forall_forall in HF. split; [|lia]. intros q Hq Hqa.
  assert (pg_aligned q /\ pg_aligned p) as [? ?].
  { split; apply HF; rewrite tree_pages_eq, elem_of_app; [left|right; by left].
    apply elem_of_children in Hq as (j & Hj & Hq). apply elem_of_children. exists j. split; [lia|done]. }
  eapply (page_disjoint q p a); try done; [by intros ->|]. unfold in_page, PGSIZE. lia.
Qed.

Lemma freewalk_inv_tree d s l p i s' :
  freewalk_inv (S d) s l p i s' -> (i < 512)%nat -> NoDup (tree_pages (S d) (mem s) p ++ l) ->
  Forall freeable (tree_pages (S d) (mem s) p) -> tree_wf (S d) (mem s) p ->
  let e := ld64 (mem s) (p + 8 * Z.of_nat i) in
  has e PTE_V = true ->
  tree_pages d (mem s') (PTE2PA e) = tree_pages d (mem s) (PTE2PA e) /\
  tree_wf d (mem s') (PTE2PA e).
Proof.
  intros [_ Hag] Hi Hnd HF Hwf e HV.
  destruct (Hwf i Hi HV) as [_ Hwe]. rewrite Forall_forall in HF.
  destruct (children_fresh _ _ _ _ _ Hi Hnd) as (Hnd' & Hp & Hp' & _).
  unfold child_pages in Hnd', Hp. fold e in Hnd', Hp, Hwe. rewrite HV in Hnd', Hp.
  assert (forall j q, (j < 512)%nat -> q ∈ child_pages (S d) (mem s) p j -> pg_aligned q) as Hal.
  { intros j q Hj Hq. apply HF. rewrite tree_pages_eq, elem_of_app. left. apply elem_of_children.
    by exists j. }
  assert (pg_aligned p) as Hpa.
  { apply HF. rewrite tree_pages_eq, elem_of_app. right. by left. }
  destruct (tree_frame d (mem s) (mem s') (PTE2PA e)) as [H1 H2]; [|auto].
  intros q a Hq Ha. assert (pg_aligned q) as Hqa.
  { apply (Hal i); [done|]. unfold child_pages. fold e. by rewrite HV. }
  apply Hag. split.
  - intros r Hr Hra. apply (page_disjoint r q a); try done.
    + apply elem_of_children in Hr as (j & Hj & Hr). apply (Hal j); [lia|done].
    + intros ->. apply NoDup_app in Hnd' as (_ & Hd & _). apply (Hd q Hq).
      rewrite elem_of_app, elem_of_reverse. by left.
  - intros Hs. apply (page_disjoint q p a); try done; [by intros ->|]. unfold in_page, PGSIZE. lia.
Qed.

Lemma freewalk_inv_skip d s l p i s' :
  freewalk_inv d s l p i s' -> has (ld64 (mem s) (p + 8 * Z.of_nat i)) PTE_V = false ->
  freewalk_inv d s l p (S i) s'.
Proof.
  intros [Hk Hag] HV. unfold freewalk_inv. rewrite children_pages_S. unfold child_pages.
  rewrite HV, app_nil_r. split; [done|]. intros a [? ?]. apply Hag. split; [done|lia].
Qed.

(** Round [i] after the child's tree has been freed: the entry is cleared. *)
Lemma freewalk_inv_clear d s l p i s1 s2 :
  freewalk_inv d s l p i s1 -> (i < 512)%nat -> NoDup (tree_pages d (mem s) p ++ l) ->
  Forall freeable (tree_pages d (mem s) p) ->
  kmem_ok s2 (reverse (child_pages d (mem s) p i) ++ reverse (children_pages d (mem s) p i) ++ l) ->
  agree (fun a => forall q, q ∈ child_pages d (mem s) p i -> ~ in_page q a) (mem s1) (mem s2) ->
  freewalk_inv d s l p (S i) (s2 <| mem ::= fun m => st64 m (p + 8 * Z.of_nat i) 0 |>).
Proof.
  intros [_ Hag1] Hi Hnd HF Hk Hag2. unfold freewalk_inv.
  rewrite children_pages_S, reverse_app, <- (assoc_L (++)).
  destruct (children_fresh _ _ _ _ _ Hi Hnd) as (_ & Hp1 & Hp2 & Hp3). rewrite Forall_forall in HF. split.
  - eapply kmem_ok_frame; [done|apply (st64_page_agree _ p); lia|]. intros q a Hq Ha.
    apply (page_disjoint q p a); [by eapply kmem_ok_freeable| |intros ->|done].
    + apply HF. rewrite tree_pages_eq, elem_of_app. right. by left.
    + rewrite !elem_of_app, !elem_of_reverse in Hq. tauto.
  - intros a [Ha1 Ha2]. setoid_rewrite elem_of_app in Ha1. simpl.
    unfold st64. rewrite (st_agree 8) by (simpl; lia). rewrite Hag2 by auto. apply Hag1.
    split; [auto|lia].
Qed.

(** What a call frees, as a specification of the recursive function. *)
Definition frees_tree (d : nat) (rec : Z -> M phys unit) : Prop :=
  forall s l p (Q : unit -> phys -> Prop),
  kmem_ok s l -> tree_wf d (mem s) p ->
  NoDup (tree_pages d (mem s) p ++ l) -> Forall freeable (tree_pages d (mem s) p) ->
  (forall s', kmem_ok s' (reverse (tree_pages d (mem s) p) ++ l) ->
     agree (fun a => forall q, q ∈ tree_pages d (mem s) p -> ~ in_page q a) (mem s) (mem s') -> Q tt s') ->
  wp (rec p) Q s.

Lemma wp_freewalk_last d s l p s' (Q : unit -> phys -> Prop) :
  freewalk_inv d s l p 512 s' ->
  NoDup (tree_pages d (mem s) p ++ l) -> Forall freeable (tree_pages d (mem s) p) ->
  (forall s', kmem_ok s' (reverse (tree_pages d (mem s) p) ++ l) ->
     agree (fun a => forall q, q ∈ tree_pages d (mem s) p -> ~ in_page q a) (mem s) (mem s') -> Q tt s') ->
  wp (kfree p) Q s'.
Proof.
  intros [Hk Hag] Hnd HF HQ. rewrite tree_pages_eq, <- (assoc_L (++)) in Hnd.
  rewrite tree_pages_eq in *. rewrite reverse_app in HQ.
  apply NoDup_app in Hnd as (_ & Hd & Hnd). apply NoDup_cons in Hnd as [Hpl _].
  apply Forall_app in HF as [_ HF]. apply Forall_cons in HF as [Hp _].
  eapply wp_kfree; [exact Hk|done| |].
  - rewrite elem_of_app, elem_of_reverse. intros [Hin|]; [|done]. apply (Hd p Hin). by left.
  - intros s2 Hk2 Hag2. apply HQ; [done|]. intros a Ha. setoid_rewrite elem_of_app in Ha.
    rewrite Hag2 by (apply Ha; right; by left). apply Hag. split; [auto|].
    intros Hs. apply (Ha p); [right; by left|]. unfold in_page, PGSIZE. lia.
Qed.

Lemma wp_freewalk_round d s l p j s' rec (Q : unit -> phys -> Prop) :
  match d with O => True | S d' => frees_tree d' rec end ->
  freewalk_inv d s l p j s' -> (j < 512)%nat -> tree_wf d (mem s) p ->
  NoDup (tree_pages d (mem s) p ++ l) -> Forall freeable (tree_pages d (mem s) p) ->
  (forall s2, freewalk_inv d s l p (S j) s2 -> Q tt s2) ->
  wp (pte ← load64 (p + 8 * Z.of_nat j);
      if has pte PTE_V && negb (has pte (Z.lor (Z.lor PTE_R PTE_W) PTE_X)) then
        rec (PTE2PA pte);; store64 (p + 8 * Z.of_nat j) 0
      else if has pte PTE_V then panic "freewalk: leaf"
      else mret tt) Q s'.
Proof.
  intros Hrec Hinv Hj Hwf Hnd HF HQ. wp_step. do 2 wp_step. erewrite freewalk_inv_entry by done.
  destruct (has (ld64 (mem s) (p + 8 * Z.of_nat j)) PTE_V) eqn:HV.
  2: { simpl. wp_step. apply HQ. by apply freewalk_inv_skip. }
  destruct d as [|d]; [by destruct (Hwf j Hj HV) as [_ []]|].
  destruct (Hwf j Hj HV) as [-> _]. simpl andb. cbv iota. wp_step.
  destruct (freewalk_inv_tree _ _ _ _ _ _ Hinv Hj Hnd HF Hwf HV) as [Htp Htw].
  assert (child_pages (S d) (mem s) p j
          = tree_pages d (mem s) (PTE2PA (ld64 (mem s) (p + 8 * Z.of_nat j)))) as Hcp
    by (unfold child_pages; by rewrite HV).
  destruct (children_fresh _ _ _ _ _ Hj Hnd) as (Hnd' & _).
  eapply Hrec; [apply Hinv|done|by rewrite Htp, <- Hcp| |].
  { rewrite Htp, <- Hcp. rewrite Forall_forall in *. intros q Hq. apply HF.
    rewrite tree_pages_eq, elem_of_app, elem_of_children. left. by exists j. }
  intros s2 Hk2 Hag2. wp_steps. apply HQ. rewrite Htp, <- Hcp in Hk2, Hag2.
  by eapply freewalk_inv_clear.
Qed.

Lemma wp_freewalk_rec d f : (d < f)%nat -> frees_tree d (freewalk_rec f).
Proof.
  revert f. induction d as [|d IH]; intros [|f] Hf; try lia.
  all: intros s l p Q Hk Hwf Hnd HF HQ; cbn [freewalk_rec]; wp_step.
  all: eapply (wp_for_range (fun i s' => exists j : nat, i = Z.of_nat j /\ freewalk_inv _ s l p j s'));
    [exists 0%nat; split; [done|]; split; [done|apply agree_refl]| |].
  2, 4: intros s' (j & Hj & Hinv); replace j with 512%nat in Hinv by lia; by eapply wp_freewalk_last.
  all: intros i s' Hi (j & -> & Hinv); eapply wp_freewalk_round; try done; try lia.
  1: exact I. 2: apply IH; lia.
  all: intros s2 H2; exists (S j); split; [lia|exact H2].
Qed.

(** ** The tree of a page table without leaves *)

(** The tables below and including the table [(lv, x)]. *)
Definition under (T : tables) (lv x p : Z) : Prop :=
  exists l y, 0 <= l <= lv /\ y / 512 ^ (lv - l) = x /\ T !! (l, y) = Some p.

Lemma level0_entry m T root x q i :
  pt_ok m T root -> leaves_ok m T ∅ -> T !! (0, x) = Some q -> (i < 512)%nat ->
  ld64 m (q + 8 * Z.of_nat i) = 0.
Proof.
  intros Hpt [HA _] Hq Hi. specialize (HA (x * 512 + Z.of_nat i)). unfold pte_at in HA.
  rewrite Z.div_add_l, Z.div_small, Z.add_0_r, Hq in HA by lia.
  rewrite (Z.add_comm (x * 512)), Z.mod_add, Z.mod_small in HA by lia. exact HA.
Qed.

Lemma interior_child d m T root x q i :
  pt_ok m T root -> T !! (Z.of_nat (S d), x) = Some q -> (i < 512)%nat ->
  child_pages (S d) m q i =
  match T !! (Z.of_nat d, x * 512 + Z.of_nat i) with Some c => tree_pages d m c | None => [] end.
Proof.
  intros Hpt Hq Hi. unfold child_pages.
  rewrite (pt_interior _ _ _ Hpt _ _ _ (Z.of_nat i) Hq) by lia.
  replace (Z.of_nat (S d) - 1) with (Z.of_nat d) by lia.
  destruct (T !! (Z.of_nat d, x * 512 + Z.of_nat i)) as [c|] eqn:Hc; [|done]. rewrite mkpte_V_valid, PTE2PA_mkpte; [done| |done].
  by eapply freeable_page_addr, pt_page.
Qed.

Lemma ancestor m T root d l y p :
  pt_ok m T root -> T !! (l, y) = Some p -> l + Z.of_nat d <= 2 ->
  is_Some (T !! (l + Z.of_nat d, y / 512 ^ Z.of_nat d)).
Proof.
  intros Hpt. revert l y p. induction d as [|d IH]; intros l y p Hp Hl.
  - change (512 ^ Z.of_nat 0) with 1. rewrite Z.div_1_r, Z.add_0_r. by exists p.
  - destruct (pt_parent _ _ _ Hpt _ _ _ Hp) as [q Hq]; [lia|].
    specialize (IH _ _ _ Hq ltac:(lia)).
    rewrite Nat2Z.inj_succ, Z.pow_succ_r by lia. rewrite <- Z.div_div by lia.
    by replace (l + Z.succ (Z.of_nat d)) with (l + 1 + Z.of_nat d) by lia.
Qed.

Lemma under_S m T root d x q p :
  pt_ok m T root -> (S d <= 2)%nat -> T !! (Z.of_nat (S d), x) = Some q ->
  under T (Z.of_nat (S d)) x p <->
  p = q \/ exists (i : nat) c, (i < 512)%nat /\ T !! (Z.of_nat d, x * 512 + Z.of_nat i) = Some c /\
           under T (Z.of_nat d) (x * 512 + Z.of_nat i) p.
Proof.
  intros Hpt Hd Hq. split.
  - intros (l & y & Hl & Hy & Hp). destruct (decide (l = Z.of_nat (S d))) as [->|Hne].
    { left. rewrite Z.sub_diag in Hy. change (512 ^ 0) with 1 in Hy. rewrite Z.div_1_r in Hy. subst.
      congruence. }
    right. destruct (ancestor m T root (Z.to_nat (Z.of_nat d - l)) l y p Hpt Hp) as [c Hc]; [lia|].
    rewrite Z2Nat.id in Hc by lia. replace (l + (Z.of_nat d - l)) with (Z.of_nat d) in Hc by lia.
    set (z := y / 512 ^ (Z.of_nat d - l)) in *.
    assert (z / 512 = x) as Hz.
    { unfold z. rewrite Z.div_div by lia. rewrite <- Hy. f_equal.
      replace (Z.of_nat (S d) - l) with (Z.succ (Z.of_nat d - l)) by lia.
      rewrite Z.pow_succ_r by lia. lia. }
    pose proof (Z.div_mod z 512 ltac:(lia)). pose proof (Z.mod_pos_bound z 512 ltac:(lia)).
    exists (Z.to_nat (z `mod` 512)), c. rewrite Z2Nat.id by lia.
    replace (x * 512 + z `mod` 512) with z by lia. split; [lia|]. split; [done|].
    exists l, y. split; [lia|done].
  - intros [->|(i & c & Hi & _ & l & y & Hl & Hy & Hp)].
    + exists (Z.of_nat (S d)), x. rewrite Z.sub_diag. change (512 ^ 0) with 1.
      rewrite Z.div_1_r. split; [lia|done].
    + exists l, y. split; [lia|]. split; [|done].
      replace (Z.of_nat (S d) - l) with (Z.of_nat d - l + 1) by lia.
      rewrite Z.pow_add_r, <- Z.div_div, Hy by lia. change (512 ^ 1) with 512.
      by rewrite Z.div_add_l, Z.div_small, Z.add_0_r by lia.
Qed.

Lemma tree_of_tables m T root d : forall x q,
  pt_ok m T root -> leaves_ok m T ∅ -> (d <= 2)%nat -> T !! (Z.of_nat d, x) = Some q ->
  tree_wf d m q /\ (forall p, p ∈ tree_pages d m q <-> under T (Z.of_nat d) x p).
Proof.
  induction d as [|d IH]; intros x q Hpt HA Hd Hq; (split; [|intros p; rewrite tree_pages_eq, elem_of_app, elem_of_children, list_elem_of_singleton]).
  - intros i Hi. cbv zeta. by erewrite level0_entry by done.
  - split.
    + intros [(j & Hj & Hin)| ->].
      * unfold child_pages in Hin. erewrite level0_entry in Hin by done. by apply elem_of_nil in Hin.
      * exists 0, x. change (512 ^ (Z.of_nat 0 - 0)) with 1. rewrite Z.div_1_r. split; [lia|done].
    + intros (l & y & Hl & Hy & Hp). right. assert (l = 0) as -> by lia.
      change (512 ^ (Z.of_nat 0 - 0)) with 1 in Hy. rewrite Z.div_1_r in Hy. subst. change (Z.of_nat 0) with 0 in Hq. congruence.
  - intros i Hi. cbv zeta. rewrite (pt_interior _ _ _ Hpt _ _ _ (Z.of_nat i) Hq) by lia.
    replace (Z.of_nat (S d) - 1) with (Z.of_nat d) by lia.
    destruct (T !! (Z.of_nat d, x * 512 + Z.of_nat i)) as [c|] eqn:Hc; [|done]. intros _. rewrite has_mkpte by done. split; [done|].
    rewrite PTE2PA_mkpte; [|by eapply freeable_page_addr, pt_page|done]. eapply IH; [done|done|lia|done].
  - rewrite (under_S m T root d x q p) by done. split.
    + intros [(i & Hi & Hin)| ->]; [right|by left]. erewrite interior_child in Hin by done.
      destruct (T !! (Z.of_nat d, x * 512 + Z.of_nat i)) as [c|] eqn:Hc in Hin; [|by apply elem_of_nil in Hin].
      exists i, c. split; [done|]. split; [done|]. eapply (IH _ c); [done..|lia|done|done].
    + intros [->|(i & c & Hi & Hc & Hu)]; [by right|left]. exists i. split; [done|].
      erewrite interior_child, Hc by done. eapply (IH _ c); [done..|lia|done|done].
Qed.

Lemma under_unique m T root lv x x' p :
  pt_ok m T root -> under T lv x p -> under T lv x' p -> x = x'.
Proof.
  intros Hpt (l & y & _ & <- & Hp) (l' & y' & _ & <- & Hp').
  by pose proof (pt_inj _ _ _ Hpt _ _ _ Hp Hp') as [= -> ->].
Qed.

Lemma tree_NoDup m T root d : forall x q,
  pt_ok m T root -> leaves_ok m T ∅ -> (d <= 2)%nat -> T !! (Z.of_nat d, x) = Some q ->
  NoDup (tree_pages d m q).
Proof.
  induction d as [|d IH]; intros x q Hpt HA Hd Hq; rewrite tree_pages_eq.
  - assert (children_pages 0 m q 512 = []) as ->; [|apply NoDup_singleton].
    apply elem_of_nil_inv. intros p (j & Hj & Hin)%elem_of_children. unfold child_pages in Hin.
    erewrite level0_entry in Hin by done. by apply elem_of_nil in Hin.
  - assert (forall j p, (j < 512)%nat -> p ∈ child_pages (S d) m q j ->
      under T (Z.of_nat d) (x * 512 + Z.of_nat j) p) as Hun.
    { intros j p Hj Hp. erewrite interior_child in Hp by done.
      destruct (T !! (Z.of_nat d, x * 512 + Z.of_nat j)) as [c|] eqn:Hc; [|by apply elem_of_nil in Hp].
      eapply (tree_of_tables m T root d _ c); [done..|lia|done|done]. }
    assert (forall n, (n <= 512)%nat -> NoDup (children_pages (S d) m q n)) as Hch.
    { induction n as [|n IHn]; intros Hn; [constructor|]. rewrite children_pages_S.
      apply NoDup_app. split; [apply IHn; lia|]. split.
      - intros p (j & Hj & Hp)%elem_of_children Hp'. apply Hun in Hp, Hp'; [|lia..].
        pose proof (under_unique _ _ _ _ _ _ _ Hpt Hp Hp'). lia.
      - erewrite interior_child by done.
        destruct (T !! (Z.of_nat d, x * 512 + Z.of_nat n)) as [c|] eqn:Hc; [|constructor].
        eapply IH; [done..|lia|done]. }
    apply NoDup_app. split; [by apply Hch|]. split; [|apply NoDup_singleton].
    intros p (j & Hj & Hp)%elem_of_children ->%list_elem_of_singleton.
    apply Hun in Hp as (l & y & Hl & _ & Hp); [|done].
    pose proof (pt_inj _ _ _ Hpt _ _ _ Hp Hq) as [=]. lia.
Qed.

Lemma under_root m T root p : pt_ok m T root -> under T 2 0 p <-> is_table T p.
Proof.
  intros Hpt. split.
  - intros (l & y & _ & _ & Hp). by exists (l, y).
  - intros [[l y] Hp]. destruct (pt_key _ _ _ Hpt _ _ _ Hp) as (Hl & _).
    exists l, y. split; [lia|]. split; [|done].
    destruct (ancestor m T root (Z.to_nat (2 - l)) l y p Hpt Hp) as [c Hc]; [lia|].
    rewrite Z2Nat.id in Hc by lia. replace (l + (2 - l)) with 2 in Hc by lia.
    by apply (pt_key _ _ _ Hpt) in Hc as (_ & _ & ->).
Qed.

Lemma wp_freewalk s l root T (Q : unit -> phys -> Prop) :
  aspace s l root T ∅ ->
  (forall s' l', kmem_ok s' l' -> (forall p, p ∈ l' <-> p ∈ l \/ is_table T p) ->
     agree (outside T) (mem s) (mem s') -> Q tt s') ->
  wp (freewalk root) Q s.
Proof.
  intros (Hk & Hpt & HA & Hd) HQ. pose proof (pt_root _ _ _ Hpt) as Hr.
  destruct (tree_of_tables _ _ _ 2 0 root Hpt HA ltac:(lia) Hr) as [Hwf Hel].
  pose proof (tree_NoDup _ _ _ 2 0 root Hpt HA ltac:(lia) Hr) as Hnd.
  assert (forall p, p ∈ tree_pages 2 (mem s) root <-> is_table T p) as Hin.
  { intros p. rewrite Hel. by apply (under_root (mem s) T root). }
  eapply (wp_freewalk_rec 2 64); [lia|exact Hk|done| | |].
  - apply NoDup_app. split; [done|]. split; [|apply Hk]. intros p Hp. by apply Hd, Hin.
  - apply Forall_forall. intros p Hp%Hin. destruct Hp as [k Hp]. by eapply pt_page.
  - intros s' Hk' Hag. eapply HQ; [exact Hk'| |].
    + intros p. rewrite elem_of_app, elem_of_reverse, Hin. tauto.
    + eapply agree_sub; [done|]. intros a Ha p [k Hp]%Hin. by eapply Ha.
Qed.
End freewalk.
