(* ===== verification/UserMem.v ===== *)
(** * User memory: the theorems about kernel/vm.c

    On top of the page-table invariant of PageTable.v this file tracks who
    owns each physical page: the free list, the tables, or the leaves of an
    address space.  [framed] says that an operation neither loses nor steals a
    page and writes to no page that is not its own.  [uview] is the memory a
    user program sees, in which a page below [sz] that has not been allocated
    yet reads as zeroes; lazy allocation is correct because it does not change
    this view. *)

From S2P Require Import Prelude CMem Riscv Kalloc Vm PageTable Freewalk.

(** The first virtual page that is not part of user memory. *)
Definition UV : Z := TRAPFRAME / PGSIZE.

(** The memory a user program sees through the leaves [A] when the size of the
    process is [sz]. *)
Definition uview (m : memory) (A : leaves) (sz va : Z) : option Z :=
  match A !! vpn_of va with
  | Some e => if has e PTE_U then Some (ldb m (PTE2PA e + va `mod` PGSIZE)) else None
  | None => if va - va `mod` PGSIZE <? sz then Some 0 else None
  end.

(** The pages of the free list, of the tables, and of user memory. *)
Definition own (l : list Z) (T : tables) (A : leaves) (q : Z) : Prop :=
  q ∈ l \/ is_table T q \/ exists v e, A !! v = Some e /\ v < UV /\ PTE2PA e = q.

Definition framed (s : phys) (l : list Z) (T : tables) (A : leaves)
    (s' : phys) (l' : list Z) (T' : tables) (A' : leaves) : Prop :=
  (forall q, own l T A q <-> own l' T' A' q) /\
  agree (fun a => forall q, own l T A q -> ~ in_page q a) (mem s) (mem s').

(** The contents of the user pages of [A] are the same. *)
Definition ukeep (A : leaves) (m m' : memory) : Prop :=
  forall v e, A !! v = Some e -> v < UV -> agree (in_page (PTE2PA e)) m m'.

Section usermem.
Context {KL : KLayout}.

(** User pages are distinct pages of the allocation area, neither free nor
    tables, and nothing from [TRAPFRAME] up is accessible to the user. *)
Record uown (l : list Z) (T : tables) (A : leaves) : Prop := {
  uo_page : forall v e, A !! v = Some e -> v < UV ->
    freeable (PTE2PA e) /\ (PTE2PA e ∉ l) /\ ~ is_table T (PTE2PA e);
  uo_inj : forall v v' e e', A !! v = Some e -> A !! v' = Some e' -> v < UV -> v' < UV ->
    PTE2PA e = PTE2PA e' -> v = v';
  uo_priv : forall v e, A !! v = Some e -> UV <= v -> has e PTE_U = false
}.

Definition uspace (s : phys) (l : list Z) (root : Z) (T : tables) (A : leaves) : Prop :=
  aspace s l root T A /\ uown l T A.

(** ** framed *)

Lemma framed_refl s l T A : framed s l T A s l T A.
Proof. split; [done|apply agree_refl]. Qed.

Lemma framed_trans s l T A s1 l1 T1 A1 s2 l2 T2 A2 :
  framed s l T A s1 l1 T1 A1 -> framed s1 l1 T1 A1 s2 l2 T2 A2 -> framed s l T A s2 l2 T2 A2.
Proof.
  intros [H1 Ha1] [H2 Ha2]. split; [intros q; by rewrite H1|].
  eapply agree_trans; [done|]. eapply agree_sub; [done|]. intros a Ha q Hq. by apply Ha, H1.
Qed.

Lemma framed_own s l T A s' l' T' A' l2 T2 A2 :
  framed s l T A s' l' T' A' -> (forall q, own l' T' A' q <-> own l2 T2 A2 q) ->
  framed s l T A s' l2 T2 A2.
Proof. intros [H1 Ha] H2. split; [|done]. intros q. by rewrite H1. Qed.

Lemma framed_write s l T A m' p :
  own l T A p -> agree (fun a => ~ in_page p a) (mem s) m' ->
  framed s l T A (s <| mem := m' |>) l T A.
Proof. intros Hp Hag. split; [done|]. eapply agree_sub; [done|]. intros a Ha. by apply Ha. Qed.

Lemma framed_agree s l T A s' (P : Z -> Prop) :
  agree P (mem s) (mem s') -> (forall a, (forall q, own l T A q -> ~ in_page q a) -> P a) ->
  framed s l T A s' l T A.
Proof. intros Hag HP. split; [done|]. by eapply agree_sub. Qed.

Lemma grows_framed F s l T A s' l' T' :
  grows s l T s' l' T' -> framed s (F ++ l) T A s' (F ++ l') T' A.
Proof.
  intros ((k & -> & Hk) & Hag). split.
  - intros q. unfold own. rewrite !elem_of_app, Hk. tauto.
  - eapply agree_sub; [done|]. intros a Ha kk p Hp. apply Ha. unfold own.
    rewrite !elem_of_app. assert (is_table T' p) as [?|?]%Hk by (by exists kk); tauto.
Qed.

Lemma grows_uown s l T A s' l' T' : grows s l T s' l' T' -> uown l T A -> uown l' T' A.
Proof.
  intros ((k & -> & Hk) & Hag) [H1 H2 H3]. split; [|done|done].
  intros v e He Hv. destruct (H1 v e He Hv) as (? & Hni & Hnt). rewrite elem_of_app in Hni.
  split; [done|]. split; [tauto|]. rewrite Hk. tauto.
Qed.

Lemma grows_ukeep s l root T A s' l' T' :
  grows s l T s' l' T' -> aspace s' l' root T' A -> uown l T A -> ukeep A (mem s) (mem s').
Proof.
  intros Hg (_ & Hpt & _) Ho v e He Hv. pose proof (grows_uown _ _ _ _ _ _ _ Hg Ho) as Ho'.
  destruct (uo_page _ _ _ Ho' v e He Hv) as ([Hal _] & _ & Hnt). destruct Hg as [_ Hag].
  eapply agree_sub; [done|]. intros a Ha. eapply outside_in_page; [|done..].
  intros p. by eapply pt_ok_aligned.
Qed.

Lemma ukeep_trans A m1 m2 m3 : ukeep A m1 m2 -> ukeep A m2 m3 -> ukeep A m1 m3.
Proof. intros H1 H2 v e He Hv. eapply agree_trans; [by eapply H1|by eapply H2]. Qed.

Lemma ukeep_refl A m : ukeep A m m.
Proof. intros v e _ _. apply agree_refl. Qed.

(** A write to a page that is not a user page. *)
Lemma ukeep_write l T A m m' p :
  uown l T A -> pg_aligned p -> (forall v e, A !! v = Some e -> v < UV -> PTE2PA e <> p) ->
  agree (fun a => ~ in_page p a) m m' -> ukeep A m m'.
Proof.
  intros Ho Hp Hne Hag v e He Hv. eapply agree_sub; [done|]. intros a Ha.
  eapply page_disjoint; [|done|by eapply Hne|done]. by eapply uo_page.
Qed.

(** ** uview *)

Lemma vpn_offset va : va = vpn_of va * PGSIZE + va `mod` PGSIZE.
Proof. unfold vpn_of, PGSIZE. pose proof (Z.div_mod va 4096 ltac:(lia)). lia. Qed.

Lemma offset_in_page p va : in_page p (p + va `mod` PGSIZE).
Proof. unfold in_page, PGSIZE. pose proof (Z.mod_pos_bound va 4096 ltac:(lia)). lia. Qed.

Lemma uview_keep l T A m m' sz va :
  uown l T A -> ukeep A m m' -> uview m' A sz va = uview m A sz va.
Proof.
  intros Ho Hk. unfold uview. destruct (A !! vpn_of va) as [e|] eqn:He; [|done].
  destruct (has e PTE_U) eqn:HU; [|done]. f_equal. apply (Hk _ _ He); [|apply offset_in_page].
  destruct (decide (vpn_of va < UV)); [done|]. apply (uo_priv _ _ _ Ho) in He; [congruence|lia].
Qed.

(** ** Releasing user pages *)

Lemma uown_releasable n l T A vpn :
  uown l T A -> NoDup l -> vpn + Z.of_nat n <= UV -> releasable n l T A vpn.
Proof.
  intros Ho Hl Hn. split.
  - apply NoDup_app. split; [|split; [|done]].
    + induction n as [|n IH]; [constructor|]. cbn [range_pages]. apply NoDup_app.
      split; [unfold leaf_page; case_match; [apply NoDup_singleton|constructor]|].
      split; [|apply IH; lia]. intros p (e & He & ->)%elem_of_leaf_page.
      intros (v & e' & Hv & He' & Hpe)%elem_of_range_pages.
      pose proof (uo_inj _ _ _ Ho _ _ _ _ He He' ltac:(lia) ltac:(lia) Hpe). lia.
    + intros p (v & e & Hv & He & ->)%elem_of_range_pages. by apply (uo_page _ _ _ Ho v e He); lia.
  - intros p (v & e & Hv & He & ->)%elem_of_range_pages.
    destruct (uo_page _ _ _ Ho v e He) as (? & ? & ?); [lia|done].
Qed.

Lemma uown_unmap n l T A vpn :
  uown l T A -> vpn + Z.of_nat n <= UV -> uown (range_pages n A vpn ++ l) T (unmap_range n A vpn).
Proof.
  intros [H1 H2 H3] Hn. split.
  - intros v e He Hv. rewrite lookup_unmap_range in He. case_decide; [done|].
    destruct (H1 v e He Hv) as (? & ? & ?). split; [done|]. split; [|done].
    rewrite elem_of_app. intros [(v' & e' & Hv' & He' & Hpe)%elem_of_range_pages|]; [|done].
    pose proof (H2 _ _ _ _ He He' Hv ltac:(lia) Hpe). lia.
  - intros v v' e e' He He'. rewrite lookup_unmap_range in He, He'.
    do 2 case_decide; try done. by apply H2.
  - intros v e He. rewrite lookup_unmap_range in He. case_decide; [done|]. by apply H3.
Qed.

Lemma own_unmap n l T A vpn q :
  vpn + Z.of_nat n <= UV ->
  own l T A q <-> own (range_pages n A vpn ++ l) T (unmap_range n A vpn) q.
Proof.
  intros Hn. unfold own. rewrite elem_of_app, elem_of_range_pages. split.
  - intros [?|[?|(v & e & He & Hv & <-)]]; [tauto..|].
    destruct (decide (vpn <= v < vpn + Z.of_nat n)).
    + left. left. by exists v, e.
    + right. right. exists v, e. rewrite lookup_unmap_range, decide_False by lia. done.
  - intros [[(v & e & Hv & He & ->)|?]|[?|(v & e & He & Hv & <-)]]; [|tauto..|].
    + right. right. exists v, e. split; [done|]. split; [lia|done].
    + rewrite lookup_unmap_range in He. case_decide; [done|]. right. right. by exists v, e.
Qed.

Lemma wp_uvmunmap_user n s l root T A va (Q : unit -> phys -> Prop) :
  uspace s l root T A -> 0 <= n -> 0 <= va -> pg_aligned va -> va + n * PGSIZE <= TRAPFRAME ->
  (forall s' l', let A' := unmap_range (Z.to_nat n) A (vpn_of va) in
     l' = range_pages (Z.to_nat n) A (vpn_of va) ++ l ->
     uspace s' l' root T A' -> framed s l T A s' l' T A' -> ukeep A' (mem s) (mem s') -> Q tt s') ->
  wp (uvmunmap root va n true) Q s.
Proof.
  intros [Has Ho] Hn Hva Hal Hend HQ.
  assert (vpn_of va + Z.of_nat (Z.to_nat n) <= UV) as Hr.
  { rewrite Z2Nat.id by done. unfold UV, vpn_of, pg_aligned, PGSIZE in *.
    change TRAPFRAME with ((2 ^ 26 - 2) * 4096) in *. rewrite Z.div_mul by lia.
    Z.div_mod_to_equations. lia. }
  eapply wp_uvmunmap; [done..| | |].
  - change MAXVA with (TRAPFRAME + 8192). unfold PGSIZE in *. lia.
  - intros _. apply uown_releasable; [done|apply Has|done].
  - cbn [given_back]. intros s' Has' Hag. pose proof (uown_unmap _ _ _ _ _ Ho Hr) as Ho'.
    eapply HQ; [done|by split| |].
    + split; [intros q; by apply own_unmap|]. eapply agree_sub; [done|].
      intros a Ha. split; [intros k p Hp|intros p Hp]; apply Ha; unfold own.
      * right. left. by exists k.
      * right. right. apply elem_of_range_pages in Hp as (v & e & Hv & He & ->).
        exists v, e. split; [done|]. split; [lia|done].
    + intros v e He Hv. destruct (uo_page _ _ _ Ho' v e He Hv) as ([Hea _] & Hni & Hnt).
      eapply agree_sub; [done|]. intros a Ha. split.
      * eapply outside_in_page; [|done..]. intros p. eapply pt_ok_aligned, Has.
      * intros p Hp Hpa. apply (page_disjoint p (PTE2PA e) a); try done.
        -- eapply kmem_ok_freeable; [apply Has'|]. rewrite elem_of_app. by left.
        -- intros ->. apply Hni. rewrite elem_of_app. by left.
Qed.

(** ** Mapping a fresh page

    The sequence [kalloc], initialise the page, [mappages] one page, and on
    failure [kfree], is shared by [uvmalloc], [uvmcopy] and [vmfault]. *)

Lemma uown_insert p l T A v flags :
  uown l T A -> freeable p -> p ∉ l -> ~ is_table T p ->
  (forall v' e, A !! v' = Some e -> v' < UV -> PTE2PA e <> p) ->
  v < UV -> 0 <= flags < 1024 -> uown l T (<[v := mkpte p flags]> A).
Proof.
  intros [H1 H2 H3] Hp Hni Hnt Hfr Hv Hfl.
  pose proof (PTE2PA_mkpte p flags (freeable_page_addr _ Hp) Hfl) as Hpa. split.
  - intros v' e He Hv'. apply lookup_insert_Some in He as [[_ <-]|[_ He]]; [by rewrite Hpa|by eapply H1].
  - intros v1 v2 e1 e2 He1 He2. apply lookup_insert_Some in He1, He2.
    destruct He1 as [[<- <-]|[? He1]], He2 as [[<- <-]|[? He2]]; rewrite ?Hpa; try done.
    + intros _ Hv2 Heq. by destruct (Hfr v2 e2 He2 Hv2).
    + intros Hv1 _ Heq. by destruct (Hfr v1 e1 He1 Hv1).
    + by apply H2.
  - intros v' e He Hv'. apply lookup_insert_Some in He as [[<- _]|[_ He]]; [lia|by eapply H3].
Qed.

Lemma own_insert p l T A v flags q :
  freeable p -> 0 <= flags < 1024 -> A !! v = None -> v < UV ->
  own (p :: l) T A q <-> own l T (<[v := mkpte p flags]> A) q.
Proof.
  intros Hp Hfl Hn Hv. pose proof (PTE2PA_mkpte p flags (freeable_page_addr _ Hp) Hfl) as Hpa.
  unfold own. rewrite elem_of_cons. split.
  - intros [[->|?]|[?|(v' & e & He & Hv' & <-)]]; [|tauto..|].
    + right. right. exists v, (mkpte p flags). by rewrite lookup_insert_eq.
    + right. right. exists v', e. rewrite lookup_insert_ne; [done|]. intros ->. congruence.
  - intros [?|[?|(v' & e & He & Hv' & <-)]]; [tauto..|].
    apply lookup_insert_Some in He as [[_ <-]|[_ He]]; [rewrite Hpa; tauto|].
    right. right. by exists v', e.
Qed.

Lemma TRAPFRAME_vpn a : 0 <= a < TRAPFRAME -> vpn_of a < UV /\ 0 <= a < MAXVA.
Proof.
  change MAXVA with (TRAPFRAME + 8192). unfold UV, vpn_of, PGSIZE.
  change TRAPFRAME with ((2 ^ 26 - 2) * 4096). rewrite Z.div_mul by lia.
  intros H. Z.div_mod_to_equations. lia.
Qed.

(** The pages of the free list are not user pages. *)
Lemma uown_fresh l T A p : uown l T A -> p ∈ l ->
  forall v e, A !! v = Some e -> v < UV -> PTE2PA e <> p.
Proof. intros Ho Hp v e He Hv Heq. subst p. by destruct (uo_page _ _ _ Ho v e He Hv) as (_ & ? & _). Qed.

Lemma uown_sub l l' T A : uown l T A -> (forall q, q ∈ l' -> q ∈ l) -> uown l' T A.
Proof.
  intros [H1 H2 H3] Hs. split; [|done|done]. intros v e He Hv.
  destruct (H1 v e He Hv) as (? & ? & ?). split; [done|]. split; [|done]. intros Hin. auto.
Qed.

Lemma uown_cons p l T A : uown l T A ->
  (forall v e, A !! v = Some e -> v < UV -> PTE2PA e <> p) -> uown (p :: l) T A.
Proof.
  intros [H1 H2 H3] Hp. split; [|done|done]. intros v e He Hv.
  destruct (H1 v e He Hv) as (? & ? & ?). split; [done|]. split; [|done].
  rewrite elem_of_cons. intros [Heq|]; [|done]. by eapply Hp.
Qed.

Lemma wp_alloc_map {B} s l root T A a perm (ini : Z -> memory -> memory) (val : Z -> Z)
    (f0 f1 : M phys B) (k : Z -> M phys B) Q :
  uspace s l root T A -> 0 <= a < TRAPFRAME -> pg_aligned a -> 0 <= perm < 1024 ->
  A !! vpn_of a = None ->
  (forall p m1, p ∈ l -> agree (fun a => ~ in_page p a) (mem s) m1 ->
     agree (fun a => ~ in_page p a) m1 (ini p m1) /\
     forall i, 0 <= i < PGSIZE -> ldb (ini p m1) (p + i) = val i) ->
  (l = [] -> wp f0 Q s) ->
  (forall s' p T', uspace s' [p] root T' A -> framed s l T A s' [p] T' A ->
     ukeep A (mem s) (mem s') -> wp f1 Q s') ->
  (forall s' p l' T', let A' := <[vpn_of a := mkpte p (Z.lor perm PTE_V)]> A in
     freeable p -> uspace s' l' root T' A' -> framed s l T A s' l' T' A' ->
     ukeep A (mem s) (mem s') ->
     (forall i, 0 <= i < PGSIZE -> ldb (mem s') (p + i) = val i) -> wp (k p) Q s') ->
  wp (m ← kalloc;
      if m =? 0 then f0
      else modify (fun s => s <| mem ::= ini m |>);;
           r ← mappages root a PGSIZE m perm;
           if negb (r =? 0) then kfree m;; f1 else k m) Q s.
Proof.
  intros [Has Ho] Ha Hal Hperm Hn Hini Hf0 Hf1 Hk.
  eapply wp_bind, wp_kalloc_aspace; [done|by intros ->; apply Hf0|].
  intros p l1 s1 -> Hp Hpl Hpt Has1 Hag1.
  destruct (Z.eqb_spec p 0) as [->|_]; [by apply freeable_nonzero in Hp|].
  destruct (Hini p (mem s1)) as [Hag2 Hval]; [left|done|].
  assert (forall v e, A !! v = Some e -> v < UV -> PTE2PA e <> p) as Hfr
    by (eapply uown_fresh; [done|left]).
  wp_step. wp_step. set (s2 := s1 <| mem ::= ini p |>).
  assert (agree (fun a => ~ in_page p a) (mem s) (mem s2)) as Hag by (by eapply agree_trans).
  assert (aspace s2 l1 root T A) as Has2 by (eapply aspace_frame_page; [done|apply Hp|done..]).
  assert (uown l1 T A) as Ho1 by (eapply uown_sub; [done|]; intros q Hq; by right).
  assert (framed s (p :: l1) T A s2 (p :: l1) T A) as Hfrm2.
  { eapply framed_agree; [exact Hag|]. intros b Hb. apply Hb. left. left. }
  assert (ukeep A (mem s) (mem s2)) as Hk2 by (eapply ukeep_write; [done|apply Hp|done..]).
  destruct (TRAPFRAME_vpn a Ha) as [HUV HMV].
  wp_step. change (mappages root a PGSIZE p perm) with (mappages root a (1 * PGSIZE) p perm).
  assert (page_addr p) as Hpp by by apply freeable_page_addr.
  eapply (wp_mappages 1); [exact Has2|lia|lia|done| |done| |done| | |].
  - change MAXVA with (TRAPFRAME + 8192). unfold PGSIZE. lia.
  - destruct (freeable_pos p Hp). unfold PHYSTOP, KERNBASE, PGSIZE in *. lia.
  - intros v Hv. by assert (v = vpn_of a) as -> by lia.
  - intros s3 T3 j Hj Hg _ Has3. assert (j = 0%nat) as -> by lia. cbn [map_range] in Has3.
    simpl. wp_step. assert (uown [] T3 A) as Ho3 by by eapply grows_uown.
    pose proof (grows_framed [p] _ _ _ A _ _ _ Hg) as Hf3.
    assert (~ is_table T3 p) as Hnt3.
    { destruct Hg as ((kk & Hl & Hkk) & _). rewrite Hkk. rewrite app_nil_r in Hl. subst kk. tauto. }
    eapply wp_kfree_aspace; [done|done|by apply not_elem_of_nil|done|]. intros s4 Has4 Hag4. eapply Hf1.
    + split; [done|]. by apply uown_cons.
    + eapply framed_trans; [exact Hfrm2|]. eapply framed_trans; [exact Hf3|].
      eapply framed_agree; [exact Hag4|]. intros b Hb. apply Hb. left. left.
    + eapply ukeep_trans; [done|]. eapply ukeep_trans; [by eapply grows_ukeep|].
      eapply ukeep_write; [exact Ho3|apply Hp|done..].
  - intros s3 l3 T3 Hg _ Has3. change (Z.to_nat 1) with 1%nat in Has3. cbn [map_range] in Has3.
    rewrite !Z.add_0_r in Has3. simpl negb. cbv iota.
    assert (uown l3 T3 A) as Ho3 by by eapply grows_uown.
    pose proof (grows_framed [p] _ _ _ A _ _ _ Hg) as Hf3. pose proof (perm_V_range _ Hperm) as Hpv.
    destruct Hg as ((kk & Hl & Hkk) & Hag3). subst l1. rewrite elem_of_app in Hpl.
    assert (~ is_table T3 p) as Hnt3 by (rewrite Hkk; tauto).
    assert (agree (in_page p) (mem s2) (mem s3)) as Hagp.
    { eapply agree_sub; [exact Hag3|]. intros b Hb. eapply outside_in_page; [|apply Hp|done|done].
      intros q. eapply pt_ok_aligned. apply Has3. }
    eapply Hk; [done| | | |].
    + split; [done|]. apply uown_insert; try done. tauto.
    + eapply framed_trans; [exact Hfrm2|]. eapply framed_own; [exact Hf3|]. intros q.
      by apply own_insert.
    + eapply ukeep_trans; [done|]. intros v e He Hv. destruct (uo_page _ _ _ Ho3 v e He Hv) as ([Hea _] & _ & Hnt).
      eapply agree_sub; [exact Hag3|]. intros b Hb. eapply outside_in_page; [|exact Hea|done|done].
      intros q. eapply pt_ok_aligned. apply Has3.
    + intros i Hi. rewrite <- (Hval i Hi). apply Hagp. unfold in_page. lia.
Qed.

(** ** vmfault *)

Definition fault_flags : Z := Z.lor (Z.lor (Z.lor PTE_W PTE_U) PTE_R) PTE_V.

Lemma uview_zero_page l T A m m' v p flags sz va :
  uown l T A -> ukeep A m m' -> A !! v = None -> v * PGSIZE < sz -> freeable p ->
  0 <= flags < 1024 -> has flags PTE_U = true ->
  (forall i, 0 <= i < PGSIZE -> ldb m' (p + i) = 0) ->
  uview m' (<[v := mkpte p flags]> A) sz va = uview m A sz va.
Proof.
  intros Ho Hk Hn Hsz Hp Hfl HU Hz. destruct (decide (vpn_of va = v)) as [<-|Hne].
  - unfold uview. rewrite lookup_insert_eq, Hn, has_mkpte by done.
    rewrite PTE2PA_mkpte by (done || by apply freeable_page_addr).
    pose proof (vpn_offset va). destruct (Z.ltb_spec (va - va `mod` PGSIZE) sz); [|lia].
    rewrite HU. f_equal.
    apply Hz. unfold PGSIZE. apply Z.mod_pos_bound. lia.
  - rewrite <- (uview_keep l T A m m') by done. unfold uview. by rewrite lookup_insert_ne.
Qed.

Lemma wp_ismapped s l root T A va (Q : bool -> phys -> Prop) :
  aspace s l root T A -> 0 <= va < MAXVA -> Q (bool_decide (is_Some (A !! vpn_of va))) s ->
  wp (ismapped root va) Q s.
Proof.
  intros Has Hva HQ. unfold ismapped. eapply wp_walk_read; [done..| |].
  - intros _ Hn. wp_step. by rewrite Hn in HQ.
  - intros q Hq. wp_step. destruct (A !! vpn_of va) as [e|] eqn:He; [|done].
    simpl. rewrite bool_decide_eq_true_2 in HQ by done.
    replace (has e PTE_V) with true; [done|]. symmetry. by eapply Has.
Qed.

Lemma PGROUNDDOWN_vpn va : PGROUNDDOWN va = vpn_of va * PGSIZE.
Proof. rewrite PGROUNDDOWN_eq. pose proof (vpn_offset va). lia. Qed.

Lemma vpn_of_PGROUNDDOWN va : vpn_of (PGROUNDDOWN va) = vpn_of va.
Proof. rewrite PGROUNDDOWN_vpn. unfold vpn_of, PGSIZE. by rewrite Z.div_mul. Qed.

Lemma PGROUNDDOWN_le va : 0 <= va -> 0 <= PGROUNDDOWN va <= va.
Proof.
  intros H. rewrite PGROUNDDOWN_eq. unfold PGSIZE. Z.div_mod_to_equations. lia.
Qed.

(** Why a page is not there after [vmfault] returned 0. *)
Definition fault_refused (A : leaves) (sz va : Z) (l' : list Z) : Prop :=
  sz <= va \/ is_Some (A !! vpn_of va) \/ (length l' <= 1)%nat.

Lemma wp_vmfault s l root T A sz va (Q : Z -> phys -> Prop) :
  uspace s l root T A -> 0 <= va -> sz <= TRAPFRAME ->
  (forall s' l' T', uspace s' l' root T' A -> framed s l T A s' l' T' A -> ukeep A (mem s) (mem s') ->
     fault_refused A sz va l' -> Q 0 s') ->
  (forall s' l' T' p, let A' := <[vpn_of va := mkpte p fault_flags]> A in
     va < sz -> A !! vpn_of va = None -> freeable p ->
     uspace s' l' root T' A' -> framed s l T A s' l' T' A' -> ukeep A (mem s) (mem s') ->
     (forall va', uview (mem s') A' sz va' = uview (mem s) A sz va') -> Q p s') ->
  wp (vmfault (mkvmproc sz root) root va) Q s.
Proof.
  intros Hu Hva Hsz H0 H1. unfold vmfault. simpl vp_sz. simpl vp_pagetable.
  assert (fault_refused A sz va l -> Q 0 s) as Hsame.
  { intros Hr. eapply H0; [done|apply framed_refl|apply ukeep_refl|done]. }
  destruct (Z.leb_spec sz va) as [Hge|Hlt]; [wp_step; apply Hsame; by left|].
  pose proof (PGROUNDDOWN_le va Hva) as Hrd. cbv zeta. wp_step.
  destruct (TRAPFRAME_vpn (PGROUNDDOWN va) ltac:(lia)) as [HUV HMV].
  eapply wp_ismapped; [apply Hu|done|]. rewrite vpn_of_PGROUNDDOWN in *.
  destruct (bool_decide_reflect (is_Some (A !! vpn_of va))) as [Hs|Hn].
  { wp_step. apply Hsame. right. by left. }
  apply eq_None_not_Some in Hn.
  eapply (wp_alloc_map _ _ _ _ _ _ _ (fun p m => memset m p 0 PGSIZE) (fun _ => 0)); try done.
  - lia.
  - apply PGROUNDDOWN_aligned.
  - by rewrite vpn_of_PGROUNDDOWN.
  - intros p m1 Hp Hag. split; [apply memset_page_agree|]. intros i Hi.
    rewrite memset_spec by done. by rewrite decide_True by lia.
  - intros ->. wp_step. apply Hsame. right. right. simpl. lia.
  - intros s' p T' Hu' Hf Hk. wp_step. eapply H0; [done..|]. right. right. simpl. lia.
  - rewrite vpn_of_PGROUNDDOWN. intros s' p l' T' A' Hp Hu' Hf Hk Hz. wp_step. eapply H1; try done.
    intros va'. eapply uview_zero_page; try done; [apply Hu|].
    pose proof (PGROUNDDOWN_vpn va). lia.
Qed.

(** ** walkaddr and the page a copy works on *)

Lemma wp_walkaddr s l root T A va (Q : Z -> phys -> Prop) :
  aspace s l root T A -> 0 <= va ->
  Q (if va <? MAXVA then
       match A !! vpn_of va with
       | Some e => if has e PTE_U then PTE2PA e else 0
       | None => 0
       end
     else 0) s ->
  wp (walkaddr root va) Q s.
Proof.
  intros Has Hva HQ. unfold walkaddr.
  destruct (Z.ltb_spec va MAXVA) as [Hlt|Hge].
  2: { destruct (Z.leb_spec MAXVA va); [|lia]. by wp_step. }
  rewrite MAXVA_leb by done. eapply wp_walk_read; [done|lia| |].
  - intros _ Hn. wp_step. by rewrite Hn in HQ.
  - intros q Hq. destruct (A !! vpn_of va) as [e|] eqn:He; simpl default; [|rewrite has_0; simpl; by wp_step].
    assert (has e PTE_V = true) as -> by by eapply Has. simpl negb. cbv iota.
    destruct (has e PTE_U); simpl; by wp_step.
Qed.

Lemma wp_walkaddr_user s l root T A va (Q : Z -> phys -> Prop) :
  uspace s l root T A -> 0 <= va ->
  (forall e, A !! vpn_of va = Some e -> has e PTE_U = true -> vpn_of va < UV ->
     PTE2PA e <> 0 -> Q (PTE2PA e) s) ->
  ((forall e, A !! vpn_of va = Some e -> has e PTE_U = false) -> Q 0 s) ->
  wp (walkaddr root (PGROUNDDOWN va)) Q s.
Proof.
  intros [Has Ho] Hva H1 H0. pose proof (PGROUNDDOWN_le va Hva).
  eapply wp_walkaddr; [done|lia|]. rewrite vpn_of_PGROUNDDOWN.
  destruct (A !! vpn_of va) as [e|] eqn:He; [|destruct (_ <? _); by apply H0].
  destruct (has e PTE_U) eqn:HU.
  2: { destruct (_ <? _); apply H0; intros ? [= <-]; done. }
  assert (vpn_of va < UV) as Hlt.
  { destruct (decide (vpn_of va < UV)); [done|]. apply (uo_priv _ _ _ Ho) in He; [congruence|lia]. }
  rewrite (proj2 (Z.ltb_lt _ _)); [|rewrite PGROUNDDOWN_vpn; change MAXVA with (2 ^ 38);
    change UV with (2 ^ 26 - 2) in Hlt; unfold PGSIZE; lia].
  apply H1; try done. apply freeable_nonzero. by eapply uo_page.
Qed.

(** The first lines of the loop bodies of [copyin] and [copyout]: the physical
    page of a user address, allocated on demand. *)
Lemma wp_user_page {B} s l root T A sz va (k : Z -> M phys B) Q :
  uspace s l root T A -> 0 <= va -> sz <= TRAPFRAME ->
  (forall s' l' T', uspace s' l' root T' A -> framed s l T A s' l' T' A -> ukeep A (mem s) (mem s') ->
     uview (mem s) A sz va = None \/ (length l' <= 1)%nat -> wp (k 0) Q s') ->
  (forall s' l' T' A' e, uspace s' l' root T' A' -> framed s l T A s' l' T' A' ->
     (forall va', uview (mem s') A' sz va' = uview (mem s) A sz va') ->
     A' !! vpn_of va = Some e -> has e PTE_U = true -> vpn_of va < UV ->
     (forall v e, A' !! v = Some e -> A !! v = Some e \/ has e PTE_W = true) ->
     wp (k (PTE2PA e)) Q s') ->
  wp (pa0 ← walkaddr root (PGROUNDDOWN va);
      pa0 ← (if pa0 =? 0 then vmfault (mkvmproc sz root) root (PGROUNDDOWN va) else mret pa0);
      k pa0) Q s.
Proof.
  intros Hu Hva Hsz Hfail Hok. pose proof (PGROUNDDOWN_le va Hva) as Hrd.
  eapply wp_bind, wp_walkaddr_user; [done|done| |].
  { intros e He HU Hlt Hnz. destruct (Z.eqb_spec (PTE2PA e) 0); [done|]. wp_step. wp_step.
    eapply Hok; [done|apply framed_refl|done|done|done|done|by left]. }
  intros HU. simpl. wp_step. eapply wp_vmfault; [done|lia|done| |].
  - intros s' l' T' Hu' Hf Hk Hr. eapply Hfail; [done..|].
    unfold fault_refused in Hr. rewrite vpn_of_PGROUNDDOWN, PGROUNDDOWN_eq in Hr.
    destruct Hr as [Hge|[[e He]|Hl]]; [left|left|by right]; unfold uview.
    + destruct (A !! vpn_of va) as [e|] eqn:He; [by rewrite (HU e)|].
      by destruct (Z.ltb_spec (va - va `mod` PGSIZE) sz); [lia|].
    + by rewrite He, (HU e).
  - rewrite vpn_of_PGROUNDDOWN. intros s' l' T' p A' Hlt Hn Hp Hu' Hf Hk Hv.
    destruct (TRAPFRAME_vpn (PGROUNDDOWN va)) as [Hlv _]; [lia|]. rewrite vpn_of_PGROUNDDOWN in Hlv.
    rewrite <- (PTE2PA_mkpte p fault_flags (freeable_page_addr _ Hp) ltac:(done)).
    eapply Hok; [done|done|done|apply lookup_insert_eq|by rewrite has_mkpte|done|].
    intros v e [[_ <-]|[_ ?]]%lookup_insert_Some; [right; by rewrite has_mkpte|by left].
Qed.
End usermem.
