(* ===== verification/UserCopy.v ===== *)
(** * Copies between the kernel and user memory

    [copyin], [copyout] and [copyinstr] read and write the memory view of
    UserMem.v, whatever the user passes as address and length. *)

From S2P Require Import Prelude CMem Riscv Kalloc Vm PageTable Freewalk UserMem.

Section usercopy.
Context {KL : KLayout}.

Lemma offset_eq va : va - PGROUNDDOWN va = va `mod` PGSIZE.
Proof. rewrite PGROUNDDOWN_eq. lia. Qed.

Lemma offset_range va : 0 <= va `mod` PGSIZE < PGSIZE.
Proof. unfold PGSIZE. apply Z.mod_pos_bound. lia. Qed.

Lemma same_page va i :
  0 <= i < PGSIZE - va `mod` PGSIZE ->
  vpn_of (va + i) = vpn_of va /\ (va + i) `mod` PGSIZE = va `mod` PGSIZE + i.
Proof.
  unfold vpn_of, PGSIZE. intros H. pose proof (Z.div_mod va 4096 ltac:(lia)) as Hd.
  pose proof (Z.mod_pos_bound va 4096 ltac:(lia)).
  assert (va + i = (va `mod` 4096 + i) + va / 4096 * 4096) as -> by lia.
  rewrite Z.div_add, Z.mod_add, Z.div_small, Z.mod_small by lia. lia.
Qed.

Lemma uview_page m A sz va e i :
  A !! vpn_of va = Some e -> has e PTE_U = true -> 0 <= i < PGSIZE - va `mod` PGSIZE ->
  uview m A sz (va + i) = Some (ldb m (PTE2PA e + va `mod` PGSIZE + i)).
Proof.
  intros He HU Hi. destruct (same_page va i Hi) as [Hv Hm]. unfold uview.
  rewrite Hv, He, HU, Hm. do 2 f_equal. lia.
Qed.

(** The bytes [bs] are what the user sees from [va] on. *)
Definition sees (view : Z -> option Z) (va : Z) (bs : list Z) : Prop :=
  forall i b, bs !! i = Some b -> view (va + Z.of_nat i) = Some b.

Lemma sees_app view va bs bs' :
  sees view va bs -> sees view (va + Z.of_nat (length bs)) bs' -> sees view va (bs ++ bs').
Proof.
  intros H1 H2 i b Hi. apply lookup_app_Some in Hi as [?|[Hge Hi]]; [by apply H1|].
  apply H2 in Hi. rewrite <- Hi. f_equal. lia.
Qed.

Lemma ld_bytes_lookup n m a i b : ld_bytes n m a !! i = Some b -> b = ldb m (a + Z.of_nat i) /\ (i < n)%nat.
Proof.
  revert a i. induction n as [|n IH]; intros a i Hi; simpl in Hi; [done|].
  destruct i as [|i]; simpl in Hi.
  - injection Hi as <-. rewrite Z.add_0_r. split; [done|lia].
  - apply IH in Hi as [-> ?]. split; [f_equal; lia|lia].
Qed.

Lemma sees_page m A sz va e n :
  A !! vpn_of va = Some e -> has e PTE_U = true -> Z.of_nat n <= PGSIZE - va `mod` PGSIZE ->
  sees (uview m A sz) va (ld_bytes n m (PTE2PA e + va `mod` PGSIZE)).
Proof.
  intros He HU Hn i b Hi. apply ld_bytes_lookup in Hi as [-> Hlt].
  apply uview_page; [done|done|lia].
Qed.

(** The state a copy has reached: the address space may have gained (writable)
    pages, the view is [view]. *)
Definition copying (s : phys) (l : list Z) (root : Z) (T : tables) (A : leaves) (sz : Z)
    (view : Z -> option Z) (s' : phys) (l' : list Z) : Prop :=
  exists T' A', uspace s' l' root T' A' /\ framed s l T A s' l' T' A' /\
  (forall va, uview (mem s') A' sz va = view va) /\
  (forall v e, A' !! v = Some e -> A !! v = Some e \/ has e PTE_W = true).

Lemma copying_start s l root T A sz :
  uspace s l root T A -> copying s l root T A sz (uview (mem s) A sz) s l.
Proof.
  intros Hu. exists T, A. split; [done|]. split; [apply framed_refl|]. split; [done|]. by left.
Qed.

(** One page more: what [wp_user_page] establishes composes with a copy in
    progress. *)
Lemma copying_page s l root T A sz view s1 l1 T1 A1 s' l' T' A' :
  framed s l T A s1 l1 T1 A1 -> (forall va, uview (mem s1) A1 sz va = view va) ->
  (forall v e, A1 !! v = Some e -> A !! v = Some e \/ has e PTE_W = true) ->
  uspace s' l' root T' A' -> framed s1 l1 T1 A1 s' l' T' A' ->
  (forall va', uview (mem s') A' sz va' = uview (mem s1) A1 sz va') ->
  (forall v e, A' !! v = Some e -> A1 !! v = Some e \/ has e PTE_W = true) ->
  copying s l root T A sz view s' l'.
Proof.
  intros Hf1 Hv1 HW1 Hu' Hf' Hv' HW'. exists T', A'. split; [done|].
  split; [by eapply framed_trans|]. split; [intros y; by rewrite Hv'|].
  intros v e He. destruct (HW' v e He); [by apply HW1|by right].
Qed.

Lemma chunk_bounds va len :
  0 < len ->
  let n := if len <? PGSIZE - va `mod` PGSIZE then len else PGSIZE - va `mod` PGSIZE in
  0 < n <= len /\ n <= PGSIZE - va `mod` PGSIZE /\
  (n < len -> va + n = PGROUNDDOWN va + PGSIZE).
Proof.
  intros Hl. pose proof (offset_range va). pose proof (PGROUNDDOWN_eq va).
  destruct (Z.ltb_spec len (PGSIZE - va `mod` PGSIZE)); cbv zeta; lia.
Qed.

Lemma wp_copyin s l root T A sz srcva len (Q : Z * list Z -> phys -> Prop) :
  uspace s l root T A -> sz <= TRAPFRAME -> 0 <= srcva -> is_u64 len ->
  (forall s' l' dst, copying s l root T A sz (uview (mem s) A sz) s' l' ->
     Z.of_nat (length dst) < len -> sees (uview (mem s) A sz) srcva dst ->
     uview (mem s) A sz (srcva + Z.of_nat (length dst)) = None \/ (length l' <= 1)%nat ->
     Q (-1, dst) s') ->
  (forall s' l' dst, copying s l root T A sz (uview (mem s) A sz) s' l' ->
     Z.of_nat (length dst) = len -> sees (uview (mem s) A sz) srcva dst -> Q (0, dst) s') ->
  wp (copyin (mkvmproc sz root) root srcva len) Q s.
Proof.
  intros Hu Hsz Hva Hlen Hfail Hok. unfold copyin.
  apply (wp_loop (fun n '(va, rest, dst) s1 => exists l1,
    copying s l root T A sz (uview (mem s) A sz) s1 l1 /\
    rest = len - Z.of_nat (length dst) /\ 0 <= rest /\ n = rest + 1 /\
    sees (uview (mem s) A sz) srcva dst /\
    (0 < rest -> va = srcva + Z.of_nat (length dst)))) with (n := len + 1).
  2: { unfold is_u64 in Hlen. lia. }
  2: { exists l. split; [by apply copying_start|]. unfold is_u64 in Hlen. simpl.
       repeat split; try lia. by intros i b Hi. }
  intros n [[va rest] dst] s1 (l1 & (T1 & A1 & Hu1 & Hf1 & Hv1 & HW1) & Hrest & Hr0 & -> & Hsee & Hva1).
  split; [lia|]. destruct (Z.eqb_spec rest 0) as [->|Hne].
  { wp_step. eapply Hok; [by exists T1, A1|lia|done]. }
  rewrite Hva1 by lia. set (x := srcva + Z.of_nat (length dst)).
  cbv zeta. rewrite offset_eq. eapply wp_user_page; [done|lia|done| |].
  - intros s' l' T' Hu' Hf' Hk Hr. simpl. wp_step. eapply Hfail; [|lia|done|].
    + eapply copying_page; try done; [|by left]. intros y. eapply uview_keep; [apply Hu1|done].
    + by rewrite <- Hv1.
  - intros s' l' T' A' e Hu' Hf' Hv' He HU Hlt HW'.
    destruct (uo_page _ _ _ (proj2 Hu') _ _ He Hlt) as (Hfe%freeable_nonzero & _).
    destruct (Z.eqb_spec (PTE2PA e) 0); [done|].
    destruct (chunk_bounds x rest ltac:(lia)) as (Hn0 & Hn1 & Hn2).
    set (n1 := if rest <? _ then _ else _) in *. cbv beta iota zeta. wp_step. wp_step. wp_step. wp_step.
    exists (rest - n1 + 1). split; [lia|]. exists l'. rewrite length_app, ld_bytes_length.
    split; [|split; [lia|split; [lia|split; [done|split]]]].
    + by eapply copying_page.
    + apply sees_app; [done|]. fold x. intros i b Hi.
      rewrite <- Hv1, <- Hv'. eapply sees_page; [done|done| |done]. lia.
    + intros Hpos. rewrite <- Hn2 by lia. unfold x. unfold u64. rewrite Z.mod_small; [lia|].
      destruct (TRAPFRAME_vpn 0 ltac:(done)).
      pose proof (vpn_offset x). pose proof (offset_range x).
      change UV with (2 ^ 26 - 2) in Hlt. unfold PGSIZE in *. lia.
Qed.

(** ** copyout *)

(** The view after [bs] has been written at [va]. *)
Definition write_view (view : Z -> option Z) (va : Z) (bs : list Z) (x : Z) : option Z :=
  if decide (va <= x < va + Z.of_nat (length bs)) then bs !! Z.to_nat (x - va) else view x.

Lemma write_view_nil view va x : write_view view va [] x = view x.
Proof. unfold write_view. rewrite decide_False; [done|]. simpl. lia. Qed.

Lemma write_view_app view va bs bs' x :
  write_view (write_view view va bs) (va + Z.of_nat (length bs)) bs' x = write_view view va (bs ++ bs') x.
Proof.
  unfold write_view. rewrite length_app. repeat case_decide; try lia; try done.
  - rewrite lookup_app_r by lia. f_equal. lia.
  - by rewrite lookup_app_l by lia.
Qed.

Lemma write_view_ext view view' va bs x :
  (forall y, view y = view' y) -> write_view view va bs x = write_view view' va bs x.
Proof. intros H. unfold write_view. by rewrite H. Qed.

Lemma vpn_mod_eq x y : vpn_of x = vpn_of y -> x - y = x `mod` PGSIZE - y `mod` PGSIZE.
Proof. intros H. pose proof (vpn_offset x). pose proof (vpn_offset y). lia. Qed.

Lemma uview_store s l root T A sz va e bs :
  uspace s l root T A -> A !! vpn_of va = Some e -> has e PTE_U = true -> vpn_of va < UV ->
  Forall is_byte bs -> Z.of_nat (length bs) <= PGSIZE - va `mod` PGSIZE ->
  let s' := s <| mem ::= fun m => st_bytes m (PTE2PA e + va `mod` PGSIZE) bs |> in
  uspace s' l root T A /\ framed s l T A s' l T A /\
  (forall x, uview (mem s') A sz x = write_view (uview (mem s) A sz) va bs x).
Proof.
  intros [Has Ho] He HU Hlt Hbs Hlen s'. pose proof (offset_range va) as Hoff.
  destruct (uo_page _ _ _ Ho _ _ He Hlt) as (Hfe & Hni & Hnt).
  set (a := PTE2PA e + va `mod` PGSIZE) in *.
  assert (agree (fun b => ~ in_page (PTE2PA e) b) (mem s) (mem s')) as Hag.
  { eapply agree_sub; [apply (st_bytes_agree bs _ a)|]. unfold in_page, a. intros b Hb. lia. }
  split; [split; [eapply aspace_frame_page; [done|apply Hfe|done..]|done]|].
  split; [eapply framed_write; [|done]; right; right; by exists (vpn_of va), e|].
  intros x. unfold write_view.
  destruct (decide (vpn_of x = vpn_of va)) as [Hv|Hv].
  - pose proof (vpn_mod_eq x va Hv) as Hm. unfold uview at 1. rewrite Hv, He, HU. simpl.
    case_decide as Hx.
    + rewrite <- (ldb_st_bytes bs (mem s) a) by (done || lia). unfold a. do 2 f_equal. lia.
    + rewrite st_bytes_agree by (unfold a; lia). unfold uview. by rewrite Hv, He, HU.
  - rewrite decide_False.
    2: { intros Hx. apply Hv. replace x with (va + (x - va)) by lia. apply same_page. lia. }
    unfold uview. destruct (A !! vpn_of x) as [e'|] eqn:He'; [|done].
    destruct (has e' PTE_U) eqn:HU'; [|done]. f_equal. apply Hag.
    assert (vpn_of x < UV) as Hlt'.
    { destruct (decide (vpn_of x < UV)); [done|]. apply (uo_priv _ _ _ Ho) in He'; [congruence|lia]. }
    apply (page_disjoint (PTE2PA e')); [by eapply (uo_page _ _ _ Ho)|apply Hfe| |apply offset_in_page].
    intros Heq. apply Hv. by eapply (uo_inj _ _ _ Ho).
Qed.

Lemma Forall_take_drop (P : Z -> Prop) n bs :
  Forall P bs -> Forall P (take n bs) /\ Forall P (drop n bs).
Proof. intros H. split; [by apply Forall_take|by apply Forall_drop]. Qed.

(** A user address the kernel refuses to write to. *)
Definition unwritable (m : memory) (A : leaves) (sz va : Z) : Prop :=
  uview m A sz va = None \/ exists e, A !! vpn_of va = Some e /\ has e PTE_W = false.

(** No user page lies at or beyond [MAXVA]. *)
Lemma uview_beyond s l root T A sz m x :
  uspace s l root T A -> sz <= TRAPFRAME -> MAXVA <= PGROUNDDOWN x -> uview m A sz x = None.
Proof.
  intros [_ Ho] Hsz Hbig. rewrite PGROUNDDOWN_vpn in Hbig. change MAXVA with (2 ^ 38) in Hbig. unfold uview.
  destruct (A !! vpn_of x) as [e|] eqn:He.
  - by rewrite (uo_priv _ _ _ Ho _ _ He) by (change UV with (2 ^ 26 - 2); unfold PGSIZE in *; lia).
  - pose proof (vpn_offset x). change TRAPFRAME with (2 ^ 38 - 8192) in Hsz.
    destruct (Z.ltb_spec (x - x `mod` PGSIZE) sz); [unfold PGSIZE in *; lia|done].
Qed.

(** Reading the entry of a mapped page through [walk]. *)
Lemma wp_read_pte {B} s l root T A x e (k : Z -> M phys B) Q :
  uspace s l root T A -> 0 <= x -> PGROUNDDOWN x < MAXVA -> A !! vpn_of x = Some e ->
  wp (k e) Q s -> wp (pte ← walk root (PGROUNDDOWN x) false; e ← deref64 pte; k e) Q s.
Proof.
  intros [Has _] Hx Hmax He HQ. eapply wp_bind, wp_walk_lookup; [apply Has|pose proof (PGROUNDDOWN_le x); lia|].
  destruct (T !! (0, pfx 0 (PGROUNDDOWN x))) as [q|] eqn:Hq.
  - unfold deref64. erewrite slot_nonzero by (done || apply Has). do 3 wp_step.
    erewrite pte_load by (done || apply Has). rewrite vpn_of_PGROUNDDOWN, He. done.
  - apply (no_table_no_leaf _ _ _ _ _ _ Has) in Hq. rewrite vpn_of_PGROUNDDOWN in Hq. congruence.
Qed.

(** A chunk stored in a mapped page extends the part of [src] that is copied. *)
Lemma copying_chunk s l root T A sz dstva src n n1 s' l' T' A' e :
  let x := dstva + Z.of_nat n in
  (n <= length src)%nat -> Forall is_byte src ->
  uspace s' l' root T' A' -> framed s l T A s' l' T' A' ->
  (forall y, uview (mem s') A' sz y = write_view (uview (mem s) A sz) dstva (take n src) y) ->
  (forall v e, A' !! v = Some e -> A !! v = Some e \/ has e PTE_W = true) ->
  A' !! vpn_of x = Some e -> has e PTE_U = true -> vpn_of x < UV -> Z.of_nat n1 <= PGSIZE - x `mod` PGSIZE ->
  copying s l root T A sz (write_view (uview (mem s) A sz) dstva (take (n + n1) src))
    (s' <| mem ::= fun m => st_bytes m (PTE2PA e + x `mod` PGSIZE) (take n1 (drop n src)) |>) l'.
Proof.
  intros x Hn Hbs Hu Hf Hv HW He HU Hlt Hn1. destruct (Forall_take_drop _ n src Hbs) as [_ Hbd].
  destruct (uview_store s' l' root T' A' sz x e (take n1 (drop n src))) as (Hu2 & Hf2 & Hv2); try done.
  { by apply Forall_take. }
  { rewrite length_take. lia. }
  exists T', A'. split; [done|]. split; [by eapply framed_trans|]. split; [|done]. intros y. rewrite Hv2, (write_view_ext _ _ _ _ _ Hv).
  rewrite <- take_take_drop, <- write_view_app. rewrite length_take. unfold x. by replace (n `min` length src)%nat with n by lia.
Qed.

Lemma wp_copyout s l root T A sz dstva src (Q : Z -> phys -> Prop) :
  uspace s l root T A -> sz <= TRAPFRAME -> 0 <= dstva -> Forall is_byte src ->
  is_u64 (Z.of_nat (length src)) ->
  (forall s' l' n, copying s l root T A sz (write_view (uview (mem s) A sz) dstva (take n src)) s' l' ->
     (n < length src)%nat ->
     unwritable (mem s) A sz (dstva + Z.of_nat n) \/ (length l' <= 1)%nat -> Q (-1) s') ->
  (forall s' l', copying s l root T A sz (write_view (uview (mem s) A sz) dstva src) s' l' -> Q 0 s') ->
  wp (copyout (mkvmproc sz root) root dstva src) Q s.
Proof.
  intros Hu Hsz Hva Hbs Hlen Hfail Hok. unfold copyout. unfold is_u64 in Hlen.
  apply (wp_loop (fun c '(va, rest) s1 => exists l1 n,
    copying s l root T A sz (write_view (uview (mem s) A sz) dstva (take n src)) s1 l1 /\
    rest = drop n src /\ (n <= length src)%nat /\ c = Z.of_nat (length rest) + 1 /\
    (rest <> [] -> va = dstva + Z.of_nat n))) with (n := Z.of_nat (length src) + 1); [|lia|].
  2: { exists l, 0%nat. rewrite take_0. split; [|split; [done|split; [lia|split; [done|lia]]]].
       destruct (copying_start s l root T A sz Hu) as (T' & A' & ? & ? & Hv & ?).
       exists T', A'. do 2 (split; [done|]). split; [|done]. intros y. by rewrite write_view_nil. }
  intros c [va rest] s1 (l1 & n & (T1 & A1 & Hu1 & Hf1 & Hv1 & HW1) & -> & Hn & -> & Hva1).
  split; [lia|]. cbv zeta. destruct (Z.eqb_spec (Z.of_nat (length (drop n src))) 0) as [H0|H0].
  { wp_step. rewrite length_drop in H0. eapply (Hok _ l1). exists T1, A1. do 2 (split; [done|]).
    split; [|done]. intros y. by rewrite Hv1, take_ge by lia. }
  assert (drop n src <> []) as Hne by (intros E; by rewrite E in H0). rewrite Hva1 by done. clear Hva1.
  rewrite length_drop in *. set (x := dstva + Z.of_nat n) in *.
  assert (forall s' l', copying s l root T A sz (write_view (uview (mem s) A sz) dstva (take n src)) s' l' ->
    unwritable (mem s) A sz x \/ (length l' <= 1)%nat -> Q (-1) s') as Hbad.
  { intros s' l' Hc Hr. eapply Hfail; [done|lia|done]. }
  assert (uview (mem s1) A1 sz x = uview (mem s) A sz x) as Hx.
  { rewrite Hv1. unfold write_view. rewrite decide_False; [done|]. rewrite length_take. unfold x. lia. }
  rewrite offset_eq.
  destruct (Z.leb_spec MAXVA (PGROUNDDOWN x)) as [Hbig|Hsmall].
  { wp_step. eapply Hbad; [by exists T1, A1|]. left. left. rewrite <- Hx. by eapply uview_beyond. }
  eapply wp_user_page; [done|lia|done| |].
  - intros s' l' T' Hu' Hf' Hk Hr. simpl. wp_step. eapply (Hbad s' l').
    + eapply copying_page; try done; [|by left]. intros y. eapply uview_keep; [apply Hu1|done].
    + rewrite Hx in Hr. destruct Hr as [Hr|Hr]; [left; by left|by right].
  - intros s' l' T' A' e Hu' Hf' Hv' He HU Hlt HW'.
    destruct (uo_page _ _ _ (proj2 Hu') _ _ He Hlt) as (Hfe%freeable_nonzero & _).
    destruct (Z.eqb_spec (PTE2PA e) 0); [done|].
    eapply wp_read_pte; [done|unfold x; lia|lia|done|].
    destruct (has e PTE_W) eqn:HW; simpl negb; cbv iota.
    2: { wp_step. eapply (Hbad s' l'); [by eapply copying_page|]. left. right. exists e.
         split; [|done]. destruct (HW' _ _ He) as [He1|?]; [|congruence].
         destruct (HW1 _ _ He1); [done|congruence]. }
    destruct (chunk_bounds x (Z.of_nat (length src - n)) ltac:(lia)) as (Hn0 & Hn1 & Hn2).
    set (n1 := if Z.of_nat (length src - n) <? _ then _ else _) in *. wp_steps.
    exists (Z.of_nat (length (drop (Z.to_nat n1) (drop n src))) + 1).
    rewrite !length_drop. split; [lia|]. exists l', (n + Z.to_nat n1)%nat.
    split; [|split; [by rewrite drop_drop|split; [lia|split; [lia|]]]].
    + eapply copying_chunk; [lia|done|done|by eapply framed_trans|intros y; by rewrite Hv'| |done|done|done|fold x; lia].
      intros v e' He'. destruct (HW' v e' He'); [by apply HW1|by right].
    + intros Hnn. rewrite <- Hn2.
      * unfold x. unfold u64. rewrite Z.mod_small; [lia|]. pose proof (vpn_offset x).
        pose proof (offset_range x). change UV with (2 ^ 26 - 2) in Hlt. unfold PGSIZE in *. lia.
      * destruct (decide (n1 < Z.of_nat (length src - n))); [done|].
        destruct Hnn. apply nil_length_inv. rewrite !length_drop. lia.
Qed.

(** ** copyinstr *)

Lemma copyinstr_page_spec n m p bs got :
  copyinstr_page n m p = (bs, got) ->
  (forall i b, bs !! i = Some b -> b = ldb m (p + Z.of_nat i)) /\
  (if got then exists bs', bs = bs' ++ [0] /\ (0 ∉ bs') /\ (length bs <= n)%nat
   else (0 ∉ bs) /\ length bs = n).
Proof.
  revert p bs. induction n as [|n IH]; intros p bs Hc; simpl in Hc.
  { injection Hc as <- <-. split; [done|]. split; [apply not_elem_of_nil|done]. }
  destruct (Z.eqb_spec (ldb m p) 0) as [H0|H0].
  - injection Hc as <- <-. split.
    + intros [|i] b Hb; simpl in Hb; [|done]. injection Hb as <-. by rewrite Z.add_0_r.
    + exists []. split; [done|]. split; [apply not_elem_of_nil|simpl; lia].
  - destruct (copyinstr_page n m (p + 1)) as [bs1 got1] eqn:H1. injection Hc as <- <-.
    destruct (IH _ _ H1) as [Hl Hg]. split.
    + intros [|i] b Hb; simpl in Hb; [injection Hb as <-; by rewrite Z.add_0_r|].
      apply Hl in Hb as ->. f_equal. lia.
    + destruct got1.
      * destruct Hg as (bs' & -> & Hn & Hlen). exists (ldb m p :: bs'). split; [done|].
        split; [by apply not_elem_of_cons|]. simpl in *. lia.
      * destruct Hg as [Hn Hlen]. split; [by apply not_elem_of_cons|]. simpl. lia.
Qed.

(** The bytes [copyinstr] delivers: a prefix of user memory without NUL,
    followed by the NUL if it succeeded. *)
Definition string_result (view : Z -> option Z) (va max r : Z) (dst : list Z) : Prop :=
  sees view va dst /\ Z.of_nat (length dst) <= max /\
  ((r = 0 /\ exists bs, dst = bs ++ [0] /\ 0 ∉ bs) \/ (r = -1 /\ 0 ∉ dst)).

Lemma wp_copyinstr s l root T A sz srcva max (Q : Z * list Z -> phys -> Prop) :
  uspace s l root T A -> 0 <= srcva -> is_u64 max ->
  (forall r dst, string_result (uview (mem s) A sz) srcva max r dst ->
     (r = -1 -> Z.of_nat (length dst) = max \/
        forall e, A !! vpn_of (srcva + Z.of_nat (length dst)) = Some e -> has e PTE_U = false) ->
     Q (r, dst) s) ->
  wp (copyinstr root srcva max) Q s.
Proof.
  intros Hu Hva Hmax HQ. unfold copyinstr. unfold is_u64 in Hmax.
  apply (wp_loop (fun n '(va, rest, dst) s1 => s1 = s /\
    rest = max - Z.of_nat (length dst) /\ 0 <= rest /\ n = rest + 1 /\
    sees (uview (mem s) A sz) srcva dst /\ (0 ∉ dst) /\
    (0 < rest -> va = srcva + Z.of_nat (length dst)))) with (n := max + 1); [|lia|].
  2: { simpl. split; [done|]. split; [lia|]. split; [lia|]. split; [lia|].
       split; [by intros i b Hi|]. split; [apply not_elem_of_nil|lia]. }
  intros n [[va rest] dst] s1 (-> & Hrest & Hr0 & -> & Hsee & Hnul & Hva1).
  split; [lia|]. destruct (Z.eqb_spec rest 0) as [->|Hne].
  { wp_step. apply HQ; [split; [done|split; [lia|by right]]|]. intros _. left. lia. }
  rewrite Hva1 by lia. clear Hva1. set (x := srcva + Z.of_nat (length dst)).
  cbv zeta. rewrite offset_eq. eapply wp_bind, wp_walkaddr_user; [done|lia| |].
  2: { intros HU. simpl. wp_step. apply HQ; [split; [done|split; [lia|by right]]|]. intros _. by right. }
  intros e He HU Hlt Hnz. destruct (Z.eqb_spec (PTE2PA e) 0); [done|].
  destruct (chunk_bounds x rest ltac:(lia)) as (Hn0 & Hn1 & Hn2).
  set (n1 := if rest <? _ then _ else _) in *. wp_step. wp_step.
  destruct (copyinstr_page (Z.to_nat n1) (mem s) (PTE2PA e + x `mod` PGSIZE)) as [bs got] eqn:Hc.
  destruct (copyinstr_page_spec _ _ _ _ _ Hc) as [Hl Hg].
  assert ((length bs <= Z.to_nat n1)%nat) as Hbl by (destruct got; [by destruct Hg as (? & _ & _ & ?)|lia]).
  assert (sees (uview (mem s) A sz) srcva (dst ++ bs)) as Hs.
  { apply sees_app; [done|]. fold x. intros i b Hi. pose proof (lookup_lt_Some _ _ _ Hi).
    rewrite (Hl i b Hi). apply uview_page; [done|done|lia]. }
  destruct got; wp_step.
  - destruct Hg as (bs' & -> & Hn & _). rewrite length_app in *. simpl in *. apply HQ; [|done].
    split; [done|]. rewrite !length_app. simpl. split; [lia|]. left. split; [done|].
    exists (dst ++ bs'). rewrite (assoc_L (++)). split; [done|]. rewrite elem_of_app. tauto.
  - destruct Hg as [Hn Hlen]. exists (rest - n1 + 1). split; [lia|]. split; [done|].
    rewrite length_app, Hlen. split; [lia|]. split; [lia|]. split; [done|]. split; [done|].
    split; [rewrite elem_of_app; tauto|]. intros Hpos. rewrite <- Hn2 by lia. unfold x, u64.
    rewrite Z.mod_small; [lia|]. pose proof (vpn_offset x). pose proof (offset_range x).
    change UV with (2 ^ 26 - 2) in Hlt. unfold PGSIZE in *. lia.
Qed.
End usercopy.
