(* ===== verification/UserSpace.v ===== *)
(** * Growing, shrinking, copying and freeing a user address space

    The theorems about [uvmcreate], [uvmalloc], [uvmdealloc], [uvmfree] and
    [uvmcopy] of kernel/vm.c. *)

From S2P Require Import Prelude CMem Riscv Kalloc Vm PageTable Freewalk UserMem.

Section userspace.
Context {KL : KLayout}.

(** ** PGROUNDUP on process sizes *)

Lemma pgroundup_user sz :
  0 <= sz <= TRAPFRAME ->
  pg_aligned (PGROUNDUP sz) /\ sz <= PGROUNDUP sz <= TRAPFRAME /\ PGROUNDUP sz < sz + PGSIZE.
Proof.
  intros H. unfold pg_aligned. change TRAPFRAME with ((2 ^ 26 - 2) * 4096) in *.
  rewrite PGROUNDUP_eq by (unfold PGSIZE; lia). unfold PGSIZE.
  rewrite Z.mod_mul by lia. Z.div_mod_to_equations. lia.
Qed.

Lemma aligned_vpn a : pg_aligned a -> vpn_of a * PGSIZE = a.
Proof. unfold pg_aligned, vpn_of, PGSIZE. intros H. Z.div_mod_to_equations. lia. Qed.

(** ** uvmcreate *)

Lemma empty_table s p l : kmem_ok s l -> freeable p -> p ∉ l ->
  (forall i, 0 <= i < 512 -> ld64 (mem s) (p + 8 * i) = 0) -> uspace s l p {[(2, 0) := p]} ∅.
Proof.
  intros Hk Hp Hni Hz.
  assert (forall k q, ({[(2, 0) := p]} : tables) !! k = Some q -> k = (2, 0) /\ q = p) as Hs.
  { intros k q [<- <-]%lookup_singleton_Some. done. }
  split; [split; [done|split; [split|split; [split|]]]|split; done].
  - apply lookup_singleton_eq.
  - intros l0 x q [[= -> ->] _]%Hs. lia.
  - intros k q [_ ->]%Hs. done.
  - intros k k' q [-> _]%Hs [-> _]%Hs. done.
  - intros l0 x q [[= -> _] _]%Hs ?. lia.
  - intros l0 x q i [[= -> ->] ->]%Hs _ Hi. rewrite Hz by done. by rewrite lookup_singleton_ne.
  - intros vpn. unfold pte_at. by rewrite lookup_singleton_ne.
  - intros vpn e He. by rewrite lookup_empty in He.
  - intros q [k [_ ->]%Hs]. done.
Qed.

Lemma wp_uvmcreate s l (Q : Z -> phys -> Prop) :
  kmem_ok s l ->
  (l = [] -> Q 0 s) ->
  (forall p l' s', l = p :: l' -> freeable p -> uspace s' l' p {[(2, 0) := p]} ∅ ->
     agree (fun a => ~ in_page p a) (mem s) (mem s') -> Q p s') ->
  wp uvmcreate Q s.
Proof.
  intros Hk H0 H1. unfold uvmcreate. wp_step. eapply wp_kalloc; [done|by intros ->; apply H0|].
  intros p l' s' -> Hp Hni Hk' _ Hag. destruct (Z.eqb_spec p 0) as [->|_]; [by apply freeable_nonzero in Hp|].
  wp_steps. eapply H1; [done|done| |].
  - apply empty_table; [|done|done|].
    + eapply kmem_ok_frame; [done|apply memset_page_agree|]. intros q a Hq Ha.
      eapply page_disjoint; [by eapply kmem_ok_freeable|apply Hp| |done]. by intros ->.
    + intros i Hi. simpl. apply (ld_memset_0 8); unfold PGSIZE; lia.
  - eapply agree_trans; [done|]. apply memset_page_agree.
Qed.

(** ** uvmdealloc *)

Definition npages (lo hi : Z) : nat := Z.to_nat ((hi - lo) / PGSIZE).

Lemma wp_uvmdealloc s l root T A oldsz newsz (Q : Z -> phys -> Prop) :
  uspace s l root T A -> 0 <= newsz -> oldsz <= TRAPFRAME ->
  (oldsz <= newsz -> Q oldsz s) ->
  (forall s' l',
     let A' := unmap_range (npages (PGROUNDUP newsz) (PGROUNDUP oldsz)) A (vpn_of (PGROUNDUP newsz)) in
     newsz < oldsz -> uspace s' l' root T A' -> framed s l T A s' l' T A' ->
     ukeep A' (mem s) (mem s') -> Q newsz s') ->
  wp (uvmdealloc root oldsz newsz) Q s.
Proof.
  intros Hu Hn Ho H0 H1. unfold uvmdealloc.
  destruct (Z.leb_spec oldsz newsz) as [Hle|Hlt]; [wp_step; by apply H0|].
  destruct (pgroundup_user newsz) as (Ha & Hb & Hc); [lia|].
  destruct (pgroundup_user oldsz) as (Ha' & Hb' & Hc'); [lia|].
  set (N := PGROUNDUP newsz) in *. set (O := PGROUNDUP oldsz) in *. wp_step.
  destruct (Z.ltb_spec N O) as [Hlt2|Hge].
  - assert (i32 (u64 (O - N) / PGSIZE) = (O - N) / PGSIZE /\ u64 ((O - N) / PGSIZE) = (O - N) / PGSIZE
      /\ N + (O - N) / PGSIZE * PGSIZE = O /\ 0 <= (O - N) / PGSIZE) as (Hi & Hi2 & He & Hp).
    { change TRAPFRAME with ((2 ^ 26 - 2) * 4096) in *. unfold u64, i32, pg_aligned, PGSIZE in *.
      rewrite (Z.mod_small (O - N)) by lia. Z.div_mod_to_equations. lia. }
    rewrite Hi, Hi2. wp_step. cbv zeta. eapply wp_uvmunmap_user; [done|done|lia|done|lia|].
    intros s' l' A' -> Hu' Hf Hk. wp_step. by eapply H1.
  - wp_step. wp_step. assert (N = O) as Heq by (unfold pg_aligned, PGSIZE in *; Z.div_mod_to_equations; lia).
    unfold npages in H1. rewrite Heq, Z.sub_diag in H1. simpl in H1.
    eapply H1; [done|done|apply framed_refl|apply ukeep_refl].
Qed.

(** ** uvmalloc *)

(** The leaves after [j] pages were added from [v0] on, all zero. *)
Definition grown_leaves (A A' : leaves) (m' : memory) (v0 : Z) (j : nat) (flags : Z) : Prop :=
  forall v, if decide (v0 <= v < v0 + Z.of_nat j)
            then exists p, freeable p /\ A' !! v = Some (mkpte p flags) /\
                 forall i, 0 <= i < PGSIZE -> ldb m' (p + i) = 0
            else A' !! v = A !! v.

Definition alloc_flags (xperm : Z) : Z := Z.lor (Z.lor (Z.lor PTE_R PTE_U) xperm) PTE_V.

Lemma grown_step A A' m m' v0 j p flags l T :
  grown_leaves A A' m v0 j flags -> uown l T A' -> v0 + Z.of_nat j < UV -> ukeep A' m m' ->
  0 <= flags < 1024 -> freeable p ->
  (forall i, 0 <= i < PGSIZE -> ldb m' (p + i) = 0) ->
  grown_leaves A (<[v0 + Z.of_nat j := mkpte p flags]> A') m' v0 (S j) flags.
Proof.
  intros Hg Ho Hv0 Hk Hfl Hp Hz v. specialize (Hg v).
  destruct (decide (v = v0 + Z.of_nat j)) as [->|Hne].
  - rewrite decide_True by lia. exists p. by rewrite lookup_insert_eq.
  - rewrite lookup_insert_ne by done. revert Hg. repeat case_decide; try lia; [|done].
    intros (q & Hq & He & Hqz). exists q. split; [done|]. split; [done|]. intros i Hi.
    rewrite <- (Hqz i Hi). apply (Hk v (mkpte q flags)); [done|lia|].
    rewrite PTE2PA_mkpte by (done || by apply freeable_page_addr). unfold in_page. lia.
Qed.

Lemma grown_unmap A A' m v0 j flags :
  grown_leaves A A' m v0 j flags -> (forall v, v0 <= v < v0 + Z.of_nat j -> A !! v = None) ->
  unmap_range j A' v0 = A.
Proof.
  intros Hg Hn. apply map_eq. intros v. rewrite lookup_unmap_range. specialize (Hg v).
  case_decide; [by rewrite Hn|done].
Qed.

Lemma alloc_flags_ok xperm :
  0 <= xperm < 1024 -> 0 <= Z.lor (Z.lor PTE_R PTE_U) xperm < 1024 /\
  0 <= alloc_flags xperm < 1024 /\ has (alloc_flags xperm) PTE_U = true.
Proof.
  intros H. assert (0 <= Z.lor (Z.lor PTE_R PTE_U) xperm < 1024) as H1
    by (apply (lor_range _ _ 10); [lia|done|done]).
  split; [done|]. split; [by apply perm_V_range|]. unfold alloc_flags. by rewrite !has_lor.
Qed.

(** What holds after [j] rounds of the loop of [uvmalloc]. *)
Definition alloc_inv (s : phys) (l : list Z) (root : Z) (T : tables) (A : leaves) (newsz v0 flags : Z)
    (j : nat) (s1 : phys) (l1 : list Z) (T1 : tables) (A1 : leaves) : Prop :=
  uspace s1 l1 root T1 A1 /\ framed s l T A s1 l1 T1 A1 /\ ukeep A (mem s) (mem s1) /\
  (forall va, uview (mem s1) A1 newsz va = uview (mem s) A newsz va) /\
  grown_leaves A A1 (mem s1) v0 j flags.

Lemma alloc_inv_start s l root T A newsz v0 flags :
  uspace s l root T A -> alloc_inv s l root T A newsz v0 flags 0 s l T A.
Proof.
  intros Hu. split; [done|]. split; [apply framed_refl|]. split; [apply ukeep_refl|]. split; [done|].
  intros v. by rewrite decide_False by lia.
Qed.

(** The rounds so far are undone on the error path. *)
Lemma wp_alloc_undo {B} s l root T A newsz o flags j s1 l1 T1 A1 s2 l2 T2 (k : M phys B) Q :
  alloc_inv s l root T A newsz (vpn_of o) flags j s1 l1 T1 A1 -> pg_aligned o -> 0 <= o ->
  o + Z.of_nat j * PGSIZE <= TRAPFRAME ->
  (forall v, vpn_of o <= v < vpn_of o + Z.of_nat j -> A !! v = None) ->
  uspace s2 l2 root T2 A1 -> framed s1 l1 T1 A1 s2 l2 T2 A1 -> ukeep A1 (mem s1) (mem s2) ->
  (forall s' l' T', uspace s' l' root T' A -> framed s l T A s' l' T' A ->
     ukeep A (mem s) (mem s') -> wp k Q s') ->
  wp (uvmdealloc root (o + Z.of_nat j * PGSIZE) o;; k) Q s2.
Proof.
  intros (Hu1 & Hf1 & Hk1 & Hv1 & Hg1) Hoa Ho Htop Hnone Hu2 Hf2 Hk2 Hk. wp_step.
  pose proof (grown_unmap _ _ _ _ _ _ Hg1 Hnone) as HA.
  assert (ukeep A (mem s) (mem s2)) as Hks.
  { eapply ukeep_trans; [done|]. intros v e He Hv. apply (Hk2 v e); [|done].
    rewrite <- HA in He. rewrite lookup_unmap_range in He. by case_decide. }
  eapply wp_uvmdealloc; [done|lia|lia| |].
  - intros Hle. assert (j = 0%nat) as -> by (unfold PGSIZE in *; lia).
    simpl in HA. subst A1. eapply Hk; [done|by eapply framed_trans|done].
  - intros s3 l3 A3 Hlt Hu3 Hf3 Hk3.
    assert (A3 = A) as ->; [|eapply Hk; [done|do 2 (eapply framed_trans; [done|]); done|by eapply ukeep_trans]].
    unfold A3, npages. change TRAPFRAME with ((2 ^ 26 - 2) * 4096) in *.
    rewrite !PGROUNDUP_eq by (unfold PGSIZE in *; lia).
    replace ((o + Z.of_nat j * PGSIZE + PGSIZE - 1) / PGSIZE * PGSIZE) with (o + Z.of_nat j * PGSIZE)
      by (unfold pg_aligned, PGSIZE in *; Z.div_mod_to_equations; lia).
    replace ((o + PGSIZE - 1) / PGSIZE * PGSIZE) with o
      by (unfold pg_aligned, PGSIZE in *; Z.div_mod_to_equations; lia).
    replace (o + Z.of_nat j * PGSIZE - o) with (Z.of_nat j * PGSIZE) by lia.
    by rewrite Z.div_mul, Nat2Z.id by done.
Qed.

Lemma alloc_inv_step s l root T A newsz v0 flags j s1 l1 T1 A1 s2 p l2 T2 :
  alloc_inv s l root T A newsz v0 flags j s1 l1 T1 A1 ->
  (v0 + Z.of_nat j) * PGSIZE < newsz -> newsz <= TRAPFRAME ->
  (forall v, v0 <= v <= v0 + Z.of_nat j -> A !! v = None) ->
  0 <= flags < 1024 -> has flags PTE_U = true -> freeable p ->
  let A2 := <[v0 + Z.of_nat j := mkpte p flags]> A1 in
  uspace s2 l2 root T2 A2 -> framed s1 l1 T1 A1 s2 l2 T2 A2 -> ukeep A1 (mem s1) (mem s2) ->
  (forall i, 0 <= i < PGSIZE -> ldb (mem s2) (p + i) = 0) ->
  alloc_inv s l root T A newsz v0 flags (S j) s2 l2 T2 A2.
Proof.
  intros (Hu1 & Hf1 & Hk1 & Hv1 & Hg1) Hlt Htop Hn Hfl HU Hp A2 Hu2 Hf2 Hk2 Hz.
  assert (A1 !! (v0 + Z.of_nat j) = None) as Hn1.
  { specialize (Hg1 (v0 + Z.of_nat j)). rewrite decide_False in Hg1 by lia. rewrite Hg1. apply Hn. lia. }
  split; [done|]. split; [by eapply framed_trans|]. split; [|split].
  - eapply ukeep_trans; [done|]. intros v e He Hv. eapply Hk2; [|done].
    specialize (Hg1 v). case_decide as Hd; [|by rewrite Hg1]. rewrite Hn in He by lia. done.
  - intros va. rewrite <- Hv1. eapply uview_zero_page; try done. apply Hu1.
  - eapply grown_step; try done; [apply Hu1|]. change UV with (2 ^ 26 - 2).
    change TRAPFRAME with ((2 ^ 26 - 2) * 4096) in Htop. unfold PGSIZE in *. lia.
Qed.

Lemma wp_uvmalloc s l root T A oldsz newsz xperm (Q : Z -> phys -> Prop) :
  uspace s l root T A -> 0 <= oldsz <= newsz -> newsz <= TRAPFRAME -> 0 <= xperm < 1024 ->
  (forall v, vpn_of (PGROUNDUP oldsz) <= v -> v * PGSIZE < newsz -> A !! v = None) ->
  (forall s' l' T', uspace s' l' root T' A -> framed s l T A s' l' T' A ->
     ukeep A (mem s) (mem s') -> Q 0 s') ->
  (forall s' l' T' A', alloc_inv s l root T A newsz (vpn_of (PGROUNDUP oldsz)) (alloc_flags xperm)
       (npages (PGROUNDUP oldsz) (PGROUNDUP newsz)) s' l' T' A' -> Q newsz s') ->
  wp (uvmalloc root oldsz newsz xperm) Q s.
Proof.
  intros Hu Hsz Hnew Hx Hfree Hfail Hok. unfold uvmalloc.
  destruct (Z.ltb_spec newsz oldsz); [lia|]. cbv zeta.
  destruct (pgroundup_user oldsz) as (Ha & Hb & Hc); [lia|].
  destruct (pgroundup_user newsz) as (Ha' & Hb' & Hc'); [lia|].
  destruct (alloc_flags_ok xperm Hx) as (Hfl & Hfl' & HfU).
  unfold npages in Hok. set (N := PGROUNDUP newsz) in *. set (O := PGROUNDUP oldsz) in *.
  pose proof (aligned_vpn O Ha) as HOv. set (J := (N - O) / PGSIZE) in *.
  change TRAPFRAME with ((2 ^ 26 - 2) * 4096) in *.
  assert (0 <= J < 2 ^ 26 /\ O + J * PGSIZE = N) as [HJ HJN]
    by (unfold J, pg_aligned, PGSIZE in *; Z.div_mod_to_equations; lia).
  apply (wp_loop (fun c a s1 => exists (j : nat) l1 T1 A1,
    a = O + Z.of_nat j * PGSIZE /\ c = J - Z.of_nat j + 1 /\ Z.of_nat j <= J /\
    alloc_inv s l root T A newsz (vpn_of O) (alloc_flags xperm) j s1 l1 T1 A1)) with (n := J + 1);
    [|lia|].
  2: { exists 0%nat, l, T, A. do 3 (split; [lia|]). by apply alloc_inv_start. }
  intros c a s1 (j & l1 & T1 & A1 & -> & -> & Hj & Hi). split; [lia|].
  destruct (Z.ltb_spec (O + Z.of_nat j * PGSIZE) newsz) as [Hlt|Hge]; simpl negb; cbv iota.
  2: { wp_step. eapply Hok. replace (Z.to_nat J) with j; [done|].
       unfold pg_aligned, PGSIZE in *; Z.div_mod_to_equations; lia. }
  assert (vpn_of (O + Z.of_nat j * PGSIZE) = vpn_of O + Z.of_nat j) as Hva by by apply vpn_of_add.
  assert (forall v, vpn_of O <= v <= vpn_of O + Z.of_nat j -> A !! v = None) as Hnone.
  { intros v Hv. apply Hfree; [lia|]. unfold PGSIZE in *. lia. }
  eapply (wp_alloc_map _ _ _ _ _ _ _ (fun p m => memset m p 0 PGSIZE) (fun _ => 0));
    [apply Hi|change TRAPFRAME with ((2 ^ 26 - 2) * 4096); unfold PGSIZE in *; lia| |done| | | | |].
  - unfold pg_aligned, PGSIZE in *. by rewrite Z.mod_add by lia.
  - rewrite Hva. destruct Hi as (_ & _ & _ & _ & Hg). specialize (Hg (vpn_of O + Z.of_nat j)).
    rewrite decide_False in Hg by lia. rewrite Hg. apply Hnone. lia.
  - intros p m1 Hp Hag. split; [apply memset_page_agree|]. intros i Hi'.
    rewrite memset_spec by done. by rewrite decide_True by lia.
  - intros ->. eapply wp_alloc_undo; [done|done|lia|change TRAPFRAME with ((2 ^ 26 - 2) * 4096); unfold PGSIZE in *; lia| |apply Hi|apply framed_refl|apply ukeep_refl|].
    + intros v Hv. apply Hnone. lia.
    + intros s' l' T' Hu' Hf' Hk'. wp_step. by eapply Hfail.
  - intros s2 p T2 Hu2 Hf2 Hk2.
    eapply wp_alloc_undo; [done|done|lia|change TRAPFRAME with ((2 ^ 26 - 2) * 4096); unfold PGSIZE in *; lia| |done|done|done|].
    + intros v Hv. apply Hnone. lia.
    + intros s' l' T' Hu' Hf' Hk'. wp_step. by eapply Hfail.
  - rewrite Hva. intros s2 p l2 T2 A2 Hp Hu2 Hf2 Hk2 Hz. wp_step.
    exists (J - Z.of_nat (S j) + 1). split; [lia|]. exists (S j), l2, T2, A2.
    split; [unfold u64; rewrite Z.mod_small; unfold PGSIZE in *; lia|]. split; [done|].
    split; [unfold PGSIZE in *; lia|]. eapply alloc_inv_step; try done. unfold PGSIZE in *. lia.
Qed.

(** ** uvmfree *)

Lemma unmap_all A n :
  (forall v e, A !! v = Some e -> 0 <= v < Z.of_nat n) -> unmap_range n A 0 = ∅.
Proof.
  intros H. apply map_eq. intros v. rewrite lookup_unmap_range, lookup_empty.
  case_decide; [done|]. destruct (A !! v) as [e|] eqn:He; [|done]. apply H in He. lia.
Qed.

Lemma wp_uvmfree s l root T A sz (Q : unit -> phys -> Prop) :
  uspace s l root T A -> 0 <= sz <= TRAPFRAME ->
  (forall v e, A !! v = Some e -> 0 <= v /\ v * PGSIZE < sz) ->
  (forall s' l', kmem_ok s' l' -> (forall p, p ∈ l' <-> own l T A p) ->
     agree (fun a => forall q, own l T A q -> ~ in_page q a) (mem s) (mem s') -> Q tt s') ->
  wp (uvmfree root sz) Q s.
Proof.
  intros Hu Hsz HA HQ. unfold uvmfree. destruct (pgroundup_user sz Hsz) as (Ha & Hb & Hc).
  set (N := PGROUNDUP sz) in *.
  assert (0 <= N / PGSIZE /\ N / PGSIZE * PGSIZE = N) as [HN HNe]
    by (unfold pg_aligned, PGSIZE in *; Z.div_mod_to_equations; lia).
  assert (forall s1 l1, uspace s1 l1 root T ∅ -> framed s l T A s1 l1 T ∅ ->
    wp (freewalk root) Q s1) as Hlast.
  { intros s1 l1 Hu1 Hf. eapply wp_freewalk; [apply Hu1|]. intros s' l' Hk' Hl' Hag.
    assert (forall p, p ∈ l' <-> own l T A p) as Hown.
    { intros p. rewrite Hl'. destruct Hf as [Hf _]. rewrite Hf. unfold own. split; [tauto|].
      intros [?|[?|(v & e & He & _)]]; [tauto..|]. by rewrite lookup_empty in He. }
    eapply HQ; [done|done|]. eapply agree_trans; [apply Hf|]. eapply agree_sub; [done|].
    intros a Ha' k p Hp. apply Ha'. right. left. by exists k. }
  wp_step. destruct (Z.ltb_spec 0 sz) as [Hpos|Hzero].
  - wp_step. eapply wp_uvmunmap_user; [done|done|lia|done|lia|].
    intros s' l' A' -> Hu' Hf Hk. eapply Hlast.
    + replace ∅ with A'; [done|]. apply unmap_all. intros v e He. apply HA in He.
      rewrite Z2Nat.id by done. unfold PGSIZE in *. lia.
    + replace ∅ with A'; [done|]. apply unmap_all. intros v e He. apply HA in He.
      rewrite Z2Nat.id by done. unfold PGSIZE in *. lia.
  - wp_step. wp_step. eapply Hlast with l.
    all: replace ∅ with A; [done || apply framed_refl|].
    all: apply map_eq; intros v; rewrite lookup_empty; destruct (A !! v) as [e|] eqn:He; [|done].
    all: apply HA in He; unfold PGSIZE in *; lia.
Qed.

(** ** uvmcopy *)

Lemma own_freeable s l root T A q : uspace s l root T A -> own l T A q -> freeable q.
Proof.
  intros [Has Ho] [Hq|[[k Hq]|(v & e & He & Hv & <-)]].
  - eapply kmem_ok_freeable; [apply Has|done].
  - eapply pt_page; [apply Has|done].
  - by eapply uo_page.
Qed.

(** An address space that owns none of the pages an operation works on is not
    affected by it. *)
Definition disjoint_from (l : list Z) (T : tables) (A : leaves) (To : tables) (Ao : leaves) : Prop :=
  (forall p, is_table To p -> ~ own l T A p) /\
  (forall v e, Ao !! v = Some e -> v < UV -> ~ own l T A (PTE2PA e)).

Lemma foreign_page s l root T A s' l' T' A' p :
  uspace s l root T A -> framed s l T A s' l' T' A' -> pg_aligned p -> ~ own l T A p ->
  agree (in_page p) (mem s) (mem s').
Proof.
  intros Hu [_ Hag] Hp Hn. eapply agree_sub; [done|]. intros a Ha q Hq Hqa.
  apply (page_disjoint q p a); try done.
  - by eapply own_freeable.
  - by intros ->.
Qed.

Lemma foreign_uspace s l root T A s' l' T' A' rooto To Ao :
  uspace s l root T A -> framed s l T A s' l' T' A' -> uspace s' l' root T' A' ->
  uspace s l rooto To Ao -> disjoint_from l T A To Ao ->
  uspace s' l' rooto To Ao /\ disjoint_from l' T' A' To Ao /\ ukeep Ao (mem s) (mem s').
Proof.
  intros Hu Hf Hu' [Haso Hoo] [Hd1 Hd2]. pose proof Hf as [Hown _].
  assert (forall q, ~ own l T A q -> q ∉ l') as Hl'.
  { intros q Hq Hin. apply Hq, Hown. by left. }
  split; [split|split; [split|]].
  - eapply aspace_replace; [done| |apply Hu'|].
    + intros a Ha. destruct (decide (ldb (mem s') a = ldb (mem s) a)); [done|].
      destruct Ha. intros k p Hp Hpa. eapply n, (foreign_page s l root T A); [done|done| | |done].
      * eapply pt_page; [apply Haso|done].
      * apply Hd1. by exists k.
    + intros p Hp. by apply Hl', Hd1.
  - destruct Hoo as [H1 H2 H3]. split; [|done|done]. intros v e He Hv.
    destruct (H1 v e He Hv) as (? & ? & ?). split; [done|]. split; [|done].
    apply Hl'. by eapply Hd2.
  - intros p Hp. rewrite <- Hown. by apply Hd1.
  - intros v e He Hv. rewrite <- Hown. by eapply Hd2.
  - intros v e He Hv. eapply foreign_page; [done|done| |by eapply Hd2].
    by eapply (uo_page _ _ _ Hoo).
Qed.

(** The leaf of the child for a leaf of the parent: a page with the same flags
    and the same contents. *)
Definition leaf_copied (m m' : memory) (eo en : option Z) : Prop :=
  match eo with
  | None => en = None
  | Some e => exists p, freeable p /\ en = Some (mkpte p (Z.lor (PTE_FLAGS e) PTE_V)) /\
      forall i, 0 <= i < PGSIZE -> ldb m' (p + i) = ldb m (PTE2PA e + i)
  end.

(** The state of [uvmcopy] after [j] pages. *)
Record copy_inv (s : phys) (l : list Z) (old : Z) (To : tables) (Ao : leaves)
    (new : Z) (Tn : tables) (An : leaves) (j : Z)
    (s1 : phys) (l1 : list Z) (T1 : tables) (A1 : leaves) : Prop := {
  ci_new : uspace s1 l1 new T1 A1;
  ci_frame : framed s l Tn An s1 l1 T1 A1;
  ci_old : uspace s1 l1 old To Ao;
  ci_disj : disjoint_from l1 T1 A1 To Ao;
  ci_keep : ukeep Ao (mem s) (mem s1);
  ci_rest : forall v, ~ (0 <= v < j) -> A1 !! v = An !! v;
  ci_copied : forall v, 0 <= v < j -> leaf_copied (mem s) (mem s1) (Ao !! v) (A1 !! v)
}.

Lemma copy_inv_skip s l old To Ao new Tn An j s1 l1 T1 A1 :
  copy_inv s l old To Ao new Tn An j s1 l1 T1 A1 -> 0 <= j -> Ao !! j = None -> An !! j = None ->
  copy_inv s l old To Ao new Tn An (j + 1) s1 l1 T1 A1.
Proof.
  intros [H1 H2 H3 H4 H5 H6 H7] Hj Hn Hn'. split; try done.
  - intros v Hv. apply H6. lia.
  - intros v Hv. destruct (decide (v = j)) as [->|]; [|apply H7; lia].
    rewrite Hn. simpl. rewrite H6 by lia. done.
Qed.

Lemma leaf_copied_keep m m1 m2 A1 v eo :
  leaf_copied m m1 eo (A1 !! v) -> ukeep A1 m1 m2 -> v < UV -> leaf_copied m m2 eo (A1 !! v).
Proof.
  intros Hc Hk Hv. destruct eo as [e|]; [|done]. destruct Hc as (p & Hp & He & Hi).
  exists p. split; [done|]. split; [done|]. intros i Hi'. rewrite <- (Hi i Hi').
  apply (Hk v _ He Hv). rewrite PTE2PA_mkpte; [unfold in_page; lia|by apply freeable_page_addr|].
  apply perm_V_range. rewrite PTE_FLAGS_eq. apply Z.mod_pos_bound. lia.
Qed.

Lemma copy_inv_step s l old To Ao new Tn An j s1 l1 T1 A1 s2 p l2 T2 e :
  copy_inv s l old To Ao new Tn An j s1 l1 T1 A1 -> 0 <= j < UV -> Ao !! j = Some e ->
  let A2 := <[j := mkpte p (Z.lor (PTE_FLAGS e) PTE_V)]> A1 in
  freeable p -> uspace s2 l2 new T2 A2 -> framed s1 l1 T1 A1 s2 l2 T2 A2 ->
  ukeep A1 (mem s1) (mem s2) ->
  (forall i, 0 <= i < PGSIZE -> ldb (mem s2) (p + i) = ldb (mem s) (PTE2PA e + i)) ->
  copy_inv s l old To Ao new Tn An (j + 1) s2 l2 T2 A2.
Proof.
  intros [H1 H2 H3 H4 H5 H6 H7] Hj He A2 Hp Hu2 Hf2 Hk2 Hi.
  destruct (foreign_uspace _ _ _ _ _ _ _ _ _ _ _ _ H1 Hf2 Hu2 H3 H4) as (Hu' & Hd' & Hk').
  split; try done.
  - by eapply framed_trans.
  - by eapply ukeep_trans.
  - intros v Hv. unfold A2. rewrite lookup_insert_ne by lia. apply H6. lia.
  - intros v Hv. unfold A2. destruct (decide (v = j)) as [->|Hne].
    + rewrite lookup_insert_eq, He. by exists p.
    + rewrite lookup_insert_ne by done. eapply leaf_copied_keep; [apply H7; lia|done|lia].
Qed.

(** The error path gives back every page of the child. *)
Lemma wp_copy_undo {B} s l old To Ao new Tn An j s1 l1 T1 A1 s2 l2 T2 (k : M phys B) Q :
  copy_inv s l old To Ao new Tn An j s1 l1 T1 A1 -> 0 <= j <= UV ->
  (forall v, 0 <= v < UV -> An !! v = None) ->
  uspace s2 l2 new T2 A1 -> framed s1 l1 T1 A1 s2 l2 T2 A1 ->
  (forall s' l' T', copy_inv s l old To Ao new Tn An 0 s' l' T' An -> wp k Q s') ->
  wp (uvmunmap new 0 (j * PGSIZE / PGSIZE) true;; k) Q s2.
Proof.
  intros [H1 H2 H3 H4 H5 H6 H7] Hj HAn Hu2 Hf2 Hk. rewrite Z.div_mul by done. wp_step.
  destruct (foreign_uspace _ _ _ _ _ _ _ _ _ _ _ _ H1 Hf2 Hu2 H3 H4) as (Hu' & Hd' & Hk').
  change UV with (2 ^ 26 - 2) in Hj.
  eapply wp_uvmunmap_user; [done|lia|done|done| |].
  { change TRAPFRAME with ((2 ^ 26 - 2) * 4096). unfold PGSIZE. lia. }
  intros s3 l3 A3 _ Hu3 Hf3 Hk3.
  destruct (foreign_uspace _ _ _ _ _ _ _ _ _ _ _ _ Hu2 Hf3 Hu3 Hu' Hd') as (Hu'' & Hd'' & Hk'').
  assert (A3 = An) as ->.
  { apply map_eq. intros v. unfold A3. rewrite lookup_unmap_range. change (vpn_of 0) with 0.
    change UV with (2 ^ 26 - 2) in HAn.
    case_decide; [rewrite HAn by lia; done|]. apply H6. lia. }
  eapply Hk. split; try done.
  - do 2 (eapply framed_trans; [done|]). done.
  - do 2 (eapply ukeep_trans; [done|]). done.
  - intros v Hv. lia.
Qed.

Lemma memmove_fresh m m1 p pa i :
  agree (fun a => ~ in_page p a) m m1 -> pg_aligned p -> pg_aligned pa -> p <> pa ->
  0 <= i < PGSIZE -> ldb (memmove m1 p pa PGSIZE) (p + i) = ldb m (pa + i).
Proof.
  intros Hag Hp Hpa Hne Hi. rewrite memmove_ldb by done. rewrite decide_True by lia.
  replace (pa + (p + i - p)) with (pa + i) by lia. apply Hag.
  apply (page_disjoint pa p); try done. unfold in_page. lia.
Qed.

Lemma memmove_page_agree m p pa : agree (fun a => ~ in_page p a) m (memmove m p pa PGSIZE).
Proof.
  intros a Ha. rewrite memmove_ldb by done. rewrite decide_False; [done|]. exact Ha.
Qed.

Lemma wp_uvmcopy s l old To Ao new Tn An sz (Q : Z -> phys -> Prop) :
  uspace s l old To Ao -> uspace s l new Tn An -> disjoint_from l Tn An To Ao ->
  0 <= sz <= TRAPFRAME -> (forall v, 0 <= v < UV -> An !! v = None) ->
  (forall s' l' T', copy_inv s l old To Ao new Tn An 0 s' l' T' An -> Q (-1) s') ->
  (forall s' l' T' A' j, copy_inv s l old To Ao new Tn An j s' l' T' A' ->
     (j - 1) * PGSIZE < sz <= j * PGSIZE -> Q 0 s') ->
  wp (uvmcopy old new sz) Q s.
Proof.
  intros Hold Hnew Hdis Hsz HAn Hfail Hok. unfold uvmcopy. cbv zeta.
  change TRAPFRAME with ((2 ^ 26 - 2) * 4096) in *.
  apply (wp_loop (fun c i s1 => exists j l1 T1 A1, i = j * PGSIZE /\ c = 2 ^ 26 - j /\ 0 <= j /\
    (j - 1) * PGSIZE < sz /\ copy_inv s l old To Ao new Tn An j s1 l1 T1 A1)) with (n := 2 ^ 26);
    [|lia|].
  2: { exists 0, l, Tn, An. split; [done|]. split; [lia|]. split; [lia|]. split; [unfold PGSIZE; lia|].
       split; first [done | apply framed_refl | apply ukeep_refl | lia]. }
  intros c i s1 (j & l1 & T1 & A1 & -> & -> & Hj & Hj1 & Hci). split; [unfold PGSIZE in *; lia|].
  destruct (Z.ltb_spec (j * PGSIZE) sz) as [Hlt|Hge]; simpl negb; cbv iota.
  2: { wp_step. eapply Hok; [exact Hci|]. lia. }
  assert (0 <= j < UV) as HjU by (change UV with (2 ^ 26 - 2); unfold PGSIZE in *; lia).
  assert (vpn_of (j * PGSIZE) = j) as Hvj by (unfold vpn_of; by rewrite Z.div_mul).
  replace (u64 (j * PGSIZE + PGSIZE)) with ((j + 1) * PGSIZE)
    by (unfold u64; rewrite Z.mod_small; unfold PGSIZE in *; lia).
  assert (forall s2 l2 T2 A2, copy_inv s l old To Ao new Tn An (j + 1) s2 l2 T2 A2 ->
    exists n' : Z, n' < 2 ^ 26 - j /\ exists j0 l1 T1 A1, (j + 1) * PGSIZE = j0 * PGSIZE /\
      n' = 2 ^ 26 - j0 /\ 0 <= j0 /\ (j0 - 1) * PGSIZE < sz /\
      copy_inv s l old To Ao new Tn An j0 s2 l1 T1 A1) as Hnext.
  { intros s2 l2 T2 A2 H. exists (2 ^ 26 - (j + 1)). split; [lia|]. exists (j + 1), l2, T2, A2.
    unfold PGSIZE in *. split; [lia|]. split; [lia|]. split; [lia|]. split; [lia|done]. }
  eapply wp_walk_read; [apply (ci_old _ _ _ _ _ _ _ _ _ _ _ _ _ Hci)| | |]; rewrite ?Hvj.
  { change MAXVA with (2 ^ 26 * 4096). change UV with (2 ^ 26 - 2) in HjU. unfold PGSIZE. lia. }
  { intros _ Hn. wp_step. eapply Hnext, copy_inv_skip; [done|lia|done|by apply HAn]. }
  intros q Hq. destruct (Ao !! j) as [e|] eqn:He; simpl default.
  2: { rewrite has_0. simpl. wp_step. eapply Hnext, copy_inv_skip; [done|lia|done|by apply HAn]. }
  assert (has e PTE_V = true) as -> by by eapply Hold. simpl negb. cbv iota.
  destruct (uo_page _ _ _ (proj2 (ci_old _ _ _ _ _ _ _ _ _ _ _ _ _ Hci)) j e He) as (Hpe & _); [lia|].
  pose proof (proj2 (ci_disj _ _ _ _ _ _ _ _ _ _ _ _ _ Hci) j e He ltac:(lia)) as Hnown.
  eapply (wp_alloc_map _ _ _ _ _ _ _ (fun p m => memmove m p (PTE2PA e) PGSIZE)
    (fun i => ldb (mem s) (PTE2PA e + i)));
    [apply (ci_new _ _ _ _ _ _ _ _ _ _ _ _ _ Hci)| | | | | | | |]; rewrite ?Hvj.
  - change TRAPFRAME with ((2 ^ 26 - 2) * 4096). change UV with (2 ^ 26 - 2) in HjU. unfold PGSIZE. lia.
  - unfold pg_aligned. by rewrite Z.mod_mul.
  - rewrite PTE_FLAGS_eq. apply Z.mod_pos_bound. lia.
  - rewrite (ci_rest _ _ _ _ _ _ _ _ _ _ _ _ _ Hci) by lia. by apply HAn.
  - intros p m1 Hp Hag. split; [apply memmove_page_agree|]. intros i Hi.
    assert (freeable p) as Hpf.
    { eapply own_freeable; [apply (ci_new _ _ _ _ _ _ _ _ _ _ _ _ _ Hci)|by left]. }
    rewrite (memmove_fresh (mem s1)); [|done|apply Hpf|apply Hpe| |done].
    + apply (ci_keep _ _ _ _ _ _ _ _ _ _ _ _ _ Hci j e He); [lia|]. unfold in_page. lia.
    + intros ->. apply Hnown. by left.
  - intros ->. eapply wp_copy_undo; [done|lia|done|apply (ci_new _ _ _ _ _ _ _ _ _ _ _ _ _ Hci)|apply framed_refl|].
    intros s' l' T' H. wp_step. by eapply Hfail.
  - intros s2 p T2 Hu2 Hf2 Hk2. eapply wp_copy_undo; [done|lia|done|done|done|].
    intros s' l' T' H. wp_step. by eapply Hfail.
  - intros s2 p l2 T2 A2 Hp Hu2 Hf2 Hk2 Hi. wp_step. eapply Hnext, copy_inv_step; [done|lia|done|done..].
Qed.

(** The child sees the memory of the parent. *)
Lemma copy_inv_view s l old To Ao new Tn An j s1 l1 T1 A1 sz va :
  copy_inv s l old To Ao new Tn An j s1 l1 T1 A1 -> 0 <= va -> vpn_of va < j -> j <= UV ->
  uview (mem s1) A1 sz va = uview (mem s) Ao sz va.
Proof.
  intros Hci Hva Hlt Hj.
  assert (0 <= vpn_of va) by (unfold vpn_of; apply Z.div_pos; [done|unfold PGSIZE; lia]).
  pose proof (ci_copied _ _ _ _ _ _ _ _ _ _ _ _ _ Hci (vpn_of va) ltac:(lia)) as Hc. unfold uview.
  destruct (Ao !! vpn_of va) as [e|] eqn:He; simpl in Hc.
  - destruct Hc as (p & Hp & -> & Hi).
    assert (0 <= PTE_FLAGS e < 1024) as Hfl by (rewrite PTE_FLAGS_eq; apply Z.mod_pos_bound; lia).
    pose proof (perm_V_range _ Hfl). rewrite has_mkpte, has_lor, has_flags by done.
    rewrite PTE2PA_mkpte by (done || by apply freeable_page_addr).
    destruct (has e PTE_U); simpl; [|done]. f_equal. apply Hi.
    unfold PGSIZE. apply Z.mod_pos_bound. lia.
  - by rewrite Hc.
Qed.
End userspace.
