(* ===== verification/VmTheorems.v ===== *)
(** * What kernel/vm.c guarantees

    The theorems about the virtual memory component, stated on the routines of
    Vm.v, with the instances that show their hypotheses can hold. *)

From S2P Require Import Prelude CMem Riscv Kalloc Vm PageTable Freewalk UserMem UserCopy UserSpace.

(** ** A small machine: eight pages of memory, one of them an empty page table *)

Definition small : KLayout := small_layout 8 ltac:(lia).

Definition sp (i : Z) : Z := PHYSTOP - i * 4096.

Fixpoint link_pages (l : list Z) : memory :=
  match l with
  | p :: l' => st64 (link_pages l') p (match l' with q :: _ => q | [] => 0 end)
  | [] => ∅
  end.

Definition small_free : list Z := [sp 1; sp 2; sp 3; sp 4; sp 5; sp 6].

Definition small_state : phys :=
  mkphys (memset (memset (link_pages small_free) (sp 8) 0 PGSIZE) (sp 7) 0 PGSIZE) (sp 1) false.

Lemma small_kmem : @kmem_ok small small_state small_free.
Proof. apply (bool_decide_unpack _). vm_compute. exact I. Qed.

Lemma small_uspace : @uspace small small_state small_free (sp 8) {[(2, 0) := sp 8]} ∅.
Proof.
  apply (@empty_table small); [apply small_kmem| | |].
  1, 2: apply (bool_decide_unpack _); vm_compute; exact I.
  intros i Hi. unfold small_state. cbn [mem]. unfold ld64.
  rewrite (ld_ext 8 (memset (link_pages small_free) (sp 8) 0 PGSIZE)).
  - apply (ld_memset_0 8); unfold PGSIZE; lia.
  - intros a Ha. apply memset_page_agree. unfold in_page, sp, PGSIZE in *. lia.
Qed.

Lemma small_uspace2 : @uspace small small_state small_free (sp 7) {[(2, 0) := sp 7]} ∅.
Proof.
  apply (@empty_table small); [apply small_kmem| | |].
  1, 2: apply (bool_decide_unpack _); vm_compute; exact I.
  intros i Hi. apply (ld_memset_0 8); unfold PGSIZE; lia.
Qed.

Section vm_theorems.
Context {KL : KLayout}.

(** ** Page tables *)

(** [walk] without allocation, on an address below [MAXVA], never panics,
    changes nothing, and returns the address of the leaf entry (whose value is
    the entry the abstract page table gives) or 0 when no table covers the
    address. *)
Theorem walk_finds_leaf s l root T A va :
  aspace s l root T A -> 0 <= va < MAXVA ->
  wp (walk root va false) (fun pte s' => s' = s /\
    (pte = 0 -> A !! vpn_of va = None) /\
    (pte <> 0 -> ld64 (mem s) pte = default 0 (A !! vpn_of va))) s.
Proof.
  intros Has Hva. eapply wp_walk_lookup; [done..|]. split; [done|].
  destruct (T !! (0, pfx 0 va)) as [q|] eqn:Hq.
  - pose proof (slot_nonzero _ _ _ _ _ _ _ Has Hq) as Hnz%Z.eqb_neq. split; [done|].
    intros _. by eapply pte_load.
  - split; [|done]. intros _. by eapply no_table_no_leaf.
Qed.

(** [mappages] on an unmapped, page-aligned range below [MAXVA] never
    panics.  When it returns 0 exactly the pages of the range are mapped, to
    consecutive physical pages with the requested permissions, and every other
    mapping is as before; when it returns -1 the allocator is exhausted and a
    prefix of the range is mapped.  Only free pages that become tables, and
    the tables themselves, are written. *)
Theorem mappages_maps_range s l root T A va n pa perm :
  aspace s l root T A -> 1 <= n -> 0 <= va -> pg_aligned va -> va + n * PGSIZE <= MAXVA ->
  page_addr pa -> pa + n * PGSIZE <= 2 ^ 56 -> 0 <= perm < 1024 ->
  (forall v, vpn_of va <= v < vpn_of va + n -> A !! v = None) ->
  wp (mappages root va (n * PGSIZE) pa perm) (fun r s' => exists l' T' k,
    grows s l T s' l' T' /\
    aspace s' l' root T' (map_range k A (vpn_of va) pa (Z.lor perm PTE_V)) /\
    ((r = 0 /\ Z.of_nat k = n) \/ (r = -1 /\ Z.of_nat k < n /\ l' = []))) s.
Proof.
  intros. eapply wp_mappages; [done..| |].
  - intros s' T' j Hj Hg _ Has. exists [], T', j. split; [done|]. split; [done|]. by right.
  - intros s' l' T' Hg _ Has. exists l', T', (Z.to_nat n). split; [done|]. split; [done|]. left. lia.
Qed.

(** [uvmunmap] with [do_free] on a page-aligned range of user memory never
    panics: afterwards no page of the range is mapped, every other mapping and
    its contents are as before, and exactly the physical pages that were
    mapped in the range have been given to the allocator. *)
Theorem uvmunmap_releases_range s l root T A va n :
  uspace s l root T A -> 0 <= n -> 0 <= va -> pg_aligned va -> va + n * PGSIZE <= TRAPFRAME ->
  wp (uvmunmap root va n true) (fun _ s' =>
    let A' := unmap_range (Z.to_nat n) A (vpn_of va) in
    let l' := range_pages (Z.to_nat n) A (vpn_of va) ++ l in
    uspace s' l' root T A' /\ framed s l T A s' l' T A' /\ ukeep A' (mem s) (mem s')) s.
Proof. intros. eapply wp_uvmunmap_user; [done..|]. by intros s' l' A' ->. Qed.

(** [freewalk] on a page table without leaves terminates without panic and
    returns exactly the pages of the table to the allocator. *)
Theorem freewalk_frees_tables s l root T :
  aspace s l root T ∅ ->
  wp (freewalk root) (fun _ s' => exists l', kmem_ok s' l' /\
    (forall p, p ∈ l' <-> p ∈ l \/ is_table T p) /\ agree (outside T) (mem s) (mem s')) s.
Proof. intros. eapply wp_freewalk; [done|]. intros s' l' Hk Hl Hag. by exists l'. Qed.

(** ** User memory *)


(** [copyin], for every user address and length, never panics and leaves
    the memory the process sees unchanged.  If it returns 0 it delivered
    exactly the [len] bytes the process sees at the address; if it returns -1
    it stopped at an address the process cannot read, or out of memory. *)
Theorem copyin_reads_view s l root T A sz srcva len :
  uspace s l root T A -> sz <= TRAPFRAME -> 0 <= srcva -> is_u64 len ->
  wp (copyin (mkvmproc sz root) root srcva len) (fun '(r, dst) s' => exists l',
    copying s l root T A sz (uview (mem s) A sz) s' l' /\ sees (uview (mem s) A sz) srcva dst /\
    ((r = 0 /\ Z.of_nat (length dst) = len) \/
     (r = -1 /\ (uview (mem s) A sz (srcva + Z.of_nat (length dst)) = None \/ (length l' <= 1)%nat)))) s.
Proof.
  intros. eapply wp_copyin; [done..| |].
  - intros s' l' dst Hc Hl Hs Hr. exists l'. split; [done|]. split; [done|]. by right.
  - intros s' l' dst Hc Hl Hs. exists l'. split; [done|]. split; [done|]. by left.
Qed.


(** Bytes written to user memory are read back: after a successful
    [copyout], a successful [copyin] of the same range returns the bytes
    written. *)
Theorem copyout_copyin_roundtrip s l root T A sz va src :
  uspace s l root T A -> sz <= TRAPFRAME -> 0 <= va -> Forall is_byte src ->
  is_u64 (Z.of_nat (length src)) ->
  wp (r ← copyout (mkvmproc sz root) root va src;
      q ← copyin (mkvmproc sz root) root va (Z.of_nat (length src));
      mret (r, q))
    (fun '(r, (r', dst)) _ => r = 0 -> r' = 0 -> dst = src) s.
Proof.
  intros Hu Hsz Hva Hb Hl. apply wp_bind. eapply wp_copyout; [done..| |].
  - intros s' l' n (T' & A' & Hu' & _) _ _. apply wp_bind.
    eapply wp_copyin; [done..| |]; intros s2 l2 dst _ _ _; [intros _|]; by wp_step.
  - intros s' l' (T' & A' & Hu' & _ & Hv & _). apply wp_bind.
    eapply wp_copyin; [done..| |]; intros s2 l2 dst _ Hlen Hs; [intros _|]; wp_step; [done|].
    intros _ _. apply list_eq_same_length with (length src); [done|lia|].
    intros i x y Hi Hx Hy. apply Hs in Hx. rewrite Hv in Hx. unfold write_view in Hx.
    rewrite decide_True in Hx by lia. replace (Z.to_nat (va + Z.of_nat i - va)) with i in Hx by lia.
    congruence.
Qed.

(** [copyinstr] never panics and does not change the state; when it
    returns 0 it delivered the user's string up to and including its NUL,
    within [max] bytes; otherwise it delivered no NUL, and stopped after [max]
    bytes or at an address that is not mapped for the user. *)
Theorem copyinstr_reads_string s l root T A sz srcva max :
  uspace s l root T A -> 0 <= srcva -> is_u64 max ->
  wp (copyinstr root srcva max) (fun '(r, dst) s' => s' = s /\
    string_result (uview (mem s) A sz) srcva max r dst /\
    (r = -1 -> Z.of_nat (length dst) = max \/
       forall e, A !! vpn_of (srcva + Z.of_nat (length dst)) = Some e -> has e PTE_U = false)) s.
Proof. intros. by eapply wp_copyinstr. Qed.

(** [uvmalloc] never panics on an unmapped range below [TRAPFRAME].  When
    it returns the new size every page of the range is mapped to its own
    zeroed page, and the process sees what it would see if the pages were left
    to lazy allocation; when it returns 0 the address space is exactly as
    before and no page is lost. *)
Theorem uvmalloc_grows s l root T A oldsz newsz xperm :
  uspace s l root T A -> 0 <= oldsz <= newsz -> newsz <= TRAPFRAME -> 0 <= xperm < 1024 -> 0 < newsz ->
  (forall v, vpn_of (PGROUNDUP oldsz) <= v -> v * PGSIZE < newsz -> A !! v = None) ->
  wp (uvmalloc root oldsz newsz xperm) (fun r s' => exists l' T' A',
    uspace s' l' root T' A' /\ framed s l T A s' l' T' A' /\
    ((r = 0 /\ A' = A /\ ukeep A (mem s) (mem s')) \/
     (r = newsz /\ (forall va, uview (mem s') A' newsz va = uview (mem s) A newsz va) /\
      grown_leaves A A' (mem s') (vpn_of (PGROUNDUP oldsz))
        (npages (PGROUNDUP oldsz) (PGROUNDUP newsz)) (alloc_flags xperm)))) s.
Proof.
  intros. eapply wp_uvmalloc; [done..| |].
  - intros s' l' T' Hu' Hf Hk. exists l', T', A. split; [done|]. split; [done|]. by left.
  - intros s' l' T' A' (Hu' & Hf & Hk & Hv & Hg). exists l', T', A'. split; [done|]. split; [done|].
    by right.
Qed.

(** C17: [uvmfree] gives back exactly the pages the address space owned: its
    tables and its user pages all end up on the free list, each once, and no
    other page is written. *)
Theorem uvmfree_no_leak s l root T A sz :
  uspace s l root T A -> 0 <= sz <= TRAPFRAME ->
  (forall v e, A !! v = Some e -> 0 <= v /\ v * PGSIZE < sz) ->
  wp (uvmfree root sz) (fun _ s' => exists l', kmem_ok s' l' /\ NoDup l' /\
    (forall p, p ∈ l' <-> own l T A p) /\
    agree (fun a => forall q, own l T A q -> ~ in_page q a) (mem s) (mem s')) s.
Proof.
  intros. eapply wp_uvmfree; [done..|]. intros s' l' Hk Hl Hag. exists l'.
  split; [done|]. split; [apply Hk|done].
Qed.

(** C15: [uvmcopy] (the memory part of [fork]) never panics.  When it returns 0
    the child sees in every page below [sz] exactly what the parent saw, in
    pages of its own; when it returns -1 every page taken for the child's
    memory has been given back.  In both cases the parent's memory is
    untouched. *)
Theorem uvmcopy_same_memory s l old To Ao new Tn An sz :
  uspace s l old To Ao -> uspace s l new Tn An -> disjoint_from l Tn An To Ao ->
  0 <= sz <= TRAPFRAME -> (forall v, 0 <= v < UV -> An !! v = None) ->
  wp (uvmcopy old new sz) (fun r s' => exists l' T' A',
    uspace s' l' new T' A' /\ uspace s' l' old To Ao /\ disjoint_from l' T' A' To Ao /\
    framed s l Tn An s' l' T' A' /\ ukeep Ao (mem s) (mem s') /\
    ((r = 0 /\ forall va, 0 <= va -> PGROUNDDOWN va < sz ->
        uview (mem s') A' sz va = uview (mem s) Ao sz va) \/
     (r = -1 /\ A' = An))) s.
Proof.
  intros. eapply wp_uvmcopy; [done..| |].
  - intros s' l' T' []. exists l', T', An. do 5 (split; [done|]). by right.
  - intros s' l' T' A' j Hci Hj. exists l', T', A'. pose proof Hci as [].
    do 5 (split; [done|]). left. split; [done|]. intros va Hva Hlt.
    rewrite PGROUNDDOWN_vpn in Hlt. eapply copy_inv_view; [done|done|unfold PGSIZE in *; lia|].
    change UV with (2 ^ 26 - 2). change TRAPFRAME with ((2 ^ 26 - 2) * 4096) in *.
    unfold PGSIZE in *. lia.
Qed.

(** The life of an address space leaks nothing: creating a page table,
    growing it and freeing it again leaves the allocator with the same set of
    free pages, also when the growth fails for lack of memory. *)
Theorem uvm_lifecycle s l sz :
  kmem_ok s l -> 0 < sz <= TRAPFRAME ->
  wp (pt ← uvmcreate;
      if pt =? 0 then mret tt else uvmalloc pt 0 sz 0;; uvmfree pt sz)
    (fun _ s' => exists l', kmem_ok s' l' /\ NoDup l' /\ forall p, p ∈ l' <-> p ∈ l) s.
Proof.
  intros Hk Hsz. apply wp_bind. eapply wp_uvmcreate; [done| |].
  { intros ->. simpl. wp_step. exists []. split; [done|]. split; [apply Hk|done]. }
  intros p l' s' -> Hp Hu Hag. destruct (Z.eqb_spec p 0) as [->|_]; [by apply freeable_nonzero in Hp|].
  assert (forall q, own l' {[(2, 0) := p]} ∅ q <-> q ∈ p :: l') as Hown.
  { intros q. unfold own. rewrite elem_of_cons. split.
    - intros [?|[[k Hq]|(v & e & He & _)]]; [by right| |by rewrite lookup_empty in He].
      apply lookup_singleton_Some in Hq as [_ <-]. by left.
    - intros [->|?]; [right; left; exists (2, 0); apply lookup_singleton_eq|by left]. }
  apply wp_bind. eapply wp_uvmalloc; [done|lia|lia|done|intros; apply lookup_empty| |].
  - intros s2 l2 T2 Hu2 Hf _. eapply wp_uvmfree; [done|lia|intros v e He; by rewrite lookup_empty in He|].
    intros s3 l3 Hk3 Hl3 _. exists l3. split; [done|]. split; [apply Hk3|]. intros q.
    rewrite Hl3, <- Hown. symmetry. apply Hf.
  - intros s2 l2 T2 A2 (Hu2 & Hf & _ & _ & Hg). eapply wp_uvmfree; [done|lia| |].
    + intros v e He. specialize (Hg v). change (PGROUNDUP 0) with 0 in Hg.
      change (vpn_of 0) with 0 in Hg. destruct (pgroundup_user sz) as (Ha & Hb & Hc); [lia|].
      case_decide as Hd; [|by rewrite Hg, lookup_empty in He]. unfold npages in Hd.
      unfold pg_aligned, PGSIZE in *. Z.div_mod_to_equations. lia.
    + intros s3 l3 Hk3 Hl3 _. exists l3. split; [done|]. split; [apply Hk3|]. intros q.
      rewrite Hl3, <- Hown. symmetry. apply Hf.
Qed.

End vm_theorems.

(** ** Instances on the small machine *)

Section instances.
#[local] Existing Instance small.

Abbreviation sT := ({[(2, 0) := sp 8]} : tables).

Lemma small_disjoint : disjoint_from small_free {[(2, 0) := sp 7]} ∅ sT ∅.
Proof.
  split; [|intros v e He; by rewrite lookup_empty in He].
  intros p [k [_ <-]%lookup_singleton_Some] [Hin|[[k' [_ Hp]%lookup_singleton_Some]|(v & e & He & _)]].
  - revert Hin. apply (bool_decide_unpack _). vm_compute. exact I.
  - by vm_compute in Hp.
  - by rewrite lookup_empty in He.
Qed.

Lemma walk_finds_leaf_witness :
  wp (walk (sp 8) 4096 false) (fun pte s' => s' = small_state /\
    (pte = 0 -> (∅ : leaves) !! vpn_of 4096 = None) /\
    (pte <> 0 -> ld64 (mem small_state) pte = default 0 ((∅ : leaves) !! vpn_of 4096))) small_state.
Proof. apply (walk_finds_leaf _ small_free _ sT); [apply small_uspace|done]. Defined.

Lemma mappages_maps_range_witness :
  wp (mappages (sp 8) 0x3000 (2 * PGSIZE) KERNBASE PTE_R) (fun r s' => exists l' T' k,
    grows small_state small_free sT s' l' T' /\
    aspace s' l' (sp 8) T' (map_range k ∅ (vpn_of 0x3000) KERNBASE (Z.lor PTE_R PTE_V)) /\
    ((r = 0 /\ Z.of_nat k = 2) \/ (r = -1 /\ Z.of_nat k < 2 /\ l' = []))) small_state.
Proof.
  apply (mappages_maps_range _ small_free _ sT ∅ _ 2); [apply small_uspace|done|done|done|done| |done|done|].
  - by split.
  - intros v _. apply lookup_empty.
Defined.

Lemma uvmunmap_releases_range_witness :
  wp (uvmunmap (sp 8) 0x1000 3 true) (fun _ s' =>
    let A' := unmap_range (Z.to_nat 3) ∅ (vpn_of 0x1000) in
    let l' := range_pages (Z.to_nat 3) ∅ (vpn_of 0x1000) ++ small_free in
    uspace s' l' (sp 8) sT A' /\ framed small_state small_free sT ∅ s' l' sT A' /\
    ukeep A' (mem small_state) (mem s')) small_state.
Proof. apply uvmunmap_releases_range; [apply small_uspace|done..]. Defined.

Lemma freewalk_frees_tables_witness :
  wp (freewalk (sp 8)) (fun _ s' => exists l', kmem_ok s' l' /\
    (forall p, p ∈ l' <-> p ∈ small_free \/ is_table sT p) /\
    agree (outside sT) (mem small_state) (mem s')) small_state.
Proof. apply freewalk_frees_tables. apply small_uspace. Defined.


Lemma copyin_reads_view_witness :
  wp (copyin (mkvmproc 8192 (sp 8)) (sp 8) 4000 200) (fun '(r, dst) s' => exists l',
    copying small_state small_free (sp 8) sT ∅ 8192 (uview (mem small_state) ∅ 8192) s' l' /\
    sees (uview (mem small_state) ∅ 8192) 4000 dst /\
    ((r = 0 /\ Z.of_nat (length dst) = 200) \/
     (r = -1 /\ (uview (mem small_state) ∅ 8192 (4000 + Z.of_nat (length dst)) = None \/
        (length l' <= 1)%nat)))) small_state.
Proof. apply copyin_reads_view; [apply small_uspace|done..]. Defined.


(** The calls of this witness succeed, across a page boundary of lazily
    allocated memory. *)
Lemma copyout_copyin_roundtrip_witness :
  (match (r ← copyout (mkvmproc 8192 (sp 8)) (sp 8) 4094 [104; 111; 108; 97];
          q ← copyin (mkvmproc 8192 (sp 8)) (sp 8) 4094 (Z.of_nat (length [104; 111; 108; 97]));
          mret (r, q)) small_state with
   | Ok (0, (0, [104; 111; 108; 97])) _ => true | _ => false end) = true /\
  wp (r ← copyout (mkvmproc 8192 (sp 8)) (sp 8) 4094 [104; 111; 108; 97];
      q ← copyin (mkvmproc 8192 (sp 8)) (sp 8) 4094 (Z.of_nat (length [104; 111; 108; 97]));
      mret (r, q))
    (fun '(r, (r', dst)) _ => r = 0 -> r' = 0 -> dst = [104; 111; 108; 97]) small_state.
Proof.
  split; [vm_compute; reflexivity|].
  apply (copyout_copyin_roundtrip _ small_free _ sT ∅); [apply small_uspace|done|done| |done].
  apply (bool_decide_unpack _). vm_compute. exact I.
Defined.

Lemma copyinstr_reads_string_witness :
  wp (copyinstr (sp 8) 100 16) (fun '(r, dst) s' => s' = small_state /\
    string_result (uview (mem small_state) ∅ 8192) 100 16 r dst /\
    (r = -1 -> Z.of_nat (length dst) = 16 \/
       forall e, (∅ : leaves) !! vpn_of (100 + Z.of_nat (length dst)) = Some e -> has e PTE_U = false))
    small_state.
Proof. apply (copyinstr_reads_string _ small_free _ sT); [apply small_uspace|done..]. Defined.

Lemma uvmalloc_grows_witness :
  wp (uvmalloc (sp 8) 0 6000 PTE_W) (fun r s' => exists l' T' A',
    uspace s' l' (sp 8) T' A' /\ framed small_state small_free sT ∅ s' l' T' A' /\
    ((r = 0 /\ A' = ∅ /\ ukeep ∅ (mem small_state) (mem s')) \/
     (r = 6000 /\ (forall va, uview (mem s') A' 6000 va = uview (mem small_state) ∅ 6000 va) /\
      grown_leaves ∅ A' (mem s') (vpn_of (PGROUNDUP 0))
        (npages (PGROUNDUP 0) (PGROUNDUP 6000)) (alloc_flags PTE_W)))) small_state.
Proof. apply uvmalloc_grows; [apply small_uspace|done|done|done|done|intros; apply lookup_empty]. Defined.

Lemma uvmfree_no_leak_witness :
  wp (uvmfree (sp 8) 6000) (fun _ s' => exists l', kmem_ok s' l' /\ NoDup l' /\
    (forall p, p ∈ l' <-> own small_free sT ∅ p) /\
    agree (fun a => forall q, own small_free sT ∅ q -> ~ in_page q a) (mem small_state) (mem s'))
    small_state.
Proof.
  apply uvmfree_no_leak; [apply small_uspace|done|]. intros v e He. by rewrite lookup_empty in He.
Defined.

Lemma uvmcopy_same_memory_witness :
  wp (uvmcopy (sp 8) (sp 7) 6000) (fun r s' => exists l' T' A',
    uspace s' l' (sp 7) T' A' /\ uspace s' l' (sp 8) sT ∅ /\ disjoint_from l' T' A' sT ∅ /\
    framed small_state small_free {[(2, 0) := sp 7]} ∅ s' l' T' A' /\
    ukeep ∅ (mem small_state) (mem s') /\
    ((r = 0 /\ forall va, 0 <= va -> PGROUNDDOWN va < 6000 ->
        uview (mem s') A' 6000 va = uview (mem small_state) ∅ 6000 va) \/
     (r = -1 /\ A' = ∅))) small_state.
Proof.
  apply uvmcopy_same_memory; [apply small_uspace|apply small_uspace2|apply small_disjoint|done|].
  intros; apply lookup_empty.
Defined.

Lemma uvm_lifecycle_witness :
  wp (pt ← uvmcreate;
      if pt =? 0 then mret tt else uvmalloc pt 0 6000 0;; uvmfree pt 6000)
    (fun _ s' => exists l', kmem_ok s' l' /\ NoDup l' /\ forall p, p ∈ l' <-> p ∈ small_free) small_state.
Proof. apply uvm_lifecycle; [apply small_kmem|done]. Defined.

End instances.
