(* ===== verification/KernelSpace.v ===== *)
(** * The kernel's address space

    [kvmmake] of kernel/vm.c, run on the free list that [kinit] leaves, builds
    the page table of the kernel: the devices and the memory at their own
    addresses, the trampoline, and a stack for each process between pages that
    are not mapped.  The number of table pages is fixed by the layout: it is
    computed, so the theorem says how much memory the boot needs. *)

From S2P Require Import Prelude CMem Riscv Kalloc Vm PageTable Freewalk UserMem UserSpace.

(** ** Regions *)

(** [rn] pages from [rva] on, mapped to the pages from [rpa] on. *)
Record region := mkregion { rva : Z; rn : Z; rpa : Z; rperm : Z }.

Definition region_leaf (r : region) (v : Z) : option Z :=
  if decide (vpn_of (rva r) <= v < vpn_of (rva r) + rn r)
  then Some (mkpte (rpa r + (v - vpn_of (rva r)) * PGSIZE) (Z.lor (rperm r) PTE_V)) else None.

(** The entry of the first region that holds the page. *)
Fixpoint regions_leaf (rs : list region) (v : Z) : option Z :=
  match rs with
  | [] => None
  | r :: rs' => match region_leaf r v with Some e => Some e | None => regions_leaf rs' v end
  end.

Lemma regions_leaf_app rs rs' v :
  regions_leaf (rs ++ rs') v = match regions_leaf rs v with Some e => Some e | None => regions_leaf rs' v end.
Proof. induction rs as [|r rs IH]; [done|]. cbn [app regions_leaf]. by destruct (region_leaf r v). Qed.

Lemma regions_leaf_Some rs v e : regions_leaf rs v = Some e -> exists r, r ∈ rs /\ region_leaf r v = Some e.
Proof.
  induction rs as [|r rs IH]; [done|]. cbn [regions_leaf]. destruct (region_leaf r v) as [e'|] eqn:E.
  - intros [= ->]. exists r. split; [left|done].
  - intros H. destruct (IH H) as (r' & Hr & Hl). exists r'. split; [by right|done].
Qed.

Lemma regions_leaf_None rs v : (forall r, r ∈ rs -> region_leaf r v = None) -> regions_leaf rs v = None.
Proof.
  induction rs as [|r rs IH]; intros H; [done|]. cbn [regions_leaf]. rewrite H by left. apply IH. intros r' Hr. apply H. by right.
Qed.

(** ** The tables the kernel needs *)

(** The root; the tables for the first gigabyte (devices), the third
    (memory) and the last; and one table for each two megabytes: of 0x100000, of
    the PLIC, of the UART and the disk, of the memory, and of the stacks. *)
Definition kkeys : gset (Z * Z) :=
  list_to_set ([(2, 0); (1, 0); (1, 2); (1, 255); (0, 0); (0, 131071)] ++
    ((fun i : nat => (0, 96 + Z.of_nat i)) <$> seq 0 33) ++ ((fun i : nat => (0, 1024 + Z.of_nat i)) <$> seq 0 64)).

Lemma kkeys_size : size kkeys = 103%nat.
Proof. by vm_compute. Qed.

Definition kva (a : Z) : Prop :=
  0x100000 <= a < 0x101000 \/ PLIC <= a < PLIC + 0x4000000 \/ UART0 <= a < UART0 + 2 * PGSIZE \/
  KERNBASE <= a < PHYSTOP \/ KSTACK (NPROC - 1) <= a < MAXVA.

Lemma kkeys_seq c n x : c <= x < c + Z.of_nat n -> (0, x) ∈ (fun i : nat => (0, c + Z.of_nat i)) <$> seq 0 n.
Proof. intros Hx. apply list_elem_of_fmap. exists (Z.to_nat (x - c)). split; [f_equal; lia|]. apply elem_of_seq. lia. Qed.

Lemma kkeys_0 x : x = 0 \/ x = 131071 \/ 96 <= x < 129 \/ 1024 <= x < 1088 -> (0, x) ∈ kkeys.
Proof.
  intros H. unfold kkeys. rewrite elem_of_list_to_set, !elem_of_app. destruct H as [->|[->|[H|H]]].
  - left. by apply (bool_decide_unpack _); vm_compute.
  - left. by apply (bool_decide_unpack _); vm_compute.
  - right. left. by apply kkeys_seq.
  - right. right. by apply kkeys_seq.
Qed.

(** The constants of the layout as numbers. *)
Ltac kernel_nums :=
  change MAXVA with 274877906944 in *; change (KSTACK (NPROC - 1)) with 274877378560 in *; change TRAMPOLINE with 274877902848 in *;
  change PHYSTOP with 2281701376 in *; change KERNBASE with 2147483648 in *; change PLIC with 201326592 in *;
  change UART0 with 268435456 in *; change VIRTIO0 with 268439552 in *; change PGSIZE with 4096 in *; change NPROC with 64 in *.

Lemma kva_keys a lv : kva a -> 0 <= lv <= 1 -> (lv, pfx lv a) ∈ kkeys.
Proof.
  intros Ha Hlv. assert (lv = 0 \/ lv = 1) as [->| ->] by lia; unfold kva in Ha; unfold pfx.
  - apply kkeys_0. change (2 ^ (12 + 9 * (0 + 1))) with 2097152.
    kernel_nums. Z.div_mod_to_equations. lia.
  - assert (a / 2 ^ (12 + 9 * (1 + 1)) = 0 \/ a / 2 ^ (12 + 9 * (1 + 1)) = 2 \/ a / 2 ^ (12 + 9 * (1 + 1)) = 255) as H.
    { change (2 ^ (12 + 9 * (1 + 1))) with 1073741824.
      kernel_nums. Z.div_mod_to_equations. lia. }
    destruct H as [->|[->| ->]]; by apply (bool_decide_unpack _); vm_compute.
Qed.

Section kernelspace.
Context {KL : KLayout}.

(** ** Counting the tables *)

Definition table_pages (T : tables) : list Z := (map_to_list T).*2.

Lemma elem_of_table_pages T p : p ∈ table_pages T <-> is_table T p.
Proof.
  unfold table_pages, is_table. rewrite list_elem_of_fmap. split.
  - intros ([k q] & -> & H%elem_of_map_to_list). by exists k.
  - intros (k & H). exists (k, p). by rewrite elem_of_map_to_list.
Qed.

Lemma table_pages_NoDup m T root : pt_ok m T root -> NoDup (table_pages T).
Proof.
  intros Hpt. unfold table_pages. apply NoDup_fmap_2_strong; [|apply NoDup_map_to_list].
  intros [k p] [k' p'] H%elem_of_map_to_list H'%elem_of_map_to_list. cbn [snd]. intros <-.
  f_equal. by eapply pt_inj.
Qed.

Lemma grows_size s l root T A s' l' T' A' :
  aspace s l root T A -> aspace s' l' root T' A' -> grows s l T s' l' T' -> (size T' + length l' = size T + length l)%nat.
Proof.
  intros (Hk & Hpt & _ & Hd) (_ & Hpt' & _ & _) ((k & -> & Hk') & _).
  assert (table_pages T' ≡ₚ table_pages T ++ k) as Hp.
  { apply NoDup_Permutation.
    - by eapply table_pages_NoDup.
    - apply NoDup_app. split; [by eapply table_pages_NoDup|]. destruct Hk as (_ & _ & Hnd & _). apply NoDup_app in Hnd as (Hnd & _).
      split; [|done]. intros p Hp%elem_of_table_pages Hpk. eapply Hd; [exact Hp|]. apply elem_of_app. by left.
    - intros p. by rewrite elem_of_app, !elem_of_table_pages. }
  apply Permutation_length in Hp. unfold table_pages in Hp. rewrite length_app, !length_fmap, !length_map_to_list in Hp.
  rewrite length_app. lia.
Qed.

(** ** The kernel page table while it is built *)

(** [st] are the stack pages allocated so far. *)
Record kspace (s : phys) (l : list Z) (root : Z) (T : tables) (rs : list region) (st : list Z) : Prop := {
  ks_map : exists A, aspace s l root T A /\ forall v, A !! v = regions_leaf rs v;
  ks_keys : dom T ⊆ kkeys;
  ks_stacks : NoDup st /\ forall p, p ∈ st -> freeable p /\ p ∉ l /\ ~ is_table T p
}.

Lemma ks_size s l root T rs st : kspace s l root T rs st -> (size T <= 103)%nat.
Proof. intros H. rewrite <- kkeys_size, <- size_dom. apply subseteq_size, (ks_keys _ _ _ _ _ _ H). Qed.

Lemma adds_keys (P : Z -> Prop) T T' : adds P T T' -> (forall a, P a -> kva a) -> dom T ⊆ kkeys -> dom T' ⊆ kkeys.
Proof.
  intros Ha HP HT k Hk%elem_of_dom. destruct (Ha k Hk) as [H|(lv & a & Hlv & Hpa & ->)]; [by apply HT, elem_of_dom|].
  by apply kva_keys; [apply HP|].
Qed.

Lemma wp_kvmmap n s l root T rs st va pa sz perm (Q : unit -> phys -> Prop) :
  kspace s l root T rs st -> sz = n * PGSIZE -> (103 < size T + length l)%nat ->
  1 <= n -> 0 <= va -> pg_aligned va -> va + n * PGSIZE <= MAXVA -> (forall a, va <= a < va + n * PGSIZE -> kva a) ->
  page_addr pa -> pa + n * PGSIZE <= 2 ^ 56 -> 0 <= perm < 1024 ->
  (forall v, vpn_of va <= v < vpn_of va + n -> regions_leaf rs v = None) ->
  (forall s' l' T', kspace s' l' root T' (rs ++ [mkregion va n pa perm]) st -> (size T' + length l' = size T + length l)%nat -> Q tt s') ->
  wp (kvmmap root va pa sz perm) Q s.
Proof.
  intros Hks -> Hsz Hn Hva Hal Hend Hk Hpa Hpe Hperm Hfree HQ. destruct Hks as [(A & Has & HA) Hkeys [Hnd Hst]] eqn:E. clear E.
  assert (forall s' l' T', grows s l T s' l' T' -> forall p, p ∈ st -> freeable p /\ p ∉ l' /\ ~ is_table T' p) as Hst'.
  { intros s' l' T' ((k & -> & Hk') & _) p Hp. destruct (Hst p Hp) as (Hf & Hpl & Hpt). rewrite elem_of_app in Hpl. rewrite Hk'. tauto. }
  unfold kvmmap. apply wp_bind. eapply (wp_mappages n); [exact Has|done..| | |].
  - intros v Hv. rewrite HA. by apply Hfree.
  - intros s' T' j Hj Hg Hd Has'. exfalso. pose proof (grows_size _ _ _ _ _ _ _ _ _ Has Has' Hg) as Hs.
    assert (size T' <= 103)%nat; [|cbn [length] in Hs; lia].
    rewrite <- kkeys_size, <- size_dom. apply subseteq_size. by eapply adds_keys.
  - intros s' l' T' Hg Hd Has'. apply wp_ret, (HQ s' l' T').
    + split; [|by eapply adds_keys|by split; [|eapply Hst']].
      eexists. split; [exact Has'|]. intros v. rewrite lookup_map_range, regions_leaf_app, Z2Nat.id by lia. cbn [regions_leaf].
      unfold region_leaf. cbn [rva rn rpa rperm]. case_decide as Hv; [by rewrite Hfree|]. rewrite HA. by destruct (regions_leaf rs v).
    + by eapply grows_size.
Qed.

(** ** The regions of kvmmake *)

Definition PTE_RW : Z := Z.lor PTE_R PTE_W.
Definition PTE_RX : Z := Z.lor PTE_R PTE_X.

Definition text_pages : Z := (etext - KERNBASE) / PGSIZE.
Definition data_pages : Z := (PHYSTOP - etext) / PGSIZE.

Definition direct_regions : list region :=
  [mkregion UART0 1 UART0 PTE_RW; mkregion VIRTIO0 1 VIRTIO0 PTE_RW; mkregion 0x100000 1 0x100000 PTE_RW;
   mkregion PLIC 0x4000 PLIC PTE_RW; mkregion KERNBASE text_pages KERNBASE PTE_RX; mkregion etext data_pages etext PTE_RW;
   mkregion TRAMPOLINE 1 trampoline PTE_RX].

Definition stack_regions (st : list Z) : list region :=
  imap (fun i p => mkregion (KSTACK (Z.of_nat i)) 1 p PTE_RW) st.

Lemma layout_pages : kend < PHYSTOP ->
  etext = KERNBASE + text_pages * PGSIZE /\ PHYSTOP = etext + data_pages * PGSIZE /\ 1 <= text_pages /\ 1 <= data_pages.
Proof.
  intros Hk. destruct layout_trampoline as [Ht Hta], layout_kend as [He _]. pose proof layout_etext as Hte.
  unfold text_pages, data_pages. kernel_nums. Z.div_mod_to_equations. lia.
Qed.

Lemma KSTACK_vpn i : vpn_of (KSTACK i) = 67108861 - 2 * i.
Proof. unfold KSTACK, vpn_of. kernel_nums. Z.div_mod_to_equations. lia. Qed.

Lemma region_leaf_out va n pa perm v : ~ (vpn_of va <= v < vpn_of va + n) -> region_leaf (mkregion va n pa perm) v = None.
Proof. intros H. unfold region_leaf. by rewrite decide_False. Qed.
End kernelspace.

(** A page outside a given list of regions. *)
Ltac out_of_regions :=
  apply regions_leaf_None; let r := fresh "r" in let Hr := fresh "Hr" in intros r Hr;
  repeat (apply elem_of_cons in Hr as [->|Hr]; [apply region_leaf_out; unfold vpn_of in *; kernel_nums; Z.div_mod_to_equations; lia|]);
  by apply elem_of_nil in Hr.

Ltac kvm_side :=
  first [done | exact I
        | unfold kva; kernel_nums; lia
        | unfold page_addr, pg_aligned in *; kernel_nums; Z.div_mod_to_equations; lia
        | let v := fresh "v" in let Hv := fresh "Hv" in intros v Hv; out_of_regions].

(** One call of [kvmmap] for [n] pages; [Hks] and [Hsz] become those of the state after it. *)
Ltac kvm_step n Hks Hsz :=
  let s1 := fresh "s" in let l1 := fresh "l" in let T1 := fresh "T" in let K := fresh "Hks" in let S1 := fresh "Hs" in
  apply wp_bind; eapply (wp_kvmmap n); [exact Hks|kvm_side..|];
  intros s1 l1 T1 K S1; cbn [app] in K; clear Hks; rename K into Hks; rewrite <- S1 in *; clear S1.

Section kvmmake.
Context {KL : KLayout}.

Lemma wp_kvm_root {B} s l (k : Z -> M phys B) Q :
  kmem_ok s l -> (1 <= length l)%nat ->
  (forall p l' s', l = p :: l' -> kspace s' l' p {[(2, 0) := p]} [] [] -> wp (k p) Q s') ->
  wp (p ← kalloc; fill p 0 PGSIZE;; k p) Q s.
Proof.
  intros Hk Hl HQ. apply wp_bind. eapply wp_kalloc; [done|by intros ->; cbn in Hl; lia|].
  intros p l' s' -> Hp Hni Hk' _ Hag. wp_step. wp_step. eapply HQ; [done|]. split.
  - exists ∅. split; [|by intros v; rewrite lookup_empty]. eapply empty_table; [|done|done|].
    + eapply kmem_ok_frame; [done|apply memset_page_agree|]. intros q a Hq Ha.
      eapply page_disjoint; [by eapply kmem_ok_freeable|apply Hp| |done]. by intros ->.
    + intros i Hi. simpl. apply (ld_memset_0 8); unfold PGSIZE; lia.
  - rewrite dom_singleton_L. intros k' ->%elem_of_singleton. by apply (bool_decide_unpack _); vm_compute.
  - split; [constructor|]. by intros q ?%elem_of_nil.
Qed.

Lemma wp_direct {B} s l root T (k : M phys B) Q :
  kspace s l root T [] [] -> (103 < size T + length l)%nat -> kend < PHYSTOP ->
  (forall s' l' T', kspace s' l' root T' direct_regions [] -> (size T' + length l' = size T + length l)%nat -> wp k Q s') ->
  wp (kvmmap root UART0 UART0 PGSIZE (Z.lor PTE_R PTE_W);;
      kvmmap root VIRTIO0 VIRTIO0 PGSIZE (Z.lor PTE_R PTE_W);;
      kvmmap root 0x100000 0x100000 PGSIZE (Z.lor PTE_R PTE_W);;
      kvmmap root PLIC PLIC 0x4000000 (Z.lor PTE_R PTE_W);;
      kvmmap root KERNBASE KERNBASE (etext - KERNBASE) (Z.lor PTE_R PTE_X);;
      kvmmap root etext etext (PHYSTOP - etext) (Z.lor PTE_R PTE_W);;
      kvmmap root TRAMPOLINE trampoline PGSIZE (Z.lor PTE_R PTE_X);; k) Q s.
Proof.
  intros Hks Hsz Hend HQ. destruct (layout_pages Hend) as (He & Hd & Ht1 & Hd1).
  pose proof layout_trampoline as [Htr Hta]. pose proof layout_etext as Hte.
  replace (etext - KERNBASE) with (text_pages * PGSIZE) by lia. replace (PHYSTOP - etext) with (data_pages * PGSIZE) by lia.
  kvm_step 1 Hks Hsz. kvm_step 1 Hks Hsz. kvm_step 1 Hks Hsz. kvm_step 0x4000 Hks Hsz. kvm_step text_pages Hks Hsz.
  kvm_step data_pages Hks Hsz. kvm_step 1 Hks Hsz. by eapply HQ.
Qed.

Lemma stack_regions_snoc st p : stack_regions (st ++ [p]) = stack_regions st ++ [mkregion (KSTACK (Z.of_nat (length st))) 1 p PTE_RW].
Proof. unfold stack_regions. rewrite imap_app. cbn [imap]. by rewrite Nat.add_0_r. Qed.

Lemma stack_regions_out st v :
  (forall i, (i < length st)%nat -> v <> vpn_of (KSTACK (Z.of_nat i))) -> regions_leaf (stack_regions st) v = None.
Proof.
  intros H. apply regions_leaf_None. intros r Hr. apply list_elem_of_lookup in Hr as [i Hi]. unfold stack_regions in Hi.
  rewrite list_lookup_imap in Hi. destruct (st !! i) as [p|] eqn:E; [|done]. injection Hi as <-.
  apply region_leaf_out. specialize (H i (lookup_lt_Some _ _ _ E)). lia.
Qed.

Lemma direct_out v : kend < PHYSTOP -> PHYSTOP / PGSIZE <= v < TRAMPOLINE / PGSIZE -> regions_leaf direct_regions v = None.
Proof.
  intros Hend Hv. destruct (layout_pages Hend) as (He & Hd & Ht1 & Hd1). unfold direct_regions. out_of_regions.
Qed.

Lemma kspace_kalloc s l root T rs st (Q : Z -> phys -> Prop) :
  kspace s l root T rs st -> (1 <= length l)%nat ->
  (forall p l' s', l = p :: l' -> kspace s' l' root T rs (st ++ [p]) -> Q p s') -> wp kalloc Q s.
Proof.
  intros [(A & Has & HA) Hkeys [Hnd Hst]] Hl HQ. eapply wp_kalloc_aspace; [exact Has|by intros ->; cbn in Hl; lia|].
  intros p l' s' -> Hp Hni Hnt Has' _. eapply HQ; [done|]. split; [by exists A|done|].
  split.
  - apply NoDup_app. split; [done|]. split; [|apply NoDup_singleton]. intros q Hq ->%list_elem_of_singleton.
    destruct (Hst p Hq) as (_ & Hpl & _). apply Hpl. left.
  - intros q [Hq| ->%list_elem_of_singleton]%elem_of_app; [|done]. destruct (Hst q Hq) as (Hf & Hql & Ht).
    split; [done|]. split; [|done]. intros H. apply Hql. by right.
Qed.

Lemma wp_proc_mapstacks s l root T (Q : unit -> phys -> Prop) :
  kspace s l root T direct_regions [] -> (168 <= size T + length l)%nat -> kend < PHYSTOP ->
  (forall s' l' T' st, length st = Z.to_nat NPROC -> kspace s' l' root T' (direct_regions ++ stack_regions st) st ->
     (size T' + length l' + Z.to_nat NPROC = size T + length l)%nat -> Q tt s') ->
  wp (proc_mapstacks root) Q s.
Proof.
  intros Hks Hsz Hend HQ. unfold proc_mapstacks.
  apply (wp_for_range (fun i s' => exists l' T' st, Z.of_nat (length st) = i /\ kspace s' l' root T' (direct_regions ++ stack_regions st) st /\
    (size T' + length l' + length st = size T + length l)%nat)).
  - exists l, T, []. split; [done|]. split; [by rewrite app_nil_r|]. cbn [length]. lia.
  - intros i s1 Hi (l1 & T1 & st & <- & Hks1 & Hs1). pose proof (ks_size _ _ _ _ _ _ Hks1) as Hsize.
    change (Z.of_nat (Z.to_nat NPROC)) with 64 in Hi. apply wp_bind. eapply kspace_kalloc; [exact Hks1|lia|].
    intros p l2 s2 -> Hks2. cbn [length] in Hs1.
    assert (freeable p) as Hp by (apply (ks_stacks _ _ _ _ _ _ Hks2), elem_of_app; right; apply list_elem_of_singleton; done).
    rewrite (proj2 (Z.eqb_neq p 0)) by by apply freeable_nonzero. pose proof (freeable_pos p Hp) as Hpr.
    pose proof (freeable_page_addr p Hp) as Hpa. assert (KSTACK (Z.of_nat (length st)) = 274877894656 - 8192 * Z.of_nat (length st)) as Hkst by (unfold KSTACK; kernel_nums; lia).
    eapply (wp_kvmmap 1); [exact Hks2|kernel_nums; lia|lia|done|rewrite Hkst; lia| | | |done| |done| |].
    + unfold pg_aligned. rewrite Hkst. kernel_nums. Z.div_mod_to_equations. lia.
    + rewrite Hkst. kernel_nums. lia.
    + rewrite Hkst. unfold kva. kernel_nums. lia.
    + kernel_nums. lia.
    + intros v Hv. rewrite KSTACK_vpn in Hv. rewrite regions_leaf_app, direct_out; [|done|kernel_nums; Z.div_mod_to_equations; lia].
      apply stack_regions_out. intros i Hlt. rewrite KSTACK_vpn. lia.
    + intros s3 l3 T3 Hks3 Hs3. exists l3, T3, (st ++ [p]). rewrite stack_regions_snoc, (assoc_L (++)), length_app. cbn [length].
      split; [lia|]. split; [done|lia].
  - intros s1 (l1 & T1 & st & Hlen & Hks1 & Hs1). change (Z.of_nat (Z.to_nat NPROC)) with 64 in Hlen.
    assert (length st = Z.to_nat NPROC) as Hl by (change (Z.to_nat NPROC) with 64%nat; lia). eapply HQ; [exact Hl|exact Hks1|]. lia.
Qed.

(** ** What the kernel sees *)

Definition direct_rw (a : Z) : Prop :=
  UART0 <= a < UART0 + PGSIZE \/ VIRTIO0 <= a < VIRTIO0 + PGSIZE \/ 0x100000 <= a < 0x100000 + PGSIZE \/
  PLIC <= a < PLIC + 0x4000000 \/ etext <= a < PHYSTOP.

(** The devices and the memory are at their own addresses, the code cannot be
    written and nothing else can be executed, each process has a stack above a
    page that is not mapped, and nothing is open to user code. *)
Record kernel_map (A : leaves) (st : list Z) : Prop := {
  km_data : forall a, direct_rw a -> A !! vpn_of a = Some (mkpte (PGROUNDDOWN a) (Z.lor PTE_RW PTE_V));
  km_text : forall a, KERNBASE <= a < etext -> A !! vpn_of a = Some (mkpte (PGROUNDDOWN a) (Z.lor PTE_RX PTE_V));
  km_trampoline : A !! vpn_of TRAMPOLINE = Some (mkpte trampoline (Z.lor PTE_RX PTE_V));
  km_stack : forall i p, st !! i = Some p ->
    A !! vpn_of (KSTACK (Z.of_nat i)) = Some (mkpte p (Z.lor PTE_RW PTE_V)) /\ A !! (vpn_of (KSTACK (Z.of_nat i)) - 1) = None;
  km_prot : forall v e, A !! v = Some e -> has e PTE_U = false /\ (has e PTE_W = true -> has e PTE_X = false)
}.

Lemma region_in va n pa perm rs rs' v :
  vpn_of va <= v < vpn_of va + n -> regions_leaf rs v = None ->
  regions_leaf (rs ++ mkregion va n pa perm :: rs') v = Some (mkpte (pa + (v - vpn_of va) * PGSIZE) (Z.lor perm PTE_V)).
Proof.
  intros Hv Hrs. rewrite regions_leaf_app, Hrs. cbn [regions_leaf]. unfold region_leaf. cbn [rva rn rpa rperm]. by rewrite decide_True.
Qed.

Lemma direct_in va n perm rs rs' a :
  pg_aligned va -> va <= a < va + n * PGSIZE -> regions_leaf rs (vpn_of a) = None ->
  regions_leaf (rs ++ mkregion va n va perm :: rs') (vpn_of a) = Some (mkpte (PGROUNDDOWN a) (Z.lor perm PTE_V)).
Proof.
  intros Hal Ha Hrs. rewrite region_in; [|unfold vpn_of, pg_aligned in *; kernel_nums; Z.div_mod_to_equations; lia|done].
  rewrite PGROUNDDOWN_vpn. do 2 f_equal. pose proof (aligned_vpn va Hal). lia.
Qed.

Lemma stack_in st i p : st !! i = Some p ->
  regions_leaf (stack_regions st) (vpn_of (KSTACK (Z.of_nat i))) = Some (mkpte p (Z.lor PTE_RW PTE_V)).
Proof.
  intros Hi. rewrite <- (take_drop_middle st i p Hi). unfold stack_regions. rewrite imap_app. cbn [imap].
  pose proof (lookup_lt_Some _ _ _ Hi). assert (length (take i st) = i) as Hl by (rewrite length_take; lia).
  rewrite Hl, Nat.add_0_r. fold (stack_regions (take i st)).
  rewrite region_in; [|lia|apply stack_regions_out; rewrite Hl; intros j Hj; rewrite !KSTACK_vpn; lia]. do 2 f_equal. lia.
Qed.

Lemma kernel_regions_map A st :
  kend < PHYSTOP -> length st = Z.to_nat NPROC ->
  (forall v, A !! v = regions_leaf (direct_regions ++ stack_regions st) v) -> kernel_map A st.
Proof.
  intros Hend Hst HA. destruct (layout_pages Hend) as (He & Hd & Ht1 & Hd1).
  pose proof layout_trampoline as [Htr Hta]. pose proof layout_etext as Hte.
  change (Z.to_nat NPROC) with 64%nat in Hst. split.
  - intros a [Ha|[Ha|[Ha|[Ha|Ha]]]]; rewrite HA; unfold direct_regions.
    + apply (direct_in UART0 1 _ []); [done|kernel_nums; lia|done].
    + apply (direct_in VIRTIO0 1 _ [_]); [done|kernel_nums; lia|out_of_regions].
    + apply (direct_in 0x100000 1 _ [_; _]); [done|kernel_nums; lia|out_of_regions].
    + apply (direct_in PLIC 0x4000 _ [_; _; _]); [done|kernel_nums; lia|out_of_regions].
    + apply (direct_in etext data_pages _ [_; _; _; _; _]); [unfold pg_aligned; kernel_nums; Z.div_mod_to_equations; lia|kernel_nums; lia|out_of_regions].
  - intros a Ha. rewrite HA. unfold direct_regions.
    apply (direct_in KERNBASE text_pages _ [_; _; _; _]); [done|kernel_nums; lia|out_of_regions].
  - rewrite HA. etrans; [apply (region_in TRAMPOLINE 1 trampoline PTE_RX [_; _; _; _; _; _]); [lia|out_of_regions]|]. do 2 f_equal. lia.
  - intros i p Hi. rewrite !HA, !regions_leaf_app. pose proof (lookup_lt_Some _ _ _ Hi). rewrite !KSTACK_vpn.
    rewrite !direct_out by (done || (kernel_nums; Z.div_mod_to_equations; lia)). rewrite <- KSTACK_vpn. split; [by apply stack_in|].
    apply stack_regions_out. intros j Hj. rewrite !KSTACK_vpn. lia.
  - intros v e Hv. rewrite HA in Hv. apply regions_leaf_Some in Hv as (r & Hr & Hl). unfold region_leaf in Hl. case_decide; [|done].
    injection Hl as <-. assert (rperm r = PTE_RW \/ rperm r = PTE_RX) as Hp.
    { apply elem_of_app in Hr as [Hr|Hr].
      - unfold direct_regions in Hr. repeat (apply elem_of_cons in Hr as [->|Hr]; [by auto|]). by apply elem_of_nil in Hr.
      - apply list_elem_of_lookup in Hr as [i Hi]. unfold stack_regions in Hi. rewrite list_lookup_imap in Hi.
        destruct (st !! i); [|done]. injection Hi as <-. by left. }
    destruct Hp as [-> | ->]; rewrite !has_mkpte by done; by split.
Qed.

(** ** The theorem *)

Lemma all_pages_length : kend < PHYSTOP -> Z.of_nat (length all_pages) = (PHYSTOP - PGROUNDUP kend) / PGSIZE.
Proof.
  intros Hk. unfold all_pages. assert (forall n p, length (pages_from n p) = n) as Hl by (induction n as [|n IH]; intros p; [done|cbn; by rewrite IH]).
  rewrite Hl, Z2Nat.id; [done|]. pose proof layout_trampoline. pose proof layout_etext. pose proof layout_kend.
  rewrite PGROUNDUP_eq by (kernel_nums; lia). kernel_nums. Z.div_mod_to_equations. lia.
Qed.

Lemma wp_kvmmake s l (Q : Z -> phys -> Prop) :
  kmem_ok s l -> (168 <= length l)%nat ->
  (forall root s' l' T A st, aspace s' l' root T A -> kernel_map A st -> length st = Z.to_nat NPROC -> NoDup st ->
     (forall p, p ∈ st -> freeable p /\ p ∉ l' /\ ~ is_table T p) -> (size T + length l' + Z.to_nat NPROC = length l)%nat -> Q root s') ->
  wp kvmmake Q s.
Proof.
  intros Hk Hl HQ. assert (kend < PHYSTOP) as Hend.
  { destruct l as [|p l]; [cbn in Hl; lia|]. destruct (kmem_ok_freeable _ _ p Hk) as [_ ?]; [left|lia]. }
  unfold kvmmake. eapply wp_kvm_root; [exact Hk|lia|]. intros root l1 s1 -> Hks. cbn [length] in Hl.
  eapply wp_direct; [exact Hks|rewrite map_size_singleton; lia|done|]. rewrite map_size_singleton. intros s2 l2 T2 Hks2 Hs2.
  apply wp_bind. eapply wp_proc_mapstacks; [exact Hks2|lia|done|]. intros s3 l3 T3 st Hst Hks3 Hs3.
  apply wp_ret. destruct Hks3 as [(A & Has & HA) _ [Hnd Hpages]].
  apply (HQ root s3 l3 T3 A st); [done|by apply kernel_regions_map|done|done|done|cbn [length]; lia].
Qed.

(** C9: the boot builds the kernel's address space.  From any memory, with at
    least 168 pages between the kernel and the end of memory, [kinit] and then
    [kvmmake] run without a panic and leave a page table that maps the devices
    and the memory at their own addresses, the code read-only and alone
    executable, the trampoline, and a stack of its own for each of the [NPROC]
    processes above an unmapped page; nothing is open to user code, and every
    page is free, a table or a stack, but never two of them. *)
Theorem kernel_space_boots m lk :
  168 * PGSIZE <= PHYSTOP - PGROUNDUP kend ->
  wp (kinit;; kvmmake) (fun root s' => exists l T A st, aspace s' l root T A /\ kernel_map A st /\
    length st = Z.to_nat NPROC /\ NoDup st /\ (forall p, p ∈ st -> freeable p /\ p ∉ l /\ ~ is_table T p) /\
    Z.of_nat (size T + length l + length st) = (PHYSTOP - PGROUNDUP kend) / PGSIZE) (mkphys m 0 lk).
Proof.
  intros Hmem. assert (kend < PHYSTOP) as Hend.
  { pose proof layout_kend. pose proof layout_trampoline. pose proof layout_etext.
    rewrite PGROUNDUP_eq in Hmem by (kernel_nums; lia). kernel_nums. Z.div_mod_to_equations. lia. }
  pose proof (all_pages_length Hend) as Hlen. apply wp_bind. unfold kinit. wp_step. wp_step. apply wp_freerange; [by repeat split; constructor|].
  intros s1 Hk1. eapply wp_kvmmake; [exact Hk1| |].
  - rewrite length_reverse. assert (168 <= (PHYSTOP - PGROUNDUP kend) / PGSIZE); [apply Z.div_le_lower_bound; kernel_nums; lia|lia].
  - intros root s2 l T A st Has HA Hst Hnd Hp Hs. exists l, T, A, st. rewrite length_reverse in Hs.
    split_and!; [done..|]. rewrite <- Hlen. lia.
Qed.
End kvmmake.

Lemma kernel_space_boots_witness :
  let KL := small_layout 200 ltac:(lia) in
  wp (kinit;; kvmmake) (fun root s' => exists l T A st, aspace s' l root T A /\ kernel_map A st /\
    length st = Z.to_nat NPROC /\ NoDup st /\ (forall p, p ∈ st -> freeable p /\ p ∉ l /\ ~ is_table T p) /\
    Z.of_nat (size T + length l + length st) = (PHYSTOP - PGROUNDUP kend) / PGSIZE) (mkphys ∅ 0 false).
Proof. cbv zeta. apply (@kernel_space_boots (small_layout 200 _)). vm_compute. discriminate. Defined.
