(* ===== verification/KState.v ===== *)
(** * The kernel's state

    The C structures of proc.h, file.h, fs.h, buf.h, sleeplock.h, the log, the
    pipes and the console, and the record of the kernel's global variables.
    Pointers into fixed tables ([proc], [ftable], [itable], [bcache]) are
    indices; a NULL pointer is [None].  Arrays of bytes are lists.  A spinlock
    is a name in the list of locks this hart holds (its length is the [noff] of
    the hart); CPU number 0 is the only hart of this model. *)

From S2P Require Import Prelude CMem Riscv Kalloc Vm.

(** ** Locks and channels *)

Inductive slid := SLbuf (i : nat) | SLinode (i : nat).

Inductive lockid :=
  | Lpid | Lwait | Lticks | Lshm | Lproc (i : nat) | Lsleep (l : slid)
  | Lbcache | Llog | Litable | Lftable | Lpipe (pi : Z) | Lcons | Ltx | Lpr.

#[export] Instance slid_eq_dec : EqDecision slid.
Proof. solve_decision. Defined.

#[export] Instance lockid_eq_dec : EqDecision lockid.
Proof. solve_decision. Defined.

(** What [p->chan] points to. *)
Inductive chan :=
  | ch_proc (p : nat)
  | ch_ticks
  | ch_log
  | ch_sleep (l : slid)
  | ch_pipe_nread (pi : Z)
  | ch_pipe_nwrite (pi : Z)
  | ch_cons
  | ch_tx.

#[export] Instance chan_eq_dec : EqDecision chan.
Proof. solve_decision. Defined.

(** ** kernel/sleeplock.h *)

Record sleeplock := mksleeplock { sl_locked : bool; sl_pid : Z }.

#[export] Instance eta_sleeplock : Eta sleeplock := fun x => mksleeplock (sl_locked x) (sl_pid x).

(** ** kernel/proc.h *)

Inductive procstate := UNUSED | USED | SLEEPING | RUNNABLE | RUNNING | ZOMBIE.

#[export] Instance procstate_eq_dec : EqDecision procstate.
Proof. solve_decision. Defined.

Record vregion := mkvregion { vr_start : Z; vr_size : Z; vr_active : bool }.

#[export] Instance eta_vregion : Eta vregion :=
  fun x => mkvregion (vr_start x) (vr_size x) (vr_active x).

(** The saved context: only [ra] and [sp] are ever set by C code. *)
Inductive entry := entry_none | entry_forkret.

Record proc := mkproc {
  shm_va : Z;
  usar_memoria_compartida : bool;
  trace_mask : Z;
  map_ro_va : Z;
  state : procstate;
  pchan : option chan;
  pkilled : bool;
  xstate : Z;
  pid : Z;
  parent : option nat;
  kstack : Z;
  sz : Z;
  pagetable : Z;
  trapframe : Z;
  context_ra : entry;
  context_sp : Z;
  ofile : list (option nat);
  cwd : option nat;
  pname : list Z;
  pagefault_count : Z;
  vr : vregion
}.

#[export] Instance eta_proc : Eta proc := fun x =>
  mkproc (shm_va x) (usar_memoria_compartida x) (trace_mask x) (map_ro_va x) (state x) (pchan x)
    (pkilled x) (xstate x) (pid x) (parent x) (kstack x) (sz x) (pagetable x) (trapframe x)
    (context_ra x) (context_sp x) (ofile x) (cwd x) (pname x) (pagefault_count x) (vr x).

(** An entry of the zeroed [proc] array. *)
Definition proc0 : proc :=
  mkproc 0 false 0 0 UNUSED None false 0 0 None 0 0 0 0 entry_none 0
    (replicate (Z.to_nat NOFILE) None) None [] 0 (mkvregion 0 0 false).

(** The offsets of [struct trapframe]. *)
Definition TF_kernel_satp : Z := 0.
Definition TF_kernel_sp : Z := 8.
Definition TF_kernel_trap : Z := 16.
Definition TF_epc : Z := 24.
Definition TF_kernel_hartid : Z := 32.
Definition TF_sp : Z := 48.
Definition TF_a (n : Z) : Z := 112 + 8 * n.
Definition TF_SIZE : Z := 288.

(** ** kernel/buf.h and the buffer cache of bio.c *)

Definition BSIZE : Z := 1024.

Record buf := mkbuf {
  b_valid : bool;
  b_dev : Z;
  b_blockno : Z;
  b_lock : sleeplock;
  b_refcnt : Z;
  b_data : list Z
}.

#[export] Instance eta_buf : Eta buf :=
  fun x => mkbuf (b_valid x) (b_dev x) (b_blockno x) (b_lock x) (b_refcnt x) (b_data x).

Definition buf0 : buf := mkbuf false 0 0 (mksleeplock false 0) 0 (replicate (Z.to_nat BSIZE) 0).

(** ** kernel/fs.h *)

Definition ROOTINO : Z := 1.
Definition FSMAGIC : Z := 0x10203040.
Definition NDIRECT : Z := 12.
Definition NINDIRECT : Z := BSIZE / 4.
Definition MAXFILE : Z := NDIRECT + NINDIRECT.
Definition DINODE_SIZE : Z := 64.
Definition IPB : Z := BSIZE / DINODE_SIZE.
Definition BPB : Z := BSIZE * 8.
Definition DIRSIZ : Z := 14.
Definition DIRENT_SIZE : Z := 16.

Record superblock := mksuperblock {
  sb_magic : Z; sb_size : Z; sb_nblocks : Z; sb_ninodes : Z;
  sb_nlog : Z; sb_logstart : Z; sb_inodestart : Z; sb_bmapstart : Z
}.

Definition IBLOCK (i : Z) (sb : superblock) : Z := u32 (i / IPB + sb_inodestart sb).

Definition BBLOCK (b : Z) (sb : superblock) : Z := u32 (b / BPB + sb_bmapstart sb).

(** ** kernel/stat.h, kernel/fcntl.h *)

Definition T_DIR : Z := 1.
Definition T_FILE : Z := 2.
Definition T_DEVICE : Z := 3.
Definition O_RDONLY : Z := 0x000.
Definition O_WRONLY : Z := 0x001.
Definition O_RDWR : Z := 0x002.
Definition O_CREATE : Z := 0x200.
Definition O_TRUNC : Z := 0x400.

(** ** kernel/file.h *)

Inductive ftype := FD_NONE | FD_PIPE | FD_INODE | FD_DEVICE.

Record file := mkfile {
  f_type : ftype;
  f_ref : Z;
  f_readable : bool;
  f_writable : bool;
  f_pipe : Z;
  f_ip : option nat;
  f_off : Z;
  f_major : Z
}.

#[export] Instance eta_file : Eta file := fun x =>
  mkfile (f_type x) (f_ref x) (f_readable x) (f_writable x) (f_pipe x) (f_ip x) (f_off x) (f_major x).

Definition file0 : file := mkfile FD_NONE 0 false false 0 None 0 0.

Record inode := mkinode {
  i_dev : Z;
  i_inum : Z;
  i_ref : Z;
  i_lock : sleeplock;
  i_valid : bool;
  i_type : Z;
  i_major : Z;
  i_minor : Z;
  i_nlink : Z;
  i_size : Z;
  i_addrs : list Z
}.

#[export] Instance eta_inode : Eta inode := fun x =>
  mkinode (i_dev x) (i_inum x) (i_ref x) (i_lock x) (i_valid x) (i_type x) (i_major x) (i_minor x)
    (i_nlink x) (i_size x) (i_addrs x).

Definition inode0 : inode :=
  mkinode 0 0 0 (mksleeplock false 0) false 0 0 0 0 0 (replicate (Z.to_nat NDIRECT + 1) 0).

Definition CONSOLE : Z := 1.

(** ** kernel/log.c: [struct log] *)

Record log := mklog {
  lg_start : Z;
  lg_outstanding : Z;
  lg_committing : bool;
  lg_dev : Z;
  lh_n : Z;
  lh_block : list Z
}.

#[export] Instance eta_log : Eta log := fun x =>
  mklog (lg_start x) (lg_outstanding x) (lg_committing x) (lg_dev x) (lh_n x) (lh_block x).

Definition log0 : log := mklog 0 0 false 0 0 (replicate (Z.to_nat LOGBLOCKS) 0).

(** ** kernel/pipe.c: [struct pipe] *)

Definition PIPESIZE : Z := 512.

Record pipe := mkpipe {
  pi_data : list Z;
  pi_nread : Z;
  pi_nwrite : Z;
  pi_readopen : bool;
  pi_writeopen : bool
}.

#[export] Instance eta_pipe : Eta pipe := fun x =>
  mkpipe (pi_data x) (pi_nread x) (pi_nwrite x) (pi_readopen x) (pi_writeopen x).

(** ** kernel/console.c: [cons], and the UART of uart.c *)

Definition INPUT_BUF_SIZE : Z := 128.

Record console := mkconsole {
  c_buf : list Z;
  c_r : Z;
  c_w : Z;
  c_e : Z;
  tx_busy : bool;
  uart_out : list Z;  (** bytes written to THR, oldest first *)
  uart_in : list Z    (** bytes waiting in RHR, oldest first *)
}.

#[export] Instance eta_console : Eta console := fun x =>
  mkconsole (c_buf x) (c_r x) (c_w x) (c_e x) (tx_busy x) (uart_out x) (uart_in x).

(** ** The disk: block contents, and the writes made to it, newest first *)

Record disk := mkdisk { d_blocks : gmap Z (list Z); d_trace : list (Z * list Z) }.

#[export] Instance eta_disk : Eta disk := fun x => mkdisk (d_blocks x) (d_trace x).

(** ** The control registers the C code reads and writes *)

Record csrs := mkcsrs {
  scause : Z; stval : Z; sepc : Z; sstatus : Z; satp : Z; stvec : Z; stimecmp : Z; rtime : Z
}.

#[export] Instance eta_csrs : Eta csrs := fun x =>
  mkcsrs (scause x) (stval x) (sepc x) (sstatus x) (satp x) (stvec x) (stimecmp x) (rtime x).

(** ** All global variables of the kernel *)

Record kst := mkkst {
  ph : phys;
  locks : list lockid;
  procs : list proc;
  cur : option nat;
  nextpid : Z;
  initproc : option nat;
  first : bool;
  ticks : Z;
  shared_page : Z;
  refcount : Z;
  bufs : list buf;
  lru : list nat;
  dsk : disk;
  lg : log;
  sb : superblock;
  inodes : list inode;
  files : list file;
  pipes : gmap Z pipe;
  kcons : console;
  csr : csrs;
  kernel_pagetable : Z;
  poweroff : bool
}.

#[export] Instance eta_kst : Eta kst := fun x =>
  mkkst (ph x) (locks x) (procs x) (cur x) (nextpid x) (initproc x) (first x) (ticks x)
    (shared_page x) (refcount x) (bufs x) (lru x) (dsk x) (lg x) (sb x) (inodes x) (files x)
    (pipes x) (kcons x) (csr x) (kernel_pagetable x) (poweroff x).

(** Two states are equal when all their fields are. *)
Lemma kst_eq s s' :
  ph s = ph s' -> locks s = locks s' -> procs s = procs s' -> cur s = cur s' ->
  nextpid s = nextpid s' -> initproc s = initproc s' -> first s = first s' -> ticks s = ticks s' ->
  shared_page s = shared_page s' -> refcount s = refcount s' -> bufs s = bufs s' -> lru s = lru s' ->
  dsk s = dsk s' -> lg s = lg s' -> sb s = sb s' -> inodes s = inodes s' ->
  files s = files s' -> pipes s = pipes s' -> kcons s = kcons s' -> csr s = csr s' ->
  kernel_pagetable s = kernel_pagetable s' -> poweroff s = poweroff s' ->
  s = s'.
Proof. destruct s, s'. cbn. intros. by subst. Qed.

#[export, program] Instance lens_phys : Lens kst phys := {
  lget := ph;
  lset := fun p s => s <| ph := p |>
}.
Solve Obligations with by intros; repeat match goal with x : kst |- _ => destruct x end.

(** ** Reading and updating table entries *)

Definition proc_at (s : kst) (i : nat) : proc := default proc0 (procs s !! i).
Definition file_at (s : kst) (i : nat) : file := default file0 (files s !! i).
Definition inode_at (s : kst) (i : nat) : inode := default inode0 (inodes s !! i).
Definition buf_at (s : kst) (i : nat) : buf := default buf0 (bufs s !! i).

Definition getp (i : nat) : M kst proc := gets (fun s => proc_at s i).
Definition getf (i : nat) : M kst file := gets (fun s => file_at s i).
Definition geti (i : nat) : M kst inode := gets (fun s => inode_at s i).
Definition getb (i : nat) : M kst buf := gets (fun s => buf_at s i).

Definition updp (i : nat) (f : proc -> proc) : M kst unit :=
  modify (fun s => s <| procs ::= alter f i |>).
Definition updf (i : nat) (f : file -> file) : M kst unit :=
  modify (fun s => s <| files ::= alter f i |>).
Definition updi (i : nat) (f : inode -> inode) : M kst unit :=
  modify (fun s => s <| inodes ::= alter f i |>).
Definition updb (i : nat) (f : buf -> buf) : M kst unit :=
  modify (fun s => s <| bufs ::= alter f i |>).

#[export] Hint Unfold getp getf geti getb updp updf updi updb : wp_prim.

(** ** Little-endian fields in byte arrays *)

Fixpoint le_decode (bs : list Z) : Z :=
  match bs with
  | [] => 0
  | b :: bs' => b + 2 ^ 8 * le_decode bs'
  end.

Fixpoint le_encode (n : nat) (v : Z) : list Z :=
  match n with
  | O => []
  | S n' => u8 v :: le_encode n' (v / 2 ^ 8)
  end.

Definition rd (n : nat) (bs : list Z) (off : Z) : Z := le_decode (take n (drop (Z.to_nat off) bs)).

Definition wr (n : nat) (bs : list Z) (off v : Z) : list Z :=
  list_inserts (Z.to_nat off) (le_encode n v) bs.

Lemma le_encode_length n v : length (le_encode n v) = n.
Proof. revert v. induction n as [|n IH]; intros v; simpl; [done|]. by rewrite IH. Qed.

Lemma le_decode_encode n v : le_decode (le_encode n v) = v `mod` 2 ^ (8 * Z.of_nat n).
Proof.
  revert v. induction n as [|n IH]; intros v; [simpl; by rewrite Z.mod_1_r|].
  cbn [le_encode le_decode]. rewrite IH. unfold u8.
  replace (8 * Z.of_nat (S n)) with (8 + 8 * Z.of_nat n) by lia.
  rewrite Z.pow_add_r by lia. rewrite Z.rem_mul_r by lia. lia.
Qed.

Lemma rd_wr n bs off v :
  0 <= off -> off + Z.of_nat n <= Z.of_nat (length bs) ->
  rd n (wr n bs off v) off = v `mod` 2 ^ (8 * Z.of_nat n).
Proof.
  intros Ho Hl. unfold rd, wr. rewrite <- le_decode_encode. f_equal.
  apply list_eq. intros i. destruct (decide (i < n)%nat) as [Hi|Hi].
  - rewrite lookup_take_lt, lookup_drop by done.
    rewrite list_lookup_inserts by (rewrite ?le_encode_length; lia). f_equal. lia.
  - rewrite lookup_take_ge by lia. symmetry. apply lookup_ge_None. rewrite le_encode_length. lia.
Qed.
