(* ===== verification/Spin.v ===== *)
(** * kernel/spinlock.c on several harts

    The locks at the grain of the memory accesses: every read of [lk->locked]
    and [lk->cpu], the atomic swap of [acquire] and that of [release] is a step
    of its own, and the steps of the harts interleave in any order.  What a
    hart does to its own [struct cpu] and its own interrupt bit cannot be seen
    by the others, so [push_off] and [pop_off] are one step each.  Between the
    calls the kernel is free: a hart may acquire any lock, release any lock,
    and turn its interrupts on and off while it holds none, as the scheduler
    and [usertrap] do. *)

From stdpp Require Import functions relations.
From S2P Require Import Prelude KState.

Definition hart : Type := nat.

(** ** The state *)

Record spinlock := mkspinlock { locked : Z; lcpu : option hart }.

Record cpu := mkcpu { noff : Z; intena : bool }.

(** The next access of a hart inside [acquire] and inside [release]. *)
Inductive acq := PushOff | ReadLocked | ReadCpu | Swap | SetCpu.

Inductive rel := ReadLocked' | ReadCpu' | ClearCpu | Store0 | PopOff.

Inductive pc :=
  | Out
  | InAcquire (l : lockid) (a : acq)
  | InRelease (l : lockid) (r : rel)
  | Panicked (msg : string).

(** The locks, and for every hart its [struct cpu], its interrupt bit
    ([intr_get()]) and where it is.  [wants] is not in the code: what the hart
    last did to its interrupts itself, outside of locks. *)
Record mach := mkmach {
  lks : lockid -> spinlock;
  cpus : hart -> cpu;
  sie : hart -> bool;
  pcs : hart -> pc;
  wants : hart -> bool
}.

#[export] Instance eta_mach : Eta mach := fun x => mkmach (lks x) (cpus x) (sie x) (pcs x) (wants x).

Definition goto (h : hart) (p : pc) (s : mach) : mach := s <| pcs ::= <[h := p]> |>.

Definition setlk (l : lockid) (x : spinlock) (s : mach) : mach := s <| lks ::= <[l := x]> |>.

(** ** The code *)

Definition initlock (l : lockid) (s : mach) : mach := setlk l (mkspinlock 0 None) s.

Definition push_off (h : hart) (s : mach) : mach :=
  let old := sie s h in
  let c := cpus s h in
  s <| sie ::= <[h := false]> |>
    <| cpus ::= <[h := mkcpu (noff c + 1) (if noff c =? 0 then old else intena c)]> |>.

Definition pop_off (h : hart) (s : mach) : mach :=
  let c := cpus s h in
  if sie s h then goto h (Panicked "pop_off - interruptible") s
  else if noff c <? 1 then goto h (Panicked "pop_off") s
  else
    goto h Out s
      <| cpus ::= <[h := mkcpu (noff c - 1) (intena c)]> |>
      <| sie ::= <[h := (noff c - 1 =? 0) && intena c]> |>.

(** One access of [acquire(l)]; [holding] is the two reads. *)
Definition acquire_at (h : hart) (l : lockid) (a : acq) (s : mach) : mach :=
  match a with
  | PushOff => goto h (InAcquire l ReadLocked) (push_off h s)
  | ReadLocked => goto h (InAcquire l (if locked (lks s l) =? 0 then Swap else ReadCpu)) s
  | ReadCpu =>
      goto h (if decide (lcpu (lks s l) = Some h) then Panicked "acquire" else InAcquire l Swap) s
  | Swap =>
      let old := locked (lks s l) in
      goto h (InAcquire l (if old =? 0 then SetCpu else Swap)) (setlk l (mkspinlock 1 (lcpu (lks s l))) s)
  | SetCpu => goto h Out (setlk l (mkspinlock (locked (lks s l)) (Some h)) s)
  end.

(** One access of [release(l)]. *)
Definition release_at (h : hart) (l : lockid) (r : rel) (s : mach) : mach :=
  match r with
  | ReadLocked' => goto h (if locked (lks s l) =? 0 then Panicked "release" else InRelease l ReadCpu') s
  | ReadCpu' =>
      goto h (if decide (lcpu (lks s l) = Some h) then InRelease l ClearCpu else Panicked "release") s
  | ClearCpu => goto h (InRelease l Store0) (setlk l (mkspinlock (locked (lks s l)) None) s)
  | Store0 => goto h (InRelease l PopOff) (setlk l (mkspinlock 0 (lcpu (lks s l))) s)
  | PopOff => pop_off h s
  end.

Definition next (h : hart) (s : mach) : mach :=
  match pcs s h with
  | InAcquire l a => acquire_at h l a s
  | InRelease l r => release_at h l r s
  | Out | Panicked _ => s
  end.

Inductive step : mach -> mach -> Prop :=
  | step_next h s : step s (next h s)
  | step_acquire h l s : pcs s h = Out -> step s (goto h (InAcquire l PushOff) s)
  | step_release h l s : pcs s h = Out -> step s (goto h (InRelease l ReadLocked') s)
  | step_intr h (b : bool) s :
      pcs s h = Out -> noff (cpus s h) = 0 ->
      step s (s <| sie ::= <[h := b]> |> <| wants ::= <[h := b]> |>).

(** Every lock initialised, every hart outside with its interrupts off. *)
Definition start : mach :=
  mkmach (fun _ => mkspinlock 0 None) (fun _ => mkcpu 0 false) (fun _ => false) (fun _ => Out) (fun _ => false).

Definition reachable (s : mach) : Prop := rtc step start s.

(** ** What a lock promises *)

(** The specification: a lock is free or owned by one hart. *)
Abbreviation owners := (lockid -> option hart).

Inductive owner_step : owners -> owners -> Prop :=
  | own_take h l o : o l = None -> owner_step o (<[l := Some h]> o)
  | own_give h l o : o l = Some h -> owner_step o (<[l := None]> o).

(** The lock the hart owns while [lk->cpu] does not say so. *)
Definition gap (p : pc) : option lockid :=
  match p with InAcquire l SetCpu | InRelease l Store0 => Some l | _ => None end.

(** The lock the hart owns because of where it is. *)
Definition inside (p : pc) : option lockid :=
  match p with InAcquire l SetCpu | InRelease l (ClearCpu | Store0) => Some l | _ => None end.

(** The locks as a hart that owns them and is at [p] leaves them. *)
Definition held_by (h : hart) (p : pc) (l : lockid) : spinlock :=
  mkspinlock 1 (if decide (gap p = Some l) then None else Some h).

Record locks_ok (s : mach) (o : owners) : Prop := {
  lo_free : forall l, o l = None -> lks s l = mkspinlock 0 None;
  lo_held : forall l h, o l = Some h -> lks s l = held_by h (pcs s h) l;
  lo_pc : forall l h, inside (pcs s h) = Some l -> o l = Some h
}.

Lemma locks_ok_ext s s' o :
  locks_ok s o -> (forall l, lks s' l = lks s l) -> (forall h, pcs s' h = pcs s h) -> locks_ok s' o.
Proof. intros [H1 H2 H3] Hl Hp. split; intros l; [|intros h..]; rewrite ?Hl, ?Hp; auto. Qed.

Lemma locks_ok_goto h p s o :
  locks_ok s o -> gap p = gap (pcs s h) -> (forall l, inside p = Some l -> o l = Some h) ->
  locks_ok (goto h p s) o.
Proof.
  intros [H1 H2 H3] Hg Hi. split; [done| |].
  - intros l h' Ho. change (lks (goto h p s)) with (lks s). rewrite (H2 _ _ Ho). unfold held_by, goto. cbn.
    destruct (decide (h = h')) as [<-|Hne]; [by rewrite fn_lookup_insert, Hg|by rewrite fn_lookup_insert_ne].
  - intros l h'. unfold goto. cbn. destruct (decide (h = h')) as [<-|Hne]; [rewrite fn_lookup_insert; apply Hi|].
    rewrite fn_lookup_insert_ne by done. apply H3.
Qed.

(** The hart [h] changes the lock [l], which is free or its own. *)
Lemma locks_ok_set h l x p v s o :
  locks_ok s o -> (o l = None \/ o l = Some h) -> (v = None \/ v = Some h) ->
  (forall l', l' <> l -> gap (pcs s h) <> Some l' /\ inside p <> Some l') ->
  (v = None -> x = mkspinlock 0 None /\ inside p = None) -> (v = Some h -> x = held_by h p l) ->
  locks_ok (goto h p (setlk l x s)) (<[l := v]> o).
Proof.
  intros [H1 H2 H3] Ho Hv Hne Hfree Hheld.
  assert (forall l', gap p = Some l' -> inside p = Some l') as Hgi by (intros l'; by destruct p as [|? []|? []|]).
  split.
  - intros l'. unfold goto, setlk. cbn. destruct (decide (l = l')) as [<-|Hl]; [rewrite !fn_lookup_insert; intros Hv0; by apply Hfree|].
    rewrite !fn_lookup_insert_ne by done. apply H1.
  - intros l' h'. unfold goto, setlk. cbn. destruct (decide (l = l')) as [<-|Hl].
    + rewrite !fn_lookup_insert. intros ->. destruct Hv as [|Hv]; [done|]. injection Hv as ->.
      rewrite fn_lookup_insert. auto.
    + rewrite !fn_lookup_insert_ne by done. intros Hl'. rewrite (H2 _ _ Hl').
      destruct (decide (h = h')) as [<-|Hh]; [|by rewrite fn_lookup_insert_ne].
      rewrite fn_lookup_insert. unfold held_by. destruct (Hne l') as [Ha Hb]; [done|].
      rewrite !decide_False; naive_solver.
  - intros l' h'. unfold goto, setlk. cbn. destruct (decide (h = h')) as [<-|Hh].
    + rewrite fn_lookup_insert. intros Hin. destruct (decide (l = l')) as [<-|Hl]; [|by destruct (Hne l')].
      rewrite fn_lookup_insert. destruct Hv as [Hv|]; [|done]. apply Hfree in Hv as [_ Hv]. congruence.
    + rewrite fn_lookup_insert_ne by done. intros Hin%H3. rewrite fn_lookup_insert_ne; [done|].
      intros <-. destruct Ho; congruence.
Qed.

(** ** What a hart keeps of its interrupts *)

(** A [push_off] that no lock stands for yet, or no longer. *)
Definition pending (p : pc) : Z :=
  match p with
  | InAcquire _ (ReadLocked | ReadCpu | Swap) | InRelease _ PopOff => 1
  | _ => 0
  end.

Definition panicked (p : pc) : Prop := match p with Panicked _ => True | _ => False end.

(** [noff] counts the locks the hart owns.  While it is positive interrupts are
    off and [intena] remembers what the hart wants; when it is 0 interrupts are
    what the hart wants. *)
Record intr_ok (s : mach) (h : hart) (n : nat) : Prop := {
  io_noff : noff (cpus s h) = Z.of_nat n + pending (pcs s h);
  io_sie : sie s h = if noff (cpus s h) =? 0 then wants s h else false;
  io_intena : 0 < noff (cpus s h) -> intena (cpus s h) = wants s h
}.

Definition cpu_ok (s : mach) (o : owners) (h : hart) : Prop :=
  exists H : list lockid, NoDup H /\ (forall l, l ∈ H <-> o l = Some h) /\
    (panicked (pcs s h) \/ intr_ok s h (length H)).

(** Another hart's step. *)
Lemma cpu_ok_frame s s' o o' h :
  cpu_ok s o h -> pcs s' h = pcs s h -> cpus s' h = cpus s h -> sie s' h = sie s h -> wants s' h = wants s h ->
  (forall l, o' l = Some h <-> o l = Some h) -> cpu_ok s' o' h.
Proof.
  intros (H & Hnd & Hin & Hi) Hp Hc Hs Hw Ho. exists H. split; [done|].
  split; [intros l; by rewrite Hin, Ho|]. rewrite Hp. destruct Hi as [?|[H1 H2 H3]]; [by left|right].
  split; rewrite ?Hp, ?Hc, ?Hs, ?Hw; done.
Qed.

Lemma intr_ok_goto s h p n n' :
  intr_ok s h n -> Z.of_nat n' + pending p = Z.of_nat n + pending (pcs s h) -> intr_ok (goto h p s) h n'.
Proof.
  intros [H1 H2 H3] Hn. split; cbn; [|done..]. unfold goto. cbn. rewrite fn_lookup_insert. lia.
Qed.

Lemma cpu_ok_goto s o h p :
  cpu_ok s o h -> ~ panicked (pcs s h) -> panicked p \/ pending p = pending (pcs s h) ->
  cpu_ok (goto h p s) o h.
Proof.
  intros (H & Hnd & Hin & Hi) Hnp Hp. exists H. split; [done|]. split; [done|].
  unfold goto at 1. cbn. rewrite fn_lookup_insert. destruct Hp as [?|Hp]; [by left|right].
  destruct Hi as [?|Hi]; [done|]. eapply intr_ok_goto; [done|lia].
Qed.

(** The hart takes or gives a lock: [noff] stays, the count and the place move
    by one. *)
Lemma cpu_ok_take s o h l p x :
  cpu_ok s o h -> ~ panicked (pcs s h) -> o l = None -> pending p = pending (pcs s h) - 1 ->
  cpu_ok (goto h p (setlk l x s)) (<[l := Some h]> o) h.
Proof.
  intros (H & Hnd & Hin & Hi) Hnp Ho Hp. destruct Hi as [?|Hi]; [done|]. exists (l :: H).
  split; [apply NoDup_cons; split; [rewrite Hin; congruence|done]|]. split.
  - intros l'. rewrite elem_of_cons, Hin. destruct (decide (l = l')) as [<-|Hl].
    + rewrite fn_lookup_insert. tauto.
    + rewrite fn_lookup_insert_ne by done. naive_solver.
  - right. apply (intr_ok_goto (setlk l x s) h p (length H)); [|cbn; lia]. by destruct Hi.
Qed.

Lemma cpu_ok_give s o h l p x :
  cpu_ok s o h -> ~ panicked (pcs s h) -> o l = Some h -> pending p = pending (pcs s h) + 1 ->
  cpu_ok (goto h p (setlk l x s)) (<[l := None]> o) h.
Proof.
  intros (H & Hnd & Hin & Hi) Hnp Ho Hp. destruct Hi as [?|Hi]; [done|].
  destruct (list_elem_of_split H l) as (H1 & H2 & ->); [by apply Hin|]. exists (H1 ++ H2).
  apply NoDup_app in Hnd as (Hd1 & Hd2 & [Hl2 Hd3]%NoDup_cons).
  assert (l ∉ H1) as Hl1 by (intros Hl; by apply (Hd2 l Hl); left).
  split; [apply NoDup_app; split_and!; [done| |done]; intros y Hy Hy2; apply (Hd2 y Hy); by right|]. split.
  - intros l'. specialize (Hin l'). rewrite elem_of_app, elem_of_cons in Hin. rewrite elem_of_app.
    destruct (decide (l = l')) as [<-|Hl].
    + rewrite fn_lookup_insert. naive_solver.
    + rewrite fn_lookup_insert_ne by done. naive_solver.
  - right. eapply (intr_ok_goto (setlk l x s) h p); [by destruct Hi|]. rewrite !length_app in *. cbn in *. lia.
Qed.

(** ** The simulation *)

Record spin_inv (s : mach) (o : owners) : Prop := {
  si_locks : locks_ok s o;
  si_cpu : forall h, cpu_ok s o h
}.

Lemma insert_other (o : owners) l h h' v :
  (o l = None \/ o l = Some h) -> (v = None \/ v = Some h) -> h <> h' ->
  forall l', <[l := v]> o l' = Some h' <-> o l' = Some h'.
Proof.
  intros Ho Hv Hh l'. destruct (decide (l = l')) as [<-|Hl]; [|by rewrite fn_lookup_insert_ne].
  rewrite fn_lookup_insert. destruct Ho, Hv; naive_solver.
Qed.

Lemma inv_goto h p s o :
  spin_inv s o -> ~ panicked (pcs s h) -> gap p = gap (pcs s h) -> (forall l, inside p = Some l -> o l = Some h) ->
  panicked p \/ pending p = pending (pcs s h) -> spin_inv (goto h p s) o.
Proof.
  intros [HL HC] Hnp Hg Hi Hp. split; [by apply locks_ok_goto|]. intros h'.
  destruct (decide (h = h')) as [<-|Hh]; [by apply cpu_ok_goto|].
  eapply cpu_ok_frame; [apply HC|cbn; by apply fn_lookup_insert_ne|done..].
Qed.

(** The hart [h] sets the lock [l], whose owner becomes [v]. *)
Lemma inv_set h l x p v s o :
  spin_inv s o -> (o l = None \/ o l = Some h) -> (v = None \/ v = Some h) ->
  (forall l', l' <> l -> gap (pcs s h) <> Some l' /\ inside p <> Some l') ->
  (v = None -> x = mkspinlock 0 None /\ inside p = None) -> (v = Some h -> x = held_by h p l) ->
  cpu_ok (goto h p (setlk l x s)) (<[l := v]> o) h ->
  spin_inv (goto h p (setlk l x s)) (<[l := v]> o).
Proof.
  intros [HL HC] Ho Hv Hne Hfree Hheld Hc. split; [by apply locks_ok_set|]. intros h'.
  destruct (decide (h = h')) as [<-|Hh]; [done|].
  eapply cpu_ok_frame; [apply HC|cbn; by apply fn_lookup_insert_ne|done|done|done|by apply (insert_other _ _ h)].
Qed.

(** The owner of [l] is again [h]. *)
Lemma cpu_ok_keep s o h l p x :
  cpu_ok s o h -> ~ panicked (pcs s h) -> o l = Some h -> pending p = pending (pcs s h) ->
  cpu_ok (goto h p (setlk l x s)) (<[l := Some h]> o) h.
Proof.
  intros (H & Hnd & Hin & Hi) Hnp Ho Hp. destruct Hi as [?|Hi]; [done|]. exists H. split; [done|]. split.
  - intros l'. rewrite Hin. destruct (decide (l = l')) as [<-|Hl]; [by rewrite fn_lookup_insert|by rewrite fn_lookup_insert_ne].
  - right. apply (intr_ok_goto (setlk l x s) h p (length H)); [by destruct Hi|cbn; lia].
Qed.

(** A state reached by a step, whose owners are those before or one step on. *)
Definition simulated (s' : mach) (o : owners) : Prop :=
  exists o', spin_inv s' o' /\ ((forall l, o' l = o l) \/ owner_step o o').

Lemma simulated_same s' o : spin_inv s' o -> simulated s' o.
Proof. intros H. exists o. auto. Qed.

Lemma simulated_keep s' o l h : o l = Some h -> spin_inv s' (<[l := Some h]> o) -> simulated s' o.
Proof.
  intros Ho H. exists (<[l := Some h]> o). split; [done|]. left. intros l'.
  destruct (decide (l = l')) as [<-|Hl]; [by rewrite fn_lookup_insert|by rewrite fn_lookup_insert_ne].
Qed.

Lemma sim_push_off h s o l :
  spin_inv s o -> pcs s h = InAcquire l PushOff -> spin_inv (goto h (InAcquire l ReadLocked) (push_off h s)) o.
Proof.
  intros [HL HC] Hp. split.
  - apply locks_ok_goto; [by apply (locks_ok_ext s)| |done]. cbn. by rewrite Hp.
  - intros h'. destruct (decide (h = h')) as [<-|Hh].
    + destruct (HC h) as (H & Hnd & Hin & Hi). exists H. split; [done|]. split; [done|]. right.
      rewrite Hp in Hi. destruct Hi as [?|[H1 H2 H3]]; [done|]. rewrite Hp in H1. cbn in H1.
      split; unfold goto, push_off; cbn; rewrite !fn_lookup_insert; cbn.
      * lia.
      * destruct (Z.eqb_spec (noff (cpus s h) + 1) 0); [lia|done].
      * intros _. destruct (Z.eqb_spec (noff (cpus s h)) 0) as [E|E]; [done|apply H3; lia].
    + eapply cpu_ok_frame; [apply HC|..]; cbn; rewrite ?fn_lookup_insert_ne by done; done.
Qed.

Lemma sim_pop_off h s o l :
  spin_inv s o -> pcs s h = InRelease l PopOff -> spin_inv (pop_off h s) o /\ pcs (pop_off h s) h = Out.
Proof.
  intros [HL HC] Hp. destruct (HC h) as (H & Hnd & Hin & Hi). rewrite Hp in Hi.
  destruct Hi as [?|[H1 H2 H3]]; [done|]. rewrite Hp in H1. cbn in H1. unfold pop_off.
  destruct (Z.eqb_spec (noff (cpus s h)) 0) as [|Hnz] in H2; [lia|]. rewrite H2.
  destruct (Z.ltb_spec (noff (cpus s h)) 1) as [|Hge]; [lia|].
  split; [|cbn; apply fn_lookup_insert]. split.
  - eapply locks_ok_ext; [apply (locks_ok_goto h Out s); [done|by rewrite Hp|done]|done|done].
  - intros h'. destruct (decide (h = h')) as [<-|Hh].
    + exists H. split; [done|]. split; [done|]. right. split; cbn; rewrite !fn_lookup_insert; cbn.
      * lia.
      * destruct (Z.eqb_spec (noff (cpus s h) - 1) 0); [apply H3; lia|done].
      * intros _. apply H3. lia.
    + eapply cpu_ok_frame; [apply HC|..]; cbn; rewrite ?fn_lookup_insert_ne by done; done.
Qed.

(** A step that leaves every lock and its owner as they were. *)
Lemma simulated_move h p s s' o :
  spin_inv s o -> ~ panicked (pcs s h) -> gap p = gap (pcs s h) -> (forall l, inside p = Some l -> o l = Some h) ->
  panicked p \/ pending p = pending (pcs s h) ->
  (forall l, lks s' l = lks s l) -> pcs s' = pcs (goto h p s) -> cpus s' = cpus s -> sie s' = sie s -> wants s' = wants s ->
  simulated s' o.
Proof.
  intros I Hnp Hg Hi Hp Hl Hpc Hc Hs Hw. destruct (inv_goto h p s o I Hnp Hg Hi Hp) as [HL HC].
  apply simulated_same. split; [apply (locks_ok_ext _ _ _ HL); [done|by intros; rewrite Hpc]|]. intros h'.
  eapply cpu_ok_frame; [apply HC|by rewrite ?Hpc, ?Hc, ?Hs, ?Hw..].
Qed.

(** One access of [acquire]. *)
Lemma sim_acquire h l a s o : spin_inv s o -> pcs s h = InAcquire l a -> simulated (acquire_at h l a s) o.
Proof.
  intros I Hp. pose proof (si_locks _ _ I) as [Hf Hh Hpc].
  assert (~ panicked (pcs s h)) as Hnp by (rewrite Hp; intros []).
  destruct a; cbn [acquire_at].
  - by apply simulated_same, sim_push_off.
  - apply (simulated_move h (InAcquire l (if locked (lks s l) =? 0 then Swap else ReadCpu)) s);
      [done|done|rewrite ?Hp; case_match; by auto..|done|done|done|done|done].
  - apply (simulated_move h (if decide (lcpu (lks s l) = Some h) then Panicked "acquire" else InAcquire l Swap) s);
      [done|done|rewrite ?Hp; case_decide; cbn; by auto..|done|done|done|done|done].
  - destruct (o l) as [h'|] eqn:Ho.
    + rewrite (Hh _ _ Ho). cbn. apply (simulated_move h (InAcquire l Swap) s); rewrite ?Hp; auto; try done.
      intros l'. unfold goto, setlk. cbn. destruct (decide (l = l')) as [<-|]; [|by rewrite fn_lookup_insert_ne].
      rewrite fn_lookup_insert. by rewrite (Hh _ _ Ho).
    + rewrite (Hf _ Ho). cbn. exists (<[l := Some h]> o). split; [|right; by apply own_take].
      apply inv_set; rewrite ?Hp; auto; try done.
      * intros l' Hl. cbn. split; [done|congruence].
      * intros _. unfold held_by. cbn. by rewrite decide_True.
      * apply cpu_ok_take; [apply I|done|done|by rewrite Hp].
  - assert (o l = Some h) as Ho by (apply Hpc; by rewrite Hp). rewrite (Hh _ _ Ho). cbn.
    apply (simulated_keep _ _ l h); [done|]. apply inv_set; rewrite ?Hp; auto; try done.
    + intros l' Hl. cbn. split; [congruence|done].
    + apply cpu_ok_keep; [apply I|done|done|by rewrite Hp].
Qed.

(** One access of [release]. *)
Lemma sim_release h l r s o : spin_inv s o -> pcs s h = InRelease l r -> simulated (release_at h l r s) o.
Proof.
  intros I Hp. pose proof (si_locks _ _ I) as [Hf Hh Hpc].
  assert (~ panicked (pcs s h)) as Hnp by (rewrite Hp; intros []).
  destruct r; cbn [release_at].
  - apply (simulated_move h (if locked (lks s l) =? 0 then Panicked "release" else InRelease l ReadCpu') s);
      [done|done|rewrite ?Hp; case_match; cbn; by auto..|done|done|done|done|done].
  - apply (simulated_move h (if decide (lcpu (lks s l) = Some h) then InRelease l ClearCpu else Panicked "release") s);
      [done|done|rewrite ?Hp; case_decide; cbn; by auto| |rewrite Hp; case_decide; cbn; by auto|done|done|done|done|done].
    case_decide as Hc; [|done]. cbn. intros l' [= <-]. destruct (o l) as [h'|] eqn:Ho.
    + rewrite (Hh _ _ Ho) in Hc. cbn in Hc. case_decide; congruence.
    + by rewrite (Hf _ Ho) in Hc.
  - assert (o l = Some h) as Ho by (apply Hpc; by rewrite Hp). rewrite (Hh _ _ Ho). cbn.
    apply (simulated_keep _ _ l h); [done|]. apply inv_set; rewrite ?Hp; auto; try done.
    + intros l' Hl. cbn. split; [done|congruence].
    + intros _. unfold held_by. cbn. by rewrite decide_True.
    + apply cpu_ok_keep; [apply I|done|done|by rewrite Hp].
  - assert (o l = Some h) as Ho by (apply Hpc; by rewrite Hp). rewrite (Hh _ _ Ho). cbn.
    rewrite Hp. rewrite decide_True by done. exists (<[l := None]> o). split; [|right; by apply (own_give h)].
    apply inv_set; rewrite ?Hp; auto; try done.
    + intros l' Hl. cbn. split; [congruence|done].
    + apply cpu_ok_give; [apply I|done|done|by rewrite Hp].
  - apply simulated_same. by eapply sim_pop_off.
Qed.

(** What the hart does between the calls. *)
Lemma sim_intr h (b : bool) s o :
  spin_inv s o -> pcs s h = Out -> noff (cpus s h) = 0 ->
  spin_inv (s <| sie ::= <[h := b]> |> <| wants ::= <[h := b]> |>) o.
Proof.
  intros [HL HC] Hp Hn. split; [by apply (locks_ok_ext _ _ _ HL)|]. intros h'.
  destruct (decide (h = h')) as [<-|Hh].
  - destruct (HC h) as (H & Hnd & Hin & Hi). exists H. split; [done|]. split; [done|]. right.
    rewrite Hp in Hi. destruct Hi as [?|[H1 H2 H3]]; [done|]. split; cbn; rewrite ?fn_lookup_insert; [done| |lia].
    by rewrite Hn.
  - eapply cpu_ok_frame; [apply HC|..]; cbn; rewrite ?fn_lookup_insert_ne by done; done.
Qed.

Lemma sim_step s s' o : spin_inv s o -> step s s' -> simulated s' o.
Proof.
  intros I Hs. destruct Hs as [h s|h l s Hp|h l s Hp|h b s Hp Hn].
  - unfold next. destruct (pcs s h) eqn:Hp; [by apply simulated_same|by apply sim_acquire|by apply sim_release|].
    by apply simulated_same.
  - apply simulated_same, inv_goto; rewrite ?Hp; try done; [by intros []|by right].
  - apply simulated_same, inv_goto; rewrite ?Hp; try done; [by intros []|by right].
  - by apply simulated_same, sim_intr.
Qed.

Lemma spin_inv_start : spin_inv start (fun _ => None).
Proof.
  split; [by split|]. intros h. exists []. split; [constructor|]. split; [|by right].
  intros l. rewrite elem_of_nil. naive_solver.
Qed.

Lemma reachable_inv s : reachable s -> exists o, spin_inv s o.
Proof.
  intros Hr. unfold reachable in Hr. remember start as s0 eqn:E.
  assert (exists o, spin_inv s0 o) as Hi by (subst; eexists; apply spin_inv_start). clear E.
  induction Hr as [|s1 s2 s3 H12 _ IH]; [done|]. apply IH. destruct Hi as [o Ho].
  destruct (sim_step s1 s2 o Ho H12) as (o' & Ho' & _). eauto.
Qed.

(** ** The properties *)

(** Hart [h] owns lock [l]: [lk->cpu] says so, or the hart is between the swap
    and the store of [lk->cpu]. *)
Definition owns (s : mach) (h : hart) (l : lockid) : Prop :=
  lcpu (lks s l) = Some h \/ gap (pcs s h) = Some l.

Lemma owns_owner s o h l : spin_inv s o -> owns s h l <-> o l = Some h.
Proof.
  intros [[Hf Hh Hpc] _]. unfold owns. split.
  - intros [Hc|Hg].
    + destruct (o l) as [h'|] eqn:Ho; [|by rewrite (Hf _ Ho) in Hc].
      rewrite (Hh _ _ Ho) in Hc. cbn in Hc. case_decide; congruence.
    + apply Hpc. destruct (pcs s h) as [|? []|? []|]; done.
  - intros Ho. rewrite (Hh _ _ Ho). cbn. case_decide; auto.
Qed.

Lemma locked_owned s o l : spin_inv s o -> locked (lks s l) <> 0 <-> exists h, owns s h l.
Proof.
  intros I. setoid_rewrite (owns_owner s o _ _ I). pose proof (si_locks _ _ I) as [Hf Hh _].
  destruct (o l) as [h|] eqn:Ho; [rewrite (Hh _ _ Ho); cbn; split; [eauto|done]|].
  rewrite (Hf _ Ho). cbn. naive_solver.
Qed.

(** C4: mutual exclusion.  Whatever the harts do and however their accesses
    interleave, a lock has at most one owner; [lk->locked] is nonzero exactly
    while somebody owns it; and a hart that owns a lock and has not panicked has
    its interrupts off. *)
Theorem spin_mutual_exclusion s l :
  reachable s ->
  (forall h h', owns s h l -> owns s h' l -> h = h') /\
  (locked (lks s l) <> 0 <-> exists h, owns s h l) /\
  (forall h, owns s h l -> ~ panicked (pcs s h) -> sie s h = false).
Proof.
  intros [o I]%reachable_inv. split; [|split].
  - intros h h'. rewrite !(owns_owner s o) by done. congruence.
  - by apply (locked_owned s o).
  - intros h Ho Hnp. rewrite (owns_owner s o) in Ho by done.
    destruct (si_cpu _ _ I h) as (H & _ & Hin & [?|[Hn Hs _]]); [done|]. rewrite Hs.
    apply Hin in Ho. destruct H as [|l' H]; [by apply elem_of_nil in Ho|].
    destruct (Z.eqb_spec (noff (cpus s h)) 0) as [E|]; [|done]. rewrite E in Hn. cbn in Hn.
    assert (0 <= pending (pcs s h)) by (by destruct (pcs s h) as [|? []|? []|]). lia.
Qed.

(** C14: the code implements the lock of the specification.  Initially every lock
    is free, and every step of the machine, seen through the owners, is no step
    or one step of the specification: a free lock is taken by one hart, or the
    owner gives its lock back. *)
Theorem spin_refines_lock :
  spin_inv start (fun _ => None) /\
  forall s s' o, spin_inv s o -> step s s' ->
    exists o', spin_inv s' o' /\ (forall h l, owns s' h l <-> o' l = Some h) /\
      ((forall l, o' l = o l) \/ owner_step o o').
Proof.
  split; [apply spin_inv_start|]. intros s s' o I Hs. destruct (sim_step s s' o I Hs) as (o' & I' & Ho).
  exists o'. split; [done|]. split; [intros; by apply owns_owner|done].
Qed.

Lemma next_other h h' s : h' <> h -> pcs (next h' s) h = pcs s h.
Proof.
  intros Hne. unfold next. destruct (pcs s h') as [|l a|l r|m]; [done| | |done].
  - destruct a; cbn; by rewrite fn_lookup_insert_ne.
  - destruct r; cbn; try (by rewrite fn_lookup_insert_ne). unfold pop_off.
    repeat case_match; cbn; by rewrite fn_lookup_insert_ne.
Qed.

(** Only a step of its own code makes a hart panic. *)
Lemma panic_own_step s s' h msg :
  step s s' -> ~ panicked (pcs s h) -> pcs s' h = Panicked msg -> pcs (next h s) h = Panicked msg.
Proof.
  intros Hs Hnp Hp. destruct Hs as [h' s|h' l s Hp'|h' l s Hp'|h' b s Hp' Hn]; cbn in Hp.
  - destruct (decide (h' = h)) as [->|Hne]; [done|]. rewrite next_other in Hp by done. by rewrite Hp in Hnp.
  - destruct (decide (h' = h)) as [->|Hne]; [by rewrite fn_lookup_insert in Hp|].
    rewrite fn_lookup_insert_ne in Hp by done. by rewrite Hp in Hnp.
  - destruct (decide (h' = h)) as [->|Hne]; [by rewrite fn_lookup_insert in Hp|].
    rewrite fn_lookup_insert_ne in Hp by done. by rewrite Hp in Hnp.
  - by rewrite Hp in Hnp.
Qed.

(** [acquire] panics only for a hart that owns the lock already, [release]
    only for a hart that does not own it, and [pop_off] never: the reads of
    [holding] race with the other harts but cannot be misled by them. *)
Theorem spin_panics_only_on_misuse s s' h msg :
  reachable s -> step s s' -> ~ panicked (pcs s h) -> pcs s' h = Panicked msg ->
  (msg = "acquire"%string /\ exists l, pcs s h = InAcquire l ReadCpu /\ owns s h l) \/
  (msg = "release"%string /\ exists l r, pcs s h = InRelease l r /\ ~ owns s h l).
Proof.
  intros [o I]%reachable_inv Hs Hnp Hp. apply (panic_own_step s s' h) in Hp; [|done..]. unfold next in Hp.
  destruct (pcs s h) as [|l a|l r|m] eqn:Hpc; [congruence| | |by destruct Hnp].
  - destruct a; cbn in Hp; rewrite fn_lookup_insert in Hp; try case_match; simplify_eq.
    left. split; [done|]. exists l. split; [done|]. by left.
  - destruct r; cbn in Hp.
    + rewrite fn_lookup_insert in Hp. case_match eqn:Hz; [|done]. simplify_eq. right. split; [done|].
      exists l, ReadLocked'. split; [done|]. intros Ho. assert (locked (lks s l) <> 0) as Hl; [|lia].
      apply (locked_owned s o); eauto.
    + rewrite fn_lookup_insert in Hp. case_match; [done|]. simplify_eq. right. split; [done|].
      exists l, ReadCpu'. split; [done|]. unfold owns. rewrite Hpc. by intros [?|?].
    + by rewrite fn_lookup_insert in Hp.
    + by rewrite fn_lookup_insert in Hp.
    + destruct (sim_pop_off h s o l I Hpc) as [_ Hout]. congruence.
Qed.

(** ** Two harts that compete for a lock *)

(** Hart 0 owns [tickslock], hart 1 spins on it. *)
Definition contended : mach :=
  let s := goto 0%nat (InAcquire Lticks PushOff) start in
  let s := next 0%nat (next 0%nat (next 0%nat (next 0%nat s))) in
  let s := goto 1%nat (InAcquire Lticks PushOff) s in
  next 1%nat (next 1%nat (next 1%nat (next 1%nat s))).

Lemma contended_reachable : reachable contended.
Proof.
  unfold contended, reachable. cbv zeta.
  eapply rtc_l; [by apply (step_acquire 0%nat Lticks)|]. do 4 (eapply rtc_l; [apply (step_next 0%nat)|]).
  eapply rtc_l; [by apply (step_acquire 1%nat Lticks)|]. do 4 (eapply rtc_l; [apply (step_next 1%nat)|]).
  apply rtc_refl.
Qed.

Lemma spin_mutual_exclusion_witness :
  owns contended 0%nat Lticks /\ pcs contended 1%nat = InAcquire Lticks Swap /\
  (forall h, owns contended h Lticks -> h = 0%nat).
Proof.
  assert (owns contended 0%nat Lticks) as H0 by (by left). split; [done|]. split; [done|]. intros h Hh.
  by apply (proj1 (spin_mutual_exclusion contended Lticks contended_reachable)).
Defined.

(** Hart 1 releases a lock it does not own. *)
Definition misused : mach := goto 1%nat (InRelease Lpid ReadLocked') start.

Lemma spin_panics_only_on_misuse_witness :
  ("release"%string = "acquire"%string /\ exists l, pcs misused 1%nat = InAcquire l ReadCpu /\ owns misused 1%nat l) \/
  ("release"%string = "release"%string /\ exists l r, pcs misused 1%nat = InRelease l r /\ ~ owns misused 1%nat l).
Proof.
  apply (spin_panics_only_on_misuse misused (next 1%nat misused) 1%nat "release").
  - eapply rtc_l; [by apply (step_release 1%nat Lpid)|apply rtc_refl].
  - apply step_next.
  - intros [].
  - reflexivity.
Defined.

Lemma spin_refines_lock_witness :
  exists o', spin_inv (next 0%nat start) o' /\ (forall h l, owns (next 0%nat start) h l <-> o' l = Some h) /\
    ((forall l, o' l = None) \/ owner_step (fun _ => None) o').
Proof.
  apply (proj2 spin_refines_lock start (next 0%nat start) (fun _ => None)); [apply spin_inv_start|apply step_next].
Defined.
