(* ===== verification/Harts.v ===== *)
(** * The scheduler on several harts: [scheduler] and [sched] of kernel/proc.c

    Every hart runs [scheduler] or the kernel thread of a process; [swtch]
    passes between the two while [p->lock] stays held.  The spinlocks are those
    of the specification that Spin proves: free or owned by one hart.  A step is
    what happens between two accesses to shared state that others could
    notice; the steps of the harts interleave in any order. *)

From stdpp Require Import functions relations.
From S2P Require Import Prelude Riscv KState Spin.

(** Where a hart is.  [f] is the variable [found] of the scheduler. *)
Inductive place :=
  | Scan (i : nat) (f : bool)     (* about to acquire the lock of process i *)
  | Test (i : nat) (f : bool)     (* holds it, about to look at the state *)
  | Pick (i : nat)                (* set it RUNNING, about to switch to it *)
  | Back (i : nat)                (* the switch came back *)
  | Rel (i : nat) (f : bool)      (* about to release the lock of process i *)
  | Wfi                           (* found nothing to run *)
  | Resumed (p : nat)             (* in p, just switched to, its lock held *)
  | Run (p : nat)                 (* in p *)
  | Hold (p : nat)                (* in p, has acquired its own lock to leave *)
  | Leave (p : nat)               (* in p, has set its state, calls sched *)
  | Visit (q p : nat)             (* in q, holds the lock of p *)
  | Crash (msg : string).         (* a panic, or a switch to a context never saved *)

(** [pst] and [plock] are [p->state] and [p->lock]; [saved] says that
    [p->context] holds a context to switch to; [cproc] is [c->proc]; [local] the
    variable [p] of the scheduler in its saved context [c->context]. *)
Record harts := mkharts {
  pst : nat -> procstate;
  plock : nat -> option hart;
  saved : nat -> bool;
  cproc : hart -> option nat;
  local : hart -> nat;
  at_ : hart -> place
}.

#[export] Instance eta_harts : Eta harts :=
  fun x => mkharts (pst x) (plock x) (saved x) (cproc x) (local x) (at_ x).

Definition move (h : hart) (w : place) (s : harts) : harts := s <| at_ ::= <[h := w]> |>.

(** ** The code *)

(** The loop of the scheduler, from the test of [p < &proc[NPROC]]. *)
Definition sched_scan (h : hart) (i : nat) (f : bool) (s : harts) : harts :=
  if (i <? Z.to_nat NPROC)%nat then
    match plock s i with
    | None => move h (Test i f) s <| plock ::= <[i := Some h]> |>
    | Some _ => s
    end
  else move h (if f then Scan 0 false else Wfi) s.

Definition sched_test (h : hart) (i : nat) (f : bool) (s : harts) : harts :=
  if decide (pst s i = RUNNABLE) then
    move h (Pick i) s <| pst ::= <[i := RUNNING]> |> <| cproc ::= <[h := Some i]> |>
  else move h (Rel i f) s.

(** [swtch(&c->context, &p->context)]. *)
Definition swtch_to (h : hart) (i : nat) (s : harts) : harts :=
  if saved s i then move h (Resumed i) s <| local ::= <[h := i]> |> <| saved ::= <[i := false]> |>
  else move h (Crash "swtch") s.

Definition sched_release (h : hart) (i : nat) (f : bool) (s : harts) : harts :=
  if decide (plock s i = Some h) then move h (Scan (S i) f) s <| plock ::= <[i := None]> |>
  else move h (Crash "release") s.

(** [sched()] in process [p]: its tests of [p->lock] and [p->state], and
    [swtch(&p->context, &mycpu()->context)]. *)
Definition sched_call (h : hart) (p : nat) (s : harts) : harts :=
  if decide (plock s p = Some h) then
    if decide (pst s p = RUNNING) then move h (Crash "sched RUNNING") s
    else move h (Back (local s h)) s <| saved ::= <[p := true]> |>
  else move h (Crash "sched p->lock") s.

(** A process releases the lock [l], which it must hold. *)
Definition proc_release (h : hart) (l p : nat) (s : harts) : harts :=
  if decide (plock s l = Some h) then move h (Run p) s <| plock ::= <[l := None]> |>
  else move h (Crash "release") s.

(** What is done to another process under its lock: [wakeup] and [kkill],
    [allocproc] (which sets up a context), [kfork] and [userinit], [kwait] and
    the error path of [kfork]. *)
Inductive visit_change : procstate -> bool -> procstate -> bool -> Prop :=
  | vc_wakeup b : visit_change SLEEPING b RUNNABLE b
  | vc_alloc b : visit_change UNUSED b USED true
  | vc_fork b : visit_change USED b RUNNABLE b
  | vc_wait b : visit_change ZOMBIE b UNUSED b
  | vc_free b : visit_change USED b UNUSED b.

Inductive hstep : harts -> harts -> Prop :=
  | hs_scan h i f s : at_ s h = Scan i f -> hstep s (sched_scan h i f s)
  | hs_wfi h s : at_ s h = Wfi -> hstep s (move h (Scan 0 false) s)
  | hs_test h i f s : at_ s h = Test i f -> hstep s (sched_test h i f s)
  | hs_pick h i s : at_ s h = Pick i -> hstep s (swtch_to h i s)
  | hs_back h i s : at_ s h = Back i -> hstep s (move h (Rel i true) s <| cproc ::= <[h := None]> |>)
  | hs_rel h i f s : at_ s h = Rel i f -> hstep s (sched_release h i f s)
  | hs_resumed h p s : at_ s h = Resumed p -> hstep s (proc_release h p p s)
  | hs_hold h p s : at_ s h = Run p -> plock s p = None -> hstep s (move h (Hold p) s <| plock ::= <[p := Some h]> |>)
  | hs_leave h p v s :
      at_ s h = Hold p -> v = RUNNABLE \/ v = SLEEPING \/ v = ZOMBIE ->
      hstep s (move h (Leave p) s <| pst ::= <[p := v]> |>)
  | hs_sched h p s : at_ s h = Leave p -> hstep s (sched_call h p s)
  | hs_visit h q p s : at_ s h = Run q -> plock s p = None -> hstep s (move h (Visit q p) s <| plock ::= <[p := Some h]> |>)
  | hs_change h q p v b s :
      at_ s h = Visit q p -> visit_change (pst s p) (saved s p) v b ->
      hstep s (s <| pst ::= <[p := v]> |> <| saved ::= <[p := b]> |>)
  | hs_unvisit h q p s : at_ s h = Visit q p -> hstep s (proc_release h p q s).

(** After [userinit]: process 0 is ready, every hart enters the scheduler. *)
Definition hstart : harts :=
  mkharts (<[0%nat := RUNNABLE]> (fun _ => UNUSED)) (fun _ => None) (<[0%nat := true]> (fun _ => false))
    (fun _ => None) (fun _ => 0%nat) (fun _ => Scan 0 false).

Definition hreachable (s : harts) : Prop := rtc hstep hstart s.

(** ** The invariant *)

(** The process lock a hart holds at a place. *)
Definition lock_at (w : place) : option nat :=
  match w with
  | Test i _ | Pick i | Back i | Rel i _ => Some i
  | Resumed p | Hold p | Leave p | Visit _ p => Some p
  | Scan _ _ | Wfi | Run _ | Crash _ => None
  end.

(** [c->proc] there. *)
Definition proc_at_place (w : place) : option nat :=
  match w with
  | Pick p | Back p | Resumed p | Run p | Hold p | Leave p | Visit p _ => Some p
  | _ => None
  end.

(** The process that is RUNNING because of it. *)
Definition running_at (w : place) : option nat :=
  match w with Pick p | Resumed p | Run p | Hold p | Visit p _ => Some p | _ => None end.

(** The process whose thread executes. *)
Definition thread_at (w : place) : option nat :=
  match w with Resumed p | Run p | Hold p | Leave p | Visit p _ => Some p | _ => None end.

(** The process between its last instruction and the release of its lock. *)
Definition leaving_at (w : place) : option nat :=
  match w with Leave p | Back p => Some p | _ => None end.

Definition crashed (w : place) : Prop := match w with Crash _ => True | _ => False end.

Record harts_inv (s : harts) : Prop := {
  hi_ok : forall h, ~ crashed (at_ s h);
  hi_lock : forall p h, plock s p = Some h <-> lock_at (at_ s h) = Some p;
  hi_cproc : forall h, cproc s h = proc_at_place (at_ s h);
  hi_excl : forall p h h', proc_at_place (at_ s h) = Some p -> proc_at_place (at_ s h') = Some p -> h = h';
  hi_running : forall p h, running_at (at_ s h) = Some p -> pst s p = RUNNING;
  hi_leaving : forall p h, leaving_at (at_ s h) = Some p -> pst s p <> RUNNING;
  hi_on : forall p, pst s p = RUNNING -> exists h, running_at (at_ s h) = Some p;
  hi_saved : forall p, saved s p = false -> pst s p = UNUSED \/ exists h, thread_at (at_ s h) = Some p;
  hi_pick : forall p h, at_ s h = Pick p -> saved s p = true;
  hi_local : forall p h, thread_at (at_ s h) = Some p -> local s h = p
}.

Lemma running_proc w p : running_at w = Some p -> proc_at_place w = Some p.
Proof. by destruct w. Qed.

Lemma thread_proc w p : thread_at w = Some p -> proc_at_place w = Some p.
Proof. by destruct w. Qed.

Lemma leaving_proc w p : leaving_at w = Some p -> proc_at_place w = Some p.
Proof. by destruct w. Qed.

Lemma leaving_lock w p : leaving_at w = Some p -> lock_at w = Some p.
Proof. by destruct w. Qed.

Lemma proc_cases w p : proc_at_place w = Some p -> running_at w = Some p \/ leaving_at w = Some p.
Proof. destruct w; cbn; auto. Qed.

Lemma thread_cases w p : thread_at w = Some p -> running_at w = Some p \/ leaving_at w = Some p.
Proof. intros H%thread_proc. by apply proc_cases. Qed.

(** Whoever holds the lock of a process that is not RUNNING, and is not leaving
    it, has it for itself. *)
Lemma alone s h p :
  harts_inv s -> lock_at (at_ s h) = Some p -> leaving_at (at_ s h) <> Some p -> pst s p <> RUNNING ->
  forall h', proc_at_place (at_ s h') <> Some p.
Proof.
  intros I Hl Hnl Hnr h' [Hr|Hv]%proc_cases; [by apply (hi_running _ I) in Hr|].
  assert (h' = h) as ->; [|done]. apply leaving_lock in Hv. apply I in Hl, Hv. congruence.
Qed.

(** Case analysis on the updated harts and processes. *)
Ltac hcases :=
  repeat match goal with
  | H : context [<[?a := _]> _ ?b] |- _ =>
      destruct (decide (a = b)) as [<-|?];
        [rewrite ?fn_lookup_insert in *|rewrite ?(fn_lookup_insert_ne _ a b) in * by done]
  | |- context [<[?a := _]> _ ?b] =>
      destruct (decide (a = b)) as [<-|?];
        [rewrite ?fn_lookup_insert in *|rewrite ?(fn_lookup_insert_ne _ a b) in * by done]
  end.

(** A hart that has the property has it after [h] moved to [w]. *)
Lemma still (g : place -> option nat) (at' : hart -> place) h w p :
  (exists h', g (at' h') = Some p) -> (g (at' h) = Some p -> g w = Some p) ->
  exists h', g (<[h := w]> at' h') = Some p.
Proof.
  intros [h' Hh'] Hw. destruct (decide (h = h')) as [<-|Hne].
  - exists h. rewrite fn_lookup_insert. auto.
  - exists h'. by rewrite fn_lookup_insert_ne.
Qed.

(** The parts of the invariant [I], and what they say of the hart whose place
    [Hw] names. *)
Ltac hparts I Hw :=
  let h := lazymatch type of Hw with at_ _ ?h = _ => h end in
  pose proof I as [A1 A2 A3 A4 A5 A6 A7 A8 A9 A10];
  pose proof (fun p => A2 p h) as L; rewrite Hw in L; cbn in L;
  pose proof (A3 h) as C; rewrite Hw in C; cbn in C;
  pose proof (fun p => A5 p h) as R; rewrite Hw in R; cbn in R;
  pose proof (fun p => A6 p h) as V; rewrite Hw in V; cbn in V;
  pose proof (fun p h' => A4 p h h') as E; rewrite Hw in E; cbn in E;
  pose proof (fun p => A10 p h) as Lo; rewrite Hw in Lo; cbn in Lo.

Ltac hlocks :=
  split; intros Hx; try congruence;
  match goal with
  | A : forall p h, plock _ p = Some h <-> _ |- _ => apply A in Hx; congruence
  | L : forall p, plock _ p = Some _ <-> _ |- _ => apply L in Hx; congruence
  end.

Ltac hsolve Hw :=
  split; intros; cbn in *; hcases; simplify_eq/=; try done; try (by eauto); try congruence; try hlocks; try (by symmetry; eauto);
  try (apply still; [by auto|rewrite Hw; cbn; congruence]);
  try (let h := lazymatch type of Hw with at_ _ ?h = _ => h end in exists h; by rewrite fn_lookup_insert);
  try (let h := lazymatch type of Hw with at_ _ ?h = _ => h end in right; exists h; by rewrite fn_lookup_insert);
  try (match goal with |- _ \/ _ => idtac end; match goal with A8 : forall p, saved _ p = false -> _, H : saved _ _ = false |- _ =>
         destruct (A8 _ H); [by left|right; apply still; [done|rewrite Hw; cbn; congruence]] end).

Lemma inv_scan h i f s : harts_inv s -> at_ s h = Scan i f -> harts_inv (sched_scan h i f s).
Proof.
  intros I Hw. hparts I Hw. unfold sched_scan. case_match; [case_match eqn:Hl; [done|]|].
  - hsolve Hw.
  - destruct f; hsolve Hw.
Qed.

Lemma inv_wfi h s : harts_inv s -> at_ s h = Wfi -> harts_inv (move h (Scan 0 false) s).
Proof. intros I Hw. hparts I Hw. hsolve Hw. Qed.

Lemma inv_test h i f s : harts_inv s -> at_ s h = Test i f -> harts_inv (sched_test h i f s).
Proof.
  intros I Hw. hparts I Hw. unfold sched_test. case_decide as Hr.
  - assert (forall h', proc_at_place (at_ s h') <> Some i) as Ha.
    { apply (alone s h); rewrite ?Hw; [done..|congruence]. }
    assert (forall h', leaving_at (at_ s h') <> Some i) as Hlv by (intros h' ?%leaving_proc; by eapply Ha).
    assert (saved s i = true) as Hsv.
    { destruct (saved s i) eqn:Es; [done|]. destruct (A8 _ Es) as [|[h' ?%thread_proc]]; [congruence|by destruct (Ha h')]. }
    hsolve Hw.
  - hsolve Hw.
Qed.

Lemma inv_swtch h i s : harts_inv s -> at_ s h = Pick i -> harts_inv (swtch_to h i s).
Proof.
  intros I Hw. hparts I Hw. unfold swtch_to. rewrite (A9 _ _ Hw).
  assert (forall h', at_ s h' = Pick i -> h = h') as Hk by (intros h' Hk; apply (E i); [done|by rewrite Hk]).
  hsolve Hw.
Qed.

Lemma inv_back h i s :
  harts_inv s -> at_ s h = Back i -> harts_inv (move h (Rel i true) s <| cproc ::= <[h := None]> |>).
Proof. intros I Hw. hparts I Hw. hsolve Hw. Qed.

Lemma inv_release h i f s : harts_inv s -> at_ s h = Rel i f -> harts_inv (sched_release h i f s).
Proof.
  intros I Hw. hparts I Hw. unfold sched_release.
  assert (plock s i = Some h) as Hl by (by apply L). rewrite decide_True by done. hsolve Hw.
Qed.

Lemma inv_resumed h p s : harts_inv s -> at_ s h = Resumed p -> harts_inv (proc_release h p p s).
Proof.
  intros I Hw. hparts I Hw. unfold proc_release.
  assert (plock s p = Some h) as Hl by (by apply L). rewrite decide_True by done. hsolve Hw.
Qed.

Lemma inv_unvisit h q p s : harts_inv s -> at_ s h = Visit q p -> harts_inv (proc_release h p q s).
Proof.
  intros I Hw. hparts I Hw. unfold proc_release.
  assert (plock s p = Some h) as Hl by (by apply L). rewrite decide_True by done. hsolve Hw.
Qed.

Lemma inv_hold h p s :
  harts_inv s -> at_ s h = Run p -> plock s p = None ->
  harts_inv (move h (Hold p) s <| plock ::= <[p := Some h]> |>).
Proof. intros I Hw Hl. hparts I Hw. hsolve Hw. Qed.

Lemma inv_visit h q p s :
  harts_inv s -> at_ s h = Run q -> plock s p = None ->
  harts_inv (move h (Visit q p) s <| plock ::= <[p := Some h]> |>).
Proof. intros I Hw Hl. hparts I Hw. hsolve Hw. Qed.

Lemma inv_leave h p v s :
  harts_inv s -> at_ s h = Hold p -> v = RUNNABLE \/ v = SLEEPING \/ v = ZOMBIE ->
  harts_inv (move h (Leave p) s <| pst ::= <[p := v]> |>).
Proof.
  intros I Hw Hv. hparts I Hw. assert (v <> RUNNING) as Hnr by (destruct Hv as [->|[->| ->]]; done).
  assert (forall h', running_at (at_ s h') = Some p -> h = h') as Hk by (intros h' Hk%running_proc; by apply (E p)).
  hsolve Hw. by destruct n; auto.
Qed.

Lemma inv_sched h p s : harts_inv s -> at_ s h = Leave p -> harts_inv (sched_call h p s).
Proof.
  intros I Hw. hparts I Hw. unfold sched_call. assert (plock s p = Some h) as Hl by (by apply L).
  rewrite decide_True by done. rewrite decide_False by (by apply V). rewrite (Lo p eq_refl). hsolve Hw.
Qed.

Lemma inv_change h q p v b s :
  harts_inv s -> at_ s h = Visit q p -> visit_change (pst s p) (saved s p) v b ->
  harts_inv (s <| pst ::= <[p := v]> |> <| saved ::= <[p := b]> |>).
Proof.
  intros I Hw Hc. pose proof I as [A1 A2 A3 A4 A5 A6 A7 A8 A9 A10].
  assert (forall h', proc_at_place (at_ s h') <> Some p) as Ha.
  { apply (alone s h); rewrite ?Hw; [done..|]. by inversion Hc. }
  assert (v <> RUNNING /\ (b = false -> v = UNUSED)) as [Hv Hb].
  { assert (saved s p = false -> pst s p = UNUSED) as Hs.
    { intros Hs. destruct (A8 _ Hs) as [|[h' ?%thread_proc]]; [done|by destruct (Ha h')]. }
    inversion Hc; subst; split; try done; intros Hb%Hs; congruence. }
  split; cbn; try done.
  - intros p' h' Hr. hcases; [by apply running_proc, Ha in Hr|eauto].
  - intros p' h' Hr. hcases; [done|eauto].
  - intros p' Hp'. hcases; [done|auto].
  - intros p' Hp'. hcases; [left; auto|auto].
  - intros p' h' Hk. hcases; [|eauto]. destruct (Ha h'). by rewrite Hk.
Qed.

Lemma inv_hstep s s' : harts_inv s -> hstep s s' -> harts_inv s'.
Proof.
  intros I Hs. destruct Hs; eauto using inv_scan, inv_wfi, inv_test, inv_swtch, inv_back, inv_release, inv_resumed,
    inv_hold, inv_leave, inv_sched, inv_visit, inv_change, inv_unvisit.
Qed.

Lemma hstart_inv : harts_inv hstart.
Proof.
  split; cbn; try done.
  - intros _ [].
  - intros p Hp. hcases; done.
  - intros p Hp. left. hcases; done.
Qed.

Lemma hreachable_inv s : hreachable s -> harts_inv s.
Proof.
  intros Hr. unfold hreachable in Hr. remember hstart as s0 eqn:Es.
  assert (harts_inv s0) as Hi by (subst; apply hstart_inv). clear Es.
  induction Hr; eauto using inv_hstep.
Qed.

(** ** The properties *)

(** C7: no process runs on two harts.  In every reachable state [c->proc] of two
    harts differ, and a process is RUNNING exactly when some hart runs it and
    has not begun to leave it. *)
Theorem processes_run_once s :
  hreachable s ->
  (forall h h' p, cproc s h = Some p -> cproc s h' = Some p -> h = h') /\
  (forall p, pst s p = RUNNING <-> exists h, cproc s h = Some p /\ leaving_at (at_ s h) <> Some p).
Proof.
  intros I%hreachable_inv. split.
  - intros h h' p. rewrite !(hi_cproc s I). apply (hi_excl s I).
  - intros p. split.
    + intros Hp. destruct (hi_on s I p Hp) as [h Hh]. exists h. rewrite (hi_cproc s I).
      split; [by apply running_proc|]. intros Hv. by apply (hi_leaving s I) in Hv.
    + intros (h & Hc & Hv). rewrite (hi_cproc s I) in Hc. destruct (proc_cases _ _ Hc); [by eapply hi_running|done].
Qed.


(** ** Hart 0 runs process 0 and is about to yield, hart 1 waits for its lock *)

Definition yielding : harts :=
  let s := sched_scan 0%nat 0%nat false hstart in
  let s := sched_test 0%nat 0%nat false s in
  let s := swtch_to 0%nat 0%nat s in
  let s := proc_release 0%nat 0%nat 0%nat s in
  let s := move 0%nat (Hold 0%nat) s <| plock ::= <[0%nat := Some 0%nat]> |> in
  let s := move 0%nat (Leave 0%nat) s <| pst ::= <[0%nat := RUNNABLE]> |> in
  sched_scan 1%nat 0%nat false s.

Lemma yielding_reachable : hreachable yielding.
Proof.
  unfold yielding, hreachable. cbv zeta.
  eapply rtc_l; [by apply (hs_scan 0%nat 0%nat false)|]. eapply rtc_l; [by apply (hs_test 0%nat 0%nat false)|].
  eapply rtc_l; [by apply (hs_pick 0%nat 0%nat)|]. eapply rtc_l; [by apply (hs_resumed 0%nat 0%nat)|].
  eapply rtc_l; [by apply (hs_hold 0%nat 0%nat)|].
  eapply rtc_l; [apply (hs_leave 0%nat 0%nat RUNNABLE); [done|by left]|].
  eapply rtc_l; [by apply (hs_scan 1%nat 0%nat false)|]. apply rtc_refl.
Qed.

Lemma processes_run_once_witness :
  cproc yielding 0%nat = Some 0%nat /\ forall h, cproc yielding h = Some 0%nat -> h = 0%nat.
Proof.
  split; [done|]. intros h Hh. by apply (proj1 (processes_run_once yielding yielding_reachable) h 0%nat 0%nat).
Defined.

