(* ===== verification/Sched.v ===== *)
(** * Locks, sleeping and waking: spinlock.c on one hart, sleeplock.c, and the
    scheduling half of proc.c

    [acquire] and [release] are those of kernel/spinlock.c seen by the only
    hart: the lock can be held by nobody or by this hart, so [acquire] never
    spins, and panics when the lock is already held.  [sched] ends in [swtch]:
    the rest of the computation is the continuation the scheduler resumes. *)

From S2P Require Import Prelude CMem Riscv Kalloc Vm KState.

Definition holding (l : lockid) : M kst bool := gets (fun s => bool_decide (l ∈ locks s)).

Definition acquire (l : lockid) : M kst unit :=
  h ← holding l;
  if h : bool then panic "acquire" else modify (fun s => s <| locks ::= cons l |>).

Definition release (l : lockid) : M kst unit :=
  h ← holding l;
  if h : bool then modify (fun s => s <| locks ::= filter (fun x => x <> l) |>)
  else panic "release".

(** [myproc()], in the places that dereference it. *)
Definition myproc : M kst nat :=
  c ← gets cur;
  match c with Some i => mret i | None => panic "kerneltrap" end.

(** ** kernel/proc.c: sched, yield, sleep, wakeup, killed *)

(** [mycpu()->noff] is the number of locks held. *)
Definition sched : M kst unit :=
  p ← myproc;
  h ← holding (Lproc p);
  if negb h then panic "sched p->lock"
  else
    noff ← gets (fun s => length (locks s));
    if negb (noff =? 1)%nat then panic "sched locks"
    else
      pr ← getp p;
      if decide (state pr = RUNNING) then panic "sched RUNNING"
      else swtch.

Definition yield : M kst unit :=
  p ← myproc;
  acquire (Lproc p);;
  updp p (fun x => x <| state := RUNNABLE |>);;
  sched;;
  release (Lproc p).

Definition sleep (c : chan) (lk : lockid) : M kst unit :=
  p ← myproc;
  acquire (Lproc p);;
  release lk;;
  updp p (fun x => x <| pchan := Some c |> <| state := SLEEPING |>);;
  sched;;
  updp p (fun x => x <| pchan := None |>);;
  release (Lproc p);;
  acquire lk.

Definition for_procs (body : nat -> M kst unit) : M kst unit :=
  for_range (Z.to_nat NPROC) 0 (fun i => body (Z.to_nat i)).

Definition wakeup (c : chan) : M kst unit :=
  for_procs (fun p =>
    me ← gets cur;
    when (negb (bool_decide (me = Some p)))
      (acquire (Lproc p);;
       pr ← getp p;
       when (bool_decide (state pr = SLEEPING) && bool_decide (pchan pr = Some c))
         (updp p (fun x => x <| state := RUNNABLE |>));;
       release (Lproc p))).

Definition kkill (target : Z) : M kst Z :=
  loop (fun p : nat =>
    if (p <? Z.to_nat NPROC)%nat then
      acquire (Lproc p);;
      pr ← getp p;
      if pid pr =? target then
        updp p (fun x => x <| pkilled := true |>);;
        when (bool_decide (state pr = SLEEPING)) (updp p (fun x => x <| state := RUNNABLE |>));;
        release (Lproc p);;
        mret (inr 0)
      else release (Lproc p);; mret (inl (S p))
    else mret (inr (-1))) 0%nat.

Definition setkilled (p : nat) : M kst unit :=
  acquire (Lproc p);;
  updp p (fun x => x <| pkilled := true |>);;
  release (Lproc p).

Definition killed (p : nat) : M kst bool :=
  acquire (Lproc p);;
  pr ← getp p;
  release (Lproc p);;
  mret (pkilled pr).

(** ** kernel/sleeplock.c *)

Definition get_sl (l : slid) : M kst sleeplock :=
  match l with
  | SLbuf i => gets (fun s => b_lock (buf_at s i))
  | SLinode i => gets (fun s => i_lock (inode_at s i))
  end.

Definition set_sl (l : slid) (v : sleeplock) : M kst unit :=
  match l with
  | SLbuf i => updb i (fun b => b <| b_lock := v |>)
  | SLinode i => updi i (fun b => b <| i_lock := v |>)
  end.

Definition acquiresleep (l : slid) : M kst unit :=
  acquire (Lsleep l);;
  loop (fun _ : unit =>
    sl ← get_sl l;
    if sl_locked sl then sleep (ch_sleep l) (Lsleep l);; mret (inl tt)
    else mret (inr tt)) tt;;
  p ← myproc;
  pr ← getp p;
  set_sl l (mksleeplock true (pid pr));;
  release (Lsleep l).

Definition releasesleep (l : slid) : M kst unit :=
  acquire (Lsleep l);;
  set_sl l (mksleeplock false 0);;
  wakeup (ch_sleep l);;
  release (Lsleep l).

Definition holdingsleep (l : slid) : M kst bool :=
  acquire (Lsleep l);;
  sl ← get_sl l;
  p ← myproc;
  pr ← getp p;
  release (Lsleep l);;
  mret (sl_locked sl && (sl_pid sl =? pid pr)).

(** ** Copies from and to the memory of the current process *)

Definition vmproc_of (p : proc) : vmproc := mkvmproc (sz p) (pagetable p).

Section user_copies.
Context {KL : KLayout}.

(** [copyout(p->pagetable, ...)] and the like, [p] the current process. *)
Definition copyout_cur (dstva : Z) (src : list Z) : M kst Z :=
  p ← myproc; pr ← getp p;
  zoom (copyout (vmproc_of pr) (pagetable pr) dstva src).

Definition copyin_cur (srcva len : Z) : M kst (Z * list Z) :=
  p ← myproc; pr ← getp p;
  zoom (copyin (vmproc_of pr) (pagetable pr) srcva len).

Definition copyinstr_cur (srcva max : Z) : M kst (Z * list Z) :=
  p ← myproc; pr ← getp p;
  zoom (copyinstr (pagetable pr) srcva max).

(** A destination of [either_copyout] in the kernel is a physical address, or
    a local variable of the caller, which receives the bytes. *)
Inductive kdst := Duser (va : Z) | Dphys (pa : Z) | Dlocal.

Definition either_copyout (dst : kdst) (src : list Z) : M kst Z :=
  match dst with
  | Duser va => copyout_cur va src
  | Dphys pa => zoom (store_bytes pa src);; mret 0
  | Dlocal => mret 0
  end.

(** A source of [either_copyin]: a user address, or the bytes of a kernel
    object. *)
Inductive ksrc := Suser (va : Z) | Skernel (bs : list Z).

Definition either_copyin (src : ksrc) (len : Z) : M kst (Z * list Z) :=
  match src with
  | Suser va => copyin_cur va len
  | Skernel bs => mret (0, take (Z.to_nat len) bs)
  end.

End user_copies.

(** ** Specifications *)

Lemma wp_acquire l (Q : unit -> kst -> Prop) s :
  (l ∉ locks s) -> Q tt (s <| locks ::= cons l |>) -> wp (acquire l) Q s.
Proof.
  intros Hl HQ. unfold acquire, holding. wp_steps. by rewrite bool_decide_eq_false_2.
Qed.

Lemma wp_release l (Q : unit -> kst -> Prop) s :
  (l ∈ locks s) -> Q tt (s <| locks ::= filter (fun x => x <> l) |>) -> wp (release l) Q s.
Proof.
  intros Hl HQ. unfold release, holding. wp_steps. by rewrite bool_decide_eq_true_2.
Qed.

Lemma filter_not_in {A} `{EqDecision A} (l : A) (L : list A) : (l ∉ L) -> filter (fun x => x <> l) L = L.
Proof.
  induction L as [|x L IH]; [done|]. rewrite not_elem_of_cons. intros [Hx HL].
  rewrite filter_cons_True by congruence. by rewrite IH.
Qed.

(** A critical section: the code between [acquire] and [release]. *)
Lemma wp_locked {A} l (m : M kst A) (Q : A -> kst -> Prop) s :
  (l ∉ locks s) ->
  wp m (fun a s' => locks s' = l :: locks s /\ Q a (s' <| locks := locks s |>))
    (s <| locks := l :: locks s |>) ->
  wp (acquire l;; a ← m; release l;; mret a) Q s.
Proof.
  intros Hl Hm. apply wp_bind, wp_acquire; [done|]. apply wp_bind.
  eapply wp_mono; [exact Hm|]. intros a s' [HL HQ]. apply wp_bind, wp_release.
  { rewrite HL. left. }
  apply wp_ret. rewrite <- (filter_not_in l (locks s) Hl) in HQ.
  replace (s' <| locks ::= filter (fun x => x <> l) |>)
    with (s' <| locks := filter (fun x => x <> l) (locks s) |>); [done|].
  unfold upd. rewrite HL. by rewrite filter_cons_False by (intros H; by apply H).
Qed.

Lemma wp_myproc p (Q : nat -> kst -> Prop) s : cur s = Some p -> Q p s -> wp myproc Q s.
Proof. intros Hc HQ. unfold myproc. wp_steps. by rewrite Hc. Qed.

(** What [wakeup] does to the process table. *)
Definition woken (c : chan) (me : option nat) (j : nat) (p : proc) : proc :=
  if bool_decide (me <> Some j /\ state p = SLEEPING /\ pchan p = Some c)
  then p <| state := RUNNABLE |> else p.

(** The table after the first [n] entries have been visited. *)
Definition woken_upto (n : nat) (c : chan) (me : option nat) (ps : list proc) : list proc :=
  imap (fun j p => if (j <? n)%nat then woken c me j p else p) ps.

Lemma woken_upto_S n c me ps :
  woken_upto (S n) c me ps = alter (woken c me n) n (woken_upto n c me ps).
Proof.
  apply list_eq. intros i. unfold woken_upto. rewrite list_lookup_imap, list_lookup_alter.
  case_decide as Hi; [subst|]; rewrite list_lookup_imap; destruct (ps !! i) as [p|]; try done; simpl.
  - rewrite (proj2 (Nat.ltb_lt i (S i))), (proj2 (Nat.ltb_ge i i)) by lia. done.
  - f_equal. destruct (Nat.ltb_spec i (S n)), (Nat.ltb_spec i n); done || lia.
Qed.

Lemma woken_upto_all n c me ps :
  (length ps <= n)%nat -> woken_upto n c me ps = imap (woken c me) ps.
Proof.
  intros Hn. apply imap_ext. intros i p Hp. apply lookup_lt_Some in Hp.
  by rewrite (proj2 (Nat.ltb_lt i n)) by lia.
Qed.

Lemma woken_upto_0 c me ps : woken_upto 0 c me ps = ps.
Proof. apply list_eq. intros i. unfold woken_upto. rewrite list_lookup_imap. by destruct (ps !! i). Qed.

Definition no_proc_locks (L : list lockid) : Prop := forall i, Lproc i ∉ L.

Lemma kst_procs_id s : s <| procs := procs s |> = s.
Proof. by destruct s. Qed.

Lemma filter_locked l (L : list lockid) : (l ∉ L) -> filter (fun x => x <> l) (l :: L) = L.
Proof. intros Hl. rewrite filter_cons_False by (intros H; by apply H). by apply filter_not_in. Qed.

Lemma woken_alter c me p s :
  me <> Some p ->
  (if bool_decide (state (proc_at s p) = SLEEPING) && bool_decide (pchan (proc_at s p) = Some c)
   then alter (fun x => x <| state := RUNNABLE |>) p (procs s) else procs s)
  = alter (woken c me p) p (procs s).
Proof.
  intros Hme. unfold proc_at, woken. apply list_eq. intros i.
  destruct (decide (i = p)) as [->|Hi].
  - destruct (procs s !! p) as [x|] eqn:Hx; simpl.
    + rewrite list_lookup_alter_eq, Hx. simpl.
      repeat case_bool_decide; simpl; rewrite ?list_lookup_alter_eq, ?Hx; simpl; (done || (exfalso; tauto)).
    + rewrite (list_lookup_alter_eq (woken c me p)), Hx. by repeat case_bool_decide.
  - rewrite list_lookup_alter_ne by done. case_match; [|done]. by rewrite list_lookup_alter_ne.
Qed.

Lemma wp_wakeup_one c p (Q : unit -> kst -> Prop) s :
  no_proc_locks (locks s) ->
  Q tt (s <| procs ::= alter (woken c (cur s) p) p |>) ->
  wp (me ← gets cur;
      when (negb (bool_decide (me = Some p)))
        (acquire (Lproc p);;
         pr ← getp p;
         when (bool_decide (state pr = SLEEPING) && bool_decide (pchan pr = Some c))
           (updp p (fun x => x <| state := RUNNABLE |>));;
         release (Lproc p))) Q s.
Proof.
  intros HL HQ. wp_step. wp_step.
  case_bool_decide as Hme; cbn [negb]; unfold when; cbv iota.
  - apply wp_ret. replace (s <| procs ::= _ |>) with s in HQ; [done|].
    rewrite <- (kst_procs_id s) at 1. unfold upd. f_equal. symmetry. apply list_alter_id.
    intros x. unfold woken. rewrite bool_decide_eq_false_2; [done|]. intros [H _]. by apply H.
  - apply wp_bind, wp_acquire; [apply HL|]. apply wp_bind. wp_steps.
    change (s <| procs ::= _ |>) with (s <| procs := alter (woken c (cur s) p) p (procs s) |>) in HQ.
    rewrite <- (woken_alter c (cur s) p s Hme) in HQ.
    change (proc_at (s <| locks ::= _ |>) p) with (proc_at s p).
    case_match; wp_steps; (apply wp_release; [left|]).
    + replace (_ <| locks ::= filter _ |>) with (s <| procs := alter (fun x => x <| state := RUNNABLE |>) p (procs s) |>); [done|].
      unfold upd. cbn [locks procs]. by rewrite filter_locked by apply HL.
    + replace (_ <| locks ::= filter _ |>) with (s <| procs := procs s |>); [done|].
      unfold upd. cbn [locks procs]. by rewrite filter_locked by apply HL.
Qed.

(** [wakeup] makes exactly the other processes that sleep on the channel
    runnable, and changes nothing else. *)
Lemma wp_wakeup c (Q : unit -> kst -> Prop) s :
  no_proc_locks (locks s) -> (length (procs s) <= Z.to_nat NPROC)%nat ->
  Q tt (s <| procs ::= imap (woken c (cur s)) |>) ->
  wp (wakeup c) Q s.
Proof.
  intros HL Hlen HQ. unfold wakeup, for_procs.
  apply (wp_for_range (fun i s' => 0 <= i /\ s' = s <| procs := woken_upto (Z.to_nat i) c (cur s) (procs s) |>)).
  - split; [done|]. change (Z.to_nat 0) with 0%nat. by rewrite woken_upto_0, kst_procs_id.
  - intros i s' Hi [_ ->]. apply wp_wakeup_one; [done|]. split; [lia|].
    replace (Z.to_nat (i + 1)) with (S (Z.to_nat i)) by lia. by rewrite woken_upto_S.
  - intros s' [_ ->]. rewrite Z.add_0_l, Z2Nat.id by done. by rewrite woken_upto_all.
Qed.

Lemma set_locks_id L s : locks s = L -> s <| locks := L |> = s.
Proof. intros <-. by destruct s. Qed.

(** A critical section that is one update of the state. *)
Lemma wp_locked_modify l (f : kst -> kst) (Q : unit -> kst -> Prop) s :
  (l ∉ locks s) -> (forall L, f (s <| locks := L |>) = (f s) <| locks := L |>) ->
  locks (f s) = locks s -> Q tt (f s) -> wp (acquire l;; modify f;; release l) Q s.
Proof.
  intros Hl Hf HL HQ. apply wp_bind, wp_acquire; [done|]. apply wp_bind, wp_modify.
  change (s <| locks ::= cons l |>) with (s <| locks := l :: locks s |>). rewrite Hf.
  apply wp_release; [left|].
  change (Q tt ((f s) <| locks := filter (fun x => x <> l) (l :: locks s) |>)).
  by rewrite filter_locked, set_locks_id.
Qed.

(** ** Sleep locks *)

Definition sl_of (l : slid) (s : kst) : sleeplock :=
  match l with
  | SLbuf i => b_lock (buf_at s i)
  | SLinode i => i_lock (inode_at s i)
  end.

Definition sl_put (l : slid) (v : sleeplock) (s : kst) : kst :=
  match l with
  | SLbuf i => s <| bufs ::= alter (fun b => b <| b_lock := v |>) i |>
  | SLinode i => s <| inodes ::= alter (fun b => b <| i_lock := v |>) i |>
  end.

Lemma wp_get_sl l (Q : sleeplock -> kst -> Prop) s : Q (sl_of l s) s -> wp (get_sl l) Q s.
Proof. by destruct l. Qed.

Lemma wp_set_sl l v (Q : unit -> kst -> Prop) s : Q tt (sl_put l v s) -> wp (set_sl l v) Q s.
Proof. by destruct l. Qed.

Lemma sl_put_locks l v s : locks (sl_put l v s) = locks s.
Proof. by destruct l. Qed.

Lemma sl_put_procs l v s : procs (sl_put l v s) = procs s.
Proof. by destruct l. Qed.

Lemma sl_put_cur l v s : cur (sl_put l v s) = cur s.
Proof. by destruct l. Qed.

Lemma sl_put_set_locks l v L s : sl_put l v (s <| locks := L |>) = (sl_put l v s) <| locks := L |>.
Proof. by destruct l. Qed.

Lemma wp_acquiresleep l p (Q : unit -> kst -> Prop) s :
  (Lsleep l ∉ locks s) -> cur s = Some p -> sl_locked (sl_of l s) = false ->
  Q tt (sl_put l (mksleeplock true (pid (proc_at s p))) s) ->
  wp (acquiresleep l) Q s.
Proof.
  intros HL Hc Hf HQ. unfold acquiresleep. apply wp_bind, wp_acquire; [done|]. apply wp_bind.
  set (s1 := s <| locks ::= cons (Lsleep l) |>).
  apply (wp_loop (fun n _ s' => n = 1 /\ s' = s1)) with (n := 1); [|lia|done].
  intros n [] s' [-> ->]. split; [lia|]. apply wp_bind, wp_get_sl.
  replace (sl_of l s1) with (sl_of l s) by (by destruct l). rewrite Hf. apply wp_ret.
  apply wp_bind, (wp_myproc p); [done|]. wp_step. wp_step. wp_step. apply wp_bind, wp_set_sl, wp_release.
  { rewrite sl_put_locks. left. }
  replace (_ <| locks ::= _ |>) with (sl_put l (mksleeplock true (pid (proc_at s p))) s); [done|].
  subst s1. destruct l; unfold sl_put, upd; cbn [locks]; by rewrite filter_locked.
Qed.

Lemma wp_holdingsleep l p (Q : bool -> kst -> Prop) s :
  (Lsleep l ∉ locks s) -> cur s = Some p ->
  Q (sl_locked (sl_of l s) && (sl_pid (sl_of l s) =? pid (proc_at s p))) s ->
  wp (holdingsleep l) Q s.
Proof.
  intros HL Hc HQ. unfold holdingsleep. apply wp_bind, wp_acquire; [done|]. apply wp_bind, wp_get_sl.
  apply wp_bind, (wp_myproc p); [done|]. wp_step. wp_step. wp_step.
  apply wp_bind, wp_release; [left|]. apply wp_ret.
  replace (sl_of l _) with (sl_of l s) by (by destruct l).
  replace (_ <| locks ::= filter _ |>) with s; [done|].
  symmetry. transitivity (s <| locks := locks s |>); [|by apply set_locks_id].
  unfold upd. cbn [locks]. by rewrite filter_locked.
Qed.

Lemma wp_releasesleep l (Q : unit -> kst -> Prop) s :
  (Lsleep l ∉ locks s) -> no_proc_locks (locks s) -> (length (procs s) <= Z.to_nat NPROC)%nat ->
  Q tt ((sl_put l (mksleeplock false 0) s) <| procs ::= imap (woken (ch_sleep l) (cur s)) |>) ->
  wp (releasesleep l) Q s.
Proof.
  intros HL Hno Hlen HQ. unfold releasesleep. apply wp_bind, wp_acquire; [done|].
  apply wp_bind, wp_set_sl. apply wp_bind, wp_wakeup.
  { rewrite sl_put_locks. intros i [?|?]%elem_of_cons; [done|by eapply Hno]. }
  { by rewrite sl_put_procs. }
  apply wp_release.
  { destruct l; left. }
  rewrite <- (set_locks_id (filter (fun x => x <> Lsleep l) (Lsleep l :: locks s))
    ((sl_put l _ s) <| procs ::= _ |>)) in HQ.
  - by destruct l.
  - rewrite filter_locked by done. by destruct l.
Qed.

Lemma wp_killed p (Q : bool -> kst -> Prop) s :
  (Lproc p ∉ locks s) -> Q (pkilled (proc_at s p)) s -> wp (killed p) Q s.
Proof.
  intros HL HQ. unfold killed. apply wp_bind, wp_acquire; [done|]. wp_step. wp_step. wp_step.
  apply wp_bind, wp_release; [left|]. apply wp_ret.
  match goal with |- Q _ ?t => replace t with s; [done|] end.
  apply kst_eq; try reflexivity. exact (eq_sym (filter_locked (Lproc p) (locks s) HL)).
Qed.
