(* ===== verification/Conc.v ===== *)
(** * Reasoning about code that sleeps

    A computation that sleeps is a [Swtch] with the rest of it as a
    continuation; any number of steps of other processes happen before it is
    resumed.  [rg] runs a computation against such an environment: [Sw] must
    hold of the state at every switch, [R] says in which states the scheduler
    may resume it, and a ghost value [g] records what the environment did.
    Blocking loops may be woken any number of times, so running out of the
    2^64 rounds of a loop is not excluded here. *)

From S2P Require Import Prelude CMem Riscv Kalloc Vm KState Sched.

Section rg.
Context {S G : Type} (Sw : S -> G -> Prop) (R : S -> G -> S -> G -> Prop).

Fixpoint rgr {A} (r : result S A) (Q : A -> S -> G -> Prop) (g : G) : Prop :=
  match r with
  | Ok a s => Q a s g
  | Panic _ => False
  | NoFuel => True
  | Swtch s k => Sw s g /\ forall s' g', R s g s' g' -> rgr (k s') Q g'
  end.

Definition rg {A} (m : M S A) (Q : A -> S -> G -> Prop) (s : S) (g : G) : Prop := rgr (m s) Q g.

Lemma rgr_mono {A} (r : result S A) (P Q : A -> S -> G -> Prop) g :
  rgr r P g -> (forall a s g, P a s g -> Q a s g) -> rgr r Q g.
Proof.
  intros H HPQ. revert g H. induction r as [a s|msg|s k IH|]; intros g H; cbn in *; auto.
  destruct H as [Hs Hk]. split; [done|]. intros s' g' HR. apply IH, Hk, HR.
Qed.

Lemma rg_mono {A} (m : M S A) (P Q : A -> S -> G -> Prop) s g :
  rg m P s g -> (forall a s g, P a s g -> Q a s g) -> rg m Q s g.
Proof. apply rgr_mono. Qed.

Lemma rg_ret {A} (a : A) (Q : A -> S -> G -> Prop) s g : Q a s g -> rg (mret a) Q s g.
Proof. done. Qed.

Lemma rg_bind {A B} (m : M S A) (f : A -> M S B) Q s g :
  rg m (fun a s' g' => rg (f a) Q s' g') s g -> rg (m ≫= f) Q s g.
Proof.
  unfold rg, mbind, M_bind. generalize (m s). intros r. revert g.
  induction r as [a s'|msg|s' k IH|]; intros g H; cbn in *; auto.
  destruct H as [Hs Hk]. split; [done|]. intros s'' g' HR. by apply IH, Hk.
Qed.

Lemma rg_wp {A} (m : M S A) (Q : A -> S -> G -> Prop) s g :
  wp m (fun a s' => Q a s' g) s -> rg m Q s g.
Proof. unfold wp, rg. by destruct (m s). Qed.

Lemma rg_swtch (Q : unit -> S -> G -> Prop) s g :
  Sw s g -> (forall s' g', R s g s' g' -> Q tt s' g') -> rg swtch Q s g.
Proof. intros Hs HR. split; [done|]. intros s' g' H. by apply HR. Qed.

Lemma rg_loop_pow {St B} (Inv : St -> S -> G -> Prop) (body : St -> M S (St + B)) Q :
  (forall st s g, Inv st s g ->
     rg (body st) (fun r s' g' => match r with inl st' => Inv st' s' g' | inr b => Q b s' g' end) s g) ->
  forall k st s g, Inv st s g ->
    rg (loop_pow k body st) (fun r s' g' => match r with inl st' => Inv st' s' g' | inr b => Q b s' g' end) s g.
Proof.
  intros HS k. induction k as [|k IH]; intros st s g HI; cbn [loop_pow]; [by apply HS|].
  apply rg_bind. eapply rg_mono; [by apply IH|]. intros [st'|b] s' g' H; [by apply IH|by apply rg_ret].
Qed.

Lemma rg_loop {St B} (Inv : St -> S -> G -> Prop) (body : St -> M S (St + B)) Q st s g :
  (forall st s g, Inv st s g ->
     rg (body st) (fun r s' g' => match r with inl st' => Inv st' s' g' | inr b => Q b s' g' end) s g) ->
  Inv st s g -> rg (loop body st) Q s g.
Proof.
  intros HS HI. unfold loop. apply rg_bind. eapply rg_mono; [by apply (rg_loop_pow Inv)|].
  intros [st'|b] s' g' H; [done|by apply rg_ret].
Qed.

End rg.

(** ** sleep *)

(** The state in which [sleep] switches. *)
Definition asleep (p : nat) (c : chan) (s : kst) : kst :=
  s <| locks := [Lproc p] |>
    <| procs ::= alter (fun x => x <| pchan := Some c |> <| state := SLEEPING |>) p |>.

(** The state in which it returns, when resumed in [s]. *)
Definition awake (p : nat) (lk : lockid) (s : kst) : kst :=
  s <| procs ::= alter (fun x => x <| pchan := None |>) p |> <| locks := [lk] |>.

Lemma rg_sleep {G} (Sw : kst -> G -> Prop) R p c lk (Q : unit -> kst -> G -> Prop) s g :
  cur s = Some p -> locks s = [lk] -> lk <> Lproc p -> (p < length (procs s))%nat ->
  Sw (asleep p c s) g ->
  (forall s' g', R (asleep p c s) g s' g' -> locks s' = [Lproc p] /\ Q tt (awake p lk s') g') ->
  rg Sw R (sleep c lk) Q s g.
Proof.
  intros Hc HL Hne Hp HSw HR. unfold sleep.
  apply rg_bind, rg_wp, (wp_myproc p); [done|].
  apply rg_bind, rg_wp, wp_acquire; [rewrite HL, list_elem_of_singleton; congruence|].
  apply rg_bind, rg_wp, wp_release.
  { cbn. rewrite HL. right. left. }
  apply rg_bind, rg_wp, wp_modify.
  match goal with |- rg _ _ _ _ ?t _ => replace t with (asleep p c s) end.
  2:{ apply kst_eq; try reflexivity. change ([Lproc p] = filter (fun x => x <> lk) (Lproc p :: locks s)).
      rewrite HL, filter_cons_True by congruence. rewrite (filter_locked lk []); [done|apply not_elem_of_nil]. }
  apply rg_bind. unfold sched. apply rg_bind, rg_wp, (wp_myproc p); [done|].
  apply rg_bind, rg_wp. unfold holding. apply wp_gets. cbn [negb].
  change (locks (asleep p c s)) with [Lproc p]. rewrite bool_decide_eq_true_2 by left. cbn [negb].
  apply rg_bind, rg_wp, wp_gets. change (locks (asleep p c s)) with [Lproc p]. cbn [length Nat.eqb negb].
  apply rg_bind, rg_wp, wp_gets.
  assert (state (proc_at (asleep p c s) p) = SLEEPING) as ->.
  { unfold proc_at. change (procs (asleep p c s)) with
      (alter (fun x => x <| pchan := Some c |> <| state := SLEEPING |>) p (procs s)).
    rewrite list_lookup_alter_eq. by destruct (lookup_lt_is_Some_2 _ _ Hp) as [x ->]. }
  rewrite decide_False by done. apply rg_swtch; [done|]. intros s' g' HRs.
  destruct (HR s' g' HRs) as [HL' HQ].
  apply rg_bind, rg_wp, wp_modify. apply rg_bind, rg_wp, wp_release.
  { change (locks (s' <| procs ::= _ |>)) with (locks s'). rewrite HL'. left. }
  apply rg_wp, wp_acquire.
  { change (lk ∉ filter (fun x => x <> Lproc p) (locks s')). rewrite HL', (filter_locked (Lproc p) []); apply not_elem_of_nil. }
  match goal with |- Q tt ?t _ => replace t with (awake p lk s') end; [done|].
  apply kst_eq; try reflexivity. change ([lk] = lk :: filter (fun x => x <> Lproc p) (locks s')).
  rewrite HL', (filter_locked (Lproc p) []); [done|apply not_elem_of_nil].
Qed.
