(* ===== verification/Printf.v ===== *)
(** * kernel/printf.c, and the output half of console.c and uart.c

    The formatting is a function from the format string and the arguments to
    the characters passed to [consputc]; [printf] sends them to the UART under
    the [pr] lock.  [panic] is the outcome [Panic] of the monad: it prints and
    never returns, so nothing after it is observable. *)

From S2P Require Import Prelude CMem Riscv Kalloc Vm KState Sched.
From Stdlib Require Import Ascii.

(** ** uartputc_sync, consputc *)

(** The wait for the transmit register and the interrupt switching have no
    effect on memory; the byte goes out. *)
Definition uartputc_sync (c : Z) : M kst unit :=
  modify (fun s => s <| kcons ::= fun x => x <| uart_out ::= fun o => o ++ [u8 c] |> |>).

Definition BACKSPACE : Z := 0x100.

Definition consputc (c : Z) : M kst unit :=
  if c =? BACKSPACE then uartputc_sync 8;; uartputc_sync 32;; uartputc_sync 8
  else uartputc_sync c.

(** ** printint *)

Definition digit (d : Z) : Z := nth (Z.to_nat d) (str "0123456789abcdef") 0.

(** The do-while loop, least significant digit first.  An unsigned 64-bit
    number has at most 64 digits in any base from 2 on. *)
Fixpoint int_digits (fuel : nat) (x base : Z) : list Z :=
  match fuel with
  | O => []
  | S f => x `mod` base :: (if x / base =? 0 then [] else int_digits f (x / base) base)
  end.

Definition printint (xx base : Z) (sign : bool) : list Z :=
  let neg := sign && (xx <? 0) in
  let x := if neg then u64 (- xx) else u64 xx in
  (if neg then [chr "-"] else []) ++ reverse (digit <$> int_digits 64 x base).

Definition printptr (x : Z) : list Z :=
  [chr "0"; chr "x"] ++
  ((fun i : nat => digit ((x / 2 ^ (60 - 4 * Z.of_nat i)) `mod` 16)) <$> seq 0 16).

(** ** printf *)

Inductive arg := Anum (x : Z) | Astr (s : list Z) | Anull.

Definition arg_num (a : option arg) : Z := match a with Some (Anum x) => x | _ => 0 end.

Definition arg_str (a : option arg) : list Z :=
  match a with Some (Astr s) => s | _ => str "(null)" end.

(** One conversion: the characters it prints, and how many characters of the
    format after the percent sign and how many arguments it uses. *)
Definition conversion (c0 c1 c2 : Z) (a : option arg) : list Z * nat * nat :=
  let n := arg_num a in
  if c0 =? chr "d" then (printint (i32 n) 10 true, 1%nat, 1%nat)
  else if (c0 =? chr "l") && (c1 =? chr "d") then (printint (i64 n) 10 true, 2%nat, 1%nat)
  else if (c0 =? chr "l") && (c1 =? chr "l") && (c2 =? chr "d") then (printint (i64 n) 10 true, 3%nat, 1%nat)
  else if c0 =? chr "u" then (printint (u32 n) 10 false, 1%nat, 1%nat)
  else if (c0 =? chr "l") && (c1 =? chr "u") then (printint (u64 n) 10 false, 2%nat, 1%nat)
  else if (c0 =? chr "l") && (c1 =? chr "l") && (c2 =? chr "u") then (printint (u64 n) 10 false, 3%nat, 1%nat)
  else if c0 =? chr "x" then (printint (u32 n) 16 false, 1%nat, 1%nat)
  else if (c0 =? chr "l") && (c1 =? chr "x") then (printint (u64 n) 16 false, 2%nat, 1%nat)
  else if (c0 =? chr "l") && (c1 =? chr "l") && (c2 =? chr "x") then (printint (u64 n) 16 false, 3%nat, 1%nat)
  else if c0 =? chr "p" then (printptr (u64 n), 1%nat, 1%nat)
  else if c0 =? chr "c" then ([u32 n], 1%nat, 1%nat)
  else if c0 =? chr "s" then (arg_str a, 1%nat, 1%nat)
  else if c0 =? chr "%" then ([chr "%"], 1%nat, 0%nat)
  else ([chr "%"; c0], 1%nat, 0%nat).

(** The loop over the format; every round uses at least one character, so its
    length bounds the number of rounds. *)
Fixpoint format_loop (fuel : nat) (fmt : list Z) (args : list arg) : list Z :=
  match fuel, fmt with
  | O, _ | _, [] => []
  | S f, cx :: fmt' =>
      if negb (cx =? chr "%") then cx :: format_loop f fmt' args
      else
        match fmt' with
        | [] => []
        | c0 :: _ =>
            let c1 := default 0 (fmt' !! 1%nat) in
            let c2 := default 0 (fmt' !! 2%nat) in
            let '(out, nf, na) := conversion c0 c1 c2 (head args) in
            out ++ format_loop f (drop nf fmt') (drop na args)
        end
  end.

Definition format (fmt : list Z) (args : list arg) : list Z := format_loop (length fmt) fmt args.

Fixpoint consputs (cs : list Z) : M kst unit :=
  match cs with
  | [] => mret tt
  | c :: cs' => consputc c;; consputs cs'
  end.

Definition printf (fmt : list Z) (args : list arg) : M kst unit :=
  acquire Lpr;;
  consputs (format fmt args);;
  release Lpr.

(** The bytes a character becomes on the UART. *)
Definition con_bytes (c : Z) : list Z := if c =? BACKSPACE then [8; 32; 8] else [u8 c].

Definition emit (bs : list Z) (s : kst) : kst :=
  s <| kcons ::= fun x => x <| uart_out ::= fun o => o ++ bs |> |>.

Lemma emit_app a b s : emit b (emit a s) = emit (a ++ b) s.
Proof. unfold emit, upd. cbn. by rewrite app_assoc. Qed.

Lemma consputs_spec cs s : consputs cs s = Ok tt (emit (concat (con_bytes <$> cs)) s).
Proof.
  revert s. induction cs as [|c cs IH]; intros s; cbn [consputs fmap list_fmap concat].
  - unfold emit, upd. cbn. rewrite app_nil_r. by destruct s as [??????????????????[]].
  - transitivity (consputs cs (emit (con_bytes c) s)).
    + unfold con_bytes, consputc. destruct (c =? BACKSPACE); [|done].
      transitivity (consputs cs (emit [8] (emit [32] (emit [8] s)))); [done|]. by rewrite !emit_app.
    + by rewrite IH, emit_app.
Qed.

(** [printf] writes the formatted text to the UART and changes nothing else. *)
Lemma wp_printf fmt args (Q : unit -> kst -> Prop) s :
  (Lpr ∉ locks s) -> Q tt (emit (concat (con_bytes <$> format fmt args)) s) -> wp (printf fmt args) Q s.
Proof.
  intros HL HQ. unfold printf. apply wp_bind, wp_acquire; [done|].
  apply wp_bind. eapply wp_run; [apply consputs_spec|]. apply wp_release; [left|].
  set (bs := concat _) in *.
  change (Q tt ((emit bs s) <| locks := filter (fun x => x <> Lpr) (Lpr :: locks s) |>)).
  by rewrite filter_locked, set_locks_id.
Qed.

(** ** The decimal output denotes the number *)

(** The number a list of digits denotes, least significant first. *)
Fixpoint digits_value (base : Z) (ds : list Z) : Z :=
  match ds with
  | [] => 0
  | d :: ds' => d + base * digits_value base ds'
  end.

Lemma int_digits_value fuel x base :
  2 <= base -> 0 <= x < 2 ^ Z.of_nat fuel ->
  digits_value base (int_digits fuel x base) = x /\
  Forall (fun d => 0 <= d < base) (int_digits fuel x base).
Proof.
  intros Hb. revert x. induction fuel as [|f IH]; intros x Hx.
  { simpl in *. split; [lia|constructor]. }
  cbn [int_digits digits_value]. pose proof (Z.div_mod x base ltac:(lia)) as Hd.
  pose proof (Z.mod_pos_bound x base ltac:(lia)) as Hm.
  destruct (Z.eqb_spec (x / base) 0) as [H0|H0].
  - simpl. split; [lia|]. constructor; [done|constructor].
  - destruct (IH (x / base)) as [IH1 IH2].
    { split; [apply Z.div_pos; lia|]. apply Z.div_lt_upper_bound; [lia|].
      rewrite Nat2Z.inj_succ, Z.pow_succ_r in Hx by lia. nia. }
    rewrite IH1. split; [lia|]. by constructor.
Qed.

(** The value of a digit character. *)
Definition digit_val (c : Z) : Z := if c <=? 57 then c - 48 else c - 87.

Lemma digit_val_digit d : 0 <= d < 16 -> digit_val (digit d) = d.
Proof.
  intros Hd. assert (Forall (fun d => digit_val (digit d) = d) (seqZ 0 16)) as HF.
  { apply (bool_decide_unpack _). vm_compute. exact I. }
  rewrite Forall_forall in HF. apply HF, elem_of_seqZ. lia.
Qed.

(** The number a printed string denotes. *)
Definition parse_int (base : Z) (cs : list Z) : Z :=
  match cs with
  | c :: cs' => if c =? 45 then - digits_value base (digit_val <$> reverse cs')
                else digits_value base (digit_val <$> reverse cs)
  | [] => 0
  end.

Lemma digit_val_digits base ds :
  base <= 16 -> Forall (fun d => 0 <= d < base) ds -> digit_val <$> (digit <$> ds) = ds.
Proof.
  intros Hb. induction 1 as [|d ds Hd _ IH]; [done|]. rewrite !fmap_cons, IH.
  by rewrite digit_val_digit by lia.
Qed.

Lemma digit_not_minus d : 0 <= d < 16 -> digit d <> 45.
Proof. intros Hd H. pose proof (digit_val_digit d Hd) as Hv. rewrite H in Hv. vm_compute in Hv. lia. Qed.

(** What [printint] prints denotes its argument: read back in the same
    base it gives the number, for every signed 64-bit number printed signed
    (including the most negative one) and every unsigned one. *)
Theorem printint_roundtrip xx base (sign : bool) :
  2 <= base <= 16 -> (if sign then - 2 ^ 63 <= xx < 2 ^ 63 else 0 <= xx < 2 ^ 64) ->
  parse_int base (printint xx base sign) = xx.
Proof.
  intros Hb Hx. unfold printint.
  assert (forall x, 0 <= x < 2 ^ 64 ->
    digits_value base (digit_val <$> (digit <$> int_digits 64 x base)) = x) as Hval.
  { intros x Hr. destruct (int_digits_value 64 x base) as [Hv HF]; [lia|done|].
    by rewrite (digit_val_digits base) by (done || lia). }
  destruct (sign && (xx <? 0)) eqn:Hn.
  - apply andb_prop in Hn as [-> Hlt%Z.ltb_lt]. unfold parse_int. cbn [app].
    change (chr "-" =? 45) with true. cbv iota.
    rewrite reverse_involutive, Hval by (unfold u64; apply Z.mod_pos_bound; lia).
    unfold u64. rewrite Z.mod_small by lia. lia.
  - assert (0 <= xx < 2 ^ 64) as Hpos by (destruct sign; simpl in Hn; [apply Z.ltb_ge in Hn|]; lia).
    assert (u64 xx = xx) as -> by (by apply Z.mod_small).
    destruct (int_digits_value 64 xx base) as [_ HF]; [lia|done|]. unfold parse_int. cbn [app].
    destruct (reverse (digit <$> int_digits 64 xx base)) as [|c cs] eqn:Hr.
    { apply (f_equal length) in Hr. rewrite length_reverse, length_fmap in Hr. cbn [int_digits length] in Hr. lia. }
    destruct (Z.eqb_spec c 45) as [->|_].
    + exfalso. assert (45 ∈ digit <$> int_digits 64 xx base) as Hin.
      { rewrite <- elem_of_reverse, Hr. left. }
      apply list_elem_of_fmap in Hin as (d & Hd & Hdin). rewrite Forall_forall in HF.
      symmetry in Hd. apply digit_not_minus in Hd; [done|]. specialize (HF d Hdin). lia.
    + rewrite <- Hr, reverse_involutive. by apply Hval.
Qed.

Lemma printint_roundtrip_witness : parse_int 10 (printint (- 2 ^ 63) 10 true) = - 2 ^ 63.
Proof. apply printint_roundtrip; lia. Defined.
