(* ===== verification/Bio.v ===== *)
(** * kernel/bio.c: the buffer cache

    The cache is an array of buffers and the LRU list through them, most
    recently used first.  [virtio_disk_rw] is the contract of the disk driver:
    the transfer has completed when the call returns, which is what Virtio
    proves of the driver. *)

From S2P Require Import Prelude CMem Riscv Kalloc Vm KState Sched.

(** ** The disk *)

Definition zero_block : list Z := replicate (Z.to_nat BSIZE) 0.

Definition disk_read (d : disk) (bn : Z) : list Z := default zero_block (d_blocks d !! bn).

Definition disk_write (d : disk) (bn : Z) (data : list Z) : disk :=
  mkdisk (<[bn := data]> (d_blocks d)) ((bn, data) :: d_trace d).

Definition virtio_disk_rw (b : nat) (write : bool) : M kst unit :=
  x ← getb b;
  if write then modify (fun s => s <| dsk ::= fun d => disk_write d (b_blockno x) (b_data x) |>)
  else d ← gets dsk; updb b (fun y => y <| b_data := disk_read d (b_blockno x) |>).

(** ** bio.c *)

Definition binit : M kst unit :=
  modify (fun s => s <| bufs ::= fmap (fun b => b <| b_lock := mksleeplock false 0 |>) |>
                     <| lru := reverse (seq 0 (Z.to_nat NBUF)) |>).

(** The first buffer of a list that satisfies a test. *)
Fixpoint find_buf (t : buf -> bool) (s : kst) (l : list nat) : option nat :=
  match l with
  | [] => None
  | i :: l' => if t (buf_at s i) then Some i else find_buf t s l'
  end.

Definition is_block (dev bn : Z) (b : buf) : bool := (b_dev b =? dev) && (b_blockno b =? bn).

Definition bget (dev bn : Z) : M kst nat :=
  acquire Lbcache;;
  hit ← gets (fun s => find_buf (is_block dev bn) s (lru s));
  match hit with
  | Some b =>
      updb b (fun x => x <| b_refcnt ::= fun r => u32 (r + 1) |>);;
      release Lbcache;;
      acquiresleep (SLbuf b);;
      mret b
  | None =>
      victim ← gets (fun s => find_buf (fun x => b_refcnt x =? 0) s (reverse (lru s)));
      match victim with
      | Some b =>
          updb b (fun x => x <| b_dev := dev |> <| b_blockno := bn |> <| b_valid := false |>
                             <| b_refcnt := 1 |>);;
          release Lbcache;;
          acquiresleep (SLbuf b);;
          mret b
      | None => panic "bget: no buffers"
      end
  end.

Definition bread (dev bn : Z) : M kst nat :=
  b ← bget dev bn;
  x ← getb b;
  when (negb (b_valid x))
    (virtio_disk_rw b false;; updb b (fun y => y <| b_valid := true |>));;
  mret b.

Definition bwrite (b : nat) : M kst unit :=
  h ← holdingsleep (SLbuf b);
  if negb h then panic "bwrite" else virtio_disk_rw b true.

Definition brelse (b : nat) : M kst unit :=
  h ← holdingsleep (SLbuf b);
  if negb h then panic "brelse"
  else
    releasesleep (SLbuf b);;
    acquire Lbcache;;
    updb b (fun x => x <| b_refcnt ::= fun r => u32 (r - 1) |>);;
    x ← getb b;
    when (b_refcnt x =? 0)
      (modify (fun s => s <| lru ::= fun l => b :: filter (fun i => i <> b) l |>));;
    release Lbcache.

Definition bpin (b : nat) : M kst unit :=
  acquire Lbcache;;
  updb b (fun x => x <| b_refcnt ::= fun r => u32 (r + 1) |>);;
  release Lbcache.

Definition bunpin (b : nat) : M kst unit :=
  acquire Lbcache;;
  updb b (fun x => x <| b_refcnt ::= fun r => u32 (r - 1) |>);;
  release Lbcache.

(** [bp->data] is read, and written in place. *)
Definition bdata (b : nat) : M kst (list Z) := gets (fun s => b_data (buf_at s b)).

Definition set_bdata (b : nat) (data : list Z) : M kst unit :=
  updb b (fun x => x <| b_data := data |>).

#[export] Hint Unfold bdata set_bdata : wp_prim.
