(* ===== verification/BioSpec.v ===== *)
(** * The buffer cache keeps one copy of every block

    The invariant [bio_ok dev H P s] of the cache of device [dev] when the
    running process holds the buffers [H], no other process holds one, and the
    blocks [P] are pinned by the log; the contents of the device as the kernel
    sees it through the cache ([bview]); and what every operation of bio.c does
    to them. *)

From S2P Require Import Prelude CMem Riscv Kalloc Vm KState Sched Bio.

Definition nbuf : nat := Z.to_nat NBUF.

(** ** The rest of the kernel's state: everything the cache does not touch *)

Definition fs_frame (s : kst) : kst :=
  s <| bufs := [] |> <| lru := [] |> <| dsk := mkdisk ∅ [] |>
    <| kcons := mkconsole [] 0 0 0 false [] [] |>
    <| procs ::= fmap (fun x => x <| state := UNUSED |>) |>.

Definition mypid (s : kst) : Z :=
  match cur s with Some p => pid (proc_at s p) | None => 0 end.

Definition mine (s : kst) : sleeplock := mksleeplock true (mypid s).

Lemma fmap_woken c me ps :
  (fun x => x <| state := UNUSED |>) <$> imap (woken c me) ps = (fun x => x <| state := UNUSED |>) <$> ps.
Proof.
  apply list_eq. intros i. rewrite !list_lookup_fmap, list_lookup_imap.
  destruct (ps !! i) as [p|]; [|done]. simpl. f_equal. unfold woken. by case_bool_decide.
Qed.

Lemma frame_locks s s' : fs_frame s' = fs_frame s -> locks s' = locks s.
Proof. by intros H%(f_equal locks). Qed.

Lemma frame_cur s s' : fs_frame s' = fs_frame s -> cur s' = cur s.
Proof. by intros H%(f_equal cur). Qed.

Lemma frame_lg s s' : fs_frame s' = fs_frame s -> lg s' = lg s.
Proof. by intros H%(f_equal lg). Qed.

Lemma frame_procs s s' : fs_frame s' = fs_frame s -> length (procs s') = length (procs s).
Proof.
  intros H%(f_equal procs). apply (f_equal length) in H. cbn in H. by rewrite !length_fmap in H.
Qed.

Lemma frame_mypid s s' : fs_frame s' = fs_frame s -> mypid s' = mypid s.
Proof.
  intros H. unfold mypid. rewrite (frame_cur _ _ H). destruct (cur s) as [p|]; [|done].
  apply (f_equal procs), (f_equal (fun l => pid <$> (l !! p))) in H. cbn in H.
  rewrite !list_lookup_fmap in H. unfold proc_at.
  destruct (procs s' !! p), (procs s !! p); by simplify_eq/=.
Qed.

(** ** The view of a device *)

Definition is_cached (dev bn : Z) (b : buf) : bool := is_block dev bn b && b_valid b.

Definition bview (dev : Z) (s : kst) (bn : Z) : list Z :=
  match find_buf (is_cached dev bn) s (seq 0 nbuf) with
  | Some i => b_data (buf_at s i)
  | None => disk_read (dsk s) bn
  end.

Lemma find_buf_Some t s l i : find_buf t s l = Some i -> i ∈ l /\ t (buf_at s i) = true.
Proof.
  induction l as [|j l IH]; simpl; [done|]. destruct (t (buf_at s j)) eqn:Ht.
  - intros [= <-]. split; [left|done].
  - intros [? ?]%IH. split; [by right|done].
Qed.

Lemma find_buf_None t s l : find_buf t s l = None <-> forall i, i ∈ l -> t (buf_at s i) = false.
Proof.
  induction l as [|j l IH]; simpl.
  - split; [|done]. intros _ i Hi. by apply elem_of_nil in Hi.
  - destruct (t (buf_at s j)) eqn:Ht.
    + split; [done|]. intros H. specialize (H j ltac:(left)). congruence.
    + rewrite IH. split; [intros H i [->|?]%elem_of_cons; auto|].
      intros H i Hi. apply H. by right.
Qed.

Lemma find_buf_ext t s s' l : bufs s' = bufs s -> find_buf t s' l = find_buf t s l.
Proof. intros H. induction l as [|i l IH]; [done|]. simpl. unfold buf_at. by rewrite H, IH. Qed.

Lemma is_block_spec dev bn b : is_block dev bn b = true <-> b_dev b = dev /\ b_blockno b = bn.
Proof. unfold is_block. rewrite andb_true_iff, !Z.eqb_eq. done. Qed.

Lemma is_cached_spec dev bn b :
  is_cached dev bn b = true <-> b_dev b = dev /\ b_blockno b = bn /\ b_valid b = true.
Proof. unfold is_cached. rewrite andb_true_iff, is_block_spec. tauto. Qed.

(** ** The invariant *)

Definition held_in (H : list nat) (i : nat) : Z := if decide (i ∈ H) then 1 else 0.

Definition pinned_in (dev : Z) (P : gset Z) (b : buf) : Z :=
  if decide (b_dev b = dev /\ b_blockno b ∈ P) then 1 else 0.

Definition free_locks (L : list lockid) : Prop :=
  (Lbcache ∉ L) /\ (forall l, Lsleep l ∉ L) /\ no_proc_locks L.

Record bio_ok (dev : Z) (H : list nat) (P : gset Z) (s : kst) : Prop := {
  bo_len : length (bufs s) = nbuf;
  bo_lru : lru s ≡ₚ seq 0 nbuf;
  bo_procs : (length (procs s) <= Z.to_nat NPROC)%nat;
  bo_locks : free_locks (locks s);
  bo_cur : is_Some (cur s);
  bo_nodup : NoDup H;
  bo_held : forall i, i ∈ H ->
    (i < nbuf)%nat /\ b_lock (buf_at s i) = mine s /\ b_valid (buf_at s i) = true /\
    b_dev (buf_at s i) = dev;
  bo_free : forall i, (i < nbuf)%nat -> (i ∉ H) -> sl_locked (b_lock (buf_at s i)) = false;
  bo_ref : forall i, (i < nbuf)%nat ->
    b_refcnt (buf_at s i) = held_in H i + pinned_in dev P (buf_at s i);
  bo_uniq : forall i j, (i < nbuf)%nat -> (j < nbuf)%nat ->
    b_dev (buf_at s i) = dev -> b_dev (buf_at s j) = dev ->
    b_blockno (buf_at s i) = b_blockno (buf_at s j) -> i = j;
  bo_pin : forall bn, bn ∈ P -> exists i, (i < nbuf)%nat /\ is_cached dev bn (buf_at s i) = true;
  bo_clean : forall i, (i < nbuf)%nat -> (i ∉ H) -> b_dev (buf_at s i) = dev ->
    (b_blockno (buf_at s i) ∉ P) -> b_valid (buf_at s i) = true ->
    b_data (buf_at s i) = disk_read (dsk s) (b_blockno (buf_at s i));
  bo_blen : forall i, (i < nbuf)%nat -> length (b_data (buf_at s i)) = Z.to_nat BSIZE;
  bo_dlen : forall bn, length (disk_read (dsk s) bn) = Z.to_nat BSIZE
}.

Lemma buf_at_insert s i j x :
  (i < length (bufs s))%nat ->
  buf_at (s <| bufs := <[i := x]> (bufs s) |>) j = if decide (j = i) then x else buf_at s j.
Proof.
  intros Hi. unfold buf_at. cbn. case_decide as Hj; [subst|].
  - by rewrite list_lookup_insert_eq.
  - by rewrite list_lookup_insert_ne.
Qed.

Section facts.
Context {dev : Z} {H : list nat} {P : gset Z} {s : kst} (OK : bio_ok dev H P s).

Lemma bview_hit i :
  (i < nbuf)%nat -> b_dev (buf_at s i) = dev -> b_valid (buf_at s i) = true ->
  bview dev s (b_blockno (buf_at s i)) = b_data (buf_at s i).
Proof.
  intros Hi Hd Hv. unfold bview. destruct (find_buf _ _ _) as [j|] eqn:Hf.
  - apply find_buf_Some in Hf as [Hj%elem_of_seq (Hjd & Hjb & _)%is_cached_spec].
    by rewrite (bo_uniq _ _ _ _ OK j i) by (lia || done).
  - rewrite find_buf_None in Hf. specialize (Hf i).
    rewrite (proj2 (is_cached_spec _ _ _)) in Hf by done.
    exfalso. by assert (true = false) by (apply Hf, elem_of_seq; lia).
Qed.

Lemma bview_miss bn :
  (forall i, (i < nbuf)%nat -> is_cached dev bn (buf_at s i) = false) ->
  bview dev s bn = disk_read (dsk s) bn.
Proof.
  intros Hm. unfold bview. rewrite (proj2 (find_buf_None _ _ _)); [done|].
  intros i Hi%elem_of_seq. apply Hm. lia.
Qed.

Lemma bview_length bn : length (bview dev s bn) = Z.to_nat BSIZE.
Proof.
  unfold bview. destruct (find_buf _ _ _) as [j|] eqn:Hf; [|apply (bo_dlen _ _ _ _ OK)].
  apply find_buf_Some in Hf as [Hj%elem_of_seq _]. apply (bo_blen _ _ _ _ OK). lia.
Qed.

(** A block that is neither held nor pinned is as on the disk. *)
Lemma bview_clean bn :
  (bn ∉ P) -> (forall i, i ∈ H -> b_blockno (buf_at s i) <> bn) ->
  bview dev s bn = disk_read (dsk s) bn.
Proof.
  intros HP HH. unfold bview. destruct (find_buf _ _ _) as [j|] eqn:Hf; [|done].
  apply find_buf_Some in Hf as [Hj%elem_of_seq (Hjd & <- & Hv)%is_cached_spec].
  apply (bo_clean _ _ _ _ OK); try done; [lia|]. intros Hin. by apply (HH j).
Qed.

End facts.

(** ** bget finds a buffer *)

Lemma exists_unused dev H P s :
  bio_ok dev H P s -> (length H + size P < nbuf)%nat ->
  exists i, (i < nbuf)%nat /\ b_refcnt (buf_at s i) = 0.
Proof.
  intros OK Hn.
  destruct (decide (Exists (fun i => b_refcnt (buf_at s i) = 0) (seq 0 nbuf))) as [HE|HE].
  { apply Exists_exists in HE as (i & Hi%elem_of_seq & Hr). exists i. split; [lia|done]. }
  exfalso. apply not_Exists_Forall in HE; [|apply _].
  assert (forall i, i ∈ seq 0 nbuf -> b_refcnt (buf_at s i) <> 0) as HE' by (by apply Forall_forall).
  clear HE. rename HE' into HE.
  set (f := fun i => if decide (i ∈ H) then inl i else inr (b_blockno (buf_at s i))).
  assert (f <$> seq 0 nbuf ⊆+ (inl <$> H) ++ (inr <$> elements P)) as Hsub.
  { apply NoDup_submseteq.
    - apply NoDup_fmap_2_strong; [|apply NoDup_seq]. intros i j Hi Hj.
      specialize (HE i Hi) as Ri. specialize (HE j Hj) as Rj. apply elem_of_seq in Hi, Hj.
      rewrite (bo_ref _ _ _ _ OK) in Ri by lia. rewrite (bo_ref _ _ _ _ OK) in Rj by lia.
      unfold f, held_in, pinned_in in *. repeat case_decide; intros ?; simplify_eq; try lia.
      apply (bo_uniq _ _ _ _ OK); tauto || lia.
    - intros y (i & -> & Hi)%list_elem_of_fmap. specialize (HE i Hi). apply elem_of_seq in Hi.
      rewrite (bo_ref _ _ _ _ OK) in HE by lia. rewrite elem_of_app. unfold f, held_in, pinned_in in *.
      repeat case_decide; try lia; [left|left|right]; apply list_elem_of_fmap; eauto.
      exists (b_blockno (buf_at s i)). split; [done|]. apply elem_of_elements. tauto. }
  apply submseteq_length in Hsub. rewrite length_app, !length_fmap, length_seq in Hsub.
  unfold size, set_size in Hn. simpl in *. lia.
Qed.

Lemma alter_insert (f : buf -> buf) i (l : list buf) :
  (i < length l)%nat -> alter f i l = <[i := f (default buf0 (l !! i))]> l.
Proof.
  intros [x Hx]%lookup_lt_is_Some_2. rewrite Hx. simpl. apply list_eq. intros j.
  destruct (decide (j = i)) as [->|Hj].
  - rewrite list_lookup_alter_eq, Hx, list_lookup_insert_eq by (by eapply lookup_lt_Some). done.
  - by rewrite list_lookup_alter_ne, list_lookup_insert_ne by done.
Qed.

(** The buffer [bget dev bn] may return: the one of the block, or an unused
    one when there is none. *)
Definition slot (dev bn : Z) (H : list nat) (s : kst) (b : nat) : Prop :=
  (b < nbuf)%nat /\ (b ∉ H) /\
  (is_block dev bn (buf_at s b) = true \/
   (b_refcnt (buf_at s b) = 0 /\ forall i, (i < nbuf)%nat -> is_block dev bn (buf_at s i) = false)).

Definition pin_of (P : gset Z) (bn : Z) : Z := if decide (bn ∈ P) then 1 else 0.

(** Taking the sleep lock of a buffer whose entry was just updated. *)
Lemma wp_bget_tail dev H P (f : buf -> buf) b (Q : nat -> kst -> Prop) s :
  bio_ok dev H P s -> (b < nbuf)%nat -> (b ∉ H) ->
  b_lock (f (buf_at s b)) = b_lock (buf_at s b) ->
  Q b (s <| bufs := <[b := (f (buf_at s b)) <| b_lock := mine s |>]> (bufs s) |>) ->
  wp (updb b f;; release Lbcache;; acquiresleep (SLbuf b);; mret b) Q
    (s <| locks ::= cons Lbcache |>).
Proof.
  intros OK Hb HbH Hlk HQ. destruct (bo_cur _ _ _ _ OK) as [p Hp].
  destruct (bo_locks _ _ _ _ OK) as (HLb & HLs & HLp).
  wp_step. wp_step. wp_step. apply wp_bind, wp_release; [left|]. apply wp_bind.
  assert (locks ((s <| locks ::= cons Lbcache |> <| bufs ::= alter f b |>)
            <| locks ::= filter (fun x => x <> Lbcache) |>) = locks s) as HL.
  { by apply filter_locked. }
  apply (wp_acquiresleep _ p); [rewrite HL; apply HLs|done| |].
  - unfold sl_of, buf_at. cbn. rewrite list_lookup_alter_eq.
    pose proof (bo_free _ _ _ _ OK b Hb HbH) as Hf. unfold buf_at in *.
    destruct (bufs s !! b) as [x|]; [|done]. simpl in *. by rewrite Hlk.
  - apply wp_ret. revert HQ. rewrite <- (bo_len _ _ _ _ OK) in Hb.
    unfold mine, mypid. rewrite Hp. intros HQ.
    assert (alter (fun y => y <| b_lock := mksleeplock true (pid (proc_at s p)) |>) b (alter f b (bufs s))
      = <[b := (f (buf_at s b)) <| b_lock := mksleeplock true (pid (proc_at s p)) |>]> (bufs s)) as HB.
    { rewrite !alter_insert by (rewrite ?length_alter, ?length_insert; done).
      by rewrite list_lookup_insert_eq, list_insert_insert_eq by done. }
    rewrite <- HB in HQ. rewrite <- (filter_locked Lbcache (locks s)) in HL by done.
    rewrite <- (set_locks_id (filter (fun x => x <> Lbcache) (Lbcache :: locks s)) (s <| bufs := _ |>)) in HQ
      by (by apply symmetry, filter_locked). exact HQ.
Qed.

Lemma held_in_not H i : (i ∉ H) -> held_in H i = 0.
Proof. intros Hi. unfold held_in. by rewrite decide_False. Qed.

Lemma held_in_yes H i : i ∈ H -> held_in H i = 1.
Proof. intros Hi. unfold held_in. by rewrite decide_True. Qed.

Lemma pinned_in_dev dev P b : b_dev b = dev -> pinned_in dev P b = pin_of P (b_blockno b).
Proof. intros Hd. unfold pinned_in, pin_of. repeat case_decide; tauto. Qed.

Lemma pin_of_range P bn : 0 <= pin_of P bn <= 1.
Proof. unfold pin_of. case_decide; lia. Qed.

(** What the buffer [bget] returns contains. *)
Record fetched (dev bn : Z) (P : gset Z) (s : kst) (x : buf) : Prop := {
  fe_dev : b_dev x = dev;
  fe_bn : b_blockno x = bn;
  fe_lock : b_lock x = mine s;
  fe_ref : b_refcnt x = 1 + pin_of P bn;
  fe_data : b_valid x = true /\ b_data x = bview dev s bn \/
            b_valid x = false /\ bview dev s bn = disk_read (dsk s) bn
}.

Lemma wp_bget dev bn H P (Q : nat -> kst -> Prop) s :
  bio_ok dev H P s -> (forall i, i ∈ H -> b_blockno (buf_at s i) <> bn) ->
  (length H + size P < nbuf)%nat ->
  (forall b x, slot dev bn H s b -> fetched dev bn P s x ->
     Q b (s <| bufs := <[b := x]> (bufs s) |>)) ->
  wp (bget dev bn) Q s.
Proof.
  intros OK Hnh Hn HQ. destruct (bo_locks _ _ _ _ OK) as (HLb & _ & _).
  assert (forall i, i ∈ lru s <-> (i < nbuf)%nat) as Hlru.
  { intros i. rewrite (bo_lru _ _ _ _ OK), elem_of_seq. lia. }
  unfold bget. apply wp_bind, wp_acquire; [done|]. wp_step. wp_step.
  rewrite (find_buf_ext _ s) by done. change (lru (s <| locks ::= _ |>)) with (lru s).
  destruct (find_buf (is_block dev bn) s (lru s)) as [b|] eqn:Hf.
  - apply find_buf_Some in Hf as [Hb%Hlru Hblk]. destruct (proj1 (is_block_spec _ _ _) Hblk) as [Hd Hbn].
    assert (b ∉ H) as HbH by (intros Hin; by apply (Hnh b)).
    eapply wp_bget_tail; [done..|]. apply HQ; [repeat split; auto|].
    pose proof (bo_ref _ _ _ _ OK b Hb) as Hr. rewrite held_in_not, pinned_in_dev, Hbn in Hr by done.
    split; cbn; try done.
    + rewrite Hr. unfold u32. rewrite Z.mod_small; [lia|]. pose proof (pin_of_range P bn). lia.
    + destruct (b_valid (buf_at s b)) eqn:Hv; [left|right]; (split; [done|]).
      * rewrite <- Hbn. by rewrite (bview_hit OK).
      * apply bview_miss. intros i Hi. destruct (is_cached _ _ _) eqn:Hc; [|done].
        apply is_cached_spec in Hc as (Hd' & Hb' & Hv').
        rewrite (bo_uniq _ _ _ _ OK i b) in Hv' by (congruence || lia). congruence.
  - rewrite find_buf_None in Hf.
    assert (forall i, (i < nbuf)%nat -> is_block dev bn (buf_at s i) = false) as Hnone.
    { intros i Hi. by apply Hf, Hlru. }
    wp_step. wp_step.
    rewrite (find_buf_ext _ s) by done. change (lru (s <| locks ::= _ |>)) with (lru s).
    destruct (find_buf _ s (reverse (lru s))) as [b|] eqn:Hv.
    + apply find_buf_Some in Hv as [Hb Hr]. apply elem_of_reverse, Hlru in Hb. apply Z.eqb_eq in Hr.
      assert (b ∉ H) as HbH.
      { intros Hin. rewrite (bo_ref _ _ _ _ OK), held_in_yes in Hr by done.
        unfold pinned_in in Hr. case_decide; lia. }
      eapply wp_bget_tail; [done..|]. apply HQ; [repeat split; auto|]. split; cbn; try done.
      * unfold pin_of. rewrite decide_False; [done|]. intros Hin.
        apply (bo_pin _ _ _ _ OK) in Hin as (i & Hi & (Hd & Hbn & _)%is_cached_spec).
        specialize (Hnone i Hi). by rewrite (proj2 (is_block_spec _ _ _)) in Hnone.
      * right. split; [done|]. apply bview_miss. intros i Hi. unfold is_cached. by rewrite Hnone.
    + exfalso. rewrite find_buf_None in Hv. destruct (exists_unused _ _ _ _ OK Hn) as (i & Hi & Hr).
      specialize (Hv i). rewrite Hr in Hv. cbn in Hv.
      by assert (true = false) by (apply Hv, elem_of_reverse, Hlru; done).
Qed.

(** [bread] returns a buffer that holds the block as the kernel sees it. *)
Definition held_buf (dev bn : Z) (P : gset Z) (s : kst) : buf :=
  mkbuf true dev bn (mine s) (1 + pin_of P bn) (bview dev s bn).

Lemma wp_bread dev bn H P (Q : nat -> kst -> Prop) s :
  bio_ok dev H P s -> (forall i, i ∈ H -> b_blockno (buf_at s i) <> bn) ->
  (length H + size P < nbuf)%nat ->
  (forall b, slot dev bn H s b ->
     Q b (s <| bufs := <[b := held_buf dev bn P s]> (bufs s) |>)) ->
  wp (bread dev bn) Q s.
Proof.
  intros OK Hnh Hn HQ. unfold bread. apply wp_bind. eapply wp_bget; [done..|].
  intros b x Hs [Hd Hbn Hlk Hr Hda]. wp_step. wp_step. wp_step.
  assert (b < length (bufs s))%nat as Hb by (rewrite (bo_len _ _ _ _ OK); apply Hs).
  rewrite buf_at_insert, decide_True by done.
  destruct Hda as [[Hv Hx]|[Hv Hx]]; rewrite Hv; cbn [negb]; wp_step; unfold when.
  - apply wp_ret. apply wp_ret. specialize (HQ b Hs).
    replace (held_buf dev bn P s) with x in HQ; [done|].
    unfold held_buf. destruct x; cbn in *. congruence.
  - unfold virtio_disk_rw. wp_steps. specialize (HQ b Hs).
    rewrite buf_at_insert, decide_True by done.
    match goal with |- Q b ?t =>
      replace t with (s <| bufs := <[b := held_buf dev bn P s]> (bufs s) |>); [done|] end.
    assert (alter (fun y => y <| b_valid := true |>) b
       (alter (fun y => y <| b_data := disk_read (dsk s) (b_blockno x) |>) b (<[b := x]> (bufs s)))
       = <[b := held_buf dev bn P s]> (bufs s)) as <-; [|done].
    rewrite !alter_insert by (rewrite ?length_alter, ?length_insert; done).
    rewrite !list_lookup_insert_eq by (rewrite ?length_insert; done).
    rewrite !list_insert_insert_eq. f_equal. unfold held_buf. rewrite Hx. destruct x; cbn in *. by subst.
Qed.

(** ** The invariant is preserved *)

Lemma held_in_cons b H i : held_in (b :: H) i = if decide (i = b) then 1 else held_in H i.
Proof.
  unfold held_in. destruct (decide (i = b)) as [->|Hne].
  - by rewrite decide_True by left.
  - apply decide_ext. rewrite elem_of_cons. tauto.
Qed.

Section update.
Context {dev : Z} {H : list nat} {P : gset Z} {s : kst} (OK : bio_ok dev H P s).

Lemma in_range b : b ∈ H -> (b < length (bufs s))%nat.
Proof. intros Hb. rewrite (bo_len _ _ _ _ OK). by apply (bo_held _ _ _ _ OK). Qed.

(** Of the buffers other than [b], none holds the block [bread] returns in
    [b]. *)
Lemma slot_other bn b i :
  slot dev bn H s b -> (i < nbuf)%nat -> i <> b -> b_dev (buf_at s i) = dev ->
  b_blockno (buf_at s i) <> bn.
Proof.
  intros (Hb & HbH & [Hblk|[_ Hnone]]) Hi Hne Hd Hbn.
  - apply is_block_spec in Hblk as [Hd' Hb']. apply Hne, (bo_uniq _ _ _ _ OK); done || congruence.
  - specialize (Hnone i Hi). by rewrite (proj2 (is_block_spec _ _ _)) in Hnone.
Qed.

Lemma bio_ok_hold bn b :
  slot dev bn H s b -> bio_ok dev (b :: H) P (s <| bufs := <[b := held_buf dev bn P s]> (bufs s) |>).
Proof.
  intros Hs. pose proof Hs as (Hb & HbH & Hor).
  assert (b < length (bufs s))%nat as Hb' by (by rewrite (bo_len _ _ _ _ OK)).
  assert (forall i, buf_at (s <| bufs := <[b := held_buf dev bn P s]> (bufs s) |>) i
    = if decide (i = b) then held_buf dev bn P s else buf_at s i) as Hat by (intros; by apply buf_at_insert).
  split; try solve [apply OK]; try setoid_rewrite Hat.
  - change (length (<[b := held_buf dev bn P s]> (bufs s)) = nbuf).
    rewrite length_insert. apply OK.
  - constructor; [done|]. apply OK.
  - intros i. case_decide; [subst; done|]. intros [->|Hi]%elem_of_cons; [done|].
    by apply (bo_held _ _ _ _ OK).
  - intros i Hi [Hne Hni]%not_elem_of_cons. rewrite decide_False by done. by apply (bo_free _ _ _ _ OK).
  - intros i Hi. rewrite held_in_cons. case_decide; [subst|by apply (bo_ref _ _ _ _ OK)].
    by rewrite pinned_in_dev.
  - intros i j Hi Hj. repeat case_decide; subst; try done.
    + intros _ Hd He. exfalso. by apply (slot_other bn b j Hs Hj).
    + intros Hd _ He. exfalso. by apply (slot_other bn b i Hs Hi).
    + by apply (bo_uniq _ _ _ _ OK).
  - intros bn' Hbn'. destruct (decide (bn' = bn)) as [->|Hne].
    + exists b. rewrite decide_True by done. split; [done|]. by apply is_cached_spec.
    + destruct (bo_pin _ _ _ _ OK bn' Hbn') as (i & Hi & Hc). exists i. split; [done|].
      rewrite decide_False; [done|]. intros ->. apply is_cached_spec in Hc as (Hd & Hb1 & _).
      destruct Hor as [[_ ?]%is_block_spec|[Hr _]]; [congruence|].
      rewrite (bo_ref _ _ _ _ OK), held_in_not, pinned_in_dev in Hr by done.
      unfold pin_of in Hr. rewrite Hb1, decide_True in Hr by done. lia.
  - intros i Hi [Hne Hni]%not_elem_of_cons. rewrite decide_False by done. by apply (bo_clean _ _ _ _ OK).
  - intros i Hi. case_decide; [apply (bview_length OK)|by apply (bo_blen _ _ _ _ OK)].
Qed.

Lemma bview_hold bn b bn' :
  slot dev bn H s b ->
  bview dev (s <| bufs := <[b := held_buf dev bn P s]> (bufs s) |>) bn' = bview dev s bn'.
Proof.
  intros Hs. pose proof (bio_ok_hold bn b Hs) as OK'. pose proof Hs as (Hb & HbH & Hor).
  set (s' := s <| bufs := <[b := held_buf dev bn P s]> (bufs s) |>) in *.
  assert (forall i, buf_at s' i = if decide (i = b) then held_buf dev bn P s else buf_at s i) as Hat.
  { intros i. apply buf_at_insert. by rewrite (bo_len _ _ _ _ OK). }
  unfold bview at 1. destruct (find_buf _ s' _) as [i|] eqn:Hf.
  - apply find_buf_Some in Hf as [Hi%elem_of_seq (Hd & <- & Hv)%is_cached_spec].
    rewrite Hat in *. case_decide; [subst; done|]. symmetry. apply (bview_hit OK); done || lia.
  - rewrite find_buf_None in Hf. destruct (find_buf (is_cached dev bn') s (seq 0 nbuf)) as [i|] eqn:Hf'.
    + unfold bview. rewrite Hf'. apply find_buf_Some in Hf' as [Hi Hc]. pose proof (Hf i Hi) as Hfi.
      rewrite Hat in Hfi. case_decide as Hib; [subst i|congruence].
      apply is_cached_spec in Hc as (Hd & <- & Hv). symmetry. apply (bo_clean _ _ _ _ OK); try done.
      intros HP. destruct Hor as [[_ Hbn]%is_block_spec|[Hr _]].
      * revert Hfi. unfold is_cached, is_block. cbn. by rewrite Hbn, !Z.eqb_refl.
      * rewrite (bo_ref _ _ _ _ OK), held_in_not, pinned_in_dev in Hr by done.
        unfold pin_of in Hr. rewrite decide_True in Hr by done. lia.
    + unfold bview. by rewrite Hf'.
Qed.

(** *** A held buffer is changed in place *)

Definition put_data (b : nat) (d : list Z) (s : kst) : kst :=
  s <| bufs ::= alter (fun x => x <| b_data := d |>) b |>.

Lemma buf_at_alter f b i s0 :
  (b < length (bufs s0))%nat ->
  buf_at (s0 <| bufs ::= alter f b |>) i = if decide (i = b) then f (buf_at s0 b) else buf_at s0 i.
Proof.
  intros Hb. unfold buf_at. change (bufs (s0 <| bufs ::= _ |>)) with (alter f b (bufs s0)).
  case_decide as Hi; [subst|by rewrite list_lookup_alter_ne].
  rewrite list_lookup_alter_eq. by destruct (lookup_lt_is_Some_2 _ _ Hb) as [x ->].
Qed.

Lemma bio_ok_put b d :
  b ∈ H -> length d = Z.to_nat BSIZE -> bio_ok dev H P (put_data b d s).
Proof.
  intros Hb Hd. pose proof (fun i => buf_at_alter (fun x => x <| b_data := d |>) b i s (in_range b Hb)) as Hat.
  unfold put_data. split; try solve [apply OK]; try setoid_rewrite Hat.
  - change (length (alter (fun x => x <| b_data := d |>) b (bufs s)) = nbuf). rewrite length_alter. apply OK.
  - intros i Hi. case_decide; subst; by apply (bo_held _ _ _ _ OK).
  - intros i Hi Hn. case_decide; [by subst|]. by apply (bo_free _ _ _ _ OK).
  - intros i Hi. case_decide; subst; by apply (bo_ref _ _ _ _ OK).
  - intros i j Hi Hj. repeat case_decide; subst; by apply (bo_uniq _ _ _ _ OK).
  - intros bn Hbn. destruct (bo_pin _ _ _ _ OK bn Hbn) as (i & Hi & Hc). exists i. split; [done|].
    case_decide; by subst.
  - intros i Hi Hn. case_decide; [by subst|]. by apply (bo_clean _ _ _ _ OK).
  - intros i Hi. case_decide; [done|]. by apply (bo_blen _ _ _ _ OK).
Qed.

Lemma bview_put b d bn :
  b ∈ H -> length d = Z.to_nat BSIZE ->
  bview dev (put_data b d s) bn = if decide (bn = b_blockno (buf_at s b)) then d else bview dev s bn.
Proof.
  intros Hb Hd. pose proof (bio_ok_put b d Hb Hd) as OK'.
  pose proof (fun i => buf_at_alter (fun x => x <| b_data := d |>) b i s (in_range b Hb)) as Hat.
  fold (put_data b d s) in Hat.
  destruct (bo_held _ _ _ _ OK b Hb) as (Hbr & _ & Hbv & Hbd).
  case_decide as Hbn.
  - subst bn. pose proof (bview_hit OK' b Hbr) as Hh. rewrite Hat, decide_True in Hh by done. by apply Hh.
  - unfold bview. destruct (find_buf _ (put_data b d s) _) as [i|] eqn:Hf.
    + apply find_buf_Some in Hf as [Hi%elem_of_seq (Hid & <- & Hiv)%is_cached_spec].
      rewrite Hat in *. case_decide; [by subst|]. symmetry. apply (bview_hit OK); done || lia.
    + symmetry. apply (bview_miss (s:=s)). rewrite find_buf_None in Hf. intros i Hi.
      specialize (Hf i). rewrite Hat in Hf. case_decide as Hib; [rewrite Hib in *|apply Hf, elem_of_seq; lia].
      destruct (is_cached dev bn (buf_at s b)) eqn:Hc; [|done]. by apply is_cached_spec in Hc as (_ & <- & _).
Qed.

End update.

Lemma move_front (b : nat) l : b ∈ l -> NoDup l -> b :: filter (fun i => i <> b) l ≡ₚ l.
Proof.
  induction l as [|j l IH]; intros Hin Hnd; [by apply elem_of_nil in Hin|].
  apply NoDup_cons in Hnd as [Hj Hnd]. destruct (decide (j = b)) as [->|Hne].
  - rewrite filter_cons_False by (intros Hx; by apply Hx). by rewrite filter_not_in.
  - rewrite filter_cons_True by done. rewrite Permutation_swap. f_equiv. apply IH; [|done].
    by apply elem_of_cons in Hin as [?|?]; [congruence|].
Qed.

(** ** bwrite *)

Definition put_disk (b : nat) (s : kst) : kst :=
  s <| dsk := disk_write (dsk s) (b_blockno (buf_at s b)) (b_data (buf_at s b)) |>.

Lemma disk_read_write d bn data bn' :
  disk_read (disk_write d bn data) bn' = if decide (bn' = bn) then data else disk_read d bn'.
Proof.
  unfold disk_read, disk_write. cbn. case_decide as Hb; [subst; by rewrite lookup_insert_eq|].
  by rewrite lookup_insert_ne.
Qed.

Section held.
Context {dev : Z} {H : list nat} {P : gset Z} {s : kst} (OK : bio_ok dev H P s).
Context (b : nat) (Hb : b ∈ H).

Lemma wp_holding_mine (Q : bool -> kst -> Prop) : Q true s -> wp (holdingsleep (SLbuf b)) Q s.
Proof.
  intros HQ. destruct (bo_locks _ _ _ _ OK) as (_ & HLs & _). destruct (bo_cur _ _ _ _ OK) as [p Hp].
  apply (wp_holdingsleep _ p); [apply HLs|done|].
  destruct (bo_held _ _ _ _ OK b Hb) as (_ & Hlk & _). unfold sl_of. rewrite Hlk.
  unfold mine, mypid. rewrite Hp. cbn. by rewrite Z.eqb_refl.
Qed.

Lemma wp_bwrite (Q : unit -> kst -> Prop) : Q tt (put_disk b s) -> wp (bwrite b) Q s.
Proof.
  intros HQ. unfold bwrite. apply wp_bind, wp_holding_mine. cbn [negb].
  unfold virtio_disk_rw. by wp_steps.
Qed.

Lemma bio_ok_write : bio_ok dev H P (put_disk b s).
Proof.
  destruct (bo_held _ _ _ _ OK b Hb) as (Hbr & _ & Hbv & Hbd).
  unfold put_disk. split; try solve [apply OK].
  - intros i Hi Hn Hd HP Hv. change (dsk (s <| dsk := _ |>)) with (disk_write (dsk s) (b_blockno (buf_at s b)) (b_data (buf_at s b))).
    change (buf_at (s <| dsk := _ |>) i) with (buf_at s i) in *. rewrite disk_read_write.
    rewrite decide_False; [by apply (bo_clean _ _ _ _ OK)|].
    intros He. assert (i = b) by (apply (bo_uniq _ _ _ _ OK); done). by subst.
  - intros bn. change (dsk (s <| dsk := _ |>)) with (disk_write (dsk s) (b_blockno (buf_at s b)) (b_data (buf_at s b))).
    rewrite disk_read_write. case_decide; [by apply (bo_blen _ _ _ _ OK)|apply (bo_dlen _ _ _ _ OK)].
Qed.

Lemma bview_write bn : bview dev (put_disk b s) bn = bview dev s bn.
Proof.
  destruct (bo_held _ _ _ _ OK b Hb) as (Hbr & _ & Hbv & Hbd).
  unfold bview, put_disk. rewrite (find_buf_ext _ s) by done.
  destruct (find_buf _ _ _) as [i|] eqn:Hf; [done|].
  change (dsk (s <| dsk := _ |>)) with (disk_write (dsk s) (b_blockno (buf_at s b)) (b_data (buf_at s b))).
  rewrite disk_read_write, decide_False; [done|]. intros ->. rewrite find_buf_None in Hf.
  specialize (Hf b). rewrite (proj2 (is_cached_spec _ _ _)) in Hf by done.
  assert (true = false); [|done]. apply Hf, elem_of_seq. lia.
Qed.

(** ** brelse *)

Definition released (x : buf) : buf :=
  x <| b_lock := mksleeplock false 0 |> <| b_refcnt := b_refcnt x - 1 |>.

(** The states [brelse] may leave: the order of the LRU list is not fixed. *)
Definition put_released (l : list nat) : kst :=
  s <| bufs := <[b := released (buf_at s b)]> (bufs s) |>
    <| procs ::= imap (woken (ch_sleep (SLbuf b)) (cur s)) |> <| lru := l |>.

Lemma wp_brelse (Q : unit -> kst -> Prop) :
  (forall l, l ≡ₚ lru s -> Q tt (put_released l)) -> wp (brelse b) Q s.
Proof.
  intros HQ. destruct (bo_locks _ _ _ _ OK) as (HLb & HLs & HLp).
  destruct (bo_held _ _ _ _ OK b Hb) as (Hbr & Hlk & Hbv & Hbd).
  assert (b < length (bufs s))%nat as Hlen by (by rewrite (bo_len _ _ _ _ OK)).
  pose proof (bo_ref _ _ _ _ OK b Hbr) as Hr. rewrite held_in_yes, pinned_in_dev in Hr by done.
  pose proof (pin_of_range P (b_blockno (buf_at s b))) as Hpr.
  unfold brelse. apply wp_bind, wp_holding_mine. cbn [negb].
  apply wp_bind, wp_releasesleep; [apply HLs|done|apply OK|].
  apply wp_bind, wp_acquire; [done|]. wp_step. wp_step. wp_step.
  set (s1 := upd _ _). assert (bufs s1 = <[b := released (buf_at s b)]> (bufs s)) as Hs1.
  { transitivity (alter (fun x => x <| b_refcnt ::= fun r => u32 (r - 1) |>) b
      (alter (fun x => x <| b_lock := mksleeplock false 0 |>) b (bufs s))); [done|].
    rewrite !alter_insert by (rewrite ?length_alter, ?length_insert; done).
    rewrite list_lookup_insert_eq, list_insert_insert_eq by done. f_equal.
    unfold released. fold (buf_at s b). unfold upd. cbn. f_equal. rewrite Hr. unfold u32.
    rewrite Z.mod_small; lia. }
  assert (locks s1 = Lbcache :: locks s) as HL1 by done.
  assert (s1 <| locks := locks s |> = put_released (lru s)) as HE.
  { transitivity (s <| bufs := bufs s1 |> <| procs ::= imap (woken (ch_sleep (SLbuf b)) (cur s)) |>); [by destruct s|].
    by rewrite Hs1. }
  wp_step. wp_step. apply wp_bind. case_match.
  - wp_step. apply wp_release; [left|].
    set (l := b :: filter (fun i => i <> b) (lru s)).
    assert (l ≡ₚ lru s) as Hl.
    { subst l.
      assert (b ∈ lru s) as Hin by (rewrite (bo_lru _ _ _ _ OK), elem_of_seq; lia).
      assert (NoDup (lru s)) as Hnd by (rewrite (bo_lru _ _ _ _ OK); apply NoDup_seq).
      by apply move_front. }
    specialize (HQ l Hl).
    assert (put_released l = (put_released (lru s)) <| lru := l |>) as HE' by done.
    rewrite HE', <- HE in HQ. revert HQ. by rewrite <- (filter_locked Lbcache (locks s)).
  - wp_step. apply wp_release; [left|]. specialize (HQ (lru s) (reflexivity _)).
    rewrite <- HE in HQ. revert HQ. by rewrite <- (filter_locked Lbcache (locks s)).
Qed.
End held.

Lemma held_in_perm H b H' i :
  H ≡ₚ b :: H' -> held_in H i = if decide (i = b) then 1 else held_in H' i.
Proof. intros HP. rewrite <- held_in_cons. unfold held_in. apply decide_ext. by rewrite HP. Qed.

Section release.
Context {dev : Z} {H : list nat} {P : gset Z} {s : kst} (OK : bio_ok dev H P s).
Context (b : nat) (H' : list nat) (HH : H ≡ₚ b :: H') (l : list nat) (Hl : l ≡ₚ lru s).

Let s' : kst := @put_released s b l.

Lemma release_in : b ∈ H.
Proof. rewrite HH. left. Qed.

Lemma release_at i : buf_at s' i = if decide (i = b) then released (buf_at s b) else buf_at s i.
Proof.
  change (buf_at s' i) with (buf_at (s <| bufs := <[b := released (buf_at s b)]> (bufs s) |>) i).
  apply buf_at_insert, (in_range OK), release_in.
Qed.

Lemma release_frame : fs_frame s' = fs_frame s.
Proof.
  transitivity ((fs_frame s) <| procs := (fun x => x <| state := UNUSED |>) <$> imap (woken (ch_sleep (SLbuf b)) (cur s)) (procs s) |>); [done|].
  by rewrite fmap_woken.
Qed.

Lemma bio_ok_release :
  (b_blockno (buf_at s b) ∈ P \/
   b_data (buf_at s b) = disk_read (dsk s) (b_blockno (buf_at s b))) ->
  bio_ok dev H' P s'.
Proof.
  intros Hc. destruct (bo_held _ _ _ _ OK b release_in) as (Hbr & _ & Hbv & Hbd).
  assert (NoDup (b :: H')) as [HbH' Hnd]%NoDup_cons by (rewrite <- HH; apply OK).
  assert (forall i, i ∈ H <-> i = b \/ i ∈ H') as Hin by (intros i; by rewrite HH, elem_of_cons).
  assert (forall i, (i ∉ H') -> i <> b -> i ∉ H) as Hnot by (intros i; rewrite Hin; tauto).
  pose proof release_frame as Hfr.
  split; try solve [apply OK]; try setoid_rewrite release_at.
  - change (length (<[b := released (buf_at s b)]> (bufs s)) = nbuf). rewrite length_insert. apply OK.
  - change (l ≡ₚ seq 0 nbuf). rewrite Hl. apply OK.
  - rewrite (frame_procs _ _ Hfr). apply OK.
  - done.
  - intros i Hi. rewrite decide_False by congruence. unfold mine. rewrite (frame_mypid _ _ Hfr).
    apply (bo_held _ _ _ _ OK), Hin. by right.
  - intros i Hi Hn. case_decide; [done|]. apply (bo_free _ _ _ _ OK); auto.
  - intros i Hi. pose proof (bo_ref _ _ _ _ OK i Hi) as Hr. rewrite (held_in_perm _ b H' i HH) in Hr.
    case_decide; [|done]. subst i. rewrite held_in_not by done. cbn.
    change (pinned_in dev P (released (buf_at s b))) with (pinned_in dev P (buf_at s b)). lia.
  - intros i j Hi Hj. repeat case_decide; subst; by apply (bo_uniq _ _ _ _ OK).
  - intros bn Hbn. destruct (bo_pin _ _ _ _ OK bn Hbn) as (i & Hi & Hci). exists i. split; [done|].
    case_decide; by subst.
  - intros i Hi Hn. case_decide; [subst; cbn; by destruct Hc|]. apply (bo_clean _ _ _ _ OK); auto.
  - intros i Hi. case_decide; [subst|]; by apply (bo_blen _ _ _ _ OK).
Qed.

Lemma bview_release bn : bview dev s' bn = bview dev s bn.
Proof.
  unfold bview.
  assert (forall k, find_buf (is_cached dev bn) s' k = find_buf (is_cached dev bn) s k) as ->.
  { intros k. induction k as [|i k IH]; [done|]. simpl. rewrite IH, release_at. by case_decide; subst. }
  destruct (find_buf _ s _); [|done]. rewrite release_at. by case_decide; subst.
Qed.
End release.

(** ** bpin and bunpin *)

Definition put_ref (b : nat) (r : Z) (s : kst) : kst :=
  s <| bufs ::= alter (fun x => x <| b_refcnt := r |>) b |>.

Lemma wp_bpin dev H P b (Q : unit -> kst -> Prop) s :
  bio_ok dev H P s -> (b < nbuf)%nat -> Q tt (put_ref b (b_refcnt (buf_at s b) + 1) s) -> wp (bpin b) Q s.
Proof.
  intros OK Hb HQ. destruct (bo_locks _ _ _ _ OK) as (HLb & _ & _).
  assert (alter (fun x => x <| b_refcnt ::= fun r => u32 (r + 1) |>) b (bufs s)
    = alter (fun x => x <| b_refcnt := b_refcnt (buf_at s b) + 1 |>) b (bufs s)) as HE.
  { rewrite !alter_insert by (by rewrite (bo_len _ _ _ _ OK)). f_equal. fold (buf_at s b).
    unfold upd. f_equal. rewrite (bo_ref _ _ _ _ OK) by done. unfold u32, held_in, pinned_in.
    rewrite Z.mod_small; [done|]. repeat case_decide; lia. }
  apply wp_locked_modify; [done..|]. unfold put_ref in HQ.
  change (s <| bufs ::= ?f |>) with (s <| bufs := f (bufs s) |>) in HQ. by rewrite <- HE in HQ.
Qed.

Lemma wp_bunpin dev H P b (Q : unit -> kst -> Prop) s :
  bio_ok dev H P s -> (b < nbuf)%nat -> 0 < b_refcnt (buf_at s b) ->
  Q tt (put_ref b (b_refcnt (buf_at s b) - 1) s) -> wp (bunpin b) Q s.
Proof.
  intros OK Hb Hpos HQ. destruct (bo_locks _ _ _ _ OK) as (HLb & _ & _).
  assert (alter (fun x => x <| b_refcnt ::= fun r => u32 (r - 1) |>) b (bufs s)
    = alter (fun x => x <| b_refcnt := b_refcnt (buf_at s b) - 1 |>) b (bufs s)) as HE.
  { rewrite !alter_insert by (by rewrite (bo_len _ _ _ _ OK)). f_equal. fold (buf_at s b).
    unfold upd. f_equal. rewrite (bo_ref _ _ _ _ OK) in * by done. unfold u32, held_in, pinned_in in *.
    rewrite Z.mod_small; [done|]. repeat case_decide; lia. }
  apply wp_locked_modify; [done..|]. unfold put_ref in HQ.
  change (s <| bufs ::= ?f |>) with (s <| bufs := f (bufs s) |>) in HQ. by rewrite <- HE in HQ.
Qed.

Section pins.
Context {dev : Z} {H : list nat} {P : gset Z} {s : kst} (OK : bio_ok dev H P s).
Context (b : nat) (Hb : b ∈ H).

(** The block of a held buffer is pinned or not: only the count changes. *)
Lemma bio_ok_pins P' r :
  (forall bn, bn <> b_blockno (buf_at s b) -> bn ∈ P' <-> bn ∈ P) ->
  r = 1 + pin_of P' (b_blockno (buf_at s b)) ->
  bio_ok dev H P' (put_ref b r s).
Proof.
  intros HP' Hr. destruct (bo_held _ _ _ _ OK b Hb) as (Hbr & _ & Hbv & Hbd).
  pose proof (fun i => buf_at_alter (fun x => x <| b_refcnt := r |>) b i s (in_range OK b Hb)) as Hat.
  assert (forall i, (i < nbuf)%nat -> i <> b -> b_dev (buf_at s i) = dev ->
    b_blockno (buf_at s i) ∈ P' <-> b_blockno (buf_at s i) ∈ P) as Hoth.
  { intros i Hi Hne Hd. apply HP'. intros He. by apply Hne, (bo_uniq _ _ _ _ OK). }
  unfold put_ref. split; try solve [apply OK]; try setoid_rewrite Hat.
  - change (length (alter (fun x => x <| b_refcnt := r |>) b (bufs s)) = nbuf). rewrite length_alter. apply OK.
  - intros i Hi. case_decide; subst; by apply (bo_held _ _ _ _ OK).
  - intros i Hi Hn. case_decide; [by subst|]. by apply (bo_free _ _ _ _ OK).
  - intros i Hi. case_decide as Hib.
    + rewrite Hib, held_in_yes by done. by rewrite pinned_in_dev.
    + rewrite (bo_ref _ _ _ _ OK) by done. f_equal. unfold pinned_in. apply decide_ext.
      split; intros [Hd Hin]; (split; [done|]); by apply Hoth.
  - intros i j Hi Hj. repeat case_decide; subst; by apply (bo_uniq _ _ _ _ OK).
  - intros bn Hbn. destruct (decide (bn = b_blockno (buf_at s b))) as [->|Hne].
    + exists b. rewrite decide_True by done. split; [done|]. by apply is_cached_spec.
    + destruct (bo_pin _ _ _ _ OK bn) as (i & Hi & Hc); [by apply HP'|]. exists i. split; [done|].
      case_decide; by subst.
  - intros i Hi Hn. case_decide; [by subst|]. intros Hd HnP. apply (bo_clean _ _ _ _ OK); try done.
    by rewrite <- Hoth.
  - intros i Hi. case_decide; [subst|]; by apply (bo_blen _ _ _ _ OK).
Qed.

Lemma bview_pins r bn : bview dev (put_ref b r s) bn = bview dev s bn.
Proof.
  pose proof (fun i => buf_at_alter (fun x => x <| b_refcnt := r |>) b i s (in_range OK b Hb)) as Hat.
  unfold bview, put_ref.
  assert (forall k, find_buf (is_cached dev bn) (s <| bufs ::= alter (fun x => x <| b_refcnt := r |>) b |>) k
    = find_buf (is_cached dev bn) s k) as ->.
  { intros k. induction k as [|i k IH]; [done|]. simpl. rewrite IH, Hat. by case_decide; subst. }
  destruct (find_buf _ s _); [|done]. rewrite Hat. by case_decide; subst.
Qed.
End pins.
