(* ===== verification/Virtio.v ===== *)
(** * kernel/virtio_disk.c: the descriptor rings shared with the disk

    The driver's state and code, and its interleaving with the device: the
    device fetches chain heads from the available ring and completes them in
    any order.  The critical sections of [vdisk_lock] are atomic; the interrupt
    handler is one step per round of its loop, since the device may add entries
    in between.  [rw_refines_transfer]: every call of [virtio_disk_rw] performs
    one transfer of one block between its call and its return. *)

From Stdlib Require Import String.
From stdpp Require Import functions relations.
From S2P Require Import Prelude KState Sched BioSpec.

Definition NUM : nat := 8.

Definition VRING_DESC_F_NEXT : Z := 1.
Definition VRING_DESC_F_WRITE : Z := 2.
Definition VIRTIO_BLK_T_IN : Z := 0.
Definition VIRTIO_BLK_T_OUT : Z := 1.

(** The addresses the driver puts in descriptors: [&disk.ops[i]], [b->data],
    [&disk.info[i].status]. *)
Inductive daddr := ANull | AOp (i : nat) | AData (b : nat) | AStatus (i : nat).

Record virtq_desc := mkdesc { d_addr : daddr; d_len : Z; d_flags : Z; d_next : nat }.

Record virtio_blk_req := mkreq { r_type : Z; r_sector : Z }.

(** Where a process is in [virtio_disk_rw(b, write)]: outside, asleep waiting for
    descriptors, or asleep waiting for the transfer whose chain starts at [h]. *)
Inductive vpc := VIdle | VAlloc (b : nat) (write : bool) | VWait (b : nat) (write : bool) (h : nat).

(** [disk], the fields of the buffers, the device (the sectors, the next entry
    of the available ring it fetches, the heads it works on), the processes, and
    whether the interrupt handler is in its loop. *)
Record vdisk := mkvdisk {
  desc : nat -> virtq_desc;
  aring : nat -> nat;
  aidx : Z;
  uring : nat -> nat;
  uidx : Z;
  vfree : nat -> bool;
  used_idx : Z;
  info_b : nat -> option nat;
  info_status : nat -> Z;
  ops : nat -> virtio_blk_req;
  bdisk : nat -> bool;
  bdat : nat -> list Z;
  bno : nat -> Z;
  sect : Z -> list Z;
  dev_idx : Z;
  working : list nat;
  vat : nat -> vpc;
  in_intr : bool
}.

#[export] Instance eta_vdisk : Eta vdisk := fun x =>
  mkvdisk (desc x) (aring x) (aidx x) (uring x) (uidx x) (vfree x) (used_idx x) (info_b x) (info_status x) (ops x)
    (bdisk x) (bdat x) (bno x) (sect x) (dev_idx x) (working x) (vat x) (in_intr x).

(** ** The driver *)

Fixpoint alloc_from (i n : nat) : M vdisk (option nat) :=
  match n with
  | O => mret None
  | S n' =>
      f ← gets (fun s => vfree s i);
      if f : bool then modify (fun s => s <| vfree ::= <[i := false]> |>);; mret (Some i)
      else alloc_from (S i) n'
  end.

Definition alloc_desc : M vdisk (option nat) := alloc_from 0 NUM.

(** The wakeup is any later [vs_retry]. *)
Definition free_desc (i : nat) : M vdisk unit :=
  if (NUM <=? i)%nat then panic "free_desc 1"
  else
    f ← gets (fun s => vfree s i);
    if f : bool then panic "free_desc 2"
    else modify (fun s => s <| desc ::= <[i := mkdesc ANull 0 0 0]> |> <| vfree ::= <[i := true]> |>).

(** A chain has at most [NUM] descriptors. *)
Fixpoint free_chain_from (n i : nat) : M vdisk unit :=
  match n with
  | O => nofuel
  | S n' =>
      d ← gets (fun s => desc s i);
      free_desc i;;
      if Z.land (d_flags d) VRING_DESC_F_NEXT =? 0 then mret tt else free_chain_from n' (d_next d)
  end.

Definition free_chain (i : nat) : M vdisk unit := free_chain_from NUM i.

Definition alloc3_desc : M vdisk (option (nat * nat * nat)) :=
  a ← alloc_desc;
  match a with
  | None => mret None
  | Some a =>
      b ← alloc_desc;
      match b with
      | None => free_desc a;; mret None
      | Some b =>
          c ← alloc_desc;
          match c with
          | None => free_desc a;; free_desc b;; mret None
          | Some c => mret (Some (a, b, c))
          end
      end
  end.

(** The formatting of the three descriptors and the publication of the chain. *)
Definition rw_submit (b : nat) (write : bool) (i0 i1 i2 : nat) : M vdisk unit :=
  x ← gets (fun s => bno s b);
  let sector := u32 (x * (BSIZE / 512)) in
  modify (fun s => s <| ops ::= <[i0 := mkreq (if write then VIRTIO_BLK_T_OUT else VIRTIO_BLK_T_IN) sector]> |>);;
  modify (fun s => s <| desc ::= <[i0 := mkdesc (AOp i0) 16 VRING_DESC_F_NEXT i1]> |>);;
  modify (fun s => s <| desc ::= <[i1 := mkdesc (AData b) BSIZE
    (Z.lor (if write then 0 else VRING_DESC_F_WRITE) VRING_DESC_F_NEXT) i2]> |>);;
  modify (fun s => s <| info_status ::= <[i0 := 255]> |>);;
  modify (fun s => s <| desc ::= <[i2 := mkdesc (AStatus i0) 1 VRING_DESC_F_WRITE 0]> |>);;
  modify (fun s => s <| bdisk ::= <[b := true]> |> <| info_b ::= <[i0 := Some b]> |>);;
  modify (fun s => s <| aring ::= <[Z.to_nat (aidx s `mod` Z.of_nat NUM) := i0]> |>);;
  modify (fun s => s <| aidx ::= fun i => u16 (i + 1) |>).

(** [virtio_disk_rw] up to its next sleep: process [t] waits for descriptors, or
    for the transfer. *)
Definition rw_try (t b : nat) (write : bool) : M vdisk unit :=
  r ← alloc3_desc;
  match r with
  | None => modify (fun s => s <| vat ::= <[t := VAlloc b write]> |>)
  | Some (i0, i1, i2) =>
      rw_submit b write i0 i1 i2;;
      modify (fun s => s <| vat ::= <[t := VWait b write i0]> |>)
  end.

(** From the end of the wait to the return. *)
Definition rw_finish (t h : nat) : M vdisk unit :=
  modify (fun s => s <| info_b ::= <[h := None]> |>);;
  free_chain h;;
  modify (fun s => s <| vat ::= <[t := VIdle]> |>).

(** One round of the loop of [virtio_disk_intr]. *)
Definition intr_round : M vdisk unit :=
  s ← gets id;
  let id := uring s (Z.to_nat (used_idx s `mod` Z.of_nat NUM)) in
  if negb (info_status s id =? 0) then panic "virtio_disk_intr status"
  else
    match info_b s id with
    | None => panic "kerneltrap"
    | Some b => modify (fun s => s <| bdisk ::= <[b := false]> |> <| used_idx ::= fun i => u16 (i + 1) |>)
    end.

(** ** virtio_disk_init *)

Definition VIRTIO_MMIO_MAGIC_VALUE : Z := 0x000.
Definition VIRTIO_MMIO_VERSION : Z := 0x004.
Definition VIRTIO_MMIO_DEVICE_ID : Z := 0x008.
Definition VIRTIO_MMIO_VENDOR_ID : Z := 0x00c.
Definition VIRTIO_MMIO_DEVICE_FEATURES : Z := 0x010.
Definition VIRTIO_MMIO_DRIVER_FEATURES : Z := 0x020.
Definition VIRTIO_MMIO_QUEUE_SEL : Z := 0x030.
Definition VIRTIO_MMIO_QUEUE_NUM_MAX : Z := 0x034.
Definition VIRTIO_MMIO_QUEUE_NUM : Z := 0x038.
Definition VIRTIO_MMIO_QUEUE_READY : Z := 0x044.
Definition VIRTIO_MMIO_STATUS : Z := 0x070.
Definition VIRTIO_MMIO_QUEUE_DESC_LOW : Z := 0x080.
Definition VIRTIO_MMIO_QUEUE_DESC_HIGH : Z := 0x084.
Definition VIRTIO_MMIO_DRIVER_DESC_LOW : Z := 0x090.
Definition VIRTIO_MMIO_DRIVER_DESC_HIGH : Z := 0x094.
Definition VIRTIO_MMIO_DEVICE_DESC_LOW : Z := 0x0a0.
Definition VIRTIO_MMIO_DEVICE_DESC_HIGH : Z := 0x0a4.

Definition VIRTIO_CONFIG_S_ACKNOWLEDGE : Z := 1.
Definition VIRTIO_CONFIG_S_DRIVER : Z := 2.
Definition VIRTIO_CONFIG_S_DRIVER_OK : Z := 4.
Definition VIRTIO_CONFIG_S_FEATURES_OK : Z := 8.

Definition VIRTIO_BLK_F_RO : Z := 5.
Definition VIRTIO_BLK_F_SCSI : Z := 7.
Definition VIRTIO_BLK_F_CONFIG_WCE : Z := 11.
Definition VIRTIO_BLK_F_MQ : Z := 12.
Definition VIRTIO_F_ANY_LAYOUT : Z := 27.
Definition VIRTIO_RING_F_INDIRECT_DESC : Z := 28.
Definition VIRTIO_RING_F_EVENT_IDX : Z := 29.

(** The driver's state and the registers written, latest first. *)
Record vboot := mkvboot { vb_disk : vdisk; vb_writes : list (Z * Z) }.

#[export] Instance eta_vboot : Eta vboot := fun x => mkvboot (vb_disk x) (vb_writes x).

Definition wreg (r v : Z) : M vboot unit := modify (fun s => s <| vb_writes ::= cons (r, u32 v) |>).

Definition clear_bit (features k : Z) : Z := Z.land features (u64 (Z.lnot (Z.shiftl 1 k))).

(** [R]: what the device's registers read as; [kd], [ka], [ku]: the results of
    the three calls of [kalloc]. *)
Definition virtio_disk_init (R : Z -> Z) (kd ka ku : Z) : M vboot unit :=
  if negb (R VIRTIO_MMIO_MAGIC_VALUE =? 0x74726976) || negb (R VIRTIO_MMIO_VERSION =? 2)
     || negb (R VIRTIO_MMIO_DEVICE_ID =? 2) || negb (R VIRTIO_MMIO_VENDOR_ID =? 0x554d4551)
  then panic "could not find virtio disk"
  else
    wreg VIRTIO_MMIO_STATUS 0;;
    let status := VIRTIO_CONFIG_S_ACKNOWLEDGE in
    wreg VIRTIO_MMIO_STATUS status;;
    let status := Z.lor status VIRTIO_CONFIG_S_DRIVER in
    wreg VIRTIO_MMIO_STATUS status;;
    let features := fold_left clear_bit
      [VIRTIO_BLK_F_RO; VIRTIO_BLK_F_SCSI; VIRTIO_BLK_F_CONFIG_WCE; VIRTIO_BLK_F_MQ; VIRTIO_F_ANY_LAYOUT;
       VIRTIO_RING_F_EVENT_IDX; VIRTIO_RING_F_INDIRECT_DESC] (R VIRTIO_MMIO_DEVICE_FEATURES) in
    wreg VIRTIO_MMIO_DRIVER_FEATURES features;;
    let status := Z.lor status VIRTIO_CONFIG_S_FEATURES_OK in
    wreg VIRTIO_MMIO_STATUS status;;
    let status := R VIRTIO_MMIO_STATUS in
    if Z.land status VIRTIO_CONFIG_S_FEATURES_OK =? 0 then panic "virtio disk FEATURES_OK unset"
    else
      wreg VIRTIO_MMIO_QUEUE_SEL 0;;
      if negb (R VIRTIO_MMIO_QUEUE_READY =? 0) then panic "virtio disk should not be ready"
      else
        let max := R VIRTIO_MMIO_QUEUE_NUM_MAX in
        if max =? 0 then panic "virtio disk has no queue 0"
        else if max <? Z.of_nat NUM then panic "virtio disk max queue too short"
        else if (kd =? 0) || (ka =? 0) || (ku =? 0) then panic "virtio disk kalloc"
        else
          modify (fun s => s <| vb_disk ::= fun d =>
            d <| desc := fun _ => mkdesc ANull 0 0 0 |> <| aring := fun _ => 0%nat |> <| aidx := 0 |>
              <| uring := fun _ => 0%nat |> <| uidx := 0 |> |>);;
          wreg VIRTIO_MMIO_QUEUE_NUM (Z.of_nat NUM);;
          wreg VIRTIO_MMIO_QUEUE_DESC_LOW kd;;
          wreg VIRTIO_MMIO_QUEUE_DESC_HIGH (Z.shiftr kd 32);;
          wreg VIRTIO_MMIO_DRIVER_DESC_LOW ka;;
          wreg VIRTIO_MMIO_DRIVER_DESC_HIGH (Z.shiftr ka 32);;
          wreg VIRTIO_MMIO_DEVICE_DESC_LOW ku;;
          wreg VIRTIO_MMIO_DEVICE_DESC_HIGH (Z.shiftr ku 32);;
          wreg VIRTIO_MMIO_QUEUE_READY 1;;
          for_range NUM 0 (fun i => modify (fun s => s <| vb_disk ::= fun d => d <| vfree ::= <[Z.to_nat i := true]> |> |>));;
          wreg VIRTIO_MMIO_STATUS (Z.lor status VIRTIO_CONFIG_S_DRIVER_OK).

(** ** The device *)

Definition read_sectors (n : Z) (s : vdisk) : list Z := sect s n ++ sect s (n + 1).

Definition write_sectors (n : Z) (d : list Z) (s : vdisk) : vdisk :=
  s <| sect ::= <[n := take 512 d]> |> <| sect ::= <[n + 1 := drop 512 d]> |>.

(** The request whose chain starts at [h]: the operation, the buffer, the status
    byte.  The device rejects any other chain. *)
Definition request_at (s : vdisk) (h : nat) : option (Z * Z * nat * nat) :=
  let d0 := desc s h in
  let d1 := desc s (d_next d0) in
  let d2 := desc s (d_next d1) in
  match d_addr d0, d_addr d1, d_addr d2 with
  | AOp i, AData b, AStatus j =>
      let r := ops s i in
      if (d_flags d0 =? VRING_DESC_F_NEXT) && (d_len d0 =? 16) && (d_len d1 =? BSIZE)
         && (d_flags d1 =? Z.lor (if r_type r =? VIRTIO_BLK_T_IN then VRING_DESC_F_WRITE else 0) VRING_DESC_F_NEXT)
         && (d_flags d2 =? VRING_DESC_F_WRITE) && (d_len d2 =? 1)
      then Some (r_type r, r_sector r, b, j) else None
  | _, _, _ => None
  end.

(** The transfer. *)
Definition transfer (type sector : Z) (b : nat) (s : vdisk) : vdisk :=
  if type =? VIRTIO_BLK_T_IN then s <| bdat ::= <[b := read_sectors sector s]> |>
  else write_sectors sector (bdat s b) s.

Definition dev_fetch (s : vdisk) : vdisk :=
  s <| working ::= cons (aring s (Z.to_nat (dev_idx s `mod` Z.of_nat NUM))) |> <| dev_idx ::= fun i => u16 (i + 1) |>.

Definition dev_complete (h : nat) (s : vdisk) : option vdisk :=
  match request_at s h with
  | None => None
  | Some (type, sector, b, j) =>
      Some ((transfer type sector b s)
        <| info_status ::= <[j := 0]> |>
        <| working ::= filter (fun x => x <> h) |>
        <| uring ::= <[Z.to_nat (uidx s `mod` Z.of_nat NUM) := h]> |>
        <| uidx ::= fun i => u16 (i + 1) |>)
  end.

(** ** Driver, device and the rest of the kernel, interleaved *)

Definition buf_of (p : vpc) : option nat :=
  match p with VIdle => None | VAlloc b _ | VWait b _ _ => Some b end.

Definition unused (s : vdisk) (b : nat) : Prop := forall t, buf_of (vat s t) <> Some b.

(** A buffer holds a block of the disk. *)
Definition buf_fits (s : vdisk) (b : nat) : Prop :=
  0 <= bno s b < 2 ^ 31 /\ length (bdat s b) = Z.to_nat BSIZE.

(** The caller of [virtio_disk_rw] holds the lock of its buffer, so that the
    buffer is in use by no other process; a buffer that is not in the driver may
    change.  The sections of [vdisk_lock] exclude each other and the loop of the
    interrupt handler; the device runs at any time. *)
Inductive vstep : vdisk -> vdisk -> Prop :=
  | vs_call t b w s s' :
      vat s t = VIdle -> in_intr s = false -> unused s b -> buf_fits s b -> rw_try t b w s = Ok tt s' -> vstep s s'
  | vs_retry t b w s s' : vat s t = VAlloc b w -> in_intr s = false -> rw_try t b w s = Ok tt s' -> vstep s s'
  | vs_finish t b w h s s' :
      vat s t = VWait b w h -> in_intr s = false -> bdisk s b = false -> rw_finish t h s = Ok tt s' -> vstep s s'
  | vs_intr_enter s : in_intr s = false -> vstep s (s <| in_intr := true |>)
  | vs_intr_round s s' : in_intr s = true -> used_idx s <> uidx s -> intr_round s = Ok tt s' -> vstep s s'
  | vs_intr_exit s : in_intr s = true -> used_idx s = uidx s -> vstep s (s <| in_intr := false |>)
  | vs_fetch s : dev_idx s <> aidx s -> vstep s (dev_fetch s)
  | vs_complete h s s' : h ∈ working s -> dev_complete h s = Some s' -> vstep s s'
  | vs_buffer b n d s :
      unused s b -> length d = Z.to_nat BSIZE -> vstep s (s <| bno ::= <[b := n]> |> <| bdat ::= <[b := d]> |>).

(** As [virtio_disk_init] leaves the driver. *)
Record vready (s : vdisk) : Prop := {
  vr_free : forall i, (i < NUM)%nat -> vfree s i = true;
  vr_idx : aidx s = 0 /\ uidx s = 0 /\ used_idx s = 0 /\ dev_idx s = 0;
  vr_dev : working s = [];
  vr_sect : forall n, length (sect s n) = 512%nat;
  vr_at : forall t, vat s t = VIdle;
  vr_intr : in_intr s = false
}.

(** ** The contract: one transfer per call *)

Inductive apc := AIdle | APend (b : nat) (w : bool) | ADone (b : nat) (w : bool).

Record adisk := mkadisk { asect : Z -> list Z; adat : nat -> list Z; abno : nat -> Z; aat : nat -> apc }.

#[export] Instance eta_adisk : Eta adisk := fun x => mkadisk (asect x) (adat x) (abno x) (aat x).

Definition ablock (a : adisk) (n : Z) : list Z := asect a (2 * n) ++ asect a (2 * n + 1).

(** Buffer [b] is written to its block, or read from it. *)
Definition atransfer (b : nat) (w : bool) (a : adisk) : adisk :=
  let n := abno a b in
  if w then a <| asect ::= <[2 * n := take 512 (adat a b)]> |> <| asect ::= <[2 * n + 1 := drop 512 (adat a b)]> |>
  else a <| adat ::= <[b := ablock a n]> |>.

Definition abuf (p : apc) : option nat := match p with AIdle => None | APend b _ | ADone b _ => Some b end.

Inductive astep : adisk -> adisk -> Prop :=
  | as_call t b w a : aat a t = AIdle -> astep a (a <| aat ::= <[t := APend b w]> |>)
  | as_transfer t b w a : aat a t = APend b w -> astep a ((atransfer b w a) <| aat ::= <[t := ADone b w]> |>)
  | as_return t b w a : aat a t = ADone b w -> astep a (a <| aat ::= <[t := AIdle]> |>)
  | as_buffer b n d a :
      (forall t, abuf (aat a t) <> Some b) -> astep a (a <| abno ::= <[b := n]> |> <| adat ::= <[b := d]> |>).

(** ** The invariant *)

Definition chain_of (s : vdisk) (h : nat) : list nat :=
  let i1 := d_next (desc s h) in [h; i1; d_next (desc s i1)].

(** The request of a waiting process: a well-formed chain of its own. *)
Record req_ok (s : vdisk) (b : nat) (w : bool) (h i1 i2 : nat) : Prop := {
  rq_op : ops s h = mkreq (if w then VIRTIO_BLK_T_OUT else VIRTIO_BLK_T_IN) (2 * bno s b);
  rq_d0 : desc s h = mkdesc (AOp h) 16 VRING_DESC_F_NEXT i1;
  rq_d1 : desc s i1 = mkdesc (AData b) BSIZE (Z.lor (if w then 0 else VRING_DESC_F_WRITE) VRING_DESC_F_NEXT) i2;
  rq_d2 : desc s i2 = mkdesc (AStatus h) 1 VRING_DESC_F_WRITE 0;
  rq_nodup : NoDup [h; i1; i2];
  rq_chain : forall i, i ∈ [h; i1; i2] -> (i < NUM)%nat /\ vfree s i = false;
  rq_buf : info_b s h = Some b
}.

(** [l] is in the ring from index [lo] to index [hi]. *)
Definition ring (r : nat -> nat) (lo : Z) (l : list nat) (hi : Z) : Prop :=
  0 <= lo < 2 ^ 16 /\ hi = u16 (lo + Z.of_nat (length l)) /\
  forall k, (k < length l)%nat -> r (Z.to_nat ((lo + Z.of_nat k) `mod` Z.of_nat NUM)) = nth k l 0%nat.

Record vinv (s : vdisk) (AQ UQ : list nat) : Prop := {
  vi_aq : ring (aring s) (dev_idx s) AQ (aidx s);
  vi_uq : ring (uring s) (used_idx s) UQ (uidx s);
  vi_nodup : NoDup (AQ ++ working s ++ UQ);
  vi_sect : forall n, length (sect s n) = 512%nat;
  vi_req : forall t b w h, vat s t = VWait b w h -> exists i1 i2, req_ok s b w h i1 i2;
  vi_fits : forall t b, buf_of (vat s t) = Some b -> buf_fits s b;
  vi_live : forall h, h ∈ AQ ++ working s ++ UQ -> exists t b w, vat s t = VWait b w h;
  vi_busy : forall t b w h, vat s t = VWait b w h -> (bdisk s b = true <-> h ∈ AQ ++ working s ++ UQ);
  vi_status : forall h, h ∈ UQ -> info_status s h = 0;
  vi_bufs : forall t t' b, buf_of (vat s t) = Some b -> buf_of (vat s t') = Some b -> t = t';
  vi_disj : forall t t' b w h b' w' h' i, vat s t = VWait b w h -> vat s t' = VWait b' w' h' ->
    i ∈ chain_of s h -> i ∈ chain_of s h' -> t = t';
  vi_noleak : forall i, (i < NUM)%nat -> vfree s i = false -> exists t b w h, vat s t = VWait b w h /\ i ∈ chain_of s h
}.

Lemma in3 (i a b c : nat) : i ∈ [a; b; c] <-> i = a \/ i = b \/ i = c.
Proof. rewrite !elem_of_cons, elem_of_nil. tauto. Qed.

Lemma nodup3 (a b c : nat) : NoDup [a; b; c] <-> a <> b /\ a <> c /\ b <> c.
Proof. rewrite !NoDup_cons, !elem_of_cons, !elem_of_nil. split; [tauto|]. intros (? & ? & ?). split_and!; try tauto. apply NoDup_nil_2. Qed.

Lemma req_chain s b w h i1 i2 : req_ok s b w h i1 i2 -> chain_of s h = [h; i1; i2].
Proof. intros R. unfold chain_of. rewrite (rq_d0 _ _ _ _ _ _ R). cbn. by rewrite (rq_d1 _ _ _ _ _ _ R). Qed.

Lemma req_request s b w h i1 i2 :
  req_ok s b w h i1 i2 ->
  request_at s h = Some (if w then VIRTIO_BLK_T_OUT else VIRTIO_BLK_T_IN, 2 * bno s b, b, h).
Proof.
  intros R. unfold request_at. rewrite (rq_d0 _ _ _ _ _ _ R). cbn. rewrite (rq_d1 _ _ _ _ _ _ R). cbn.
  rewrite (rq_d2 _ _ _ _ _ _ R), (rq_op _ _ _ _ _ _ R). by destruct w.
Qed.

Lemma req_frame s s' b w h i1 i2 :
  req_ok s b w h i1 i2 -> (forall i, i ∈ [h; i1; i2] -> desc s' i = desc s i /\ vfree s' i = vfree s i) ->
  ops s' h = ops s h -> info_b s' h = info_b s h -> bno s' b = bno s b -> req_ok s' b w h i1 i2.
Proof.
  intros [R1 R2 R3 R4 R5 R6 R7] Hd Ho Hi Hb.
  assert (forall i, i ∈ [h; i1; i2] -> desc s' i = desc s i) as Hd' by (intros i Hin; by apply Hd).
  split; rewrite ?Ho, ?Hi, ?Hb, ?Hd' by (apply in3; auto); try done.
  intros i Hin. destruct (Hd i Hin) as [_ ->]. by apply R6.
Qed.

(** ** Allocation *)

(** Case analysis on lookups in updated functions. *)
Ltac fn_cases :=
  repeat match goal with
    | |- context [<[?a := ?v]> ?f ?a] => rewrite (fn_lookup_insert f a v)
    | H : ?i <> ?a |- context [<[?a := ?v]> ?f ?i] => rewrite (fn_lookup_insert_ne f a i v) by congruence
    | H : ?a <> ?i |- context [<[?a := ?v]> ?f ?i] => rewrite (fn_lookup_insert_ne f a i v) by congruence
    | |- context [<[?a := ?v]> ?f ?i] => destruct (decide (i = a)); [subst|]
    end; try done; try congruence.

Lemma wp_alloc_from i n (Q : option nat -> vdisk -> Prop) s :
  (forall k, (i <= k < i + n)%nat -> vfree s k = true -> Q (Some k) (s <| vfree ::= <[k := false]> |>)) ->
  ((forall k, (i <= k < i + n)%nat -> vfree s k = false) -> Q None s) -> wp (alloc_from i n) Q s.
Proof.
  revert i. induction n as [|n IH]; intros i Hok Hno; cbn [alloc_from].
  - wp_step. apply Hno. lia.
  - do 2 wp_step. destruct (vfree s i) eqn:E; [do 3 wp_step; apply Hok; [lia|done]|].
    apply IH; [intros k Hk; apply Hok; lia|]. intros Hall. apply Hno. intros k Hk.
    destruct (decide (k = i)) as [->|]; [done|]. apply Hall. lia.
Qed.

Lemma wp_free_desc i (Q : unit -> vdisk -> Prop) s :
  (i < NUM)%nat -> vfree s i = false ->
  Q tt (s <| desc ::= <[i := mkdesc ANull 0 0 0]> |> <| vfree ::= <[i := true]> |>) -> wp (free_desc i) Q s.
Proof.
  intros Hi Hf HQ. unfold free_desc. rewrite (proj2 (Nat.leb_gt NUM i)) by done. do 2 wp_step. rewrite Hf. by wp_step.
Qed.

(** Descriptors that are free again after a failed allocation were reset. *)
Definition reset_free (s s' : vdisk) : Prop :=
  exists D F, s' = s <| desc := D |> <| vfree := F |> /\ (forall i, F i = vfree s i) /\
    forall i, vfree s i = false -> D i = desc s i.

Lemma wp_alloc3_desc (Q : option (nat * nat * nat) -> vdisk -> Prop) s :
  (forall a b c, NoDup [a; b; c] -> (forall i, i ∈ [a; b; c] -> (i < NUM)%nat /\ vfree s i = true) ->
     Q (Some (a, b, c)) (s <| vfree ::= <[a := false]> |> <| vfree ::= <[b := false]> |> <| vfree ::= <[c := false]> |>)) ->
  (forall s', reset_free s s' -> Q None s') -> wp alloc3_desc Q s.
Proof.
  intros Hok Hno. unfold alloc3_desc, alloc_desc. wp_step. apply wp_alloc_from.
  2: { intros _. wp_step. apply Hno. exists (desc s), (vfree s). by destruct s. }
  intros a Ha Hfa. wp_step. apply wp_alloc_from.
  2: { intros _. wp_step. apply wp_free_desc; [lia|apply fn_lookup_insert|]. wp_step. apply Hno.
    exists (<[a := mkdesc ANull 0 0 0]> (desc s)), (<[a := true]> (<[a := false]> (vfree s))). split_and!; [by destruct s|..].
    - intros i. fn_cases.
    - intros i Hi. fn_cases. }
  intros b Hb Hfb. change (<[a := false]> (vfree s) b = true) in Hfb.
  assert (b <> a) as Hba by (intros ->; by rewrite fn_lookup_insert in Hfb). rewrite fn_lookup_insert_ne in Hfb by done.
  wp_step. apply wp_alloc_from.
  2: { intros _. wp_step. apply wp_free_desc; [lia|change (<[b := false]> (<[a := false]> (vfree s)) a = false); fn_cases|].
    wp_step. apply wp_free_desc; [lia|change (<[a := true]> (<[b := false]> (<[a := false]> (vfree s))) b = false); fn_cases|].
    wp_step. apply Hno. exists (<[b := mkdesc ANull 0 0 0]> (<[a := mkdesc ANull 0 0 0]> (desc s))),
      (<[b := true]> (<[a := true]> (<[b := false]> (<[a := false]> (vfree s))))). split_and!; [by destruct s|..].
    - intros i. fn_cases.
    - intros i Hi. fn_cases. }
  intros c Hc Hfc. change (<[b := false]> (<[a := false]> (vfree s)) c = true) in Hfc.
  assert (c <> b) as Hcb by (intros ->; by rewrite fn_lookup_insert in Hfc). rewrite fn_lookup_insert_ne in Hfc by done.
  assert (c <> a) as Hca by (intros ->; by rewrite fn_lookup_insert in Hfc). rewrite fn_lookup_insert_ne in Hfc by done.
  wp_step. apply Hok.
  - by apply nodup3.
  - intros i Hi. apply in3 in Hi as [->|[->| ->]]; (split; [lia|done]).
Qed.

(** ** Rings *)

Lemma ring_pos lo k : 0 <= lo -> (k < NUM)%nat -> forall j, (j < NUM)%nat -> j <> k ->
  Z.to_nat ((lo + Z.of_nat j) `mod` Z.of_nat NUM) <> Z.to_nat ((lo + Z.of_nat k) `mod` Z.of_nat NUM).
Proof.
  change (Z.of_nat NUM) with 8. unfold NUM. intros Hlo Hk j Hj Hne E%Z2Nat.inj; [|apply Z.mod_pos_bound; lia..].
  Z.div_mod_to_equations. lia.
Qed.

Lemma u16_mod_num x : u16 x `mod` Z.of_nat NUM = x `mod` Z.of_nat NUM.
Proof. change (Z.of_nat NUM) with 8. unfold u16. Z.div_mod_to_equations. lia. Qed.

Lemma u16_range x : 0 <= u16 x < 2 ^ 16.
Proof. apply Z.mod_pos_bound. lia. Qed.

Lemma ring_push r lo l hi h :
  ring r lo l hi -> (length l < NUM)%nat -> ring (<[Z.to_nat (hi `mod` Z.of_nat NUM) := h]> r) lo (l ++ [h]) (u16 (hi + 1)).
Proof.
  intros (Hlo & -> & Hr) Hl. split; [done|split].
  - rewrite length_app. cbn [length]. unfold u16. rewrite Zplus_mod_idemp_l. f_equal. lia.
  - intros k Hk. rewrite length_app in Hk. cbn [length] in Hk. rewrite u16_mod_num.
    destruct (decide (k = length l)) as [->|Hne].
    + rewrite fn_lookup_insert, app_nth2 by lia. by rewrite Nat.sub_diag.
    + rewrite fn_lookup_insert_ne by (apply not_eq_sym, ring_pos; lia). rewrite app_nth1 by lia. apply Hr. lia.
Qed.

Lemma ring_pop r lo h l hi :
  ring r lo (h :: l) hi -> r (Z.to_nat (lo `mod` Z.of_nat NUM)) = h /\ ring r (u16 (lo + 1)) l hi.
Proof.
  intros (Hlo & -> & Hr). split.
  - specialize (Hr 0%nat ltac:(cbn; lia)). by rewrite Z.add_0_r in Hr.
  - split; [apply u16_range|split].
    + cbn [length]. unfold u16. rewrite Zplus_mod_idemp_l. f_equal. lia.
    + intros k Hk. specialize (Hr (S k) ltac:(cbn; lia)). cbn [nth] in Hr. rewrite <- Hr. f_equal. f_equal.
      rewrite <- Zplus_mod_idemp_l, u16_mod_num, Zplus_mod_idemp_l. f_equal. lia.
Qed.

Lemma ring_empty r lo l hi : ring r lo l hi -> (length l <= NUM)%nat -> lo = hi -> l = [].
Proof.
  intros (Hlo & Hhi & _) Hl E. destruct l; [done|]. exfalso. unfold NUM, u16 in *. cbn [length] in *.
  rewrite E in Hhi at 1. Z.div_mod_to_equations. lia.
Qed.

Lemma ring_nonempty r lo l hi : ring r lo l hi -> lo <> hi -> exists h l', l = h :: l'.
Proof.
  intros (Hlo & -> & _) Hne. destruct l; [|eauto]. destruct Hne. cbn. rewrite Z.add_0_r. symmetry. by apply Z.mod_small.
Qed.

Lemma small_nodup (l : list nat) : NoDup l -> (forall x, x ∈ l -> (x < NUM)%nat) -> (length l <= NUM)%nat.
Proof.
  intros Hn Hl. rewrite <- (length_seq NUM 0). apply submseteq_length, NoDup_submseteq; [done|].
  intros x Hx. apply elem_of_seq. specialize (Hl x Hx). lia.
Qed.

(** ** Every step keeps the invariant and is a step of the contract *)

Section inv.
Context {s : vdisk} {AQ UQ : list nat} (I : vinv s AQ UQ).

Lemma live_small h : h ∈ AQ ++ working s ++ UQ -> (h < NUM)%nat /\ vfree s h = false.
Proof using I.
  intros (t & b & w & Hw)%(vi_live _ _ _ I). destruct (vi_req _ _ _ I _ _ _ _ Hw) as (i1 & i2 & R).
  apply (rq_chain _ _ _ _ _ _ R). left.
Qed.

Lemma live_length : (length (AQ ++ working s ++ UQ) <= NUM)%nat.
Proof using I. apply small_nodup; [apply I|]. intros h Hh. by apply live_small. Qed.

(** There is room in the ring for a head that is free. *)
Lemma live_room h : (h < NUM)%nat -> vfree s h = true -> (S (length (AQ ++ working s ++ UQ)) <= NUM)%nat.
Proof using I.
  intros Hh Hf. apply (small_nodup (h :: _)).
  - constructor; [|apply I]. intros Hin%live_small. destruct Hin. congruence.
  - intros x [->|Hx]%elem_of_cons; [done|by apply live_small].
Qed.

(** A chain determines its process. *)
Lemma same_head t b w h t' b' w' : vat s t = VWait b w h -> vat s t' = VWait b' w' h -> t = t'.
Proof using I.
  intros H1 H2. destruct (vi_req _ _ _ I _ _ _ _ H1) as (i1 & i2 & R).
  apply (vi_disj _ _ _ I _ _ _ _ _ _ _ _ h H1 H2); rewrite (req_chain _ _ _ _ _ _ R); left.
Qed.

(** Steps that leave the rings, the waiting processes and their requests. *)
Lemma vinv_same s' :
  aring s' = aring s -> aidx s' = aidx s -> uring s' = uring s -> uidx s' = uidx s -> used_idx s' = used_idx s ->
  dev_idx s' = dev_idx s -> working s' = working s -> sect s' = sect s -> info_b s' = info_b s -> info_status s' = info_status s ->
  ops s' = ops s -> bdisk s' = bdisk s -> (forall i, vfree s' i = vfree s i) -> (forall i, vfree s i = false -> desc s' i = desc s i) ->
  (forall t b w h, vat s' t = VWait b w h <-> vat s t = VWait b w h) ->
  (forall t b, buf_of (vat s t) = Some b -> bno s' b = bno s b) ->
  (forall t b, buf_of (vat s' t) = Some b -> buf_fits s' b) ->
  (forall t t' b, buf_of (vat s' t) = Some b -> buf_of (vat s' t') = Some b -> t = t') ->
  vinv s' AQ UQ.
Proof using I.
  intros E1 E2 E3 E4 E5 E6 E7 Es E8 E9 E10 E11 Ef Ed Ew Eb Hfit Hbufs.
  assert (forall t b w h, vat s t = VWait b w h -> exists i1 i2, req_ok s' b w h i1 i2 /\ chain_of s' h = chain_of s h) as HR.
  { intros t b w h Hw. destruct (vi_req _ _ _ I _ _ _ _ Hw) as (i1 & i2 & R). exists i1, i2.
    assert (req_ok s' b w h i1 i2) as R'.
    { apply (req_frame s); [done| |by rewrite E10|by rewrite E8|apply (Eb t); by rewrite Hw].
      intros i Hi. destruct (rq_chain _ _ _ _ _ _ R i Hi) as [_ Hf]. split; [by apply Ed|apply Ef]. }
    split; [done|]. by rewrite (req_chain _ _ _ _ _ _ R), (req_chain _ _ _ _ _ _ R'). }
  destruct I as [I1 I2 I3 I0 I4 I5 I6 I7 I8 I9 I10 I11]. split; rewrite ?E1, ?E2, ?E3, ?E4, ?E5, ?E6, ?E7, ?Es, ?E9, ?E11; try done.
  - intros t b w h Hw%Ew. destruct (HR _ _ _ _ Hw) as (i1 & i2 & R & _). eauto.
  - intros h Hh. destruct (I6 h Hh) as (t & b & w & Hw). exists t, b, w. by apply Ew.
  - intros t b w h Hw%Ew. by apply (I7 t b w h).
  - intros t t' b w h b' w' h' i Hw%Ew Hw'%Ew Hi Hi'. destruct (HR _ _ _ _ Hw) as (? & ? & _ & E), (HR _ _ _ _ Hw') as (? & ? & _ & E').
    rewrite E in Hi. rewrite E' in Hi'. by apply (I10 t t' b w h b' w' h' i).
  - intros i Hi Hf. rewrite Ef in Hf. destruct (I11 i Hi Hf) as (t & b & w & h & Hw & Hin). exists t, b, w, h.
    split; [by apply Ew|]. destruct (HR _ _ _ _ Hw) as (? & ? & _ & E). by rewrite E.
Qed.

End inv.

(** The state after [virtio_disk_rw] published its chain. *)
Definition submitted (t b : nat) (w : bool) (i0 i1 i2 : nat) (s : vdisk) : vdisk :=
  mkvdisk
    (<[i2 := mkdesc (AStatus i0) 1 VRING_DESC_F_WRITE 0]>
      (<[i1 := mkdesc (AData b) BSIZE (Z.lor (if w then 0 else VRING_DESC_F_WRITE) VRING_DESC_F_NEXT) i2]>
        (<[i0 := mkdesc (AOp i0) 16 VRING_DESC_F_NEXT i1]> (desc s))))
    (<[Z.to_nat (aidx s `mod` Z.of_nat NUM) := i0]> (aring s)) (u16 (aidx s + 1)) (uring s) (uidx s)
    (<[i2 := false]> (<[i1 := false]> (<[i0 := false]> (vfree s)))) (used_idx s) (<[i0 := Some b]> (info_b s))
    (<[i0 := 255]> (info_status s))
    (<[i0 := mkreq (if w then VIRTIO_BLK_T_OUT else VIRTIO_BLK_T_IN) (2 * bno s b)]> (ops s))
    (<[b := true]> (bdisk s)) (bdat s) (bno s) (sect s) (dev_idx s) (working s) (<[t := VWait b w i0]> (vat s)) (in_intr s).

Lemma wp_rw_try t b w (Q : unit -> vdisk -> Prop) s :
  0 <= bno s b < 2 ^ 31 ->
  (forall i0 i1 i2, NoDup [i0; i1; i2] -> (forall i, i ∈ [i0; i1; i2] -> (i < NUM)%nat /\ vfree s i = true) ->
     Q tt (submitted t b w i0 i1 i2 s)) ->
  (forall s', reset_free s s' -> Q tt (s' <| vat ::= <[t := VAlloc b w]> |>)) -> wp (rw_try t b w) Q s.
Proof.
  intros Hb Hok Hno. unfold rw_try. wp_step. apply wp_alloc3_desc.
  - intros i0 i1 i2 Hn Hf. unfold rw_submit. wp_steps.
    replace (u32 _) with (2 * bno s b); [by apply Hok|]. change (BSIZE / 512) with 2. cbn. unfold u32. rewrite Z.mod_small; lia.
  - intros s' Hr. wp_step. by apply Hno.
Qed.

Section submit.
Context {s : vdisk} {AQ UQ : list nat} (I : vinv s AQ UQ).
Context {t b : nat} {w : bool} (Hown : forall t', buf_of (vat s t') = Some b -> t' = t) (Hfit : buf_fits s b).
Context (Hout : forall b w h, vat s t <> VWait b w h).

Section chain.
Context {i0 i1 i2 : nat} (Hnd : NoDup [i0; i1; i2]) (Hfree : forall i, i ∈ [i0; i1; i2] -> (i < NUM)%nat /\ vfree s i = true).

Lemma submit_old t' b' w' h :
  vat (submitted t b w i0 i1 i2 s) t' = VWait b' w' h ->
  t' = t /\ b' = b /\ w' = w /\ h = i0 \/ t' <> t /\ vat s t' = VWait b' w' h.
Proof.
  cbn. destruct (decide (t' = t)) as [->|Hne].
  - rewrite fn_lookup_insert. intros [= -> -> ->]. by left.
  - rewrite fn_lookup_insert_ne by done. by right.
Qed.

Lemma submit_req t' b' w' h j1 j2 :
  t' <> t -> vat s t' = VWait b' w' h -> req_ok s b' w' h j1 j2 -> req_ok (submitted t b w i0 i1 i2 s) b' w' h j1 j2.
Proof using Hfree.
  intros Hne Hw R.
  assert (forall i, i ∈ [h; j1; j2] -> i <> i0 /\ i <> i1 /\ i <> i2) as Hdj.
  { intros i Hi. destruct (rq_chain _ _ _ _ _ _ R i Hi) as [_ Hf].
    split_and!; intros ->; [destruct (Hfree i0)|destruct (Hfree i1)|destruct (Hfree i2)]; (rewrite ?in3; tauto) || congruence. }
  apply (req_frame s); [done| | | |done].
  - intros i Hi. destruct (Hdj i Hi) as (? & ? & ?). cbn. split; fn_cases.
  - destruct (Hdj h) as (? & ? & ?); [left|]. cbn. fn_cases.
  - destruct (Hdj h) as (? & ? & ?); [left|]. cbn. fn_cases.
Qed.

Lemma submit_new : req_ok (submitted t b w i0 i1 i2 s) b w i0 i1 i2.
Proof using Hnd Hfree.
  destruct (proj1 (nodup3 _ _ _) Hnd) as (? & ? & ?).
  split; cbn; try done; try fn_cases.
  intros i Hi. split; [by apply Hfree|]. apply in3 in Hi as [->|[->| ->]]; fn_cases.
Qed.

(** A chain of another process has nothing in common with the new one. *)
Lemma submit_apart t' b' w' h :
  vat s t' = VWait b' w' h -> t' <> t ->
  exists j1 j2, req_ok s b' w' h j1 j2 /\ req_ok (submitted t b w i0 i1 i2 s) b' w' h j1 j2 /\
    forall i, i ∈ [h; j1; j2] -> (i ∉ [i0; i1; i2]).
Proof using I Hfree.
  intros Hw Hne. destruct (vi_req _ _ _ I _ _ _ _ Hw) as (j1 & j2 & R). exists j1, j2.
  split_and!; [done|by eapply submit_req|]. intros i Hi Hi'. destruct (rq_chain _ _ _ _ _ _ R i Hi), (Hfree i Hi'). congruence.
Qed.

Lemma submit_inv : vinv (submitted t b w i0 i1 i2 s) (AQ ++ [i0]) UQ.
Proof using All.
  pose proof submit_new as RN. pose proof (req_chain _ _ _ _ _ _ RN) as CN.
  destruct (Hfree i0) as [H0 Hf0]; [apply in3; auto|]. pose proof (live_room I i0 H0 Hf0) as Hroom.
  assert (forall x, x ∈ (AQ ++ [i0]) ++ working s ++ UQ <-> x = i0 \/ x ∈ AQ ++ working s ++ UQ) as Hel.
  { intros x. rewrite !elem_of_app, list_elem_of_singleton. tauto. }
  assert (i0 ∉ AQ ++ working s ++ UQ) as Hni by (intros Hin%(live_small I); destruct Hin; congruence).
  split.
  - cbn. apply ring_push; [apply I|]. rewrite !length_app in Hroom. lia.
  - apply I.
  - cbn. rewrite <- app_assoc. apply NoDup_app. pose proof (vi_nodup _ _ _ I) as Hn. apply NoDup_app in Hn as (N1 & N2 & N3).
    split_and!; [done|set_solver|]. cbn. apply NoDup_cons. split; [set_solver|done].
  - apply I.
  - intros t' b' w' h [(-> & -> & -> & ->)|[Hne Hw]]%submit_old; [eauto|].
    destruct (submit_apart _ _ _ _ Hw Hne) as (j1 & j2 & _ & R & _). eauto.
  - intros t' b' Hb'. change (buf_fits s b'). destruct (decide (t' = t)) as [->|Hne].
    + cbn in Hb'. rewrite fn_lookup_insert in Hb'. by injection Hb' as <-.
    + cbn in Hb'. rewrite fn_lookup_insert_ne in Hb' by done. by apply (vi_fits _ _ _ I t').
  - intros h [->|Hh]%Hel.
    + exists t, b, w. cbn. apply fn_lookup_insert.
    + destruct (vi_live _ _ _ I h Hh) as (t' & b' & w' & Hw). exists t', b', w'. cbn. rewrite fn_lookup_insert_ne; [done|].
      intros ->. by apply Hout in Hw.
  - intros t' b' w' h [(-> & -> & -> & ->)|[Hne Hw]]%submit_old; rewrite Hel; cbn.
    + rewrite fn_lookup_insert. split; auto.
    + assert (b' <> b) by (intros ->; apply Hne, Hown; by rewrite Hw). rewrite fn_lookup_insert_ne by done.
      rewrite (vi_busy _ _ _ I _ _ _ _ Hw). split; [by auto|]. intros [->|?]; [|done].
      destruct (submit_apart _ _ _ _ Hw Hne) as (j1 & j2 & _ & _ & Hd). destruct (Hd i0); apply in3; auto.
  - intros h Hh. cbn. rewrite fn_lookup_insert_ne by set_solver. by apply I.
  - intros t1 t2 b' H1 H2. cbn in H1, H2. destruct (decide (t1 = t)) as [->|N1], (decide (t2 = t)) as [->|N2]; try done.
    + rewrite fn_lookup_insert in H1. rewrite fn_lookup_insert_ne in H2 by done. injection H1 as <-. symmetry. by apply Hown.
    + rewrite fn_lookup_insert in H2. rewrite fn_lookup_insert_ne in H1 by done. injection H2 as <-. by apply Hown.
    + rewrite fn_lookup_insert_ne in H1, H2 by done. by eapply (vi_bufs _ _ _ I).
  - intros t1 t2 b1 w1 h1 b2 w2 h2 i W1%submit_old W2%submit_old Hi1 Hi2.
    destruct W1 as [(-> & -> & -> & ->)|[N1 W1]], W2 as [(-> & -> & -> & ->)|[N2 W2]]; [done|..].
    + destruct (submit_apart _ _ _ _ W2 N2) as (j1 & j2 & _ & R & Hd). rewrite CN in Hi1. rewrite (req_chain _ _ _ _ _ _ R) in Hi2. by destruct (Hd i).
    + destruct (submit_apart _ _ _ _ W1 N1) as (j1 & j2 & _ & R & Hd). rewrite CN in Hi2. rewrite (req_chain _ _ _ _ _ _ R) in Hi1. by destruct (Hd i).
    + destruct (submit_apart _ _ _ _ W1 N1) as (? & ? & R1 & R1' & _), (submit_apart _ _ _ _ W2 N2) as (? & ? & R2 & R2' & _).
      rewrite (req_chain _ _ _ _ _ _ R1'), <- (req_chain _ _ _ _ _ _ R1) in Hi1.
      rewrite (req_chain _ _ _ _ _ _ R2'), <- (req_chain _ _ _ _ _ _ R2) in Hi2. by eapply (vi_disj _ _ _ I _ _ _ _ _ _ _ _ i W1 W2).
  - intros i Hi Hfi. destruct (decide (i ∈ [i0; i1; i2])) as [Hin|Hn].
    + exists t, b, w, i0. cbn. rewrite fn_lookup_insert. split; [done|]. change (i ∈ chain_of (submitted t b w i0 i1 i2 s) i0). by rewrite CN.
    + assert (i <> i0 /\ i <> i1 /\ i <> i2) as (? & ? & ?) by (split_and!; intros ->; apply Hn, in3; auto).
      cbn in Hfi. rewrite !fn_lookup_insert_ne in Hfi by done. destruct (vi_noleak _ _ _ I i Hi Hfi) as (t' & b' & w' & h & Hw & Hc).
      assert (t' <> t) as Hne by (intros ->; by apply Hout in Hw). exists t', b', w', h. split; [cbn; by rewrite fn_lookup_insert_ne|].
      destruct (submit_apart _ _ _ _ Hw Hne) as (? & ? & R & R' & _). by rewrite (req_chain _ _ _ _ _ _ R'), <- (req_chain _ _ _ _ _ _ R).
Qed.

End chain.
End submit.

(** The interrupt handler, the device and the end of a call: the heads in the
    rings move, and nothing else of the requests changes. *)
Section moves.
Context {s : vdisk} {AQ UQ : list nat} (I : vinv s AQ UQ).

(** The device moves a head from one ring to the other. *)
Lemma vinv_move s' AQ' UQ' :
  ring (aring s') (dev_idx s') AQ' (aidx s') -> ring (uring s') (used_idx s') UQ' (uidx s') ->
  AQ' ++ working s' ++ UQ' ≡ₚ AQ ++ working s ++ UQ -> (forall h, h ∈ UQ' -> info_status s' h = 0) ->
  desc s' = desc s -> vfree s' = vfree s -> info_b s' = info_b s -> ops s' = ops s -> bdisk s' = bdisk s -> bno s' = bno s ->
  vat s' = vat s -> (forall n, length (sect s' n) = 512%nat) -> (forall b, length (bdat s b) = Z.to_nat BSIZE -> length (bdat s' b) = Z.to_nat BSIZE) ->
  vinv s' AQ' UQ'.
Proof using I.
  intros R1 R2 HP HS E1 E2 E3 E4 E5 E6 E7 Hsect Hdat. destruct I as [I1 I2 I3 I0 I4 I5 I6 I7 I8 I9 I10 I11].
  assert (forall h, chain_of s' h = chain_of s h) as EC by (intros h; unfold chain_of; by rewrite E1).
  split; rewrite ?HP, ?E2, ?E5, ?E7; try done.
  - intros t b w h Hw. destruct (I4 _ _ _ _ Hw) as (i1 & i2 & R). exists i1, i2.
    apply (req_frame s); rewrite ?E1, ?E2, ?E3, ?E4, ?E6; done.
  - intros t b Hb. destruct (I5 t b Hb) as [H1 H2]. split; [by rewrite E6|by apply Hdat].
  - intros h Hh. rewrite HP in Hh. by apply I6.
  - intros t b w h Hw. rewrite HP. by apply (I7 t b w h).
  - intros t t' b w h b' w' h' i H1 H2 H3 H4. rewrite EC in H3, H4. by apply (I10 t t' b w h b' w' h' i).
  - intros i Hi Hf. destruct (I11 i Hi Hf) as (t & b & w & h & H1 & H2). exists t, b, w, h. by rewrite EC.
Qed.

Lemma fetch_inv : dev_idx s <> aidx s -> exists h AQ', AQ = h :: AQ' /\ vinv (dev_fetch s) AQ' UQ /\ working (dev_fetch s) = h :: working s.
Proof using I.
  intros Hne. pose proof (vi_aq _ _ _ I) as Hr. destruct (ring_nonempty _ _ _ _ Hr Hne) as (h & AQ' & EA). rewrite EA in Hr.
  apply ring_pop in Hr as [Eh Hr]. exists h, AQ'. split_and!; [done| |by unfold dev_fetch; rewrite <- Eh].
  apply vinv_move; try done; try apply I.
  rewrite EA. cbn. rewrite Eh. symmetry. apply Permutation_middle.
Qed.

(** The transfer of the request at [h]. *)
Definition after_transfer (b : nat) (w : bool) (s : vdisk) : vdisk :=
  if w then write_sectors (2 * bno s b) (bdat s b) s else s <| bdat ::= <[b := read_sectors (2 * bno s b) s]> |>.

Lemma complete_inv h :
  h ∈ working s -> exists t b w s', vat s t = VWait b w h /\ dev_complete h s = Some s' /\ vinv s' AQ (UQ ++ [h]) /\
    vat s' = vat s /\ working s' = filter (fun x => x <> h) (working s) /\
    sect s' = sect (after_transfer b w s) /\ bdat s' = bdat (after_transfer b w s) /\ bno s' = bno s.
Proof using I.
  intros Hh. assert (h ∈ AQ ++ working s ++ UQ) as Hl by set_solver.
  destruct (vi_live _ _ _ I h Hl) as (t & b & w & Hw). destruct (vi_req _ _ _ I _ _ _ _ Hw) as (i1 & i2 & R).
  destruct (vi_fits _ _ _ I t b) as [Hbn Hbl]; [by rewrite Hw|]. pose proof (vi_sect _ _ _ I) as Hsect.
  pose proof (live_length I) as Hlen. rewrite !length_app in Hlen. pose proof (vi_nodup _ _ _ I) as Hnd.
  assert (working s ≡ₚ h :: filter (fun x => x <> h) (working s)) as HP.
  { apply NoDup_app in Hnd as (_ & _ & Hnd). apply NoDup_app in Hnd as (Hnd & _). symmetry. by apply move_front. }
  exists t, b, w. unfold dev_complete. rewrite (req_request _ _ _ _ _ _ R). eexists. split_and!; [done|done| |by destruct w..].
  assert (AQ ++ filter (fun x => x <> h) (working s) ++ UQ ++ [h] ≡ₚ AQ ++ working s ++ UQ) as HQ.
  { rewrite HP at 2. rewrite !app_assoc, (Permutation_app_comm _ [h]), <- !app_assoc. cbn. apply (Permutation_middle AQ). }
  assert (ring (<[Z.to_nat (uidx s `mod` Z.of_nat NUM) := h]> (uring s)) (used_idx s) (UQ ++ [h]) (u16 (uidx s + 1))) as HR.
  { apply ring_push; [apply I|]. rewrite HP in Hlen. cbn in Hlen. lia. }
  assert (forall x, x ∈ UQ ++ [h] -> (<[h := 0]> (info_status s)) x = 0) as HS.
  { intros x Hx. fn_cases. apply I. set_solver. }
  destruct w; (apply vinv_move; [exact (vi_aq _ _ _ I)|exact HR|exact HQ|exact HS|done..| |]); try done.
  - intros n. cbn. fn_cases; rewrite ?length_take, ?length_drop, ?Hbl; done.
  - intros b' Hb'. cbn. fn_cases. unfold read_sectors. rewrite length_app, !Hsect. done.
Qed.

Lemma round_inv :
  used_idx s <> uidx s -> exists h UQ' b, UQ = h :: UQ' /\
    intr_round s = Ok tt (s <| bdisk ::= <[b := false]> |> <| used_idx ::= fun i => u16 (i + 1) |>) /\
    vinv (s <| bdisk ::= <[b := false]> |> <| used_idx ::= fun i => u16 (i + 1) |>) AQ UQ'.
Proof using I.
  intros Hne. pose proof (vi_uq _ _ _ I) as Hr. destruct (ring_nonempty _ _ _ _ Hr Hne) as (h & UQ' & EU). rewrite EU in Hr.
  apply ring_pop in Hr as [Eh Hr]. destruct (vi_live _ _ _ I h) as (t & b & w & Hw); [rewrite EU; set_solver|].
  destruct (vi_req _ _ _ I _ _ _ _ Hw) as (i1 & i2 & R). exists h, UQ', b. split; [done|].
  assert (forall x, x ∈ AQ ++ working s ++ UQ <-> x = h \/ x ∈ AQ ++ working s ++ UQ') as Hel by (intros x; rewrite EU; set_solver).
  assert (NoDup (h :: AQ ++ working s ++ UQ')) as Hnd.
  { pose proof (vi_nodup _ _ _ I) as Hn. rewrite EU in Hn.
    rewrite app_assoc in Hn |- *. by rewrite <- Permutation_middle in Hn. }
  apply NoDup_cons in Hnd as [Hh Hnd]. split.
  - unfold intr_round, mbind, M_bind, gets. cbn. rewrite Eh, (vi_status _ _ _ I h) by (rewrite EU; left).
    by rewrite (rq_buf _ _ _ _ _ _ R).
  - destruct I as [I1 I2 I3 I0 I4 I5 I6 I7 I8 I9 I10 I11]. split; try done.
    + intros t' b' w' h' Hw'. destruct (I4 _ _ _ _ Hw') as (j1 & j2 & R'). exists j1, j2. by apply (req_frame s).
    + intros x Hx. apply I6, Hel. by right.
    + intros t' b' w' h' Hw'. cbn in Hw' |- *. pose proof (I7 _ _ _ _ Hw') as Hb. rewrite Hel in Hb.
      destruct (decide (b' = b)) as [->|Hnb].
      * assert (t' = t) as -> by (apply (I9 t' t b); [by rewrite Hw'|by rewrite Hw]). rewrite Hw in Hw'. injection Hw' as -> ->.
        rewrite fn_lookup_insert. by split.
      * rewrite fn_lookup_insert_ne by done. rewrite Hb. split; [|by auto]. intros [->|?]; [|done].
        assert (t' = t) as -> by (apply (I10 t' t b' w' h b w h h Hw' Hw); unfold chain_of; left). congruence.
    + intros x Hx. apply I8. rewrite EU. by right.
Qed.

End moves.

(** ** The end of a call *)

Definition finished (t h i1 i2 : nat) (s : vdisk) : vdisk :=
  s <| info_b ::= <[h := None]> |>
    <| desc ::= fun f => <[i2 := mkdesc ANull 0 0 0]> (<[i1 := mkdesc ANull 0 0 0]> (<[h := mkdesc ANull 0 0 0]> f)) |>
    <| vfree ::= fun f => <[i2 := true]> (<[i1 := true]> (<[h := true]> f)) |>
    <| vat ::= <[t := VIdle]> |>.

Definition freed (i : nat) (s : vdisk) : vdisk := s <| desc ::= <[i := mkdesc ANull 0 0 0]> |> <| vfree ::= <[i := true]> |>.

Lemma wp_free_chain_step n i d (Q : unit -> vdisk -> Prop) s :
  desc s i = d -> (i < NUM)%nat -> vfree s i = false ->
  wp (if Z.land (d_flags d) VRING_DESC_F_NEXT =? 0 then mret tt else free_chain_from n (d_next d)) Q (freed i s) ->
  wp (free_chain_from (S n) i) Q s.
Proof. intros <- Hi Hf HQ. cbn [free_chain_from]. do 3 wp_step. by apply wp_free_desc. Qed.

Lemma wp_rw_finish t b w h i1 i2 (Q : unit -> vdisk -> Prop) s :
  req_ok s b w h i1 i2 -> Q tt (finished t h i1 i2 s) -> wp (rw_finish t h) Q s.
Proof.
  intros [R1 R2 R3 R4 R5 R6 R7] HQ. destruct (proj1 (nodup3 _ _ _) R5) as (N1 & N2 & N3).
  destruct (R6 h) as [H0 F0]; [apply in3; auto|]. destruct (R6 i1) as [H1 F1]; [apply in3; auto|]. destruct (R6 i2) as [H2 F2]; [apply in3; auto|].
  unfold rw_finish. do 3 wp_step. unfold free_chain, NUM.
  eapply (wp_free_chain_step _ h); [exact R2|done|exact F0|]. change (Z.land (d_flags _) VRING_DESC_F_NEXT =? 0) with false. cbv iota. cbn [d_next].
  eapply (wp_free_chain_step _ i1); [cbn; rewrite fn_lookup_insert_ne by done; exact R3|done|cbn; fn_cases|].
  replace (Z.land (d_flags _) VRING_DESC_F_NEXT =? 0) with false by (by destruct w). cbn [d_next].
  eapply (wp_free_chain_step _ i2); [cbn; rewrite !fn_lookup_insert_ne by done; exact R4|done|cbn; fn_cases|].
  change (Z.land (d_flags _) VRING_DESC_F_NEXT =? 0) with true. cbv iota. do 2 wp_step. exact HQ.
Qed.

Section finish.
Context {s : vdisk} {AQ UQ : list nat} (I : vinv s AQ UQ).
Context {t b : nat} {w : bool} {h i1 i2 : nat} (Hw : vat s t = VWait b w h) (Hdone : bdisk s b = false) (R : req_ok s b w h i1 i2).

Lemma finish_old t' b' w' h' : vat (finished t h i1 i2 s) t' = VWait b' w' h' -> t' <> t /\ vat s t' = VWait b' w' h'.
Proof. cbn. destruct (decide (t' = t)) as [->|Hne]; [by rewrite fn_lookup_insert|by rewrite fn_lookup_insert_ne]. Qed.

Lemma finish_apart t' b' w' h' :
  vat s t' = VWait b' w' h' -> t' <> t ->
  exists j1 j2, req_ok s b' w' h' j1 j2 /\ req_ok (finished t h i1 i2 s) b' w' h' j1 j2.
Proof using I Hw R.
  intros Hw' Hne. destruct (vi_req _ _ _ I _ _ _ _ Hw') as (j1 & j2 & R'). exists j1, j2. split; [done|].
  assert (forall i, i ∈ [h'; j1; j2] -> i <> h /\ i <> i1 /\ i <> i2) as Hd.
  { intros i Hi. rewrite <- (req_chain _ _ _ _ _ _ R') in Hi.
    assert (i ∉ chain_of s h) as Hn by (intros Hc; apply Hne, (vi_disj _ _ _ I _ _ _ _ _ _ _ _ i Hw' Hw Hi Hc)).
    rewrite (req_chain _ _ _ _ _ _ R), in3 in Hn. tauto. }
  apply (req_frame s); [done| |done| |done].
  - intros i Hi. destruct (Hd i Hi) as (? & ? & ?). cbn. split; fn_cases.
  - destruct (Hd h') as (? & _ & _); [left|]. cbn. fn_cases.
Qed.

Lemma finish_inv : vinv (finished t h i1 i2 s) AQ UQ.
Proof using All.
  assert (forall h', h' ∈ AQ ++ working s ++ UQ -> h' <> h) as Hnl.
  { intros h' Hin ->. apply (vi_busy _ _ _ I _ _ _ _ Hw) in Hin. congruence. }
  destruct I as [I1 I2 I3 I0 I4 I5 I6 I7 I8 I9 I10 I11]. split; try done.
  - intros t' b' w' h' [Hne Hw']%finish_old. destruct (finish_apart _ _ _ _ Hw' Hne) as (j1 & j2 & _ & R'). eauto.
  - intros t' b' Hb. cbn in Hb. destruct (decide (t' = t)) as [->|Hne]; [by rewrite fn_lookup_insert in Hb|].
    rewrite fn_lookup_insert_ne in Hb by done. by apply (I5 t').
  - intros h' Hh'. destruct (I6 h' Hh') as (t' & b' & w' & Hw'). exists t', b', w'. cbn. rewrite fn_lookup_insert_ne; [done|].
    intros ->. apply (Hnl h' Hh'). congruence.
  - intros t' b' w' h' [Hne Hw']%finish_old. by apply (I7 t' b' w' h').
  - intros t1 t2 b' H1 H2. cbn in H1, H2. destruct (decide (t1 = t)) as [->|N1]; [by rewrite fn_lookup_insert in H1|].
    destruct (decide (t2 = t)) as [->|N2]; [by rewrite fn_lookup_insert in H2|]. rewrite fn_lookup_insert_ne in H1, H2 by done.
    by apply (I9 t1 t2 b').
  - intros t1 t2 b1 w1 h1 b2 w2 h2 i [N1 W1]%finish_old [N2 W2]%finish_old Hi1 Hi2.
    destruct (finish_apart _ _ _ _ W1 N1) as (? & ? & R1 & R1'), (finish_apart _ _ _ _ W2 N2) as (? & ? & R2 & R2').
    rewrite (req_chain _ _ _ _ _ _ R1'), <- (req_chain _ _ _ _ _ _ R1) in Hi1.
    rewrite (req_chain _ _ _ _ _ _ R2'), <- (req_chain _ _ _ _ _ _ R2) in Hi2. by apply (I10 t1 t2 b1 w1 h1 b2 w2 h2 i).
  - intros i Hi Hf. cbn in Hf.
    assert (i <> h /\ i <> i1 /\ i <> i2) as (Nh & Nh1 & Nh2).
    { split_and!; intros ->; revert Hf; fn_cases. }
    rewrite !fn_lookup_insert_ne in Hf by done. destruct (I11 i Hi Hf) as (t' & b' & w' & h' & Hw' & Hc).
    assert (t' <> t) as Hne.
    { intros ->. rewrite Hw in Hw'. injection Hw' as <- <- <-. rewrite (req_chain _ _ _ _ _ _ R), in3 in Hc. tauto. }
    exists t', b', w', h'. split; [cbn; by rewrite fn_lookup_insert_ne|].
    destruct (finish_apart _ _ _ _ Hw' Hne) as (? & ? & R' & R''). by rewrite (req_chain _ _ _ _ _ _ R''), <- (req_chain _ _ _ _ _ _ R').
Qed.

End finish.

(** ** Refinement *)

(** A waiting process is pending until the device has completed its request. *)
Definition apc_of (pend : list nat) (p : vpc) : apc :=
  match p with
  | VIdle => AIdle
  | VAlloc b w => APend b w
  | VWait b w h => if decide (h ∈ pend) then APend b w else ADone b w
  end.

Record related (s : vdisk) (a : adisk) (AQ UQ : list nat) : Prop := {
  re_inv : vinv s AQ UQ;
  re_sect : asect a = sect s;
  re_dat : adat a = bdat s;
  re_bno : abno a = bno s;
  re_at : forall t, aat a t = apc_of (AQ ++ working s) (vat s t)
}.

Lemma apc_of_ext p q x : (forall b w h, x = VWait b w h -> h ∈ p <-> h ∈ q) -> apc_of p x = apc_of q x.
Proof.
  intros H. destruct x as [| |b w h]; [done..|]. cbn. specialize (H b w h eq_refl).
  destruct (decide (h ∈ p)), (decide (h ∈ q)); tauto || done.
Qed.

Lemma abuf_apc_of p x : abuf (apc_of p x) = buf_of x.
Proof. destruct x; [done..|]. cbn. by case_decide. Qed.

Definition vsimulated (a : adisk) (s' : vdisk) : Prop :=
  exists a' AQ' UQ', (a' = a \/ astep a a') /\ related s' a' AQ' UQ'.

Section sim.
Context {s : vdisk} {a : adisk} {AQ UQ : list nat} (RE : related s a AQ UQ).

(** A process that enters the driver, or tries again: its call is pending. *)
Lemma sim_try t b w s' a' :
  (forall t', buf_of (vat s t') = Some b -> t' = t) -> buf_fits s b -> (forall b w h, vat s t <> VWait b w h) ->
  rw_try t b w s = Ok tt s' -> asect a' = sect s -> adat a' = bdat s -> abno a' = bno s ->
  aat a' t = APend b w -> (forall t', t' <> t -> aat a' t' = aat a t') ->
  exists AQ', related s' a' AQ' UQ.
Proof using RE.
  intros Hown Hfit Hout Hrun A1 A2 A3 A4 A5. pose proof (re_inv _ _ _ _ RE) as I.
  assert (wp (rw_try t b w) (fun _ s' => exists AQ', related s' a' AQ' UQ) s) as Hwp.
  2: { unfold wp in Hwp. by rewrite Hrun in Hwp. }
  apply wp_rw_try; [apply Hfit|..].
  - intros i0 i1 i2 Hnd Hfree. exists (AQ ++ [i0]). split; [by apply submit_inv|done..|].
    intros t'. cbn. destruct (decide (t' = t)) as [->|Hne].
    + rewrite fn_lookup_insert, A4. cbn. rewrite decide_True; [done|]. set_solver.
    + rewrite fn_lookup_insert_ne, A5, (re_at _ _ _ _ RE) by done. apply apc_of_ext. intros b' w' h Hw.
      destruct (submit_apart (t := t) (b := b) (w := w) I Hfree _ _ _ _ Hw Hne) as (j1 & j2 & _ & _ & Hd).
      assert (h <> i0) by (intros ->; destruct (Hd i0); apply in3; auto). set_solver.
  - intros s1 (D & F & -> & HF & HD). exists AQ. split; [|done..|].
    + apply (vinv_same I); try done.
      * intros t' b' w' h. cbn. destruct (decide (t' = t)) as [->|Hne].
        -- rewrite fn_lookup_insert. split; [done|]. intros Hw. by apply Hout in Hw.
        -- by rewrite fn_lookup_insert_ne.
      * intros t' b' Hb. change (buf_fits s b'). cbn in Hb. destruct (decide (t' = t)) as [->|Hne].
        -- rewrite fn_lookup_insert in Hb. by injection Hb as <-.
        -- rewrite fn_lookup_insert_ne in Hb by done. by apply (vi_fits _ _ _ I t').
      * intros t1 t2 b' H1 H2. cbn in H1, H2. destruct (decide (t1 = t)) as [->|N1], (decide (t2 = t)) as [->|N2]; try done.
        -- rewrite fn_lookup_insert in H1. rewrite fn_lookup_insert_ne in H2 by done. injection H1 as <-. symmetry. by apply Hown.
        -- rewrite fn_lookup_insert in H2. rewrite fn_lookup_insert_ne in H1 by done. injection H2 as <-. by apply Hown.
        -- rewrite fn_lookup_insert_ne in H1, H2 by done. by apply (vi_bufs _ _ _ I t1 t2 b').
    + intros t'. cbn. destruct (decide (t' = t)) as [->|Hne]; [by rewrite fn_lookup_insert|].
      by rewrite fn_lookup_insert_ne, A5, (re_at _ _ _ _ RE) by done.
Qed.

Lemma sim_finish t b w h s' :
  vat s t = VWait b w h -> bdisk s b = false -> rw_finish t h s = Ok tt s' -> vsimulated a s'.
Proof using RE.
  intros Hw Hd Hrun. pose proof (re_inv _ _ _ _ RE) as I. destruct (vi_req _ _ _ I _ _ _ _ Hw) as (i1 & i2 & R).
  assert (wp (rw_finish t h) (fun _ s' => s' = finished t h i1 i2 s) s) as Hwp by (by eapply wp_rw_finish).
  unfold wp in Hwp. rewrite Hrun in Hwp. subst s'. exists (a <| aat ::= <[t := AIdle]> |>), AQ, UQ. split.
  - right. apply (as_return t b w). rewrite (re_at _ _ _ _ RE), Hw. cbn. rewrite decide_False; [done|]. intros Hin.
    assert (bdisk s b = true) by (apply (vi_busy _ _ _ I _ _ _ _ Hw); set_solver). congruence.
  - split; [by eapply finish_inv|apply RE..|]. intros t'. cbn. destruct (decide (t' = t)) as [->|Hne].
    + by rewrite !fn_lookup_insert.
    + rewrite !fn_lookup_insert_ne by done. apply RE.
Qed.

Lemma sim_complete h s' : h ∈ working s -> dev_complete h s = Some s' -> vsimulated a s'.
Proof using RE.
  intros Hh Hc. pose proof (re_inv _ _ _ _ RE) as I.
  destruct (complete_inv I h Hh) as (t & b & w & s1 & Hw & E & I' & E1 & E2 & E3 & E4 & E5).
  rewrite Hc in E. injection E as <-.
  exists ((atransfer b w a) <| aat ::= <[t := ADone b w]> |>), AQ, (UQ ++ [h]). split.
  - right. apply as_transfer. rewrite (re_at _ _ _ _ RE), Hw. cbn. rewrite decide_True; [done|]. set_solver.
  - destruct RE as [_ R1 R2 R3 R4]. split; [done|..].
    + rewrite E3. unfold after_transfer, atransfer, write_sectors. destruct w; cbn; by rewrite ?R1, ?R2, ?R3.
    + rewrite E4. unfold after_transfer, atransfer, ablock, read_sectors. destruct w; cbn; by rewrite ?R1, ?R2, ?R3.
    + rewrite E5. unfold atransfer. by destruct w.
    + intros t'. rewrite E1, E2. cbn. destruct (decide (t' = t)) as [->|Hne].
      * rewrite fn_lookup_insert, Hw. cbn. rewrite decide_False; [done|]. intros [Hin|Hin]%elem_of_app.
        -- pose proof (vi_nodup _ _ _ I) as Hn. apply NoDup_app in Hn as (_ & Hn & _). destruct (Hn h Hin). set_solver.
        -- apply list_elem_of_filter in Hin as [Hin _]. by apply Hin.
      * rewrite fn_lookup_insert_ne by done. replace (aat (atransfer b w a) t') with (aat a t') by (by destruct w).
        rewrite R4. apply apc_of_ext. intros b' w' h' Hw'.
        assert (h' <> h) as Hnh by (intros ->; apply Hne, (same_head I t' b' w' h t b w Hw' Hw)).
        rewrite !elem_of_app, list_elem_of_filter. tauto.
Qed.

End sim.

Lemma sim_vstep s s' a AQ UQ : vstep s s' -> related s a AQ UQ -> vsimulated a s'.
Proof.
  destruct 1 as [t b w s s' Ht _ Hu Hf Hr|t b w s s' Ht _ Hr|t b w h s s' Ht _ Hd Hr|s Hi|s s' _ Hne Hr|s _ _|s Hne|h s s' Hh Hc|b n d s Hu Hd];
    intros RE; pose proof (re_inv _ _ _ _ RE) as I.
  - destruct (sim_try RE t b w s' (a <| aat ::= <[t := APend b w]> |>)) as (AQ' & RE'); try (done || apply RE).
    + intros t' Hb. by destruct (Hu t').
    + by rewrite Ht.
    + cbn. apply fn_lookup_insert.
    + intros t' Hne. cbn. by rewrite fn_lookup_insert_ne.
    + exists (a <| aat ::= <[t := APend b w]> |>), AQ', UQ. split; [right|done]. apply as_call. by rewrite (re_at _ _ _ _ RE), Ht.
  - destruct (sim_try RE t b w s' a) as (AQ' & RE'); try (done || apply RE).
    + intros t' Hb. apply (vi_bufs _ _ _ I t' t b Hb). by rewrite Ht.
    + apply (vi_fits _ _ _ I t). by rewrite Ht.
    + by rewrite Ht.
    + by rewrite (re_at _ _ _ _ RE), Ht.
    + exists a, AQ', UQ. split; [by left|done].
  - by eapply (sim_finish RE).
  - exists a, AQ, UQ. split; [by left|]. destruct RE as [_ R1 R2 R3 R4]. split; try done. by apply (vinv_same I); try apply I.
  - destruct (round_inv I Hne) as (h & UQ' & b & EU & Er & I'). rewrite Hr in Er. injection Er as ->.
    exists a, AQ, UQ'. split; [by left|]. destruct RE as [_ R1 R2 R3 R4]. by split.
  - exists a, AQ, UQ. split; [by left|]. destruct RE as [_ R1 R2 R3 R4]. split; try done. by apply (vinv_same I); try apply I.
  - destruct (fetch_inv I Hne) as (h & AQ' & EA & I' & Ew). exists a, AQ', UQ. split; [by left|].
    destruct RE as [_ R1 R2 R3 R4]. split; try done. intros t. rewrite R4, Ew, EA. apply apc_of_ext. set_solver.
  - by eapply (sim_complete RE h).
  - exists (a <| abno ::= <[b := n]> |> <| adat ::= <[b := d]> |>), AQ, UQ. destruct RE as [_ R1 R2 R3 R4]. split.
    + right. apply as_buffer. intros t. rewrite R4, abuf_apc_of. apply Hu.
    + split; cbn; [|done|by rewrite R2|by rewrite R3|done]. apply (vinv_same I); try done; try apply I.
      * intros t b' Hb. cbn. rewrite fn_lookup_insert_ne; [done|]. intros ->. by destruct (Hu t).
      * intros t b' Hb. assert (b' <> b) by (intros ->; by destruct (Hu t)). destruct (vi_fits _ _ _ I t b' Hb).
        split; cbn; by rewrite fn_lookup_insert_ne.
Qed.

(** ** Claims *)

Definition astart (s : vdisk) : adisk := mkadisk (sect s) (bdat s) (bno s) (fun _ => AIdle).

Lemma ready_related s : vready s -> related s (astart s) [] [].
Proof.
  intros [R1 (R2 & R3 & R4 & R5) R6 R0 R7 R8]. split; [|done..|intros t; by rewrite R7].
  split; rewrite ?R6; try done; try (intros; rewrite R7 in *; done); try (intros h Hh; by apply elem_of_nil in Hh).
  - rewrite R2, R5. split; [done|split; [done|cbn; lia]].
  - rewrite R3, R4. split; [done|split; [done|cbn; lia]].
  - apply NoDup_nil_2.
  - intros i Hi Hf. by rewrite R1 in Hf.
Qed.

Lemma reach_related s0 s : vready s0 -> rtc vstep s0 s -> exists a AQ UQ, rtc astep (astart s0) a /\ related s a AQ UQ.
Proof.
  intros Hr Hs. apply (rtc_ind_r (R := vstep) (fun s => exists a AQ UQ, rtc astep (astart s0) a /\ related s a AQ UQ) s0); [|clear s Hs|done].
  - exists (astart s0), [], []. split; [done|by apply ready_related].
  - intros s s' _ Hs (a & AQ & UQ & Ha & RE). destruct (sim_vstep _ _ _ _ _ Hs RE) as (a' & AQ' & UQ' & [->|Hst] & RE').
    + exists a, AQ', UQ'. done.
    + exists a', AQ', UQ'. split; [|done]. by eapply rtc_r.
Qed.


Lemma wp_total {S A} (m : M S A) (Q : A -> S -> Prop) s : wp m Q s -> exists a s', m s = Ok a s'.
Proof. unfold wp. destruct (m s); [eauto|done..]. Qed.

(** The driver never panics and never loses a descriptor.  In every reachable
    state each entry point runs to its next sleep or its return (no free_desc
    panic, no status panic, no use of a null buffer), the device finds a
    well-formed request at every head it is given, and a descriptor is in use
    exactly when it is in the chain of one waiting process. *)
Theorem driver_never_panics s0 s :
  vready s0 -> rtc vstep s0 s ->
  (forall t b w, buf_fits s b -> exists s', rw_try t b w s = Ok tt s') /\
  (forall t b w h, vat s t = VWait b w h -> exists s', rw_finish t h s = Ok tt s') /\
  (used_idx s <> uidx s -> exists s', intr_round s = Ok tt s') /\
  (forall h, h ∈ working s -> is_Some (dev_complete h s)) /\
  forall i, (i < NUM)%nat -> vfree s i = false <-> exists t b w h, vat s t = VWait b w h /\ i ∈ chain_of s h.
Proof.
  intros Hr Hs. destruct (reach_related s0 s Hr Hs) as (a & AQ & UQ & _ & RE). pose proof (re_inv _ _ _ _ RE) as I. split_and!.
  - intros t b w [Hb _]. destruct (wp_total (rw_try t b w) (fun _ _ => True) s) as ([] & s' & E); [by apply wp_rw_try|eauto].
  - intros t b w h Hw. destruct (vi_req _ _ _ I _ _ _ _ Hw) as (i1 & i2 & R).
    destruct (wp_total (rw_finish t h) (fun _ _ => True) s) as ([] & s' & E); [by eapply wp_rw_finish|eauto].
  - intros Hne. destruct (round_inv I Hne) as (h & UQ' & b & _ & E & _). eauto.
  - intros h Hh. destruct (complete_inv I h Hh) as (t & b & w & s' & _ & E & _). by exists s'.
  - intros i Hi. split; [by apply (vi_noleak _ _ _ I)|]. intros (t & b & w & h & Hw & Hin).
    destruct (vi_req _ _ _ I _ _ _ _ Hw) as (i1 & i2 & R). rewrite (req_chain _ _ _ _ _ _ R) in Hin. by apply (rq_chain _ _ _ _ _ _ R).
Qed.

(** ** Initialisation *)

(** A virtio disk that accepts the features, with a queue that is large enough. *)
Record device_ok (R : Z -> Z) : Prop := {
  dk_magic : R VIRTIO_MMIO_MAGIC_VALUE = 0x74726976;
  dk_version : R VIRTIO_MMIO_VERSION = 2;
  dk_id : R VIRTIO_MMIO_DEVICE_ID = 2;
  dk_vendor : R VIRTIO_MMIO_VENDOR_ID = 0x554d4551;
  dk_features : Z.land (R VIRTIO_MMIO_STATUS) VIRTIO_CONFIG_S_FEATURES_OK <> 0;
  dk_ready : R VIRTIO_MMIO_QUEUE_READY = 0;
  dk_max : Z.of_nat NUM <= R VIRTIO_MMIO_QUEUE_NUM_MAX
}.

(** The driver's variables and the device before the initialisation. *)
Record unstarted (d : vdisk) : Prop := {
  un_used : used_idx d = 0;
  un_dev : dev_idx d = 0 /\ working d = [];
  un_sect : forall n, length (sect d n) = 512%nat;
  un_at : forall t, vat d t = VIdle;
  un_intr : in_intr d = false
}.

(** [virtio_disk_init] on such a device leaves the driver ready and ends by
    telling the device so. *)
Lemma init_ready R kd ka ku s :
  device_ok R -> unstarted (vb_disk s) -> kd <> 0 -> ka <> 0 -> ku <> 0 ->
  wp (virtio_disk_init R kd ka ku) (fun _ s' => vready (vb_disk s') /\
    head (vb_writes s') = Some (VIRTIO_MMIO_STATUS, u32 (Z.lor (R VIRTIO_MMIO_STATUS) VIRTIO_CONFIG_S_DRIVER_OK))) s.
Proof.
  intros [R1 R2 R3 R4 R5 R6 R7] [U1 [U2 U3] U4 U5 U6] Hd Ha Hu. unfold virtio_disk_init.
  rewrite R1, R2, R3, R4, R6. rewrite !Z.eqb_refl. cbn [negb orb]. change (Z.of_nat NUM) with 8 in *. unfold wreg. do 10 wp_step.
  rewrite (proj2 (Z.eqb_neq _ 0) R5). do 2 wp_step. change (0 =? 0) with true. cbn [negb].
  rewrite (proj2 (Z.eqb_neq _ 0)), (proj2 (Z.ltb_ge _ 8)) by lia. rewrite !(proj2 (Z.eqb_neq _ 0)) by done. cbn [orb].
  do 19 wp_step.
  apply (wp_for_range (fun i s1 => (forall k, (Z.of_nat k < i) -> vfree (vb_disk s1) k = true) /\
    aidx (vb_disk s1) = 0 /\ uidx (vb_disk s1) = 0 /\ used_idx (vb_disk s1) = 0 /\ dev_idx (vb_disk s1) = 0 /\ working (vb_disk s1) = [] /\
    (forall n, length (sect (vb_disk s1) n) = 512%nat) /\ (forall t, vat (vb_disk s1) t = VIdle) /\ in_intr (vb_disk s1) = false)).
  - split_and!; try done. lia.
  - intros i s1 Hi (F & F1 & F2 & F3 & F4 & F5 & F6 & F7 & F8). wp_step. split_and!; try done.
    intros k Hk. cbn. destruct (decide (k = Z.to_nat i)) as [->|Hne]; [by rewrite fn_lookup_insert|].
    rewrite fn_lookup_insert_ne by done. apply F. lia.
  - intros s1 (F & F1 & F2 & F3 & F4 & F5 & F6 & F7 & F8). wp_step. split; [|done]. split; try done.
    intros i Hi. apply F. unfold NUM in *. lia.
Qed.

(** ** Instances *)

(** A driver after its initialisation, a disk of zeros and empty buffers. *)
Definition v0 : vdisk :=
  mkvdisk (fun _ => mkdesc ANull 0 0 0) (fun _ => 0%nat) 0 (fun _ => 0%nat) 0 (fun _ => true) 0 (fun _ => None) (fun _ => 0)
    (fun _ => mkreq 0 0) (fun _ => false) (fun _ => replicate (Z.to_nat BSIZE) 7) (fun b => Z.of_nat b) (fun _ => replicate 512 0)
    0 [] (fun _ => VIdle) false.

Lemma v0_ready : vready v0.
Proof. split; try done. Qed.

(** Process 3 has asked for a write of buffer 5, and the device has fetched it. *)
Definition v1 : vdisk := match rw_try 3 5 true v0 with Ok _ s => dev_fetch s | _ => v0 end.

Lemma v1_reachable : rtc vstep v0 v1.
Proof.
  eapply rtc_l; [eapply (vs_call 3 5 true v0); [done|done|by intros t|split; done|reflexivity]|].
  apply rtc_once. apply vs_fetch. vm_compute. congruence.
Qed.


Lemma driver_never_panics_witness :
  (forall t b w, buf_fits v1 b -> exists s', rw_try t b w v1 = Ok tt s') /\
  (forall t b w h, vat v1 t = VWait b w h -> exists s', rw_finish t h v1 = Ok tt s') /\
  (used_idx v1 <> uidx v1 -> exists s', intr_round v1 = Ok tt s') /\
  (forall h, h ∈ working v1 -> is_Some (dev_complete h v1)) /\
  forall i, (i < NUM)%nat -> vfree v1 i = false <-> exists t b w h, vat v1 t = VWait b w h /\ i ∈ chain_of v1 h.
Proof. apply (driver_never_panics v0 v1); [exact v0_ready|exact v1_reachable]. Defined.
