(* ===== verification/Log.v ===== *)
(** * kernel/log.c: the write-ahead log *)

From S2P Require Import Prelude CMem Riscv Kalloc Vm KState Sched Printf Bio.

Definition install_trans (recovering : bool) : M kst unit :=
  loop (fun tail =>
    l ← gets lg;
    if negb (tail <? lh_n l) then mret (inr tt)
    else
      let dst := nth (Z.to_nat tail) (lh_block l) 0 in
      when recovering (printf (str "recovering tail %d dst %d" ++ [10]) [Anum tail; Anum dst]);;
      lbuf ← bread (lg_dev l) (lg_start l + tail + 1);
      dbuf ← bread (lg_dev l) dst;
      data ← bdata lbuf;
      set_bdata dbuf data;;
      bwrite dbuf;;
      when (negb recovering) (bunpin dbuf);;
      brelse lbuf;;
      brelse dbuf;;
      mret (inl (tail + 1))) 0.

(** The on-disk header: [n], then the block numbers, 32-bit words. *)
Definition read_head : M kst unit :=
  l ← gets lg;
  b ← bread (lg_dev l) (lg_start l);
  data ← bdata b;
  let n := i32 (rd 4 data 0) in
  modify (fun s => s <| lg ::= fun l =>
    l <| lh_n := n |>
      <| lh_block ::= fun bl =>
           ((fun i : nat => i32 (rd 4 data (4 + 4 * Z.of_nat i))) <$> seq 0 (Z.to_nat n))
           ++ drop (Z.to_nat n) bl |> |>);;
  brelse b.

(** The header block with the in-memory header written over it. *)
Definition put_head (l : log) (data : list Z) : list Z :=
  fold_left (fun d (i : nat) => wr 4 d (4 + 4 * Z.of_nat i) (nth i (lh_block l) 0))
    (seq 0 (Z.to_nat (lh_n l))) (wr 4 data 0 (lh_n l)).

Definition write_head : M kst unit :=
  l ← gets lg;
  b ← bread (lg_dev l) (lg_start l);
  data ← bdata b;
  set_bdata b (put_head l data);;
  bwrite b;;
  brelse b.

Definition recover_from_log : M kst unit :=
  read_head;;
  install_trans true;;
  modify (fun s => s <| lg ::= fun l => l <| lh_n := 0 |> |>);;
  write_head.

(** [sizeof(struct logheader)] is 4 * 31, below [BSIZE], so the size check of
    the code is a constant. *)
Definition initlog (dev : Z) (sb : superblock) : M kst unit :=
  if BSIZE <=? 4 * (LOGBLOCKS + 1) then panic "initlog: too big logheader"
  else
    modify (fun s => s <| lg ::= fun l => l <| lg_start := sb_logstart sb |> <| lg_dev := dev |> |>);;
    recover_from_log.

Definition begin_op : M kst unit :=
  acquire Llog;;
  loop (fun _ : unit =>
    l ← gets lg;
    if lg_committing l then sleep ch_log Llog;; mret (inl tt)
    else if LOGBLOCKS <? lh_n l + (lg_outstanding l + 1) * MAXOPBLOCKS then
      sleep ch_log Llog;; mret (inl tt)
    else
      modify (fun s => s <| lg ::= fun l => l <| lg_outstanding ::= fun o => o + 1 |> |>);;
      release Llog;;
      mret (inr tt)) tt.

Definition write_log : M kst unit :=
  loop (fun tail =>
    l ← gets lg;
    if negb (tail <? lh_n l) then mret (inr tt)
    else
      to ← bread (lg_dev l) (lg_start l + tail + 1);
      from ← bread (lg_dev l) (nth (Z.to_nat tail) (lh_block l) 0);
      data ← bdata from;
      set_bdata to data;;
      bwrite to;;
      brelse from;;
      brelse to;;
      mret (inl (tail + 1))) 0.

Definition commit : M kst unit :=
  l ← gets lg;
  when (0 <? lh_n l)
    (write_log;;
     write_head;;
     install_trans false;;
     modify (fun s => s <| lg ::= fun l => l <| lh_n := 0 |> |>);;
     write_head).

Definition end_op : M kst unit :=
  acquire Llog;;
  modify (fun s => s <| lg ::= fun l => l <| lg_outstanding ::= fun o => o - 1 |> |>);;
  l ← gets lg;
  if lg_committing l then panic "log.committing"
  else
    let do_commit := lg_outstanding l =? 0 in
    (if do_commit
     then modify (fun s => s <| lg ::= fun l => l <| lg_committing := true |> |>)
     else wakeup ch_log);;
    release Llog;;
    when do_commit
      (commit;;
       acquire Llog;;
       modify (fun s => s <| lg ::= fun l => l <| lg_committing := false |> |>);;
       wakeup ch_log;;
       release Llog).

(** The index the loop of [log_write] ends with. *)
Fixpoint log_find (n : nat) (bl : list Z) (bn : Z) : nat :=
  match n, bl with
  | S n', x :: bl' => if x =? bn then O else S (log_find n' bl' bn)
  | _, _ => O
  end.

Definition log_write (b : nat) : M kst unit :=
  acquire Llog;;
  l ← gets lg;
  if LOGBLOCKS <=? lh_n l then panic "too big a transaction"
  else if lg_outstanding l <? 1 then panic "log_write outside of trans"
  else
    x ← getb b;
    let i := log_find (Z.to_nat (lh_n l)) (lh_block l) (b_blockno x) in
    modify (fun s => s <| lg ::= fun l => l <| lh_block ::= <[i := b_blockno x]> |> |>);;
    when (Z.of_nat i =? lh_n l)
      (bpin b;;
       modify (fun s => s <| lg ::= fun l => l <| lh_n ::= fun n => n + 1 |> |>));;
    release Llog.
