(* ===== verification/LogSpec.v ===== *)
(** * The log: commits are atomic under crashes

    The specification of the cache as a whole ([cache]): which buffers are
    held, which blocks are pinned, what the kernel sees, what is on the disk.
    With it, the disk writes of [commit] and of [recover_from_log] are
    computed, and every prefix of them is shown to recover to the state before
    or to the state after the transaction. *)

From S2P Require Import Prelude CMem Riscv Kalloc Vm KState Sched Printf Bio BioSpec Log.

Definition vset (V : Z -> list Z) (bn : Z) (d : list Z) : Z -> list Z :=
  fun x => if decide (x = bn) then d else V x.

(** [H]: the held buffers with their block numbers; [P]: the pinned blocks;
    [V]: the blocks as the kernel sees them; [D]: the disk; [f]: the rest. *)
Record cache (dev : Z) (H : list (nat * Z)) (P : gset Z) (V : Z -> list Z) (D : disk) (f s : kst) : Prop := {
  ca_ok : bio_ok dev (fst <$> H) P s;
  ca_held : forall b bn, (b, bn) ∈ H -> b_blockno (buf_at s b) = bn;
  ca_view : forall bn, bview dev s bn = V bn;
  ca_disk : dsk s = D;
  ca_frame : fs_frame s = f;
  ca_pr : Lpr ∉ locks s
}.

Section rules.
Context {dev : Z} {H : list (nat * Z)} {P : gset Z} {V : Z -> list Z} {D : disk} {f s : kst}.
Context (C : cache dev H P V D f s).

Lemma cache_view_length bn : length (V bn) = Z.to_nat BSIZE.
Proof. rewrite <- (ca_view _ _ _ _ _ _ _ C). apply (bview_length (ca_ok _ _ _ _ _ _ _ C)). Qed.

Lemma cache_clean bn : (bn ∉ P) -> (bn ∉ H.*2) -> V bn = disk_read D bn.
Proof.
  intros HP HH. rewrite <- (ca_view _ _ _ _ _ _ _ C), <- (ca_disk _ _ _ _ _ _ _ C).
  apply (bview_clean (ca_ok _ _ _ _ _ _ _ C)); [done|].
  intros i ([b bn'] & -> & Hin)%list_elem_of_fmap. cbn. rewrite (ca_held _ _ _ _ _ _ _ C b bn') by done.
  intros ->. apply HH, list_elem_of_fmap. by exists (b, bn).
Qed.

Lemma cache_in b bn : (b, bn) ∈ H -> b ∈ H.*1.
Proof. intros Hin. apply list_elem_of_fmap. by exists (b, bn). Qed.

Lemma cache_data b bn : (b, bn) ∈ H -> b_data (buf_at s b) = V bn.
Proof.
  intros Hin. destruct (bo_held _ _ _ _ (ca_ok _ _ _ _ _ _ _ C) b (cache_in b bn Hin)) as (Hb & _ & Hv & Hd).
  rewrite <- (bview_hit (ca_ok _ _ _ _ _ _ _ C) b) by done.
  by rewrite (ca_held _ _ _ _ _ _ _ C b bn), (ca_view _ _ _ _ _ _ _ C).
Qed.

Lemma cache_bread bn (Q : nat -> kst -> Prop) :
  (bn ∉ H.*2) -> (length H + size P < nbuf)%nat ->
  (forall b s', cache dev ((b, bn) :: H) P V D f s' -> Q b s') ->
  wp (bread dev bn) Q s.
Proof.
  intros Hbn Hn HQ. pose proof (ca_ok _ _ _ _ _ _ _ C) as OK. eapply (wp_bread _ _ _ _ _ _ OK).
  - intros i ([b bn'] & -> & Hin)%list_elem_of_fmap. cbn. rewrite (ca_held _ _ _ _ _ _ _ C b bn') by done.
    intros ->. apply Hbn, list_elem_of_fmap. by exists (b, bn).
  - by rewrite length_fmap.
  - intros b Hs. apply HQ. pose proof Hs as (Hb & HbH & _).
    assert (forall i, buf_at (s <| bufs := <[b := held_buf dev bn P s]> (bufs s) |>) i
      = if decide (i = b) then held_buf dev bn P s else buf_at s i) as Hat.
    { intros i. apply buf_at_insert. by rewrite (bo_len _ _ _ _ OK). }
    split; try apply C.
    + by apply bio_ok_hold.
    + intros b' bn' [[= -> ->]|Hin]%elem_of_cons; rewrite Hat.
      * by rewrite decide_True.
      * rewrite decide_False; [by apply (ca_held _ _ _ _ _ _ _ C)|]. intros ->. by apply HbH, (cache_in b bn').
    + intros bn'. rewrite (bview_hold OK) by done. apply C.
Qed.

Lemma cache_set b bn d (Q : unit -> kst -> Prop) :
  (b, bn) ∈ H -> length d = Z.to_nat BSIZE ->
  (forall s', cache dev H P (vset V bn d) D f s' -> Q tt s') ->
  wp (set_bdata b d) Q s.
Proof.
  intros Hin Hd HQ. pose proof (ca_ok _ _ _ _ _ _ _ C) as OK. pose proof (cache_in b bn Hin) as Hb.
  unfold set_bdata, updb. apply wp_modify, HQ. fold (put_data b d s).
  pose proof (fun i => buf_at_alter (fun x => x <| b_data := d |>) b i s (in_range OK b Hb)) as Hat.
  fold (put_data b d s) in Hat. split; try apply C.
  - by apply bio_ok_put.
  - intros b' bn' Hin'. rewrite Hat. rewrite <- (ca_held _ _ _ _ _ _ _ C b' bn') by done. by case_decide; subst.
  - intros bn'. rewrite (bview_put OK) by done. unfold vset. rewrite (ca_held _ _ _ _ _ _ _ C b bn) by done.
    case_decide; [done|]. apply C.
Qed.

Lemma cache_bwrite b bn (Q : unit -> kst -> Prop) :
  (b, bn) ∈ H ->
  (forall s', cache dev H P V (disk_write D bn (V bn)) f s' -> Q tt s') ->
  wp (bwrite b) Q s.
Proof.
  intros Hin HQ. pose proof (ca_ok _ _ _ _ _ _ _ C) as OK. pose proof (cache_in b bn Hin) as Hb.
  apply (wp_bwrite OK b Hb), HQ. split; try apply C.
  - by apply bio_ok_write.
  - intros bn'. rewrite (bview_write OK b Hb). apply C.
  - unfold put_disk. change (dsk (s <| dsk := ?x |>)) with x.
    by rewrite (cache_data b bn), (ca_held _ _ _ _ _ _ _ C b bn), (ca_disk _ _ _ _ _ _ _ C).
Qed.

Lemma cache_brelse b bn H' (Q : unit -> kst -> Prop) :
  H ≡ₚ (b, bn) :: H' -> (bn ∈ P \/ V bn = disk_read D bn) ->
  (forall s', cache dev H' P V D f s' -> Q tt s') ->
  wp (brelse b) Q s.
Proof.
  intros HH Hc HQ. pose proof (ca_ok _ _ _ _ _ _ _ C) as OK.
  assert ((b, bn) ∈ H) as Hin by (rewrite HH; left). pose proof (cache_in b bn Hin) as Hb.
  assert (H.*1 ≡ₚ b :: H'.*1) as HH1 by (by rewrite HH).
  apply (wp_brelse OK b Hb). intros l Hl. apply HQ.
  assert (b ∉ H'.*1) as HbH'.
  { pose proof (bo_nodup _ _ _ _ OK) as Hnd. rewrite HH1 in Hnd. by apply NoDup_cons in Hnd as [? _]. }
  split; try apply C.
  - apply (bio_ok_release OK b _ HH1 l Hl).
    by rewrite (cache_data b bn), (ca_held _ _ _ _ _ _ _ C b bn), (ca_disk _ _ _ _ _ _ _ C).
  - intros b' bn' Hin'. rewrite (release_at OK b _ HH1 l), decide_False.
    + apply C. rewrite HH. by right.
    + intros ->. apply HbH', list_elem_of_fmap. by exists (b, bn').
  - intros bn'. rewrite (bview_release OK b _ HH1 l). apply C.
  - rewrite (release_frame b l). apply C.
Qed.

Lemma cache_bunpin b bn (Q : unit -> kst -> Prop) :
  (b, bn) ∈ H -> bn ∈ P ->
  (forall s', cache dev H (P ∖ {[bn]}) V D f s' -> Q tt s') ->
  wp (bunpin b) Q s.
Proof.
  intros Hin HP HQ. pose proof (ca_ok _ _ _ _ _ _ _ C) as OK. pose proof (cache_in b bn Hin) as Hb.
  destruct (bo_held _ _ _ _ OK b Hb) as (Hbr & _ & _ & Hd).
  pose proof (ca_held _ _ _ _ _ _ _ C b bn Hin) as Hbn.
  assert (b_refcnt (buf_at s b) = 2) as Hr.
  { rewrite (bo_ref _ _ _ _ OK), held_in_yes, pinned_in_dev, Hbn by done. unfold pin_of.
    by rewrite decide_True. }
  apply (wp_bunpin _ _ _ _ _ _ OK); [done|lia|]. apply HQ.
  pose proof (fun i => buf_at_alter (fun x => x <| b_refcnt := b_refcnt (buf_at s b) - 1 |>) b i s (in_range OK b Hb)) as Hat.
  split; try apply C.
  - apply (bio_ok_pins OK); [done| |].
    + rewrite Hbn. intros x Hx. rewrite elem_of_difference, elem_of_singleton. tauto.
    + rewrite Hbn, Hr. unfold pin_of. rewrite decide_False; [done|].
      rewrite elem_of_difference, elem_of_singleton. tauto.
  - intros b' bn' Hin'. unfold put_ref. rewrite Hat. rewrite <- (ca_held _ _ _ _ _ _ _ C b' bn') by done.
    by case_decide; subst.
  - intros bn'. rewrite (bview_pins OK) by done. apply C.
Qed.

Lemma cache_ext V' : (forall bn, V bn = V' bn) -> cache dev H P V' D f s.
Proof. intros HV. split; try apply C. intros bn. rewrite <- HV. apply C. Qed.

End rules.

Lemma cache_printf {dev H P V D f s} fmt args (Q : unit -> kst -> Prop) :
  cache dev H P V D f s -> (forall s', cache dev H P V D f s' -> Q tt s') -> wp (printf fmt args) Q s.
Proof.
  intros C HQ. apply wp_printf; [apply C|]. apply HQ. destruct C as [OK Hh HV HD Hf Hpr].
  split; [|done..]. split; apply OK.
Qed.

(** The log header changes, and nothing the cache depends on. *)
Lemma cache_set_log {dev H P V D f s} g :
  cache dev H P V D f s -> cache dev H P V D (f <| lg ::= g |>) (s <| lg ::= g |>).
Proof.
  intros [OK Hh HV HD Hf Hpr]. split; [|done|done|done|by rewrite <- Hf|done]. split; apply OK.
Qed.

Lemma cache_lg {dev H P V D f s} : cache dev H P V D f s -> lg s = lg f.
Proof. intros C. by rewrite <- (ca_frame _ _ _ _ _ _ _ C). Qed.

(** ** Sequences of writes *)

Definition apply_writes (D : disk) (ws : list (Z * list Z)) : disk :=
  fold_left (fun d w => disk_write d w.1 w.2) ws D.

Definition vsets (V : Z -> list Z) (ws : list (Z * list Z)) : Z -> list Z :=
  fold_left (fun V w => vset V w.1 w.2) ws V.

Lemma vsets_cons V bn d ws : vsets V ((bn, d) :: ws) = vsets (vset V bn d) ws.
Proof. done. Qed.

Lemma apply_writes_cons D bn d ws : apply_writes D ((bn, d) :: ws) = apply_writes (disk_write D bn d) ws.
Proof. done. Qed.

Lemma vset_eq V bn d : vset V bn d bn = d.
Proof. unfold vset. by rewrite decide_True. Qed.

Lemma vset_ne V bn d bn' : bn' <> bn -> vset V bn d bn' = V bn'.
Proof. intros Hne. unfold vset. by rewrite decide_False. Qed.

Lemma vsets_not_in V ws bn : (bn ∉ ws.*1) -> vsets V ws bn = V bn.
Proof.
  revert V. induction ws as [|[b d] ws IH]; intros V; [done|]. rewrite fmap_cons, not_elem_of_cons.
  intros [Hne Hn]. rewrite vsets_cons, IH by done. by apply vset_ne.
Qed.

Lemma vsets_in V ws bn d : NoDup ws.*1 -> (bn, d) ∈ ws -> vsets V ws bn = d.
Proof.
  revert V. induction ws as [|[b x] ws IH]; intros V; [by intros _ Hin%elem_of_nil|].
  rewrite fmap_cons. intros [Hb Hnd]%NoDup_cons [[= <- <-]|Hin]%elem_of_cons; rewrite vsets_cons.
  - rewrite vsets_not_in by done. apply vset_eq.
  - by apply IH.
Qed.

(** The disk after a sequence of writes is the view after them. *)
Lemma disk_read_writes D ws bn : disk_read (apply_writes D ws) bn = vsets (disk_read D) ws bn.
Proof.
  revert D. assert (forall V D, (forall x, V x = disk_read D x) ->
    vsets V ws bn = disk_read (apply_writes D ws) bn) as Hg.
  { induction ws as [|[b d] ws IH]; intros V D HV; [apply HV|]. rewrite vsets_cons, apply_writes_cons. apply IH. intros x.
    rewrite disk_read_write. unfold vset. case_decide; [done|apply HV]. }
  intros D. symmetry. by apply Hg.
Qed.

Lemma apply_writes_app D a b : apply_writes D (a ++ b) = apply_writes (apply_writes D a) b.
Proof. apply fold_left_app. Qed.

Lemma apply_writes_trace D ws : d_trace (apply_writes D ws) = reverse ws ++ d_trace D.
Proof.
  revert D. induction ws as [|[b d] ws IH]; intros D; [done|].
  rewrite apply_writes_cons, IH, reverse_cons, <- app_assoc. done.
Qed.

(** ** The header block *)

Definition head_n (data : list Z) : Z := i32 (rd 4 data 0).
Definition head_block (data : list Z) (i : nat) : Z := i32 (rd 4 data (4 + 4 * Z.of_nat i)).

Lemma length_wr n bs off v : length (wr n bs off v) = length bs.
Proof. unfold wr. apply length_inserts. Qed.

Lemma rd_wr_ne n m bs off off' v :
  0 <= off -> 0 <= off' -> (off' + Z.of_nat n <= off \/ off + Z.of_nat m <= off') ->
  rd n (wr m bs off v) off' = rd n bs off'.
Proof.
  intros Ho Ho' Hd. unfold rd, wr. f_equal. apply list_eq. intros i.
  destruct (decide (i < n)%nat) as [Hi|Hi].
  - rewrite !lookup_take_lt, !lookup_drop by done. destruct Hd.
    + apply list_lookup_inserts_lt. lia.
    + apply list_lookup_inserts_ge. rewrite le_encode_length. lia.
  - by rewrite !lookup_take_ge by lia.
Qed.

Lemma i32_small x : 0 <= x < 2 ^ 31 -> i32 (x `mod` 2 ^ (8 * Z.of_nat 4)) = x.
Proof.
  intros Hx. change (8 * Z.of_nat 4) with 32. rewrite (Z.mod_small x) by lia.
  unfold i32. rewrite Z.mod_small; lia.
Qed.

Definition put_blocks (bl : list Z) (k : nat) (data : list Z) : list Z :=
  fold_left (fun d (i : nat) => wr 4 d (4 + 4 * Z.of_nat i) (nth i bl 0)) (seq 0 k) data.

Lemma put_blocks_S bl k data :
  put_blocks bl (S k) data = wr 4 (put_blocks bl k data) (4 + 4 * Z.of_nat k) (nth k bl 0).
Proof. unfold put_blocks. by rewrite seq_S, fold_left_app. Qed.

Lemma put_blocks_spec bl k data :
  (4 + 4 * k <= length data)%nat ->
  length (put_blocks bl k data) = length data /\
  rd 4 (put_blocks bl k data) 0 = rd 4 data 0 /\
  forall i, (i < k)%nat ->
    rd 4 (put_blocks bl k data) (4 + 4 * Z.of_nat i) = (nth i bl 0) `mod` 2 ^ (8 * Z.of_nat 4).
Proof.
  induction k as [|k IH]; intros Hk; [split_and!; [done..|lia]|]. destruct IH as (Hl & H0 & Hi); [lia|].
  rewrite put_blocks_S, length_wr. split_and!; [done| |].
  - rewrite rd_wr_ne by lia. done.
  - intros i Hik. destruct (decide (i = k)) as [->|Hne].
    + apply rd_wr; [lia|]. rewrite Hl. lia.
    + rewrite rd_wr_ne by lia. apply Hi. lia.
Qed.

(** ** The log region *)

(** A header in memory: its blocks are distinct, outside the log region, and
    at most 28, so that two buffers are left for the copies. *)
Record log_ok (l : log) : Prop := {
  lo_n : 0 <= lh_n l <= 28;
  lo_len : lh_n l <= Z.of_nat (length (lh_block l));
  lo_nodup : NoDup (take (Z.to_nat (lh_n l)) (lh_block l));
  lo_range : forall bn, bn ∈ take (Z.to_nat (lh_n l)) (lh_block l) ->
    0 <= bn < 2 ^ 31 /\ (bn < lg_start l \/ lg_start l + LOGBLOCKS < bn)
}.

Definition log_blocks (l : log) : list Z := take (Z.to_nat (lh_n l)) (lh_block l).

(** The blocks the log itself lives in. *)
Definition in_log (l : log) (bn : Z) : Prop := lg_start l <= bn <= lg_start l + LOGBLOCKS.

(** What [write_log] and [install_trans] write in their first [k] rounds. *)
Definition log_writes (l : log) (V : Z -> list Z) (k : nat) : list (Z * list Z) :=
  (fun i : nat => (lg_start l + Z.of_nat i + 1, V (nth i (lh_block l) 0))) <$> seq 0 k.

Definition install_writes (l : log) (V : Z -> list Z) (k : nat) : list (Z * list Z) :=
  (fun i : nat => (nth i (lh_block l) 0, V (lg_start l + Z.of_nat i + 1))) <$> seq 0 k.

Lemma log_writes_S l V k :
  log_writes l V (S k) = log_writes l V k ++ [(lg_start l + Z.of_nat k + 1, V (nth k (lh_block l) 0))].
Proof. unfold log_writes. by rewrite seq_S, fmap_app. Qed.

Lemma install_writes_S l V k :
  install_writes l V (S k) = install_writes l V k ++ [(nth k (lh_block l) 0, V (lg_start l + Z.of_nat k + 1))].
Proof. unfold install_writes. by rewrite seq_S, fmap_app. Qed.

Lemma vsets_app V a b : vsets V (a ++ b) = vsets (vsets V a) b.
Proof. apply fold_left_app. Qed.

Lemma log_writes_blocks l V k bn : bn ∈ (log_writes l V k).*1 -> lg_start l < bn <= lg_start l + Z.of_nat k.
Proof.
  unfold log_writes. rewrite <- list_fmap_compose. intros (i & -> & Hi%elem_of_seq)%list_elem_of_fmap. cbn. lia.
Qed.

Section header.
Context {l : log} (LO : log_ok l).

Lemma log_blocks_length : length (log_blocks l) = Z.to_nat (lh_n l).
Proof. unfold log_blocks. rewrite length_take. pose proof (lo_len _ LO). pose proof (lo_n _ LO). lia. Qed.

Lemma log_block_lookup i : Z.of_nat i < lh_n l -> log_blocks l !! i = Some (nth i (lh_block l) 0).
Proof.
  intros Hi. unfold log_blocks. rewrite lookup_take_lt by lia. pose proof (lo_len _ LO).
  destruct (lookup_lt_is_Some_2 (lh_block l) i) as [x Hx]; [lia|].
  rewrite Hx. f_equal. by rewrite (nth_lookup_Some _ _ _ _ Hx).
Qed.

Lemma log_block_in i : Z.of_nat i < lh_n l -> nth i (lh_block l) 0 ∈ log_blocks l.
Proof. intros Hi. eapply list_elem_of_lookup_2. by apply log_block_lookup. Qed.

Lemma log_block_out i : Z.of_nat i < lh_n l -> ~ in_log l (nth i (lh_block l) 0).
Proof.
  intros Hi. destruct (lo_range _ LO _ (log_block_in i Hi)) as [_ Hr]. unfold in_log. lia.
Qed.

Lemma install_blocks V k :
  Z.of_nat k <= lh_n l -> (install_writes l V k).*1 = take k (log_blocks l).
Proof.
  intros Hk. unfold install_writes. rewrite <- list_fmap_compose. apply list_eq. intros i.
  rewrite list_lookup_fmap. destruct (decide (i < k)%nat) as [Hi|Hi].
  - rewrite lookup_seq_lt, lookup_take_lt by done. cbn. by rewrite log_block_lookup by lia.
  - rewrite lookup_seq_ge, lookup_take_ge by lia. done.
Qed.

Lemma head_put data :
  length data = Z.to_nat BSIZE ->
  length (put_head l data) = Z.to_nat BSIZE /\ head_n (put_head l data) = lh_n l /\
  forall i, Z.of_nat i < lh_n l -> head_block (put_head l data) i = nth i (lh_block l) 0.
Proof.
  intros Hd. change (put_head l data) with (put_blocks (lh_block l) (Z.to_nat (lh_n l)) (wr 4 data 0 (lh_n l))).
  pose proof (lo_n _ LO) as Hn.
  destruct (put_blocks_spec (lh_block l) (Z.to_nat (lh_n l)) (wr 4 data 0 (lh_n l))) as (Hl & H0 & Hi).
  { rewrite length_wr, Hd. change (Z.to_nat BSIZE) with 1024%nat. lia. }
  rewrite Hl, length_wr. split_and!; [done| |].
  - unfold head_n. rewrite H0, rd_wr, i32_small; [lia..|]. rewrite Hd. change (Z.to_nat BSIZE) with 1024%nat. lia.
  - intros i Hlt. unfold head_block. rewrite Hi by lia. apply i32_small.
    by destruct (lo_range _ LO _ (log_block_in i Hlt)).
Qed.

End header.

(** ** write_log, write_head, install_trans *)

(** Reading the data of a held buffer. *)
Lemma cache_bdata {dev H P V D f s} b bn (Q : list Z -> kst -> Prop) :
  cache dev H P V D f s -> (b, bn) ∈ H -> Q (V bn) s -> wp (bdata b) Q s.
Proof. intros C Hin HQ. unfold bdata. apply wp_gets. by rewrite (cache_data C b bn). Qed.

Section log_ops.
Context {dev : Z} {P : gset Z} {V : Z -> list Z} {D : disk} {f : kst}.
Let l : log := lg f.
Context (LO : log_ok l) (Hdev : lg_dev l = dev).

Lemma wp_write_log (Q : unit -> kst -> Prop) s :
  cache dev [] P V D f s -> (size P <= 28)%nat ->
  (forall bn, bn ∈ log_blocks l -> bn ∈ P) -> (forall bn, bn ∈ P -> ~ in_log l bn) ->
  (forall s', cache dev [] P (vsets V (log_writes l V (Z.to_nat (lh_n l))))
     (apply_writes D (log_writes l V (Z.to_nat (lh_n l)))) f s' -> Q tt s') ->
  wp write_log Q s.
Proof.
  intros C HP Hin Hout HQ. pose proof (lo_n _ LO) as Hn. unfold write_log.
  apply (wp_loop (fun n tail s => 0 <= tail <= lh_n l /\ n = lh_n l - tail + 1 /\
    cache dev [] P (vsets V (log_writes l V (Z.to_nat tail)))
      (apply_writes D (log_writes l V (Z.to_nat tail))) f s)) with (n := lh_n l + 1); [|lia|].
  2:{ split_and!; [lia|lia|lia|done]. }
  clear C s. intros n tail s (Ht & -> & C). split; [lia|]. wp_step. wp_step. rewrite (cache_lg C). fold l.
  destruct (Z.ltb_spec tail (lh_n l)) as [Hlt|Hge]; cbn [negb].
  2:{ apply wp_ret, HQ. by replace (lh_n l) with tail by lia. }
  set (k := Z.to_nat tail) in *. rewrite Hdev. assert (Z.of_nat k = tail) as Hk by lia.
  set (lb := lg_start l + tail + 1). set (hb := nth k (lh_block l) 0).
  assert (hb ∈ log_blocks l) as Hhb by (apply (log_block_in LO); lia).
  assert (~ in_log l hb) as Hho by auto. unfold in_log in Hho. change LOGBLOCKS with 30 in Hho.
  wp_step. apply (cache_bread C); [by apply not_elem_of_nil|cbn; change nbuf with 30%nat; lia|]. clear C s.
  intros to s C. wp_step. apply (cache_bread C);
    [cbn; rewrite list_elem_of_singleton; lia|cbn; change nbuf with 30%nat; lia|]. clear C s.
  intros from s C. wp_step. apply (cache_bdata from hb _ C); [left|].
  assert (vsets V (log_writes l V k) hb = V hb) as ->.
  { apply vsets_not_in. intros Hx%log_writes_blocks. lia. }
  pose proof (cache_view_length C) as HVl.
  assert (length (V hb) = Z.to_nat BSIZE) as Hlen.
  { rewrite <- (HVl hb). f_equal. symmetry. apply vsets_not_in. intros Hx%log_writes_blocks. lia. }
  wp_step. apply (cache_set C to lb); [by right; left|done|]. clear C s. intros s C.
  wp_step. apply (cache_bwrite C to lb); [by right; left|]. clear C s. intros s C. rewrite vset_eq in C.
  wp_step. apply (cache_brelse C from hb [(to, lb)]); [done|left; by apply Hin|]. clear C s. intros s C.
  wp_step. apply (cache_brelse C to lb []); [done| |].
  { right. by rewrite vset_eq, disk_read_write, decide_True. }
  clear C s. intros s C. apply wp_ret. exists (lh_n l - (tail + 1) + 1). split_and!; [lia..|].
  replace (Z.to_nat (tail + 1)) with (S k) by lia. rewrite log_writes_S, vsets_app, apply_writes_app, Hk.
  exact C.
Qed.

Lemma wp_write_head (Q : unit -> kst -> Prop) s :
  cache dev [] P V D f s -> (size P <= 28)%nat -> (lg_start l ∉ P) ->
  (forall s', cache dev [] P (vset V (lg_start l) (put_head l (V (lg_start l))))
     (disk_write D (lg_start l) (put_head l (V (lg_start l)))) f s' -> Q tt s') ->
  wp write_head Q s.
Proof.
  intros C HP Hst HQ. unfold write_head. wp_step. wp_step. rewrite (cache_lg C). fold l. rewrite Hdev.
  wp_step. apply (cache_bread C); [by apply not_elem_of_nil|cbn; change nbuf with 30%nat; lia|].
  pose proof (cache_view_length C (lg_start l)) as Hlen. destruct (head_put LO _ Hlen) as [Hpl _].
  clear C s. intros b s C. wp_step. apply (cache_bdata b (lg_start l) _ C); [left|].
  wp_step. apply (cache_set C b (lg_start l)); [left|done|]. clear C s. intros s C.
  wp_step. apply (cache_bwrite C b (lg_start l)); [left|]. clear C s. intros s C. rewrite vset_eq in C.
  apply (cache_brelse C b (lg_start l) []); [done| |done].
  right. by rewrite vset_eq, disk_read_write, decide_True.
Qed.

(** The pins that are left after [k] rounds. *)
Definition pins_left (recovering : bool) (k : nat) : gset Z :=
  if recovering then P else P ∖ list_to_set (take k (log_blocks l)).

Lemma pins_left_0 r : pins_left r 0 = P.
Proof. destruct r; [done|]. apply set_eq. intros x. unfold pins_left. rewrite elem_of_difference. set_solver. Qed.

Lemma pins_left_S k :
  Z.of_nat k < lh_n l ->
  pins_left false (S k) = pins_left false k ∖ {[nth k (lh_block l) 0]}.
Proof.
  intros Hk. unfold pins_left. rewrite (take_S_r _ _ _ (log_block_lookup LO k Hk)).
  rewrite list_to_set_app_L. cbn. set_solver.
Qed.

Lemma pins_left_in k :
  Z.of_nat k < lh_n l -> nth k (lh_block l) 0 ∈ P -> nth k (lh_block l) 0 ∈ pins_left false k.
Proof.
  intros Hk HP. unfold pins_left. rewrite elem_of_difference, elem_of_list_to_set. split; [done|].
  intros Hin. apply elem_of_take in Hin as (i & Hi & Hlt).
  pose proof (NoDup_lookup _ _ _ _ (lo_nodup _ LO) Hi (log_block_lookup LO k Hk)). lia.
Qed.

Lemma pins_left_size r k : (size (pins_left r k) <= size P)%nat.
Proof. destruct r; cbn; [done|]. apply subseteq_size. set_solver. Qed.

Lemma wp_install_trans (recovering : bool) (Q : unit -> kst -> Prop) s :
  cache dev [] P V D f s -> (size P <= 28)%nat ->
  (recovering = false -> forall bn, bn ∈ log_blocks l -> bn ∈ P) ->
  (forall bn, bn ∈ P -> ~ in_log l bn) ->
  (forall s', cache dev [] (pins_left recovering (Z.to_nat (lh_n l)))
     (vsets V (install_writes l V (Z.to_nat (lh_n l))))
     (apply_writes D (install_writes l V (Z.to_nat (lh_n l)))) f s' -> Q tt s') ->
  wp (install_trans recovering) Q s.
Proof.
  intros C0 HP Hin Hout HQ. pose proof (lo_n _ LO) as Hn. unfold install_trans.
  apply (wp_loop (fun n tail s => 0 <= tail <= lh_n l /\ n = lh_n l - tail + 1 /\
    cache dev [] (pins_left recovering (Z.to_nat tail)) (vsets V (install_writes l V (Z.to_nat tail)))
      (apply_writes D (install_writes l V (Z.to_nat tail))) f s)) with (n := lh_n l + 1); [|lia|].
  2:{ split_and!; [lia|lia|lia|]. change (Z.to_nat 0) with 0%nat. by rewrite pins_left_0. }
  pose proof (cache_clean C0) as Hclean. clear C0 s. intros n tail s (Ht & -> & C). split; [lia|].
  wp_step. wp_step. rewrite (cache_lg C). fold l.
  destruct (Z.ltb_spec tail (lh_n l)) as [Hlt|Hge]; cbn [negb].
  2:{ apply wp_ret, HQ. by replace (lh_n l) with tail by lia. }
  set (k := Z.to_nat tail) in *. rewrite Hdev. assert (Z.of_nat k = tail) as Hk by lia.
  set (lb := lg_start l + tail + 1). set (hb := nth k (lh_block l) 0).
  assert (~ in_log l hb) as Hho by (apply (log_block_out LO); lia).
  unfold in_log in Hho. change LOGBLOCKS with 30 in Hho.
  assert (lb ∉ (install_writes l V k).*1) as Hlb.
  { rewrite (install_blocks LO) by lia. intros (i & Hi & _)%elem_of_take.
    apply list_elem_of_lookup_2 in Hi. destruct (lo_range _ LO _ Hi) as [_ Hr].
    change LOGBLOCKS with 30 in Hr. lia. }
  assert (lb ∉ P) as HlbP by (intros Hx; apply (Hout _ Hx); unfold in_log; change LOGBLOCKS with 30; lia).
  assert (V lb = disk_read D lb) as HVlb by (apply Hclean; [done|apply not_elem_of_nil]).
  pose proof (pins_left_size recovering k) as Hsz.
  wp_step. apply (wp_mono _ (fun _ s => cache dev [] (pins_left recovering k) (vsets V (install_writes l V k))
      (apply_writes D (install_writes l V k)) f s)).
  { unfold when. destruct recovering; [|by apply wp_ret]. by apply (cache_printf _ _ _ C). }
  clear C s. intros _ s C.
  wp_step. apply (cache_bread C); [by apply not_elem_of_nil|cbn; change nbuf with 30%nat; lia|]. clear C s.
  intros lbuf s C. wp_step. apply (cache_bread C);
    [cbn; rewrite list_elem_of_singleton; lia|cbn; change nbuf with 30%nat; lia|]. clear C s.
  intros dbuf s C. wp_step. apply (cache_bdata lbuf lb _ C); [by right; left|].
  pose proof (cache_view_length C lb) as Hlen. rewrite vsets_not_in in Hlen |- * by done.
  wp_step. apply (cache_set C dbuf hb); [left|done|]. clear C s. intros s C.
  wp_step. apply (cache_bwrite C dbuf hb); [left|]. clear C s. intros s C. rewrite vset_eq in C.
  wp_step. apply (wp_mono _ (fun _ s => cache dev [(dbuf, hb); (lbuf, lb)] (pins_left recovering (S k))
    (vset (vsets V (install_writes l V k)) hb (V lb))
    (disk_write (apply_writes D (install_writes l V k)) hb (V lb)) f s)).
  { unfold when. destruct recovering; cbn [negb]; [by apply wp_ret|].
    apply (cache_bunpin C dbuf hb); [left| |].
    - apply pins_left_in; [lia|]. apply Hin; [done|]. apply (log_block_in LO). lia.
    - intros s' C'. rewrite pins_left_S by lia. exact C'. }
  clear C s. intros _ s C.
  wp_step. apply (cache_brelse C lbuf lb [(dbuf, hb)]); [by apply Permutation_swap| |].
  { right. rewrite vset_ne by lia. rewrite disk_read_write, decide_False by lia.
    by rewrite disk_read_writes, !vsets_not_in. }
  clear C s. intros s C. wp_step. apply (cache_brelse C dbuf hb []); [done| |].
  { right. by rewrite vset_eq, disk_read_write, decide_True. }
  clear C s. intros s C. apply wp_ret. exists (lh_n l - (tail + 1) + 1). split_and!; [lia..|].
  replace (Z.to_nat (tail + 1)) with (S k) by lia. rewrite install_writes_S, vsets_app, apply_writes_app, Hk.
  exact C.
Qed.

End log_ops.

(** ** Reading the header back *)

(** The log after [read_head]. *)
Definition head_log (l : log) (data : list Z) : log :=
  l <| lh_n := head_n data |>
    <| lh_block ::= fun bl =>
         (head_block data <$> seq 0 (Z.to_nat (head_n data))) ++ drop (Z.to_nat (head_n data)) bl |>.

Lemma log_ok_empty l : lh_n l = 0 -> log_ok l.
Proof.
  intros H0. split; rewrite H0.
  - lia.
  - lia.
  - rewrite take_0. constructor.
  - rewrite take_0. by intros bn Hin%elem_of_nil.
Qed.

Lemma log_blocks_head l data :
  log_blocks (head_log l data) = head_block data <$> seq 0 (Z.to_nat (head_n data)).
Proof.
  unfold log_blocks, head_log. cbn. apply take_app_length'. by rewrite length_fmap, length_seq.
Qed.

(** The header [write_head] wrote is the one [read_head] reads. *)
Lemma head_log_put lb l x :
  log_ok l -> lg_start lb = lg_start l -> length x = Z.to_nat BSIZE ->
  log_ok (head_log lb (put_head l x)) /\ lh_n (head_log lb (put_head l x)) = lh_n l /\
  log_blocks (head_log lb (put_head l x)) = log_blocks l.
Proof.
  intros LO Hs Hx. destruct (head_put LO x Hx) as (_ & Hn & Hb). pose proof (lo_n _ LO) as Hr.
  assert (log_blocks (head_log lb (put_head l x)) = log_blocks l) as HB.
  { rewrite log_blocks_head, Hn. apply list_eq. intros i. rewrite list_lookup_fmap.
    destruct (decide (i < Z.to_nat (lh_n l))%nat) as [Hi|Hi].
    - rewrite lookup_seq_lt by done. cbn. rewrite Hb, (log_block_lookup LO) by lia. done.
    - rewrite lookup_seq_ge by lia. cbn. symmetry. apply lookup_ge_None. rewrite (log_blocks_length LO). lia. }
  assert (lh_n (head_log lb (put_head l x)) = lh_n l) as HN by done.
  split_and!; [|done|done]. split.
  - by rewrite HN.
  - rewrite HN. unfold head_log. cbn. rewrite Hn, length_app, length_fmap, length_seq. lia.
  - fold (log_blocks (head_log lb (put_head l x))). rewrite HB. apply LO.
  - fold (log_blocks (head_log lb (put_head l x))). rewrite HB.
    change (lg_start (head_log lb _)) with (lg_start lb). rewrite Hs. apply LO.
Qed.

(** ** commit *)

Definition home_writes (l : log) (V : Z -> list Z) (k : nat) : list (Z * list Z) :=
  (fun i : nat => (nth i (lh_block l) 0, V (nth i (lh_block l) 0))) <$> seq 0 k.

(** The log with an empty header. *)
Definition log_cleared (l : log) : log := l <| lh_n := 0 |>.

(** The writes of a commit, in order: the copies, the header, the blocks in
    their places, the empty header. *)
Definition commit_writes (l : log) (V : Z -> list Z) : list (Z * list Z) :=
  let n := Z.to_nat (lh_n l) in
  let hd := put_head l (V (lg_start l)) in
  log_writes l V n ++ [(lg_start l, hd)] ++ home_writes l V n ++
  [(lg_start l, put_head (log_cleared l) hd)].

Lemma log_writes_nodup l V k : NoDup (log_writes l V k).*1.
Proof.
  unfold log_writes. rewrite <- list_fmap_compose. apply NoDup_fmap_2_strong; [|apply NoDup_seq].
  intros i j _ _. cbn. lia.
Qed.

Lemma log_copy l V0 V k i :
  (i < k)%nat -> vsets V0 (log_writes l V k) (lg_start l + Z.of_nat i + 1) = V (nth i (lh_block l) 0).
Proof.
  intros Hi. apply vsets_in; [apply log_writes_nodup|]. apply list_elem_of_fmap. exists i.
  split; [done|]. apply elem_of_seq. lia.
Qed.

Lemma install_home l V V' k :
  (forall i, (i < k)%nat -> V' (lg_start l + Z.of_nat i + 1) = V (nth i (lh_block l) 0)) ->
  install_writes l V' k = home_writes l V k.
Proof.
  intros HV. apply list_fmap_ext. intros i j [-> Hj]%lookup_seq. by rewrite HV.
Qed.

Section commit.
Context {dev : Z} {V : Z -> list Z} {D : disk} {f : kst}.
Let l : log := lg f.
Let P : gset Z := list_to_set (log_blocks l).
Context (LO : log_ok l) (Hdev : lg_dev l = dev) (Hpos : 0 < lh_n l).

Lemma pins_out bn : bn ∈ P -> ~ in_log l bn.
Proof.
  subst P. rewrite elem_of_list_to_set. intros Hin. destruct (lo_range _ LO bn Hin) as [_ Hr].
  unfold in_log. lia.
Qed.

Lemma pins_size : (size P <= 28)%nat.
Proof.
  subst P. rewrite size_list_to_set by apply (lo_nodup _ LO). rewrite (log_blocks_length LO).
  pose proof (lo_n _ LO). lia.
Qed.

Lemma start_in_log : in_log l (lg_start l).
Proof. unfold in_log. change LOGBLOCKS with 30. lia. Qed.

Lemma wp_commit (Q : unit -> kst -> Prop) s :
  cache dev [] P V D f s ->
  (forall s' V', cache dev [] ∅ V' (apply_writes D (commit_writes l V)) (f <| lg ::= log_cleared |>) s' -> Q tt s') ->
  wp commit Q s.
Proof.
  intros C HQ. set (n := Z.to_nat (lh_n l)) in *. unfold commit. wp_step. wp_step. rewrite (cache_lg C). fold l.
  rewrite (proj2 (Z.ltb_lt _ _) Hpos). unfold when.
  wp_step. apply (wp_write_log LO Hdev _ _ C pins_size); [by intros bn; subst P; rewrite elem_of_list_to_set|apply pins_out|].
  clear C s. intros s C. fold l in C. fold n in C. wp_step.
  assert (lg_start l ∉ P) as Hst by (intros Hx; by apply (pins_out _ Hx), start_in_log).
  apply (wp_write_head LO Hdev _ _ C pins_size Hst). clear C s. intros s C.
  assert (vsets V (log_writes l V n) (lg_start l) = V (lg_start l)) as HVs.
  { apply vsets_not_in. intros Hx%log_writes_blocks. lia. }
  fold l in C. fold n in C. rewrite HVs in C. wp_step.
  apply (wp_install_trans LO Hdev false _ _ C pins_size); [by intros _ bn; subst P; rewrite elem_of_list_to_set|apply pins_out|].
  clear C s. intros s C. fold l in C. fold n in C. rewrite (install_home l V) in C.
  2:{ intros i Hi. rewrite vset_ne by lia. by apply log_copy. }
  replace (pins_left false n) with (∅ : gset Z) in C.
  2:{ unfold pins_left. subst P n. rewrite <- (log_blocks_length LO), take_ge by done. set_solver. }
  wp_step. wp_step. apply (cache_set_log log_cleared) in C.
  assert (lg_start l ∉ (home_writes l V n).*1) as Hsh.
  { rewrite <- (install_home l V (fun x => vsets V (log_writes l V n) x)) by (intros; by apply log_copy).
    rewrite (install_blocks LO) by lia. intros (i & Hi & _)%elem_of_take. apply list_elem_of_lookup_2 in Hi.
    destruct (lo_range _ LO _ Hi) as [_ Hr]. change LOGBLOCKS with 30 in Hr. lia. }
  refine (wp_write_head (f:=f <| lg ::= log_cleared |>) _ _ _ _ C _ _ _).
  { by apply log_ok_empty. }
  { done. }
  { rewrite size_empty. lia. }
  { apply not_elem_of_empty. }
  clear C s. intros s C. change (lg_start (lg (f <| lg ::= log_cleared |>))) with (lg_start l) in C.
  rewrite vsets_not_in, vset_eq in C by done. eapply HQ.
  unfold commit_writes. fold n. rewrite !apply_writes_app. exact C.
Qed.

End commit.

(** ** Recovery *)

(** The writes of [recover_from_log] on a disk: the installation of the
    transaction the header names, and the empty header. *)
Definition recover_writes (l : log) (D : disk) : list (Z * list Z) :=
  let hd := disk_read D (lg_start l) in
  install_writes (head_log l hd) (disk_read D) (Z.to_nat (head_n hd)) ++
  [(lg_start l, put_head (log_cleared (head_log l hd)) hd)].

Section recovery.
Context {dev : Z} {V : Z -> list Z} {D : disk} {f : kst}.
Let l : log := lg f.
Context (Hdev : lg_dev l = dev).

Lemma wp_read_head (Q : unit -> kst -> Prop) s :
  cache dev [] ∅ V D f s ->
  (forall s', cache dev [] ∅ V D (f <| lg := head_log l (V (lg_start l)) |>) s' -> Q tt s') ->
  wp read_head Q s.
Proof.
  intros C HQ. unfold read_head. wp_step. wp_step. rewrite (cache_lg C). fold l. rewrite Hdev.
  wp_step. apply (cache_bread C); [by apply not_elem_of_nil|rewrite size_empty; cbn; change nbuf with 30%nat; lia|].
  pose proof (cache_clean C (lg_start l)) as Hcl.
  clear C s. intros b s C. wp_step. apply (cache_bdata b (lg_start l) _ C); [left|].
  wp_step. wp_step. apply (cache_set_log (fun l => head_log l (V (lg_start (lg f))))) in C.
  apply (cache_brelse C b (lg_start l) []); [done| |done].
  right. apply Hcl; [apply not_elem_of_empty|apply not_elem_of_nil].
Qed.

End recovery.

Section recover.
Context {dev : Z} {V : Z -> list Z} {D : disk} {f : kst}.
Let l : log := lg f.
Context (Hdev : lg_dev l = dev).

Lemma wp_recover (Q : unit -> kst -> Prop) s :
  cache dev [] ∅ V D f s -> log_ok (head_log l (disk_read D (lg_start l))) ->
  (forall s' V' f', cache dev [] ∅ V' (apply_writes D (recover_writes l D)) f' s' -> Q tt s') ->
  wp recover_from_log Q s.
Proof.
  intros C LO HQ. set (hd := disk_read D (lg_start l)) in *.
  assert (forall bn, V bn = disk_read D bn) as HV.
  { intros bn. apply (cache_clean C); [apply not_elem_of_empty|apply not_elem_of_nil]. }
  pose proof (cache_ext C _ HV) as C1. clear HV C. rename C1 into C.
  unfold recover_from_log. wp_step. refine (wp_read_head Hdev _ _ C _). clear C s. intros s C.
  set (f1 := f <| lg := head_log l hd |>). change (cache dev [] ∅ (disk_read D) D f1 s) in C.
  wp_step. apply (wp_install_trans (f:=f1) LO Hdev true _ _ C);
    [rewrite size_empty; lia|done|by intros bn Hin%not_elem_of_empty|]. clear C s. intros s C.
  wp_step. wp_step. apply (cache_set_log log_cleared) in C.
  assert (log_ok (lg (f1 <| lg ::= log_cleared |>))) as LO1 by (by apply log_ok_empty).
  apply (wp_write_head (f:=f1 <| lg ::= log_cleared |>) LO1 Hdev _ _ C).
  { change (pins_left true _) with (∅ : gset Z). rewrite size_empty. lia. }
  { apply not_elem_of_empty. }
  clear C s. intros s C. eapply HQ. unfold recover_writes. fold hd. rewrite apply_writes_app.
  change (lg_start (lg (_ <| lg ::= log_cleared |>))) with (lg_start l) in C.
  rewrite vsets_not_in in C; [exact C|].
  change (lh_n (lg f1)) with (head_n hd). change (lg f1) with (head_log l hd).
  rewrite (install_blocks LO) by (pose proof (lo_n _ LO); change (lh_n (head_log l hd)) with (head_n hd) in *; lia).
  intros (i & Hi & _)%elem_of_take. apply list_elem_of_lookup_2 in Hi.
  destruct (lo_range _ LO _ Hi) as [_ Hr]. change LOGBLOCKS with 30 in Hr.
  change (lg_start (head_log l hd)) with (lg_start l) in Hr. lia.
Qed.

End recover.

(** ** log_write *)

Lemma bio_ok_locks dev H P L s : free_locks L -> bio_ok dev H P s -> bio_ok dev H P (s <| locks := L |>).
Proof. intros HL OK. split; try apply OK; done. Qed.

Lemma bio_ok_lg dev H P g s : bio_ok dev H P s -> bio_ok dev H P (s <| lg ::= g |>).
Proof. intros OK. split; apply OK. Qed.

Lemma log_find_spec n bl bn :
  (n <= length bl)%nat ->
  (log_find n bl bn < n /\ take n bl !! log_find n bl bn = Some bn)%nat \/
  (log_find n bl bn = n /\ (bn ∉ take n bl)).
Proof.
  revert bl. induction n as [|n IH]; intros [|x bl] Hn; cbn in *; try (right; split; [done|apply not_elem_of_nil]); try lia.
  destruct (Z.eqb_spec x bn) as [->|Hx]; [left; split; [lia|done]|].
  destruct (IH bl ltac:(lia)) as [[H1 H2]|[H1 H2]]; [left|right]; split.
  - lia.
  - done.
  - lia.
  - rewrite not_elem_of_cons. auto.
Qed.

(** Within a transaction: the blocks of the header are the pinned ones. *)
Record tx_ok (dev : Z) (H : list nat) (s : kst) : Prop := {
  tx_bio : bio_ok dev H (list_to_set (log_blocks (lg s))) s;
  tx_n : 0 <= lh_n (lg s) <= LOGBLOCKS;
  tx_len : length (lh_block (lg s)) = Z.to_nat LOGBLOCKS;
  tx_nodup : NoDup (log_blocks (lg s))
}.

(** The header after [log_write] of block [bn]. *)
Definition log_add (bn : Z) (l : log) : log :=
  if decide (bn ∈ log_blocks l) then l
  else l <| lh_block ::= <[Z.to_nat (lh_n l) := bn]> |> <| lh_n ::= fun n => n + 1 |>.

Lemma log_add_blocks bn l :
  0 <= lh_n l -> lh_n l < Z.of_nat (length (lh_block l)) -> (bn ∉ log_blocks l) ->
  log_blocks (log_add bn l) = log_blocks l ++ [bn].
Proof.
  intros H0 Hn Hbn. unfold log_add. rewrite decide_False by done. unfold log_blocks. cbn.
  replace (Z.to_nat (lh_n l + 1)) with (S (Z.to_nat (lh_n l))) by lia.
  rewrite (take_S_r _ _ bn) by (apply list_lookup_insert_eq; lia).
  by rewrite take_insert_ge by lia.
Qed.

Lemma log_set_present bn l :
  (Z.to_nat (lh_n l) <= length (lh_block l))%nat ->
  log_blocks l !! log_find (Z.to_nat (lh_n l)) (lh_block l) bn = Some bn ->
  <[log_find (Z.to_nat (lh_n l)) (lh_block l) bn := bn]> (lh_block l) = lh_block l.
Proof.
  intros Hle Hf. apply list_insert_id. unfold log_blocks in Hf.
  apply lookup_take_Some in Hf as [? _]. done.
Qed.

(** The whole of [log_write] on a held buffer. *)
Lemma wp_log_write dev H b (Q : unit -> kst -> Prop) s :
  tx_ok dev H s -> b ∈ H -> lh_n (lg s) < LOGBLOCKS -> 1 <= lg_outstanding (lg s) -> (Llog ∉ locks s) ->
  (let bn := b_blockno (buf_at s b) in
   let r := 1 + pin_of (list_to_set (log_blocks (log_add bn (lg s)))) bn in
   Q tt (put_ref b r s <| lg ::= log_add bn |>)) ->
  wp (log_write b) Q s.
Proof.
  intros [OK Hn Hl Hnd] Hb Hlt Hout HLl HQ. cbv zeta in HQ. set (bn := b_blockno (buf_at s b)) in *.
  assert (bio_ok dev H (list_to_set (log_blocks (lg s))) (s <| locks := Llog :: locks s |>)) as OK1.
  { apply bio_ok_locks; [|done]. destruct (bo_locks _ _ _ _ OK) as (H1 & H2 & H3).
    split_and!; [|intros x|intros x]; rewrite not_elem_of_cons; split; done || apply H2 || apply H3. }
  unfold log_write. apply wp_bind, wp_acquire; [done|]. wp_step. wp_step.
  change (lg (s <| locks ::= _ |>)) with (lg s).
  rewrite (proj2 (Z.leb_gt _ _)) by lia. rewrite (proj2 (Z.ltb_ge _ _)) by lia. wp_step. wp_step. wp_step.
  change (b_blockno (buf_at (s <| locks ::= _ |>) b)) with bn. wp_step. wp_step.
  set (i := log_find (Z.to_nat (lh_n (lg s))) (lh_block (lg s)) bn).
  destruct (bo_held _ _ _ _ OK b Hb) as (Hbr & _ & _ & Hbd).
  pose proof (bo_ref _ _ _ _ OK b Hbr) as Hr. rewrite held_in_yes, pinned_in_dev in Hr by done. fold bn in Hr.
  assert (Z.to_nat (lh_n (lg s)) <= length (lh_block (lg s)))%nat as Hle by (rewrite Hl; lia).
  wp_step. destruct (log_find_spec _ _ bn Hle) as [[Hi Hf]|[Hi Hf]]; fold i in Hi, Hf.
  - rewrite (proj2 (Z.eqb_neq _ _)) by lia. apply wp_ret, wp_release; [left|].
    assert (bn ∈ log_blocks (lg s)) as Hin by (by eapply list_elem_of_lookup_2).
    assert (log_add bn (lg s) = lg s) as Ha by (unfold log_add; by rewrite decide_True).
    rewrite Ha in HQ. unfold pin_of in Hr, HQ. rewrite decide_True in Hr, HQ by (by apply elem_of_list_to_set).
    rewrite <- Hr in HQ.
    assert (alter (fun x => x <| b_refcnt := b_refcnt (buf_at s b) |>) b (bufs s) = bufs s) as Hid.
    { rewrite alter_insert by (by rewrite (bo_len _ _ _ _ OK)). apply list_insert_id. unfold buf_at.
      destruct (lookup_lt_is_Some_2 (bufs s) b) as [x Hx]; [by rewrite (bo_len _ _ _ _ OK)|].
      rewrite Hx. by destruct x. }
    match goal with |- Q tt ?t => replace t with (put_ref b (b_refcnt (buf_at s b)) (s <| lg ::= log_add bn |>)); [done|] end.
    apply kst_eq; try reflexivity.
    + exact (eq_sym (filter_locked Llog (locks s) HLl)).
    + exact Hid.
    + change (log_add bn (lg s) = (lg s) <| lh_block := <[i := bn]> (lh_block (lg s)) |>).
      unfold i. rewrite log_set_present, Ha by done. by destruct (lg s).
  - rewrite (proj2 (Z.eqb_eq _ _)) by lia. wp_step.
    apply (wp_bpin dev H (list_to_set (log_blocks (lg s)))); [by apply bio_ok_lg|done|].
    wp_step. apply wp_release; [left|].
    match goal with |- Q tt ?t => replace t with
      (put_ref b (1 + pin_of (list_to_set (log_blocks (log_add bn (lg s)))) bn) (s <| lg ::= log_add bn |>)); [done|] end.
    apply kst_eq; try reflexivity.
    + exact (eq_sym (filter_locked Llog (locks s) HLl)).
    + change (alter (fun x => x <| b_refcnt := 1 + pin_of (list_to_set (log_blocks (log_add bn (lg s)))) bn |>) b (bufs s)
        = alter (fun x => x <| b_refcnt := b_refcnt (buf_at s b) + 1 |>) b (bufs s)).
      rewrite log_add_blocks by (rewrite ?Hl; done || lia). rewrite Hr. unfold pin_of.
      rewrite decide_True by (apply elem_of_list_to_set, elem_of_app; right; by left).
      by rewrite decide_False by (by rewrite elem_of_list_to_set).
    + change (log_add bn (lg s) = (lg s) <| lh_block := <[i := bn]> (lh_block (lg s)) |> <| lh_n ::= fun n => n + 1 |>).
      unfold log_add. rewrite decide_False, Hi by done. done.
Qed.

(** The log tracks what a transaction writes.  [log_write] of a held
    buffer, inside a transaction with room in the log, completes, adds the
    buffer's block to the header exactly once (a block already there is
    absorbed), keeps every logged block pinned in the cache, and changes neither
    the disk nor the contents of any block. *)
Theorem log_write_tracks dev H b s :
  tx_ok dev H s -> b ∈ H -> lh_n (lg s) < LOGBLOCKS -> 1 <= lg_outstanding (lg s) -> (Llog ∉ locks s) ->
  wp (log_write b) (fun _ s' =>
    tx_ok dev H s' /\ dsk s' = dsk s /\ (forall bn, bview dev s' bn = bview dev s bn) /\
    log_blocks (lg s') = (if decide (b_blockno (buf_at s b) ∈ log_blocks (lg s)) then log_blocks (lg s)
                          else log_blocks (lg s) ++ [b_blockno (buf_at s b)])) s.
Proof.
  intros T Hb Hlt Hout HLl. apply (wp_log_write dev H); [done..|]. cbv zeta. set (bn := b_blockno (buf_at s b)).
  destruct T as [OK Hn Hl Hnd].
  set (r := 1 + pin_of _ bn).
  assert (log_blocks (log_add bn (lg s)) = if decide (bn ∈ log_blocks (lg s)) then log_blocks (lg s) else log_blocks (lg s) ++ [bn]) as HB.
  { case_decide as Hin; [unfold log_add; by rewrite decide_True|].
    apply log_add_blocks; [lia|rewrite Hl; lia|done]. }
  split_and!; [|done| |exact HB].
  - assert (bio_ok dev H (list_to_set (log_blocks (log_add bn (lg s)))) (put_ref b r (s <| lg ::= log_add bn |>))) as OK'.
    { apply (bio_ok_pins (bio_ok_lg _ _ _ (log_add bn) _ OK)); [done| |done].
      intros x Hx. change (b_blockno (buf_at (s <| lg ::= _ |>) b)) with bn in Hx.
      rewrite !elem_of_list_to_set, HB. case_decide; [done|].
      rewrite elem_of_app, list_elem_of_singleton. tauto. }
    split; [exact OK'| | |].
    + change (lg (put_ref b r (s <| lg ::= _ |>))) with (log_add bn (lg s)). unfold log_add. case_decide; [done|]. cbn. lia.
    + change (lg (put_ref b r (s <| lg ::= _ |>))) with (log_add bn (lg s)). unfold log_add. case_decide; [done|].
      cbn. by rewrite length_insert.
    + change (lg (put_ref b r (s <| lg ::= _ |>))) with (log_add bn (lg s)). rewrite HB. case_decide; [done|].
      apply NoDup_app. split_and!; [done| |apply NoDup_singleton]. intros x Hx ->%list_elem_of_singleton. done.
  - intros x. rewrite (bview_pins (bio_ok_lg _ _ _ (log_add bn) _ OK) b Hb). unfold bview.
    by rewrite (find_buf_ext _ s).
Qed.

(** ** One block, through the cache *)

Lemma cache_of_bio dev P s : bio_ok dev [] P s -> (Lpr ∉ locks s) -> cache dev [] P (bview dev s) (dsk s) (fs_frame s) s.
Proof. intros OK Hpr. split; try done. by intros b bn Hin%elem_of_nil. Qed.

(** The cache never returns stale data and never loses a write.  Reading a
    block, changing it, writing it and releasing it completes; afterwards the
    disk holds the new contents of that block and is unchanged elsewhere, and
    every later read of any block sees the latest contents. *)
Theorem block_update_write_through dev bn d s :
  bio_ok dev [] ∅ s -> (Lpr ∉ locks s) -> length d = Z.to_nat BSIZE ->
  wp (b ← bread dev bn; set_bdata b d;; bwrite b;; brelse b)
    (fun _ s' =>
      bio_ok dev [] ∅ s' /\
      (forall bn', disk_read (dsk s') bn' = if decide (bn' = bn) then d else disk_read (dsk s) bn') /\
      forall bn', wp (bread dev bn') (fun b' s'' =>
        b_data (buf_at s'' b') = if decide (bn' = bn) then d else disk_read (dsk s) bn') s') s.
Proof.
  intros OK Hpr Hd. pose proof (cache_of_bio _ _ _ OK Hpr) as C.
  assert (forall x, bview dev s x = disk_read (dsk s) x) as HV.
  { intros x. apply (cache_clean C); [apply not_elem_of_empty|apply not_elem_of_nil]. }
  wp_step. apply (cache_bread C); [apply not_elem_of_nil|rewrite size_empty; cbn; change nbuf with 30%nat; lia|].
  clear C. intros b s1 C. wp_step. apply (cache_set C b bn); [left|done|]. clear C s1. intros s1 C.
  wp_step. apply (cache_bwrite C b bn); [left|]. clear C s1. intros s1 C. rewrite vset_eq in C.
  apply (cache_brelse C b bn []); [done|right; by rewrite vset_eq, disk_read_write, decide_True|].
  clear C s1. intros s1 C. split_and!; [apply C| |].
  - intros bn'. rewrite (ca_disk _ _ _ _ _ _ _ C). apply disk_read_write.
  - intros bn'. apply (cache_bread C); [apply not_elem_of_nil|rewrite size_empty; cbn; change nbuf with 30%nat; lia|].
    clear C. intros b' s2 C. rewrite (cache_data C b' bn') by left. unfold vset. by case_decide.
Qed.

(** ** A quiet kernel, for concrete instances: process 0 runs, nothing is held *)

Definition quiet (B : list buf) (D : disk) (l : log) : kst :=
  mkkst (mkphys ∅ 0 false) [] (replicate (Z.to_nat NPROC) proc0) (Some 0%nat) 1 None false 0 0 0 B
    (seq 0 nbuf) D l (mksuperblock 0 0 0 0 0 0 0 0) [] [] ∅ (mkconsole [] 0 0 0 false [] [])
    (mkcsrs 0 0 0 0 0 0 0 0) 0 false.

Definition blank : disk := mkdisk ∅ [].

Lemma blank_read bn : disk_read blank bn = zero_block.
Proof. done. Qed.

Lemma zero_block_length : length zero_block = Z.to_nat BSIZE.
Proof. apply length_replicate. Qed.

Lemma quiet_empty_at D l i : buf_at (quiet (replicate nbuf buf0) D l) i = buf0.
Proof.
  unfold buf_at. change (bufs (quiet (replicate nbuf buf0) D l)) with (replicate nbuf buf0).
  destruct (decide (i < nbuf)%nat) as [Hi|Hi]; [by rewrite lookup_replicate_2|].
  by rewrite lookup_ge_None_2 by (rewrite length_replicate; lia).
Qed.

Lemma quiet_free_locks : free_locks [].
Proof. split; [apply not_elem_of_nil|]. split; [intros l|intros i]; apply not_elem_of_nil. Qed.

Lemma quiet_ok D l :
  (forall bn, length (disk_read D bn) = Z.to_nat BSIZE) ->
  bio_ok 1 [] ∅ (quiet (replicate nbuf buf0) D l).
Proof.
  intros HD. split; try setoid_rewrite quiet_empty_at; try done.
  - apply quiet_free_locks.
  - constructor.
  - by intros i Hi%elem_of_nil.
Qed.

Lemma block_update_write_through_witness :
  let s := quiet (replicate nbuf buf0) blank log0 in
  wp (b ← bread 1 40; set_bdata b (replicate 1024 7);; bwrite b;; brelse b)
    (fun _ s' =>
      bio_ok 1 [] ∅ s' /\
      (forall bn', disk_read (dsk s') bn' = if decide (bn' = 40) then replicate 1024 7 else disk_read (dsk s) bn') /\
      forall bn', wp (bread 1 bn') (fun b' s'' =>
        b_data (buf_at s'' b') = if decide (bn' = 40) then replicate 1024 7 else disk_read (dsk s) bn') s') s.
Proof.
  apply block_update_write_through.
  - apply quiet_ok. intros bn. apply zero_block_length.
  - apply not_elem_of_nil.
  - reflexivity.
Defined.

(** The same kernel in the middle of a transaction: block 46 is in buffer 0,
    changed, logged and pinned. *)
Definition tx_buf : buf := mkbuf true 1 46 (mksleeplock false 0) 1 (replicate (Z.to_nat BSIZE) 7).

Definition tx_log : log := mklog 2 1 false 1 1 (46 :: replicate 29 0).

Definition tx_state : kst := quiet (tx_buf :: replicate 29 buf0) blank tx_log.

Lemma tx_state_at i : buf_at tx_state i = match i with O => tx_buf | S _ => buf0 end.
Proof.
  destruct i as [|i]; [done|]. unfold buf_at. change (bufs tx_state !! S i) with (replicate 29 buf0 !! i).
  destruct (decide (i < 29)%nat) as [Hi|Hi]; [by rewrite lookup_replicate_2|].
  by rewrite lookup_ge_None_2 by (rewrite length_replicate; lia).
Qed.

Lemma tx_state_ok : bio_ok 1 [] (list_to_set (log_blocks (lg tx_state))) tx_state.
Proof.
  assert (list_to_set (log_blocks (lg tx_state)) = ({[46]} : gset Z)) as -> by (cbn; set_solver).
  split; try setoid_rewrite tx_state_at; try done.
  - apply quiet_free_locks.
  - constructor.
  - by intros i Hi%elem_of_nil.
  - by intros [|i].
  - intros [|i] _; [|done]. unfold pinned_in. rewrite decide_True; [done|]. split; [done|]. by apply elem_of_singleton.
  - by intros [|i] [|j].
  - intros bn ->%elem_of_singleton. exists 0%nat. split; [|done]. change nbuf with 30%nat. lia.
  - intros [|i] _ _; [|done]. intros _ Hn. destruct Hn. by apply elem_of_singleton.
  - by intros [|i].
Qed.

Lemma log_write_tracks_witness :
  let s := quiet (mkbuf true 1 46 (mine tx_state) 2 (replicate (Z.to_nat BSIZE) 7) :: replicate 29 buf0) blank tx_log in
  wp (log_write 0) (fun _ s' =>
    tx_ok 1 [0%nat] s' /\ dsk s' = dsk s /\ (forall bn, bview 1 s' bn = bview 1 s bn) /\
    log_blocks (lg s') = (if decide (b_blockno (buf_at s 0) ∈ log_blocks (lg s)) then log_blocks (lg s)
                          else log_blocks (lg s) ++ [b_blockno (buf_at s 0)])) s.
Proof.
  intros s.
  assert (forall i, buf_at s i = match i with O => mkbuf true 1 46 (mine tx_state) 2 (replicate (Z.to_nat BSIZE) 7) | S _ => buf0 end) as Hat.
  { intros [|i]; [done|]. exact (tx_state_at (S i)). }
  apply log_write_tracks; try done.
  - split; [|done|done|apply NoDup_singleton].
    assert (list_to_set (log_blocks (lg s)) = ({[46]} : gset Z)) as -> by (cbn; set_solver).
    split; try setoid_rewrite Hat; try done.
    + apply quiet_free_locks.
    + apply NoDup_singleton.
    + intros i ->%list_elem_of_singleton. split; [|done]. change nbuf with 30%nat. lia.
    + intros [|i] _ Hi; [|done]. by destruct Hi; left.
    + intros [|i] _; cbn; unfold held_in, pinned_in.
      * rewrite decide_True by left. rewrite decide_True; [done|]. split; [done|]. by apply elem_of_singleton.
      * rewrite decide_False by (rewrite list_elem_of_singleton; lia). done.
    + by intros [|i] [|j].
    + intros bn ->%elem_of_singleton. exists 0%nat. split; [|done]. change nbuf with 30%nat. lia.
    + intros [|i] _ Hi; [|done]. by destruct Hi; left.
    + by intros [|i].
  - left.
  - apply not_elem_of_nil.
Defined.
