(* ===== verification/LogCrash.v ===== *)
(** * Crash safety of the log

    A crash during [commit] leaves the disk after some prefix of its writes.
    Whatever the prefix, the next boot's [recover_from_log] brings every block
    outside the log to its contents before the transaction, or every one to
    its contents after it. *)

From S2P Require Import Prelude CMem Riscv Kalloc Vm KState Sched Printf Bio BioSpec Log LogSpec.

(** ** What recovery makes of a disk *)

Section recovered.
Context (lb l : log) (D' : disk) (Hst : lg_start lb = lg_start l).

Let D2 : disk := apply_writes D' (recover_writes lb D').

Lemma start_not_home bn : ~ in_log l bn -> bn <> lg_start l.
Proof. unfold in_log. change LOGBLOCKS with 30. lia. Qed.

(** An empty header: nothing is installed. *)
Lemma recovered_empty :
  head_n (disk_read D' (lg_start l)) = 0 ->
  log_ok (head_log lb (disk_read D' (lg_start lb))) /\
  forall bn, ~ in_log l bn -> disk_read D2 bn = disk_read D' bn.
Proof.
  intros H0. rewrite Hst. split; [by apply log_ok_empty|].
  intros bn Hbn. unfold D2. rewrite disk_read_writes. unfold recover_writes. rewrite Hst, H0. cbn.
  apply vset_ne. by apply start_not_home.
Qed.

(** A committed header: the copies are installed. *)
Lemma recovered_full (V : Z -> list Z) x :
  log_ok l -> length x = Z.to_nat BSIZE -> disk_read D' (lg_start l) = put_head l x ->
  (forall i, Z.of_nat i < lh_n l -> disk_read D' (lg_start l + Z.of_nat i + 1) = V (nth i (lh_block l) 0)) ->
  log_ok (head_log lb (disk_read D' (lg_start lb))) /\
  forall bn, ~ in_log l bn ->
    disk_read D2 bn = if decide (bn ∈ log_blocks l) then V bn else disk_read D' bn.
Proof.
  intros LO Hx Hh Hc. rewrite Hst, Hh. destruct (head_log_put lb l x LO Hst Hx) as (LO2 & Hn & HB).
  split; [done|]. intros bn Hbn. unfold D2. rewrite disk_read_writes. unfold recover_writes. rewrite Hst, Hh.
  set (l2 := head_log lb (put_head l x)) in *. change (head_n (put_head l x)) with (lh_n l2).
  rewrite Hn, vsets_app. change (vsets ?V [(?b, ?d)]) with (vset V b d).
  rewrite vset_ne by (by apply start_not_home). pose proof (lo_n _ LO) as Hr.
  assert ((install_writes l2 (disk_read D') (Z.to_nat (lh_n l))).*1 = log_blocks l) as Hib.
  { rewrite (install_blocks LO2), HB by lia. apply take_ge. rewrite (log_blocks_length LO). lia. }
  case_decide as Hin; [|by rewrite vsets_not_in by (by rewrite Hib)].
  apply vsets_in; [rewrite Hib; apply (lo_nodup _ LO)|].
  apply list_elem_of_lookup in Hin as [i Hi].
  assert (i < Z.to_nat (lh_n l))%nat as Hlt.
  { apply lookup_lt_Some in Hi. rewrite (log_blocks_length LO) in Hi. lia. }
  apply list_elem_of_fmap. exists i. split; [|apply elem_of_seq; lia].
  pose proof Hi as Hi2. rewrite <- HB, (log_block_lookup LO2) in Hi2 by lia.
  rewrite (log_block_lookup LO) in Hi by lia. change (lg_start l2) with (lg_start lb).
  rewrite Hst, Hc by lia. congruence.
Qed.

End recovered.

(** ** Prefixes of the writes of a commit *)

Section prefixes.
Context (l : log) (V : Z -> list Z) (D : disk) (LO : log_ok l) (Hpos : 0 < lh_n l).
Context (Hlen : forall bn, length (V bn) = Z.to_nat BSIZE).
Context (Hclean : forall bn, (bn ∉ log_blocks l) -> V bn = disk_read D bn).
Context (Hempty : head_n (disk_read D (lg_start l)) = 0).

Let n : nat := Z.to_nat (lh_n l).
Let hd : list Z := put_head l (V (lg_start l)).

Lemma log_writes_length k : length (log_writes l V k) = k.
Proof. unfold log_writes. by rewrite length_fmap, length_seq. Qed.

Lemma home_writes_length k : length (home_writes l V k) = k.
Proof. unfold home_writes. by rewrite length_fmap, length_seq. Qed.

Lemma home_writes_blocks : (home_writes l V n).*1 = log_blocks l.
Proof.
  rewrite <- (install_home l V (vsets V (log_writes l V n))) by (intros; by apply log_copy).
  pose proof (lo_n _ LO). rewrite (install_blocks LO) by (unfold n; lia).
  apply take_ge. rewrite (log_blocks_length LO). unfold n. lia.
Qed.

Lemma home_not_copied bn k : ~ in_log l bn -> bn ∉ (take k (log_writes l V n)).*1.
Proof.
  intros Hbn Hin. assert (bn ∈ (log_writes l V n).*1) as Hx%log_writes_blocks.
  { apply list_elem_of_fmap in Hin as (w & -> & (i & Hi & _)%elem_of_take).
    apply list_elem_of_fmap. exists w. split; [done|]. by eapply list_elem_of_lookup_2. }
  pose proof (lo_n _ LO). unfold in_log in Hbn. change LOGBLOCKS with 30 in Hbn. unfold n in Hx. lia.
Qed.

Lemma log_not_home bn j : in_log l bn -> bn ∉ (take j (home_writes l V n)).*1.
Proof.
  intros Hbn Hin. assert (bn ∈ log_blocks l) as Hx.
  { rewrite <- home_writes_blocks. apply list_elem_of_fmap in Hin as (w & -> & (i & Hi & _)%elem_of_take).
    apply list_elem_of_fmap. exists w. split; [done|]. by eapply list_elem_of_lookup_2. }
  destruct (lo_range _ LO _ Hx) as [_ Hr]. unfold in_log in Hbn. lia.
Qed.

(** The view after the copies, the header and [j] of the blocks. *)
Lemma home_view V0 j bn :
  ~ in_log l bn ->
  vsets (vset (vsets V0 (log_writes l V n)) (lg_start l) hd) (take j (home_writes l V n)) bn
  = if decide (bn ∈ (take j (home_writes l V n)).*1) then V bn else V0 bn.
Proof.
  intros Hbn. case_decide as Hin.
  - apply vsets_in.
    + rewrite fmap_take, home_writes_blocks. eapply sublist_NoDup; [apply (lo_nodup _ LO)|apply sublist_take].
    + apply list_elem_of_fmap in Hin as (w & Hw & Hin). replace (bn, V bn) with w; [done|].
      apply elem_of_take in Hin as (i & Hi & _). apply list_elem_of_lookup_2, list_elem_of_fmap in Hi as (m & -> & _).
      cbn in Hw. by subst bn.
  - rewrite vsets_not_in by done. rewrite vset_ne by (by apply start_not_home). apply vsets_not_in.
    rewrite <- (take_ge (log_writes l V n) n) by (by rewrite log_writes_length). by apply home_not_copied.
Qed.

Lemma home_old_or_new D' j bn :
  (forall x, disk_read D' x
     = vsets (vset (vsets (disk_read D) (log_writes l V n)) (lg_start l) hd) (take j (home_writes l V n)) x) ->
  ~ in_log l bn -> (if decide (bn ∈ log_blocks l) then V bn else disk_read D' bn) = V bn.
Proof.
  intros HD Hbn. case_decide as Hin; [done|]. rewrite HD, home_view by done.
  case_decide; [done|]. by rewrite Hclean.
Qed.

Lemma commit_home bn :
  ~ in_log l bn -> disk_read (apply_writes D (commit_writes l V)) bn = V bn.
Proof.
  intros Hbn. rewrite disk_read_writes. unfold commit_writes. rewrite !vsets_app.
  change (vset (vsets (vset (vsets (disk_read D) (log_writes l V n)) (lg_start l) hd)
    (home_writes l V n)) (lg_start l) (put_head (log_cleared l) hd) bn = V bn).
  rewrite vset_ne by (by apply start_not_home).
  rewrite <- (take_ge (home_writes l V n) n) by (by rewrite home_writes_length).
  rewrite home_view by done. case_decide as Hin; [done|]. symmetry. apply Hclean.
  rewrite take_ge, home_writes_blocks in Hin by (by rewrite home_writes_length). done.
Qed.

(** The writes up to a point: some of the copies; the copies, the header and
    some of the blocks; or all. *)
Lemma commit_prefix k :
  (exists j, (j <= n)%nat /\ take k (commit_writes l V) = take j (log_writes l V n)) \/
  (exists j, take k (commit_writes l V)
     = log_writes l V n ++ [(lg_start l, hd)] ++ take j (home_writes l V n)) \/
  take k (commit_writes l V) = commit_writes l V.
Proof.
  unfold commit_writes. fold n hd. destruct (decide (k <= n)%nat) as [Hk|Hk].
  { left. exists k. split; [done|]. by rewrite take_app_le by (by rewrite log_writes_length). }
  right. rewrite take_app_ge, log_writes_length by (rewrite log_writes_length; lia).
  rewrite (take_app_ge [_]) by (cbn; lia). cbn [length].
  destruct (decide (k - n - 1 <= n)%nat) as [Hj|Hj].
  - left. exists (k - n - 1)%nat. by rewrite take_app_le by (by rewrite home_writes_length).
  - right. rewrite (take_ge (_ ++ _)); [done|]. rewrite length_app, home_writes_length. cbn. lia.
Qed.

Definition recovers_to (lb : log) (D' : disk) (W : Z -> list Z) : Prop :=
  forall bn, ~ in_log l bn -> disk_read (apply_writes D' (recover_writes lb D')) bn = W bn.

(** Only copies have been written: the header is still empty. *)
Lemma copies_recover j lb D' :
  lg_start lb = lg_start l ->
  (forall bn, disk_read D' bn = vsets (disk_read D) (take j (log_writes l V n)) bn) ->
  log_ok (head_log lb (disk_read D' (lg_start lb))) /\ recovers_to lb D' (disk_read D).
Proof.
  intros Hst HD.
  assert (forall bn, (bn = lg_start l \/ ~ in_log l bn) -> disk_read D' bn = disk_read D bn) as Hsame.
  { intros bn Hbn. rewrite HD. apply vsets_not_in. destruct Hbn as [->|Hbn]; [|by apply home_not_copied].
    intros Hx. apply list_elem_of_fmap in Hx as (w & Hw & (i & Hi & _)%elem_of_take).
    apply list_elem_of_lookup_2 in Hi.
    assert (lg_start l ∈ (log_writes l V n).*1) as Hx%log_writes_blocks; [|lia].
    apply list_elem_of_fmap. by exists w. }
  destruct (recovered_empty lb l D' Hst) as [HL Hr]; [by rewrite Hsame by (by left)|].
  split; [done|]. intros bn Hbn. rewrite Hr by done. apply Hsame. by right.
Qed.

(** The header has been written: the transaction is committed. *)
Lemma header_recovers j lb D' :
  lg_start lb = lg_start l ->
  (forall bn, disk_read D' bn
     = vsets (vset (vsets (disk_read D) (log_writes l V n)) (lg_start l) hd) (take j (home_writes l V n)) bn) ->
  log_ok (head_log lb (disk_read D' (lg_start lb))) /\ recovers_to lb D' V.
Proof.
  intros Hst HD. pose proof (lo_n _ LO) as Hn.
  assert (disk_read D' (lg_start l) = hd) as Hh.
  { rewrite HD, vsets_not_in; [apply vset_eq|]. apply log_not_home. unfold in_log. change LOGBLOCKS with 30. lia. }
  destruct (recovered_full lb l D' Hst V (V (lg_start l)) LO (Hlen _) Hh) as [HL Hr].
  { intros i Hi. rewrite HD, vsets_not_in.
    - rewrite vset_ne by lia. apply log_copy. unfold n. lia.
    - apply log_not_home. unfold in_log. change LOGBLOCKS with 30. lia. }
  split; [done|]. intros bn Hbn. rewrite Hr by done. by apply (home_old_or_new D' j).
Qed.

(** All writes have been made: the header is empty again. *)
Lemma all_recover lb D' :
  lg_start lb = lg_start l ->
  (forall bn, disk_read D' bn = disk_read (apply_writes D (commit_writes l V)) bn) ->
  log_ok (head_log lb (disk_read D' (lg_start lb))) /\ recovers_to lb D' V.
Proof.
  intros Hst HD. assert (length hd = Z.to_nat BSIZE) as Hhl by (by apply (head_put LO)).
  destruct (recovered_empty lb l D' Hst) as [HL Hr].
  { rewrite HD, disk_read_writes. unfold commit_writes. fold n hd. rewrite !vsets_app.
    change (vsets ?W [(lg_start l, put_head (log_cleared l) hd)]) with (vset W (lg_start l) (put_head (log_cleared l) hd)).
    rewrite vset_eq. by destruct (head_put (log_ok_empty (log_cleared l) eq_refl) hd Hhl) as (_ & -> & _). }
  split; [done|]. intros bn Hbn. rewrite Hr, HD by done. by apply commit_home.
Qed.

Lemma prefix_recovers k lb D' :
  lg_start lb = lg_start l ->
  (forall bn, disk_read D' bn = disk_read (apply_writes D (take k (commit_writes l V))) bn) ->
  log_ok (head_log lb (disk_read D' (lg_start lb))) /\
  (recovers_to lb D' (disk_read D) \/ recovers_to lb D' V).
Proof.
  intros Hst HD. destruct (commit_prefix k) as [(j & _ & Hj)|[[j Hj]|Hj]]; rewrite Hj in HD.
  - destruct (copies_recover j lb D' Hst) as [HL Hr]; [|by auto]. intros bn. by rewrite HD, disk_read_writes.
  - destruct (header_recovers j lb D' Hst) as [HL Hr]; [|by auto].
    intros bn. by rewrite HD, disk_read_writes, !vsets_app.
  - destruct (all_recover lb D' Hst HD) as [HL Hr]. auto.
Qed.

End prefixes.

(** ** The theorem *)

(** What a crash may leave and a boot finds: a quiet cache over a disk with
    the given blocks, the log at the same place. *)
Record booted (dev : Z) (l : log) (D : disk) (s : kst) : Prop := {
  bt_ok : bio_ok dev [] ∅ s;
  bt_pr : Lpr ∉ locks s;
  bt_start : lg_start (lg s) = lg_start l;
  bt_dev : lg_dev (lg s) = dev;
  bt_disk : forall bn, disk_read (dsk s) bn = disk_read D bn
}.

(** C2: a transaction is atomic under crashes.  From a state in which the
    transaction's blocks are in the cache and pinned, no buffer is held and the
    header on the disk is empty, [commit] completes, and all blocks outside the
    log are on the disk as the kernel saw them; and if the machine stops after
    any number [k] of its disk writes, [recover_from_log] on the disk as it is
    then completes and leaves either every block outside the log as it was
    before the commit, or every one as the transaction made it. *)
Theorem commit_crash_safe dev s :
  bio_ok dev [] (list_to_set (log_blocks (lg s))) s -> (Lpr ∉ locks s) ->
  log_ok (lg s) -> lg_dev (lg s) = dev -> 0 < lh_n (lg s) ->
  head_n (disk_read (dsk s) (lg_start (lg s))) = 0 ->
  wp commit (fun _ s' => exists ws,
    dsk s' = apply_writes (dsk s) ws /\
    (forall bn, ~ in_log (lg s) bn -> disk_read (dsk s') bn = bview dev s bn) /\
    forall k s2, booted dev (lg s) (apply_writes (dsk s) (take k ws)) s2 ->
      wp recover_from_log (fun _ s3 =>
        (forall bn, ~ in_log (lg s) bn -> disk_read (dsk s3) bn = disk_read (dsk s) bn) \/
        (forall bn, ~ in_log (lg s) bn -> disk_read (dsk s3) bn = bview dev s bn)) s2) s.
Proof.
  intros OK Hpr LO Hdev Hpos H0. pose proof (cache_of_bio _ _ _ OK Hpr) as C.
  apply (wp_commit (f:=fs_frame s) LO Hdev Hpos _ _ C). intros s' V' C'. exists (commit_writes (lg s) (bview dev s)).
  assert (forall bn, (bn ∉ log_blocks (lg s)) -> bview dev s bn = disk_read (dsk s) bn) as Hcl.
  { intros bn Hbn. apply (cache_clean C); [by rewrite elem_of_list_to_set|apply not_elem_of_nil]. }
  pose proof (cache_view_length C) as Hlen. split; [apply C'|]. split.
  - intros bn Hbn. rewrite (ca_disk _ _ _ _ _ _ _ C'). change (lg (fs_frame s)) with (lg s).
    by apply commit_home.
  - intros k s2 [OK2 Hpr2 Hst2 Hd2 HD2]. pose proof (cache_of_bio _ _ _ OK2 Hpr2) as C2.
    destruct (prefix_recovers (lg s) (bview dev s) (dsk s) LO Hpos Hlen Hcl H0 k (lg s2) (dsk s2) Hst2 HD2)
      as [HL Hor].
    apply (wp_recover (f:=fs_frame s2) Hd2 _ _ C2 HL). intros s3 V3 f3 C3.
    rewrite (ca_disk _ _ _ _ _ _ _ C3). exact Hor.
Qed.

(** ** Recovery can itself be interrupted *)

(** What a complete header makes recovery write depends only on the header and
    on the copies. *)
Lemma install_writes_ext l l' V V' k :
  lg_start l = lg_start l' ->
  (forall i, (i < k)%nat -> nth i (lh_block l) 0 = nth i (lh_block l') 0) ->
  (forall i, (i < k)%nat -> V (lg_start l + Z.of_nat i + 1) = V' (lg_start l + Z.of_nat i + 1)) ->
  install_writes l V k = install_writes l' V' k.
Proof.
  intros Hs Hb HV. apply list_fmap_ext. intros i j [-> Hj]%lookup_seq. cbn.
  rewrite HV, Hb by lia. by rewrite Hs.
Qed.

Lemma head_log_ok l l' hd :
  lg_start l = lg_start l' -> log_ok (head_log l hd) -> log_ok (head_log l' hd).
Proof.
  intros Hs LO. pose proof (lo_n _ LO) as Hn. pose proof (lo_nodup _ LO) as Hd. pose proof (lo_range _ LO) as Hr.
  fold (log_blocks (head_log l hd)) in Hd, Hr. rewrite log_blocks_head in Hd, Hr.
  change (lg_start (head_log l hd)) with (lg_start l) in Hr. rewrite Hs in Hr.
  split.
  - exact Hn.
  - change (lh_n (head_log l' hd)) with (head_n hd). unfold head_log. cbn.
    rewrite length_app, length_fmap, length_seq. change (lh_n (head_log l hd)) with (head_n hd) in Hn. lia.
  - fold (log_blocks (head_log l' hd)). by rewrite log_blocks_head.
  - fold (log_blocks (head_log l' hd)). rewrite log_blocks_head. exact Hr.
Qed.

Section restart.
Context (l lb : log) (D D' : disk) (Hst : lg_start lb = lg_start l).

Let hd : list Z := disk_read D (lg_start l).
Let n : nat := Z.to_nat (head_n hd).
Let iw : list (Z * list Z) := install_writes (head_log l hd) (disk_read D) n.

Context (LO : log_ok (head_log l hd)).

Lemma installs_blocks : iw.*1 = log_blocks (head_log l hd).
Proof.
  pose proof (lo_n _ LO) as Hn. change (lh_n (head_log l hd)) with (head_n hd) in Hn.
  unfold iw. rewrite (install_blocks LO) by (change (lh_n (head_log l hd)) with (head_n hd); unfold n; lia).
  apply take_ge. rewrite (log_blocks_length LO). done.
Qed.

Lemma installs_home bn : in_log l bn -> bn ∉ iw.*1.
Proof.
  intros Hbn. rewrite installs_blocks. intros Hin. destruct (lo_range _ LO _ Hin) as [_ Hr].
  change (lg_start (head_log l hd)) with (lg_start l) in Hr. unfold in_log in Hbn. lia.
Qed.

Lemma full_recovery bn :
  ~ in_log l bn -> disk_read (apply_writes D (recover_writes l D)) bn = vsets (disk_read D) iw bn.
Proof.
  intros Hbn. rewrite disk_read_writes. unfold recover_writes. fold hd n iw. rewrite vsets_app.
  change (vsets ?W [(lg_start l, ?d)]) with (vset W (lg_start l) d).
  rewrite vset_ne by (by apply start_not_home). done.
Qed.

Lemma take_in_fmap k (ws : list (Z * list Z)) bn : bn ∈ (take k ws).*1 -> bn ∈ ws.*1.
Proof.
  rewrite fmap_take. intros (i & Hi & _)%elem_of_take. by eapply list_elem_of_lookup_2.
Qed.

(** Interrupted before the header is cleared. *)
Lemma restart_installs k :
  (forall bn, disk_read D' bn = vsets (disk_read D) (take k iw) bn) ->
  log_ok (head_log lb (disk_read D' (lg_start lb))) /\
  forall bn, ~ in_log l bn ->
    disk_read (apply_writes D' (recover_writes lb D')) bn = vsets (disk_read D) iw bn.
Proof.
  intros HD. pose proof (lo_n _ LO) as Hn. change (lh_n (head_log l hd)) with (head_n hd) in Hn.
  assert (forall bn, in_log l bn -> disk_read D' bn = disk_read D bn) as Hlog.
  { intros bn Hbn. rewrite HD. apply vsets_not_in. intros Hin%take_in_fmap. by apply (installs_home bn). }
  assert (in_log l (lg_start l)) as Hsl by (unfold in_log; change LOGBLOCKS with 30; lia).
  assert (disk_read D' (lg_start lb) = hd) as Hh by (rewrite Hst; by apply Hlog).
  rewrite Hh. split; [by apply (head_log_ok l)|].
  intros bn Hbn. rewrite disk_read_writes. unfold recover_writes. rewrite Hh, vsets_app.
  change (vsets ?W [(lg_start lb, ?d)]) with (vset W (lg_start lb) d).
  rewrite vset_ne by (rewrite Hst; by apply start_not_home).
  replace (install_writes (head_log lb hd) (disk_read D') (Z.to_nat (head_n hd))) with iw.
  2:{ apply install_writes_ext; [done| |].
      - intros i Hi. unfold head_log. cbn. rewrite !app_nth1 by (rewrite length_fmap, length_seq; lia). done.
      - intros i Hi. symmetry. apply Hlog. unfold in_log. change LOGBLOCKS with 30.
        change (lg_start (head_log l hd)) with (lg_start l). unfold n in Hi. lia. }
  destruct (decide (bn ∈ iw.*1)) as [Hin|Hin].
  - apply list_elem_of_fmap in Hin as ([b d] & -> & Hin). cbn.
    assert (NoDup iw.*1) as Hnd by (rewrite installs_blocks; apply (lo_nodup _ LO)).
    by rewrite !(vsets_in _ iw b d).
  - rewrite !vsets_not_in by done. rewrite HD. apply vsets_not_in. intros Hx%take_in_fmap. done.
Qed.

(** Interrupted after it. *)
Lemma restart_cleared :
  length hd = Z.to_nat BSIZE ->
  (forall bn, disk_read D' bn = disk_read (apply_writes D (recover_writes l D)) bn) ->
  log_ok (head_log lb (disk_read D' (lg_start lb))) /\
  forall bn, ~ in_log l bn ->
    disk_read (apply_writes D' (recover_writes lb D')) bn = vsets (disk_read D) iw bn.
Proof.
  intros Hlen HD. destruct (recovered_empty lb l D' Hst) as [HL Hr].
  { rewrite HD, disk_read_writes. unfold recover_writes. fold hd n iw. rewrite vsets_app.
    change (vsets ?W [(lg_start l, ?d)]) with (vset W (lg_start l) d). rewrite vset_eq.
    by destruct (head_put (log_ok_empty (log_cleared (head_log l hd)) eq_refl) hd Hlen) as (_ & -> & _). }
  split; [done|]. intros bn Hbn. rewrite Hr, HD by done. by apply full_recovery.
Qed.

End restart.

(** C19: recovery can be interrupted.  On any disk whose header is well formed,
    [recover_from_log] completes, and if the machine stops after any number of
    the writes of that recovery, the recovery of the next boot completes and
    leaves the same blocks outside the log as the uninterrupted one. *)
Theorem recovery_restartable dev l s :
  booted dev l (dsk s) s -> log_ok (head_log (lg s) (disk_read (dsk s) (lg_start l))) ->
  wp recover_from_log (fun _ s' => exists ws,
    dsk s' = apply_writes (dsk s) ws /\
    forall k s2, booted dev (lg s) (apply_writes (dsk s) (take k ws)) s2 ->
      wp recover_from_log (fun _ s3 =>
        forall bn, ~ in_log (lg s) bn -> disk_read (dsk s3) bn = disk_read (dsk s') bn) s2) s.
Proof.
  intros [OK Hpr Hst Hd _] LO. rewrite <- Hst in LO. pose proof (cache_of_bio _ _ _ OK Hpr) as C.
  apply (wp_recover (f:=fs_frame s) Hd _ _ C LO). intros s' V' f' C'.
  exists (recover_writes (lg s) (dsk s)). split; [apply C'|].
  intros k s2 [OK2 Hpr2 Hst2 Hd2 HD2]. pose proof (cache_of_bio _ _ _ OK2 Hpr2) as C2.
  set (hd := disk_read (dsk s) (lg_start (lg s))) in *.
  set (iw := install_writes (head_log (lg s) hd) (disk_read (dsk s)) (Z.to_nat (head_n hd))).
  assert (log_ok (head_log (lg s2) (disk_read (dsk s2) (lg_start (lg s2)))) /\
    forall bn, ~ in_log (lg s) bn ->
      disk_read (apply_writes (dsk s2) (recover_writes (lg s2) (dsk s2))) bn = vsets (disk_read (dsk s)) iw bn)
    as [HL Hr].
  { destruct (decide (k <= length iw)%nat) as [Hk|Hk].
    - apply (restart_installs _ _ _ _ Hst2 LO k). intros bn. rewrite HD2. unfold recover_writes. fold hd iw.
      by rewrite take_app_le, disk_read_writes.
    - apply (restart_cleared _ _ _ _ Hst2); [apply (bo_dlen _ _ _ _ OK)|]. intros bn. rewrite HD2.
      rewrite (take_ge (recover_writes _ _)); [done|]. unfold recover_writes. fold hd iw.
      rewrite length_app. cbn. lia. }
  apply (wp_recover (f:=fs_frame s2) Hd2 _ _ C2 HL). intros s3 V3 f3 C3 bn Hbn.
  rewrite (ca_disk _ _ _ _ _ _ _ C3), (ca_disk _ _ _ _ _ _ _ C'). rewrite Hr by done.
  symmetry. by apply (full_recovery (lg s) (dsk s)).
Qed.

(** ** Instances *)

Lemma blank_length bn : length (disk_read blank bn) = Z.to_nat BSIZE.
Proof. apply zero_block_length. Qed.

Lemma tx_log_ok : log_ok tx_log.
Proof.
  split; [done|done|apply NoDup_singleton|]. intros bn ->%list_elem_of_singleton. split; [lia|]. right. done.
Qed.

Lemma blank_header bn : head_n (disk_read blank bn) = 0.
Proof. vm_compute. reflexivity. Qed.

Lemma commit_crash_safe_witness :
  wp commit (fun _ s' => exists ws,
    dsk s' = apply_writes (dsk tx_state) ws /\
    (forall bn, ~ in_log tx_log bn -> disk_read (dsk s') bn = bview 1 tx_state bn) /\
    forall k s2, booted 1 tx_log (apply_writes (dsk tx_state) (take k ws)) s2 ->
      wp recover_from_log (fun _ s3 =>
        (forall bn, ~ in_log tx_log bn -> disk_read (dsk s3) bn = disk_read (dsk tx_state) bn) \/
        (forall bn, ~ in_log tx_log bn -> disk_read (dsk s3) bn = bview 1 tx_state bn)) s2) tx_state.
Proof.
  apply (commit_crash_safe 1 tx_state).
  - exact tx_state_ok.
  - apply not_elem_of_nil.
  - exact tx_log_ok.
  - reflexivity.
  - reflexivity.
  - exact (blank_header 2).
Defined.

Lemma recovery_restartable_witness :
  let s := quiet (replicate nbuf buf0) blank tx_log in
  wp recover_from_log (fun _ s' => exists ws,
    dsk s' = apply_writes (dsk s) ws /\
    forall k s2, booted 1 (lg s) (apply_writes (dsk s) (take k ws)) s2 ->
      wp recover_from_log (fun _ s3 =>
        forall bn, ~ in_log (lg s) bn -> disk_read (dsk s3) bn = disk_read (dsk s') bn) s2) s.
Proof.
  apply (recovery_restartable 1 tx_log).
  - split; [apply quiet_ok, blank_length|apply not_elem_of_nil|reflexivity|reflexivity|reflexivity].
  - apply log_ok_empty. exact (blank_header 2).
Defined.
