(* ===== verification/Fs.v ===== *)
(** * kernel/fs.c: blocks, inodes, directories, paths

    Path names and directory names are lists of bytes without their NUL; the
    kernel buffers [readi] and [writei] work on are passed and returned as
    lists of bytes. *)

From S2P Require Import Prelude CMem Riscv Kalloc Vm KState Sched Printf Bio Log.

(** A [for(i = lo; i < hi; i += step)] loop that may leave early with a value:
    the body returns [Some r] to leave; [dflt] is the value when it ends. *)
Definition for_until {R} (lo hi step : Z) (dflt : R) (body : Z -> M kst (option R)) : M kst R :=
  loop (fun i =>
    if i <? hi then r ← body i; match r with Some x => mret (inr x) | None => mret (inl (i + step)) end
    else mret (inr dflt)) lo.

(** ** Super block *)

Definition parse_sb (data : list Z) : superblock :=
  mksuperblock (rd 4 data 0) (rd 4 data 4) (rd 4 data 8) (rd 4 data 12)
    (rd 4 data 16) (rd 4 data 20) (rd 4 data 24) (rd 4 data 28).

Definition readsb (dev : Z) : M kst unit :=
  bp ← bread dev 1;
  data ← bdata bp;
  modify (fun s => s <| sb := parse_sb data |>);;
  brelse bp.

(** ** Blocks *)

Definition bzero (dev bno : Z) : M kst unit :=
  bp ← bread dev bno;
  set_bdata bp zero_block;;
  log_write bp;;
  brelse bp.

(** The loop over the bits of the bitmap block of [b]; the block allocated. *)
Definition balloc_block (dev size b : Z) (bp : nat) : M kst (option Z) :=
  for_until 0 (Z.min BPB (size - b)) 1 None (fun bi =>
    data ← bdata bp;
    let m := Z.shiftl 1 (bi `mod` 8) in
    let byte := nth (Z.to_nat (bi / 8)) data 0 in
    if Z.land byte m =? 0 then
      set_bdata bp (<[Z.to_nat (bi / 8) := Z.lor byte m]> data);;
      log_write bp;;
      brelse bp;;
      bzero dev (b + bi);;
      mret (Some (Some (b + bi)))
    else mret None).

Definition balloc (dev : Z) : M kst Z :=
  size ← gets (fun s => sb_size (sb s));
  r ← for_until 0 size BPB None (fun b =>
    sb ← gets sb;
    bp ← bread dev (BBLOCK b sb);
    r ← balloc_block dev size b bp;
    match r with
    | Some bno => mret (Some (Some bno))
    | None => brelse bp;; mret None
    end);
  match r with
  | Some bno => mret bno
  | None => printf (str "balloc: out of blocks" ++ [10]) [];; mret 0
  end.

Definition bfree (dev b : Z) : M kst unit :=
  sb ← gets sb;
  bp ← bread dev (BBLOCK b sb);
  data ← bdata bp;
  let bi := b `mod` BPB in
  let m := Z.shiftl 1 (bi `mod` 8) in
  let byte := nth (Z.to_nat (bi / 8)) data 0 in
  if Z.land byte m =? 0 then panic "freeing free block"
  else
    set_bdata bp (<[Z.to_nat (bi / 8) := Z.land byte (u8 (Z.lnot m))]> data);;
    log_write bp;;
    brelse bp.

(** ** Inodes *)

(** The offset of inode [inum] in its block, and the fields of a dinode. *)
Definition dip_off (inum : Z) : Z := (inum `mod` IPB) * DINODE_SIZE.

Definition dip_type (data : list Z) (o : Z) : Z := i16 (rd 2 data o).
Definition dip_nlink (data : list Z) (o : Z) : Z := i16 (rd 2 data (o + 6)).

Definition dip_addrs (data : list Z) (o : Z) : list Z :=
  (fun i : nat => rd 4 data (o + 12 + 4 * Z.of_nat i)) <$> seq 0 13.

(** [iupdate]'s assignments to the dinode at [o]. *)
Definition put_dinode (ip : inode) (o : Z) (data : list Z) : list Z :=
  fold_left (fun d (i : nat) => wr 4 d (o + 12 + 4 * Z.of_nat i) (nth i (i_addrs ip) 0)) (seq 0 13)
    (wr 4 (wr 2 (wr 2 (wr 2 (wr 2 data o (i_type ip)) (o + 2) (i_major ip)) (o + 4) (i_minor ip))
       (o + 6) (i_nlink ip)) (o + 8) (i_size ip)).

Definition iinit : M kst unit :=
  modify (fun s => s <| inodes ::= fmap (fun i => i <| i_lock := mksleeplock false 0 |>) |>).

(** The scan of the table: the entry for the inode, or the first free one. *)
Fixpoint iget_scan (dev inum : Z) (l : list inode) (i : nat) (empty : option nat) : nat + option nat :=
  match l with
  | [] => inr empty
  | ip :: l' =>
      if (0 <? i_ref ip) && (i_dev ip =? dev) && (i_inum ip =? inum) then inl i
      else
        iget_scan dev inum l' (S i)
          (match empty with
           | Some _ => empty
           | None => if i_ref ip =? 0 then Some i else None
           end)
  end.

Definition iget (dev inum : Z) : M kst nat :=
  acquire Litable;;
  r ← gets (fun s => iget_scan dev inum (inodes s) 0 None);
  match r with
  | inl i =>
      updi i (fun x => x <| i_ref ::= fun r => r + 1 |>);;
      release Litable;;
      mret i
  | inr (Some i) =>
      updi i (fun x => x <| i_dev := dev |> <| i_inum := inum |> <| i_ref := 1 |> <| i_valid := false |>);;
      release Litable;;
      mret i
  | inr None => panic "iget: no inodes"
  end.

Definition ialloc (dev type : Z) : M kst (option nat) :=
  ninodes ← gets (fun s => sb_ninodes (sb s));
  r ← for_until 1 ninodes 1 None (fun inum =>
    sb ← gets sb;
    bp ← bread dev (IBLOCK inum sb);
    data ← bdata bp;
    let o := dip_off inum in
    if dip_type data o =? 0 then
      set_bdata bp (wr 2 (list_inserts (Z.to_nat o) (replicate (Z.to_nat DINODE_SIZE) 0) data) o type);;
      log_write bp;;
      brelse bp;;
      i ← iget dev inum;
      mret (Some (Some i))
    else brelse bp;; mret None);
  match r with
  | Some i => mret (Some i)
  | None => printf (str "ialloc: no inodes" ++ [10]) [];; mret None
  end.

Definition iupdate (i : nat) : M kst unit :=
  ip ← geti i;
  sb ← gets sb;
  bp ← bread (i_dev ip) (IBLOCK (i_inum ip) sb);
  data ← bdata bp;
  set_bdata bp (put_dinode ip (dip_off (i_inum ip)) data);;
  log_write bp;;
  brelse bp.

Definition idup (i : nat) : M kst nat :=
  acquire Litable;;
  updi i (fun x => x <| i_ref ::= fun r => r + 1 |>);;
  release Litable;;
  mret i.

Definition ilock (i : nat) : M kst unit :=
  ip ← geti i;
  if i_ref ip <? 1 then panic "ilock"
  else
    acquiresleep (SLinode i);;
    ip ← geti i;
    when (negb (i_valid ip))
      (sb ← gets sb;
       bp ← bread (i_dev ip) (IBLOCK (i_inum ip) sb);
       data ← bdata bp;
       let o := dip_off (i_inum ip) in
       updi i (fun x => x <| i_type := dip_type data o |> <| i_major := i16 (rd 2 data (o + 2)) |>
                          <| i_minor := i16 (rd 2 data (o + 4)) |> <| i_nlink := dip_nlink data o |>
                          <| i_size := rd 4 data (o + 8) |> <| i_addrs := dip_addrs data o |>);;
       brelse bp;;
       updi i (fun x => x <| i_valid := true |>);;
       when (dip_type data o =? 0) (panic "ilock: no type")).

Definition iunlock (i : nat) : M kst unit :=
  h ← holdingsleep (SLinode i);
  ip ← geti i;
  if negb h || (i_ref ip <? 1) then panic "iunlock"
  else releasesleep (SLinode i).

(** ** Inode content *)

Definition set_addr (i : nat) (k addr : Z) : M kst unit :=
  updi i (fun x => x <| i_addrs ::= <[Z.to_nat k := addr]> |>).

Definition addr_of (i : nat) (k : Z) : M kst Z :=
  ip ← geti i; mret (nth (Z.to_nat k) (i_addrs ip) 0).

(** [addr = ip->addrs[k]], allocating the block when there is none; 0 when
    there is no space. *)
Definition addr_or_alloc (i : nat) (k : Z) : M kst Z :=
  ip ← geti i;
  addr ← addr_of i k;
  if addr =? 0 then
    addr ← balloc (i_dev ip);
    if addr =? 0 then mret 0 else set_addr i k addr;; mret addr
  else mret addr.

(** Entry [bn] of the indirect block [ind], allocating the block when there is
    none. *)
Definition entry_or_alloc (dev ind bn : Z) : M kst Z :=
  bp ← bread dev ind;
  a ← bdata bp;
  let addr := rd 4 a (4 * bn) in
  addr ←
    (if addr =? 0 then
       addr ← balloc dev;
       (if addr =? 0 then mret 0
        else
          a ← bdata bp;
          set_bdata bp (wr 4 a (4 * bn) addr);;
          log_write bp;;
          mret addr)
     else mret addr);
  brelse bp;;
  mret addr.

Definition bmap (i : nat) (bn : Z) : M kst Z :=
  ip ← geti i;
  if bn <? NDIRECT then addr_or_alloc i bn
  else
    let bn := bn - NDIRECT in
    if bn <? NINDIRECT then
      addr ← addr_or_alloc i NDIRECT;
      if addr =? 0 then mret 0 else entry_or_alloc (i_dev ip) addr bn
    else panic "bmap: out of range".

Definition itrunc (i : nat) : M kst unit :=
  ip ← geti i;
  for_range (Z.to_nat NDIRECT) 0 (fun k =>
    addr ← addr_of i k;
    when (negb (addr =? 0)) (bfree (i_dev ip) addr;; set_addr i k 0));;
  addr ← addr_of i NDIRECT;
  when (negb (addr =? 0))
    (bp ← bread (i_dev ip) addr;
     for_range (Z.to_nat NINDIRECT) 0 (fun j =>
       a ← bdata bp;
       let aj := rd 4 a (4 * j) in
       when (negb (aj =? 0)) (bfree (i_dev ip) aj));;
     brelse bp;;
     bfree (i_dev ip) addr;;
     set_addr i NDIRECT 0);;
  updi i (fun x => x <| i_size := 0 |>);;
  iupdate i.

Definition iput (i : nat) : M kst unit :=
  acquire Litable;;
  ip ← geti i;
  when ((i_ref ip =? 1) && i_valid ip && (i_nlink ip =? 0))
    (acquiresleep (SLinode i);;
     release Litable;;
     itrunc i;;
     updi i (fun x => x <| i_type := 0 |>);;
     iupdate i;;
     updi i (fun x => x <| i_valid := false |>);;
     releasesleep (SLinode i);;
     acquire Litable);;
  updi i (fun x => x <| i_ref ::= fun r => r - 1 |>);;
  release Litable.

Definition iunlockput (i : nat) : M kst unit := iunlock i;; iput i.

Definition ireclaim (dev : Z) : M kst unit :=
  ninodes ← gets (fun s => sb_ninodes (sb s));
  for_range (Z.to_nat (ninodes - 1)) 1 (fun inum =>
    sb ← gets sb;
    bp ← bread dev (IBLOCK inum sb);
    data ← bdata bp;
    let o := dip_off inum in
    ip ←
      (if negb (dip_type data o =? 0) && (dip_nlink data o =? 0) then
         printf (str "ireclaim: orphaned inode %d" ++ [10]) [Anum inum];;
         i ← iget dev inum;
         mret (Some i)
       else mret None);
    brelse bp;;
    match ip with
    | Some i => begin_op;; ilock i;; iunlock i;; iput i;; end_op
    | None => mret tt
    end).

Definition fsinit (dev : Z) : M kst unit :=
  readsb dev;;
  sb ← gets sb;
  if negb (sb_magic sb =? FSMAGIC) then panic "invalid file system"
  else
    initlog dev sb;;
    ireclaim dev.

(** [struct stat] as the bytes that are copied to the user: dev, ino, type,
    nlink, size; 4 bytes of padding before size are those of [pad]. *)
Definition stati (i : nat) (pad : list Z) : M kst (list Z) :=
  ip ← geti i;
  mret (le_encode 4 (i_dev ip) ++ le_encode 4 (i_inum ip) ++ le_encode 2 (i_type ip)
        ++ le_encode 2 (i_nlink ip) ++ pad ++ le_encode 8 (i_size ip)).

Section io.
Context {KL : KLayout}.

Definition dst_add (d : kdst) (m : Z) : kdst :=
  match d with
  | Duser va => Duser (u64 (va + m))
  | Dphys pa => Dphys (pa + m)
  | Dlocal => Dlocal
  end.

Definition src_add (x : ksrc) (m : Z) : ksrc :=
  match x with
  | Suser va => Suser (u64 (va + m))
  | Skernel bs => Skernel (drop (Z.to_nat m) bs)
  end.

(** The result and the bytes copied out. *)
Definition readi (i : nat) (dst : kdst) (off n : Z) : M kst (Z * list Z) :=
  ip ← geti i;
  if (i_size ip <? off) || (u32 (off + n) <? off) then mret (0, [])
  else
    let n := if i_size ip <? u32 (off + n) then i_size ip - off else n in
    loop (fun '(tot, off, dst, out) =>
      if negb (tot <? n) then mret (inr (i32 tot, out))
      else
        addr ← bmap i (off / BSIZE);
        if addr =? 0 then mret (inr (i32 tot, out))
        else
          bp ← bread (i_dev ip) addr;
          data ← bdata bp;
          let m := Z.min (n - tot) (BSIZE - off `mod` BSIZE) in
          let chunk := take (Z.to_nat m) (drop (Z.to_nat (off `mod` BSIZE)) data) in
          r ← either_copyout dst chunk;
          if r =? -1 then brelse bp;; mret (inr (-1, out))
          else brelse bp;; mret (inl (tot + m, u32 (off + m), dst_add dst m, out ++ chunk)))
      (0, off, dst, []).

(** One round of [writei]'s loop.  A failed [either_copyin] has already
    overwritten a part of the buffer. *)
Definition write_round (i : nat) (dev n : Z) : Z * Z * ksrc -> M kst (Z * Z * ksrc + Z * Z) := fun '(tot, off, src) =>
  if negb (tot <? n) then mret (inr (tot, off))
  else
    addr ← bmap i (off / BSIZE);
    if addr =? 0 then mret (inr (tot, off))
    else
      bp ← bread dev addr;
      let m := Z.min (n - tot) (BSIZE - off `mod` BSIZE) in
      '(r, bytes) ← either_copyin src m;
      data ← bdata bp;
      set_bdata bp (list_inserts (Z.to_nat (off `mod` BSIZE)) bytes data);;
      if r =? -1 then brelse bp;; mret (inr (tot, off))
      else
        log_write bp;;
        brelse bp;;
        mret (inl (tot + m, u32 (off + m), src_add src m)).

Definition writei (i : nat) (src : ksrc) (off n : Z) : M kst Z :=
  ip ← geti i;
  if (i_size ip <? off) || (u32 (off + n) <? off) then mret (-1)
  else if MAXFILE * BSIZE <? u32 (off + n) then mret (-1)
  else
    '(tot, off) ← loop (write_round i (i_dev ip) n) (0, off, src);
    updi i (fun x => if i_size x <? off then x <| i_size := off |> else x);;
    iupdate i;;
    mret (i32 tot).

(** ** Directories *)

(** [strncmp] on two byte arrays; what follows the end of a list is the NUL
    of a string. *)
Fixpoint strncmp_bytes (n : nat) (p q : list Z) : Z :=
  match n with
  | O => 0
  | S n' =>
      let a := default 0 (head p) in
      let b := default 0 (head q) in
      if negb (a =? 0) && (a =? b) then strncmp_bytes n' (tail p) (tail q) else a - b
  end.

Definition namecmp (s t : list Z) : Z := strncmp_bytes (Z.to_nat DIRSIZ) s t.

(** [strncpy(de.name, name, DIRSIZ)]. *)
Definition dirent_name (name : list Z) : list Z :=
  take (Z.to_nat DIRSIZ) (name ++ replicate (Z.to_nat DIRSIZ) 0).

Definition de_inum (de : list Z) : Z := rd 2 de 0.
Definition de_name (de : list Z) : list Z := drop 2 de.

(** The inode and the offset of the entry. *)
Definition dirlookup (dp : nat) (name : list Z) : M kst (option (nat * Z)) :=
  d ← geti dp;
  if negb (i_type d =? T_DIR) then panic "dirlookup not DIR"
  else
    for_until 0 (i_size d) DIRENT_SIZE None (fun off =>
      '(r, de) ← readi dp Dlocal off DIRENT_SIZE;
      if negb (r =? DIRENT_SIZE) then panic "dirlookup read"
      else if de_inum de =? 0 then mret None
      else if namecmp name (de_name de) =? 0 then
        i ← iget (i_dev d) (de_inum de);
        mret (Some (Some (i, off)))
      else mret None).

Definition dirlink (dp : nat) (name : list Z) (inum : Z) : M kst Z :=
  found ← dirlookup dp name;
  match found with
  | Some (i, _) => iput i;; mret (-1)
  | None =>
      off ←
        loop (fun off =>
          d ← geti dp;
          if off <? i_size d then
            '(r, de) ← readi dp Dlocal off DIRENT_SIZE;
            if negb (r =? DIRENT_SIZE) then panic "dirlink read"
            else if de_inum de =? 0 then mret (inr off)
            else mret (inl (off + DIRENT_SIZE))
          else mret (inr off)) 0;
      r ← writei dp (Skernel (le_encode 2 inum ++ dirent_name name)) off DIRENT_SIZE;
      mret (if r =? DIRENT_SIZE then 0 else -1)
  end.

(** ** Paths *)

Definition SLASH : Z := 47.

Fixpoint skip_slashes (path : list Z) : list Z :=
  match path with
  | c :: path' => if c =? SLASH then skip_slashes path' else path
  | [] => []
  end.

Fixpoint take_elem (path : list Z) : list Z * list Z :=
  match path with
  | c :: path' => if c =? SLASH then ([], path) else let '(e, rest) := take_elem path' in (c :: e, rest)
  | [] => ([], [])
  end.

(** The rest of the path and the name, or [None] for a NULL result. *)
Definition skipelem (path : list Z) : option (list Z * list Z) :=
  let path := skip_slashes path in
  match path with
  | [] => None
  | _ =>
      let '(elem, rest) := take_elem path in
      Some (skip_slashes rest, take (Z.to_nat DIRSIZ) elem)
  end.

Definition starts_with_slash (path : list Z) : bool :=
  match path with c :: _ => c =? SLASH | [] => false end.

(** The inode, and the contents of [name]. *)
Definition namex (path : list Z) (nameiparent : bool) : M kst (option (nat * list Z)) :=
  ip ←
    (if starts_with_slash path then iget ROOTDEV ROOTINO
     else
       p ← myproc; pr ← getp p;
       match cwd pr with Some c => idup c | None => panic "kerneltrap" end);
  loop (fun '(ip, path, name) =>
    match skipelem path with
    | Some (path, name) =>
        ilock ip;;
        d ← geti ip;
        if negb (i_type d =? T_DIR) then iunlockput ip;; mret (inr None)
        else if nameiparent && bool_decide (path = []) then
          iunlock ip;;
          mret (inr (Some (ip, name)))
        else
          next ← dirlookup ip name;
          match next with
          | None => iunlockput ip;; mret (inr None)
          | Some (next, _) => iunlockput ip;; mret (inl (next, path, name))
          end
    | None =>
        if nameiparent then iput ip;; mret (inr None)
        else mret (inr (Some (ip, name)))
    end) (ip, path, []).

Definition namei (path : list Z) : M kst (option nat) :=
  r ← namex path false;
  mret (fst <$> r).

Definition nameiparent (path : list Z) : M kst (option (nat * list Z)) := namex path true.

End io.
