(* ===== verification/FsSpec.v ===== *)
(** * The file system inside a transaction

    The blocks of the device as a transaction sees and changes them ([txn]), the
    rules for reading and updating a block, and what the operations of fs.c do
    to the blocks: allocation in the bitmap, inodes, file contents and
    directories. *)

From S2P Require Import Prelude CMem Riscv Kalloc Vm KState Sched Printf Bio BioSpec Log LogSpec Fs.

(** ** Transactions *)

(** The state apart from the cache and the log. *)
Definition tx_frame (s : kst) : kst := (fs_frame s) <| lg := log0 |>.

Definition log_put (bn : Z) (L : list Z) : list Z := if decide (bn ∈ L) then L else L ++ [bn].

(** Inside [begin_op] .. [end_op]: the process holds the buffers [H], sees the
    blocks [V], has logged the blocks [L]; the disk is [D] and the rest of the
    state is [f].  A block that differs from the disk is logged. *)
Record txn (dev : Z) (H : list (nat * Z)) (V : Z -> list Z) (D : disk) (L : list Z) (f s : kst) : Prop := {
  tn_cache : cache dev H (list_to_set L) V D (fs_frame s) s;
  tn_log : log_blocks (lg s) = L;
  tn_n : 0 <= lh_n (lg s) <= LOGBLOCKS;
  tn_len : length (lh_block (lg s)) = Z.to_nat LOGBLOCKS;
  tn_nodup : NoDup L;
  tn_out : 1 <= lg_outstanding (lg s);
  tn_lock : Llog ∉ locks s;
  tn_clean : forall bn, bn ∈ L \/ V bn = disk_read D bn;
  tn_frame : tx_frame s = f
}.

Lemma size_list_to_set_le (L : list Z) : (size (list_to_set L : gset Z) <= length L)%nat.
Proof.
  induction L as [|x L IH]; [done|]. rewrite list_to_set_cons.
  rewrite size_union_alt. rewrite size_singleton. cbn [length].
  assert (size (list_to_set L ∖ {[x]} : gset Z) <= size (list_to_set L : gset Z))%nat by (apply subseteq_size; set_solver).
  lia.
Qed.

Section rules.
Context {dev : Z} {H : list (nat * Z)} {V : Z -> list Z} {D : disk} {L : list Z} {f s : kst}.
Context (X : txn dev H V D L f s).

Lemma txn_bread bn (Q : nat -> kst -> Prop) :
  (bn ∉ H.*2) -> (length H + length L < nbuf)%nat ->
  (forall b s', txn dev ((b, bn) :: H) V D L f s' -> Q b s') -> wp (bread dev bn) Q s.
Proof.
  intros Hbn Hn HQ. apply (cache_bread (tn_cache _ _ _ _ _ _ _ X)); [done| |].
  { pose proof (size_list_to_set_le L). lia. }
  intros b s' C. apply HQ. assert (fs_frame s' = fs_frame s) as Hf by apply C.
  assert (lg s' = lg s) as Hlg by (by apply frame_lg). assert (locks s' = locks s) as Hlk by (by apply frame_locks).
  destruct X as [X1 X2 X3 X4 X5 X6 X7 X8 X9]. split; rewrite ?Hlg, ?Hlk, ?Hf; try done.
  unfold tx_frame. by rewrite Hf.
Qed.

Lemma log_put_blocks bn l :
  0 <= lh_n l < LOGBLOCKS -> length (lh_block l) = Z.to_nat LOGBLOCKS ->
  log_blocks (log_add bn l) = log_put bn (log_blocks l).
Proof.
  intros Hn Hl. unfold log_put. case_decide as Hin; [unfold log_add; by rewrite decide_True|].
  apply log_add_blocks; [lia|rewrite Hl; lia|done].
Qed.

Lemma log_n_length l : 0 <= lh_n l <= LOGBLOCKS -> length (lh_block l) = Z.to_nat LOGBLOCKS ->
  length (log_blocks l) = Z.to_nat (lh_n l).
Proof. intros Hn Hl. unfold log_blocks. rewrite length_take, Hl. lia. Qed.

Lemma txn_update b bn d (Q : unit -> kst -> Prop) :
  (b, bn) ∈ H -> length d = Z.to_nat BSIZE -> (length L < Z.to_nat LOGBLOCKS)%nat ->
  (forall s', txn dev H (vset V bn d) D (log_put bn L) f s' -> Q tt s') ->
  wp (set_bdata b d) (fun _ s1 => wp (log_write b) Q s1) s.
Proof.
  intros Hin Hd HL HQ. destruct X as [X1 X2 X3 X4 X5 X6 X7 X8 X9].
  apply (cache_set X1 b bn); [done|done|]. intros s1 C. pose proof (cache_in b bn Hin) as Hb.
  assert (fs_frame s1 = fs_frame s) as Hf by apply C.
  assert (lg s1 = lg s) as Hlg by (by apply frame_lg). assert (locks s1 = locks s) as Hlk by (by apply frame_locks).
  pose proof (ca_ok _ _ _ _ _ _ _ C) as OK. rewrite <- X2, <- Hlg in OK.
  assert (b_blockno (buf_at s1 b) = bn) as Hbn by (by apply (ca_held _ _ _ _ _ _ _ C)).
  assert (lh_n (lg s) < LOGBLOCKS) as Hlt by (rewrite <- X2, log_n_length in HL by done; lia).
  apply (wp_log_write dev (H.*1)); [split; [done|by rewrite Hlg|by rewrite Hlg|by rewrite Hlg, X2]|done|by rewrite Hlg|by rewrite Hlg|by rewrite Hlk|].
  cbv zeta. rewrite Hbn, Hlg. set (r := 1 + _). set (s2 := put_ref b r s1 <| lg ::= log_add bn |>).
  apply HQ.
  assert (log_blocks (log_add bn (lg s)) = log_put bn L) as HB by (rewrite log_put_blocks, X2 by (done || lia); done).
  assert (bio_ok dev (H.*1) (list_to_set (log_put bn L)) s2) as OK2.
  { rewrite <- HB. apply (bio_ok_pins (bio_ok_lg _ _ _ (log_add bn) _ OK)); [done| |].
    - intros x Hx. change (b_blockno (buf_at (s1 <| lg ::= _ |>) b)) with (b_blockno (buf_at s1 b)) in Hx. rewrite Hbn in Hx.
      rewrite HB, Hlg, X2, !elem_of_list_to_set. unfold log_put. case_decide; [done|].
      rewrite elem_of_app, list_elem_of_singleton. tauto.
    - change (b_blockno (buf_at (s1 <| lg ::= _ |>) b)) with (b_blockno (buf_at s1 b)). by rewrite Hbn. }
  assert (forall i, b_blockno (buf_at s2 i) = b_blockno (buf_at s1 i)) as Hblk.
  { intros i. change (buf_at s2 i) with (buf_at (put_ref b r s1) i). unfold put_ref.
    rewrite (buf_at_alter (fun x => x <| b_refcnt := r |>) b i s1) by (by apply (in_range OK)). by case_decide; subst. }
  split.
  - split; try apply C; [exact OK2| | |done].
    + intros b' bn' Hin'. rewrite Hblk. by apply (ca_held _ _ _ _ _ _ _ C).
    + intros x. rewrite <- (ca_view _ _ _ _ _ _ _ C).
      change (bview dev s2 x) with (bview dev (put_ref b r s1) x). by apply (bview_pins OK b Hb).
  - change (log_blocks (log_add bn (lg s1)) = log_put bn L). by rewrite Hlg.
  - change (lg s2) with (log_add bn (lg s1)). rewrite Hlg. unfold log_add. case_decide; [done|]. cbn. lia.
  - change (lg s2) with (log_add bn (lg s1)). rewrite Hlg. unfold log_add. case_decide; [done|]. cbn. by rewrite length_insert.
  - unfold log_put. case_decide; [done|]. apply NoDup_app. split_and!; [done| |apply NoDup_singleton].
    intros x Hx ->%list_elem_of_singleton. done.
  - change (lg s2) with (log_add bn (lg s1)). rewrite Hlg. unfold log_add. by case_decide.
  - change (locks s2) with (locks s1). by rewrite Hlk.
  - intros x. unfold log_put, vset. destruct (decide (x = bn)) as [->|Hne].
    + left. case_decide; [done|]. apply elem_of_app. right. by left.
    + destruct (X8 x); [left|by right]. case_decide; [done|]. apply elem_of_app. by left.
  - rewrite <- X9. unfold tx_frame. change ((fs_frame s2) <| lg := log0 |>) with ((fs_frame s1) <| lg := log0 |>). by rewrite Hf.
Qed.

Lemma txn_brelse b bn H' (Q : unit -> kst -> Prop) :
  H ≡ₚ (b, bn) :: H' -> (forall s', txn dev H' V D L f s' -> Q tt s') -> wp (brelse b) Q s.
Proof.
  intros HH HQ. destruct X as [X1 X2 X3 X4 X5 X6 X7 X8 X9].
  apply (cache_brelse X1 b bn H'); [done|rewrite elem_of_list_to_set; apply X8|].
  intros s' C. apply HQ. assert (fs_frame s' = fs_frame s) as Hf by apply C.
  assert (lg s' = lg s) as Hlg by (by apply frame_lg). assert (locks s' = locks s) as Hlk by (by apply frame_locks).
  split; rewrite ?Hlg, ?Hlk, ?Hf; try done. unfold tx_frame. by rewrite Hf.
Qed.

Lemma txn_bdata b bn (Q : list Z -> kst -> Prop) : (b, bn) ∈ H -> Q (V bn) s -> wp (bdata b) Q s.
Proof. intros Hin HQ. by apply (cache_bdata b bn Q (tn_cache _ _ _ _ _ _ _ X)). Qed.

Lemma txn_length bn : length (V bn) = Z.to_nat BSIZE.
Proof. apply (cache_view_length (tn_cache _ _ _ _ _ _ _ X)). Qed.

Lemma txn_sb : sb s = sb f.
Proof. rewrite <- (tn_frame _ _ _ _ _ _ _ X). done. Qed.

Lemma txn_inode i : inode_at s i = inode_at f i.
Proof. rewrite <- (tn_frame _ _ _ _ _ _ _ X). done. Qed.

Lemma txn_updi i g : txn dev H V D L (f <| inodes ::= alter g i |>) (s <| inodes ::= alter g i |>).
Proof.
  destruct X as [[C1 C2 C3 C4 C5 C6] X2 X3 X4 X5 X6 X7 X8 X9]. split; try done.
  - split; try done. split; apply C1.
  - by rewrite <- X9.
Qed.

Lemma txn_printf fmt args (Q : unit -> kst -> Prop) :
  (forall s', txn dev H V D L f s' -> Q tt s') -> wp (printf fmt args) Q s.
Proof.
  intros HQ. destruct X as [X1 X2 X3 X4 X5 X6 X7 X8 X9].
  apply (cache_printf fmt args Q X1). intros s' C. apply HQ. assert (fs_frame s' = fs_frame s) as Hf by apply C.
  assert (lg s' = lg s) as Hlg by (by apply frame_lg). assert (locks s' = locks s) as Hlk by (by apply frame_locks).
  split; rewrite ?Hlg, ?Hlk, ?Hf; try done. unfold tx_frame. by rewrite Hf.
Qed.

End rules.

Lemma txn_set {B dev H V D L f s} b bn d (k : unit -> M kst B) (Q : B -> kst -> Prop) :
  txn dev H V D L f s -> (b, bn) ∈ H -> length d = Z.to_nat BSIZE -> (length L < 30)%nat ->
  (forall s', txn dev H (vset V bn d) D (log_put bn L) f s' -> wp (k tt) Q s') ->
  wp (set_bdata b d;; u ← log_write b; k u) Q s.
Proof.
  intros X Hin Hd HL HQ. apply wp_bind.
  eapply wp_mono; [apply (txn_update X b bn d (fun _ s1 => wp (k tt) Q s1)); [done..|]|]; [done|].
  intros u s1 Hw. apply wp_bind. eapply wp_mono; [exact Hw|]. by intros [].
Qed.

(** The end of an update: change the block, log it, release the buffer. *)
Lemma txn_put {B dev H V D L f s} b bn d H' (k : unit -> M kst B) (Q : B -> kst -> Prop) :
  txn dev H V D L f s -> H ≡ₚ (b, bn) :: H' -> length d = Z.to_nat BSIZE -> (length L < 30)%nat ->
  (forall s', txn dev H' (vset V bn d) D (log_put bn L) f s' -> wp (k tt) Q s') ->
  wp (set_bdata b d;; log_write b;; u ← brelse b; k u) Q s.
Proof.
  intros X HH Hd HL HQ. apply (txn_set b bn d _ _ X); [rewrite HH; left|done|done|].
  intros s1 X1. apply wp_bind, (txn_brelse X1 b bn H'); [done|]. apply HQ.
Qed.

Lemma txn_put_end {dev H V D L f s} b bn d H' (Q : unit -> kst -> Prop) :
  txn dev H V D L f s -> H ≡ₚ (b, bn) :: H' -> length d = Z.to_nat BSIZE -> (length L < 30)%nat ->
  (forall s', txn dev H' (vset V bn d) D (log_put bn L) f s' -> Q tt s') ->
  wp (set_bdata b d;; log_write b;; brelse b) Q s.
Proof.
  intros X HH Hd HL HQ. apply (txn_set b bn d _ _ X); [rewrite HH; left|done|done|].
  intros s1 X1. by apply (txn_brelse X1 b bn H').
Qed.

Lemma wp_for_until {R} lo hi step (dflt : R) body (Inv : Z -> kst -> Prop) (Q : R -> kst -> Prop) s :
  0 < step -> hi - lo < 2 ^ 64 -> Inv lo s ->
  (forall i s, lo <= i < hi -> Inv i s ->
     wp (body i) (fun r s' => match r with Some x => Q x s' | None => Inv (i + step) s' end) s) ->
  (forall i s, hi <= i -> Inv i s -> Q dflt s) ->
  wp (for_until lo hi step dflt body) Q s.
Proof.
  intros Hst Hlen H0 Hb Hend. unfold for_until.
  apply (wp_loop (fun n i s => lo <= i /\ n = Z.max 0 (hi - i) + 1 /\ Inv i s) _ _ (Z.max 0 (hi - lo) + 1)); [|lia|by auto with lia].
  intros n i s1 (Hi & -> & HI). split; [lia|]. destruct (Z.ltb_spec i hi) as [Hlt|Hge]; [|wp_step; by eapply Hend].
  apply wp_bind. eapply wp_mono; [by apply Hb|]. intros [x|] s2 Hr; wp_step; [done|].
  exists (Z.max 0 (hi - (i + step)) + 1). split; [lia|]. split; [lia|]. split; [done|done].
Qed.

(** ** The bitmap *)

Definition bit_at (V : Z -> list Z) (sb : superblock) (b : Z) : bool :=
  Z.testbit (nth (Z.to_nat (b `mod` BPB / 8)) (V (BBLOCK b sb)) 0) (b `mod` 8).

(** The bitmap with the bit of [b] set, cleared. *)
Definition put_bit (V : Z -> list Z) (sb : superblock) (b : Z) (v : bool) : Z -> list Z :=
  let data := V (BBLOCK b sb) in
  let k := Z.to_nat (b `mod` BPB / 8) in
  let m := Z.shiftl 1 (b `mod` 8) in
  vset V (BBLOCK b sb)
    (<[k := if v then Z.lor (nth k data 0) m else Z.land (nth k data 0) (u8 (Z.lnot m))]> data).

(** The first block after the bitmap, as mkfs lays the blocks out. *)
Definition data_start (sb : superblock) : Z := sb_bmapstart sb + sb_size sb / BPB + 1.

(** The blocks before the data blocks are in use. *)
Record bitmap_ok (sb : superblock) (V : Z -> list Z) : Prop := {
  bk_size : 0 < sb_size sb < 2 ^ 31;
  bk_start : 0 <= sb_bmapstart sb /\ data_start sb <= sb_size sb;
  bk_meta : forall b, 0 <= b < data_start sb -> bit_at V sb b = true
}.

Definition is_data (sb : superblock) (b : Z) : Prop := data_start sb <= b < sb_size sb.

(** A data block in use. *)
Definition used (sb : superblock) (V : Z -> list Z) (b : Z) : Prop := is_data sb b /\ bit_at V sb b = true.

Lemma land_bit x k : 0 <= k -> (Z.land x (Z.shiftl 1 k) =? 0) = negb (Z.testbit x k).
Proof.
  intros Hk. destruct (Z.testbit x k) eqn:Hb; cbn.
  - apply Z.eqb_neq. intros H%(f_equal (fun y => Z.testbit y k)). rewrite Z.land_spec, Hb, Z.bits_0 in H.
    rewrite Z.shiftl_spec, Z.sub_diag in H by done. done.
  - apply Z.eqb_eq, Z.bits_inj'. intros j Hj. rewrite Z.land_spec, Z.bits_0, Z.shiftl_spec by done.
    destruct (decide (j = k)) as [->|Hne]; [by rewrite Hb|].
    destruct (Z.ltb_spec j k); [rewrite (Z.testbit_neg_r 1) by lia; apply andb_false_r|].
    rewrite (Z.bits_above_log2 1 (j - k)) by (cbn; lia). apply andb_false_r.
Qed.

Lemma testbit_one j k : 0 <= j -> 0 <= k -> Z.testbit (Z.shiftl 1 k) j = bool_decide (j = k).
Proof.
  intros Hj Hk. rewrite Z.shiftl_spec by done. case_bool_decide as Hjk; [by rewrite Hjk, Z.sub_diag|].
  destruct (Z.ltb_spec j k); [by rewrite Z.testbit_neg_r by lia|]. by rewrite Z.bits_above_log2 by (cbn; lia).
Qed.

Lemma testbit_lor x j k : 0 <= j -> 0 <= k -> Z.testbit (Z.lor x (Z.shiftl 1 k)) j = bool_decide (j = k) || Z.testbit x j.
Proof. intros Hj Hk. rewrite Z.lor_spec, testbit_one by done. apply orb_comm. Qed.

Lemma testbit_clear x j k :
  0 <= j < 8 -> 0 <= k < 8 ->
  Z.testbit (Z.land x (u8 (Z.lnot (Z.shiftl 1 k)))) j = negb (bool_decide (j = k)) && Z.testbit x j.
Proof.
  intros Hj Hk. rewrite Z.land_spec. unfold u8. rewrite <- Z.land_ones, Z.land_spec, Z.lnot_spec, testbit_one by lia.
  rewrite Z.ones_spec_low by lia. rewrite andb_true_r. apply andb_comm.
Qed.

Section bitmap.
Context {sb : superblock} {V : Z -> list Z} (Hlen : forall bn, length (V bn) = Z.to_nat BSIZE).
Context (BK : bitmap_ok sb V).

Lemma BBLOCK_eq b : 0 <= b < sb_size sb -> BBLOCK b sb = b / BPB + sb_bmapstart sb.
Proof using BK.
  destruct BK as [K1 [K2 K2'] K3]. unfold data_start in *. change BPB with 8192 in *.
  intros Hb. unfold BBLOCK, u32. change BPB with 8192. apply Z.mod_small. Z.div_mod_to_equations. lia.
Qed.

Lemma BBLOCK_meta b : 0 <= b < sb_size sb -> sb_bmapstart sb <= BBLOCK b sb < data_start sb.
Proof using BK.
  intros Hb. rewrite BBLOCK_eq by done. unfold data_start. change BPB with 8192. Z.div_mod_to_equations. lia.
Qed.

Lemma free_is_data b : 0 <= b < sb_size sb -> bit_at V sb b = false -> is_data sb b.
Proof using BK.
  intros Hb Hbit. split; [|lia]. apply Z.nlt_ge. intros Hlt.
  rewrite (bk_meta _ _ BK) in Hbit by lia. done.
Qed.

(** Setting or clearing one bit changes that bit. *)
Lemma bit_put b v b' :
  0 <= b < sb_size sb -> 0 <= b' < sb_size sb ->
  bit_at (put_bit V sb b v) sb b' = if decide (b' = b) then v else bit_at V sb b'.
Proof.
  intros Hb Hb'. unfold bit_at, put_bit, vset. rewrite (BBLOCK_eq b), (BBLOCK_eq b') by done.
  change BPB with 8192 in *. destruct (decide (b' / 8192 + sb_bmapstart sb = b / 8192 + sb_bmapstart sb)) as [He|Hne].
  2: { rewrite decide_False by (intros ->; done). done. }
  assert (b' / 8192 = b / 8192) as Hd by lia.
  assert (0 <= b `mod` 8192 / 8 < 1024) by (Z.div_mod_to_equations; lia).
  assert (0 <= b' `mod` 8192 / 8 < 1024) by (Z.div_mod_to_equations; lia).
  rewrite <- He.
  destruct (decide (b' `mod` 8192 / 8 = b `mod` 8192 / 8)) as [Hk|Hk].
  - rewrite Hk. rewrite nth_lookup, list_lookup_insert_eq by (rewrite Hlen; change BSIZE with 1024; lia). cbn [default from_option id].
    assert (b' = b <-> b' `mod` 8 = b `mod` 8) as Hbb by (split; [by intros ->|Z.div_mod_to_equations; lia]).
    destruct v.
    + rewrite testbit_lor by (apply Z.mod_pos_bound; lia). case_bool_decide; case_decide; try done; tauto.
    + rewrite testbit_clear by (apply Z.mod_pos_bound; lia). case_bool_decide; case_decide; try done; tauto.
  - rewrite !nth_lookup, list_lookup_insert_ne by (intros E; apply Hk; lia).
    rewrite decide_False by (intros ->; done). done.
Qed.
End bitmap.

Lemma mod_bpb_8 b : (b `mod` BPB) `mod` 8 = b `mod` 8.
Proof. change BPB with 8192. Z.div_mod_to_equations. lia. Qed.

Lemma put_bit_length V sb b v bn :
  (forall bn, length (V bn) = Z.to_nat BSIZE) -> length (put_bit V sb b v bn) = Z.to_nat BSIZE.
Proof. intros H. unfold put_bit, vset. case_decide; [|done]. by rewrite length_insert. Qed.

Section blocks.
Context {dev : Z} {H : list (nat * Z)} {V : Z -> list Z} {D : disk} {L : list Z} {f s : kst}.
Context (X : txn dev H V D L f s).

(** [bzero] writes zeros. *)
Lemma wp_bzero b (Q : unit -> kst -> Prop) :
  (b ∉ H.*2) -> (length H + length L < nbuf)%nat ->
  (forall s', txn dev H (vset V b zero_block) D (log_put b L) f s' -> Q tt s') -> wp (bzero dev b) Q s.
Proof.
  intros Hb Hn HQ. change nbuf with 30%nat in *. unfold bzero. wp_step. apply (txn_bread X); [done|done|].
  intros bp s1 X1. apply (txn_put_end bp b zero_block H _ X1); [done|done|lia|done].
Qed.

(** [bfree] clears the bit of a block in use. *)
Lemma wp_bfree b (Q : unit -> kst -> Prop) :
  (BBLOCK b (sb f) ∉ H.*2) -> (length H + length L < nbuf)%nat -> bit_at V (sb f) b = true ->
  (forall s', txn dev H (put_bit V (sb f) b false) D (log_put (BBLOCK b (sb f)) L) f s' -> Q tt s') ->
  wp (bfree dev b) Q s.
Proof.
  intros Hb Hn Hbit HQ. change nbuf with 30%nat in *. unfold bfree. wp_step. wp_step. rewrite (txn_sb X). wp_step.
  apply (txn_bread X); [done|done|]. intros bp s1 X1. wp_step.
  apply (txn_bdata X1 bp (BBLOCK b (sb f))); [left|]. cbv zeta. rewrite mod_bpb_8, land_bit by (apply Z.mod_pos_bound; lia).
  unfold bit_at in Hbit. rewrite Hbit. cbn [negb].
  apply (txn_put_end bp (BBLOCK b (sb f)) _ H _ X1); [done|by rewrite length_insert; apply (txn_length X1)|lia|done].
Qed.

End blocks.

Lemma log_put_length bn L : (length (log_put bn L) <= S (length L))%nat.
Proof. unfold log_put. case_decide; [lia|]. rewrite length_app. cbn. lia. Qed.

Lemma log_put_in bn L : bn ∈ log_put bn L.
Proof. unfold log_put. case_decide; [done|]. apply elem_of_app. right. by left. Qed.

Lemma log_put_incl bn L : L ⊆ log_put bn L.
Proof. unfold log_put. case_decide; [done|]. intros x Hx. apply elem_of_app. by left. Qed.

(** The view and the log after block [b] was allocated. *)
Definition alloc_view (sb : superblock) (V : Z -> list Z) (b : Z) : Z -> list Z := vset (put_bit V sb b true) b zero_block.
Definition alloc_log (sb : superblock) (L : list Z) (b : Z) : list Z := log_put b (log_put (BBLOCK b sb) L).

(** The buffers held are those of data blocks in use. *)
Definition held_used (sb : superblock) (V : Z -> list Z) (H : list (nat * Z)) : Prop := forall bn, bn ∈ H.*2 -> used sb V bn.

(** A search of the bitmap block of [b0], with its buffer [bp] held. *)
Lemma wp_balloc_block dev H V D L f s b0 bp (Q : option Z -> kst -> Prop) :
  txn dev ((bp, BBLOCK b0 (sb f)) :: H) V D L f s -> bitmap_ok (sb f) V -> held_used (sb f) V H ->
  0 <= b0 < sb_size (sb f) -> b0 `mod` BPB = 0 -> (S (length H + length L) < nbuf)%nat ->
  (forall b s', is_data (sb f) b -> bit_at V (sb f) b = false ->
     txn dev H (alloc_view (sb f) V b) D (alloc_log (sb f) L b) f s' -> Q (Some b) s') ->
  (forall s', (forall b, b0 <= b < b0 + BPB -> b < sb_size (sb f) -> bit_at V (sb f) b = true) ->
     txn dev ((bp, BBLOCK b0 (sb f)) :: H) V D L f s' -> Q None s') ->
  wp (balloc_block dev (sb_size (sb f)) b0 bp) Q s.
Proof.
  intros X BK U Hb0 Hmod Hn Hok Hno. change nbuf with 30%nat in *. unfold balloc_block.
  assert (forall bi, 0 <= bi < BPB -> b0 + bi < sb_size (sb f) -> BBLOCK (b0 + bi) (sb f) = BBLOCK b0 (sb f) /\
    (b0 + bi) `mod` BPB = bi /\ (b0 + bi) `mod` 8 = bi `mod` 8) as Hblk.
  { intros bi Hbi Hlt. rewrite !(BBLOCK_eq BK) by (done || lia). change BPB with 8192 in *.
    split_and!; [f_equal|..]; Z.div_mod_to_equations; lia. }
  pose proof (bk_size _ _ BK) as K1.
  apply (wp_for_until _ _ _ _ _ (fun bi s1 => txn dev ((bp, BBLOCK b0 (sb f)) :: H) V D L f s1 /\
    forall b, b0 <= b < b0 + bi -> b < sb_size (sb f) -> bit_at V (sb f) b = true)).
  - done.
  - change BPB with 8192. lia.
  - split; [done|]. lia.
  - clear s X. intros bi s Hbi [X Hall]. destruct (Hblk bi) as (Hb1 & Hb2 & Hb3); [lia|lia|].
    wp_step. apply (txn_bdata X bp (BBLOCK b0 (sb f))); [left|]. cbv zeta.
    rewrite land_bit by (apply Z.mod_pos_bound; lia).
    assert (bit_at V (sb f) (b0 + bi) = Z.testbit (nth (Z.to_nat (bi / 8)) (V (BBLOCK b0 (sb f))) 0) (bi `mod` 8)) as Hbit
      by (unfold bit_at; by rewrite Hb1, Hb2, Hb3).
    rewrite <- Hbit. destruct (bit_at V (sb f) (b0 + bi)) eqn:Hv; cbn [negb].
    + wp_step. split; [done|]. intros b Hb Hlt. destruct (decide (b = b0 + bi)) as [->|]; [done|]. apply Hall; lia.
    + apply (txn_put bp (BBLOCK b0 (sb f)) _ H _ _ X); [done|by rewrite length_insert; apply (txn_length X)|lia|].
      clear s X. intros s X. apply wp_bind, (wp_bzero X).
      * intros Hin. destruct (U _ Hin) as [_ E]. by rewrite E in Hv.
      * pose proof (log_put_length (BBLOCK b0 (sb f)) L). change nbuf with 30%nat. lia.
      * clear s X. intros s X. wp_step. apply Hok; [by apply (free_is_data BK); [lia|]|done|].
        unfold alloc_view, alloc_log, put_bit. by rewrite Hb1, Hb2, Hb3.
  - clear s X. intros bi s Hbi [X Hall]. apply Hno; [|done]. intros b Hb Hlt. apply Hall; lia.
Qed.

(** [balloc] allocates a free block, or finds none. *)
Lemma wp_balloc dev H V D L f s (Q : Z -> kst -> Prop) :
  txn dev H V D L f s -> bitmap_ok (sb f) V -> held_used (sb f) V H -> (S (length H + length L) < nbuf)%nat ->
  (forall b s', is_data (sb f) b -> bit_at V (sb f) b = false ->
     txn dev H (alloc_view (sb f) V b) D (alloc_log (sb f) L b) f s' -> Q b s') ->
  (forall s', (forall b, 0 <= b < sb_size (sb f) -> bit_at V (sb f) b = true) -> txn dev H V D L f s' -> Q 0 s') ->
  wp (balloc dev) Q s.
Proof.
  intros X BK U Hn Hok Hno. pose proof (bk_size _ _ BK) as K1. change nbuf with 30%nat in Hn.
  unfold balloc. wp_step. wp_step. rewrite (txn_sb X). apply wp_bind.
  apply (wp_for_until _ _ _ _ _ (fun b s1 => txn dev H V D L f s1 /\ b `mod` BPB = 0 /\
    forall b', 0 <= b' < b -> b' < sb_size (sb f) -> bit_at V (sb f) b' = true)).
  - done.
  - lia.
  - split_and!; [done|done|lia].
  - clear s X. intros b s Hb (X & Hmod & Hall). wp_step. wp_step. rewrite (txn_sb X). wp_step.
    apply (txn_bread X); [|change nbuf with 30%nat; lia|].
    { intros Hin. destruct (U _ Hin) as [[? _] _]. pose proof (BBLOCK_meta BK b Hb). lia. }
    clear s X. intros bp s X. wp_step.
    apply (wp_balloc_block _ _ _ _ _ _ _ _ _ _ X BK U Hb Hmod Hn).
    + intros r s' Hr Hbit HA. wp_step. wp_step. by apply Hok.
    + clear s X. intros s Hblk X. wp_step. apply (txn_brelse X bp (BBLOCK b (sb f)) H); [done|]. clear s X. intros s X.
      wp_step. split_and!; [done| |].
      * change BPB with 8192 in *. Z.div_mod_to_equations. lia.
      * intros b' Hb' Hlt. destruct (Z.lt_ge_cases b' b); [apply Hall|apply Hblk]; lia.
  - clear s X. intros b s Hb (X & Hmod & Hall). wp_step. apply (txn_printf X). clear s X. intros s X.
    wp_step. apply Hno; [|done]. intros b' Hb'. apply Hall; lia.
Qed.

Lemma bit_vset V sb b d b' : BBLOCK b' sb <> b -> bit_at (vset V b d) sb b' = bit_at V sb b'.
Proof. intros Hne. unfold bit_at, vset. by rewrite decide_False. Qed.

(** The blocks after [b] went from free to in use: its bit is set and no other,
    it holds zeros, and no block but it and the bitmap is changed. *)
Section alloc_view.
Context {sb : superblock} {V : Z -> list Z} {b : Z} (Hlen : forall bn, length (V bn) = Z.to_nat BSIZE).
Context (BK : bitmap_ok sb V) (Hb : is_data sb b).

Lemma data_range b' : is_data sb b' -> 0 <= b' < sb_size sb.
Proof using BK.
  intros [H1 H2]. split; [|done]. pose proof (bk_start _ _ BK) as [? _]. pose proof (bk_size _ _ BK).
  unfold data_start in H1. pose proof (Z.div_pos (sb_size sb) BPB). change BPB with 8192 in *. lia.
Qed.

Lemma alloc_view_bit b' :
  0 <= b' < sb_size sb -> bit_at (alloc_view sb V b) sb b' = bool_decide (b' = b) || bit_at V sb b'.
Proof using Hlen BK Hb.
  intros Hb'. unfold alloc_view. rewrite bit_vset.
  - rewrite (bit_put Hlen BK) by (done || by apply data_range). case_bool_decide; by case_decide.
  - intros E. pose proof (BBLOCK_meta BK b' Hb'). destruct Hb. lia.
Qed.

Lemma alloc_view_ok : bitmap_ok sb (alloc_view sb V b).
Proof using Hlen BK Hb.
  split; [apply BK..|]. intros b' Hb'. pose proof (bk_start _ _ BK) as [_ ?].
  rewrite alloc_view_bit by lia. rewrite (bk_meta _ _ BK) by done. apply orb_true_r.
Qed.

Lemma alloc_view_new : alloc_view sb V b b = zero_block.
Proof. unfold alloc_view. apply vset_eq. Qed.

Lemma alloc_view_other bn : bn <> b -> ~ (sb_bmapstart sb <= bn < data_start sb) -> alloc_view sb V b bn = V bn.
Proof using BK Hb.
  intros H1 H2. unfold alloc_view, put_bit. rewrite !vset_ne; [done| |done].
  intros ->. apply H2. by apply (BBLOCK_meta BK), data_range.
Qed.

Lemma alloc_view_length bn : length (alloc_view sb V b bn) = Z.to_nat BSIZE.
Proof using Hlen. unfold alloc_view, vset. case_decide; [done|]. by apply put_bit_length. Qed.

End alloc_view.
