(* ===== verification/InodeSpec.v ===== *)
(** * File contents

    The blocks of a file ([fblock]) and its bytes ([fbyte]) as the inode and
    the indirect block give them, what [bmap], [readi] and [writei] do to them
    inside a transaction, and how much of the log a write uses. *)

From S2P Require Import Prelude CMem Riscv Kalloc Vm KState Sched Printf Bio BioSpec Log LogSpec Fs FsSpec.

(** There is a buffer left. *)
Ltac room := change nbuf with 30%nat in *; cbn [length] in *; lia.

(** ** The blocks of a file *)

(** The indirect block, and the [k]-th block; 0 when there is none. *)
Definition ind (addrs : list Z) : Z := nth (Z.to_nat NDIRECT) addrs 0.

Definition fblock (V : Z -> list Z) (addrs : list Z) (k : Z) : Z :=
  if k <? NDIRECT then nth (Z.to_nat k) addrs 0
  else if ind addrs =? 0 then 0 else rd 4 (V (ind addrs)) (4 * (k - NDIRECT)).

Definition fbyte (V : Z -> list Z) (addrs : list Z) (o : Z) : Z :=
  nth (Z.to_nat (o `mod` BSIZE)) (V (fblock V addrs (o / BSIZE))) 0.

Definition fbytes (V : Z -> list Z) (addrs : list Z) (off : Z) (n : nat) : list Z :=
  (fun j : nat => fbyte V addrs (off + Z.of_nat j)) <$> seq 0 n.

(** The blocks of a file are data blocks in use, all different. *)
Record file_ok (sb : superblock) (V : Z -> list Z) (addrs : list Z) : Prop := {
  fo_len : length addrs = 13%nat;
  fo_block : forall k, 0 <= k < MAXFILE -> fblock V addrs k <> 0 -> used sb V (fblock V addrs k);
  fo_ind : ind addrs <> 0 -> used sb V (ind addrs);
  fo_inj : forall k k', 0 <= k < MAXFILE -> 0 <= k' < MAXFILE -> fblock V addrs k <> 0 ->
    fblock V addrs k = fblock V addrs k' -> k = k';
  fo_ind_ne : forall k, 0 <= k < MAXFILE -> fblock V addrs k <> 0 -> fblock V addrs k <> ind addrs
}.

(** Block [bn] is not part of the file. *)
Definition foreign (V : Z -> list Z) (addrs : list Z) (bn : Z) : Prop :=
  bn <> ind addrs /\ forall k, 0 <= k < MAXFILE -> fblock V addrs k <> bn.

(** Blocks may have been added to the file; every block that was in use keeps
    its contents, but for the bitmap and the indirect block. *)
Record fext (sb : superblock) (V : Z -> list Z) (addrs : list Z) (V' : Z -> list Z) (addrs' : list Z) : Prop := {
  fx_file : file_ok sb V' addrs';
  fx_bitmap : bitmap_ok sb V';
  fx_len : forall bn, length (V' bn) = Z.to_nat BSIZE;
  fx_bits : forall b, 0 <= b < sb_size sb -> bit_at V sb b = true -> bit_at V' sb b = true;
  fx_block : forall k, 0 <= k < MAXFILE ->
    fblock V' addrs' k = fblock V addrs k \/ (fblock V addrs k = 0 /\ bit_at V sb (fblock V' addrs' k) = false);
  fx_ind : ind addrs' = ind addrs \/ (ind addrs = 0 /\ bit_at V sb (ind addrs') = false);
  fx_keep : forall bn, 0 <= bn < sb_size sb -> ~ (sb_bmapstart sb <= bn < data_start sb) ->
    bit_at V sb bn = true -> bn <> ind addrs -> V' bn = V bn
}.

Section alloc.
Context {sb : superblock} {V : Z -> list Z} {addrs : list Z} (Hlen : forall bn, length (V bn) = Z.to_nat BSIZE).
Context (BK : bitmap_ok sb V) (FO : file_ok sb V addrs).

Lemma fext_refl : fext sb V addrs V addrs.
Proof using Hlen BK FO. split; auto. Qed.

Lemma data_nonzero b : is_data sb b -> b <> 0.
Proof using BK.
  intros [H _]. pose proof (bk_start _ _ BK) as [? _]. pose proof (bk_size _ _ BK). unfold data_start in H.
  pose proof (Z.div_pos (sb_size sb) BPB). change BPB with 8192 in *. lia.
Qed.

Lemma used_keep b bn : is_data sb b -> bit_at V sb b = false -> used sb V bn -> alloc_view sb V b bn = V bn.
Proof using BK. intros Hb Hf [[H1 H2] H3]. apply (alloc_view_other BK Hb); [congruence|lia]. Qed.

Lemma used_alloc b bn : is_data sb b -> used sb V bn -> used sb (alloc_view sb V b) bn.
Proof using Hlen BK.
  intros Hb [H1 H2]. split; [done|]. rewrite (alloc_view_bit Hlen BK Hb) by (by apply (data_range BK)). by rewrite H2, orb_true_r.
Qed.

Lemma used_new b : is_data sb b -> used sb (alloc_view sb V b) b.
Proof using Hlen BK.
  intros Hb. split; [done|]. rewrite (alloc_view_bit Hlen BK Hb) by (by apply (data_range BK)). by rewrite bool_decide_eq_true_2.
Qed.

Lemma fblock_alloc b k : is_data sb b -> bit_at V sb b = false -> fblock (alloc_view sb V b) addrs k = fblock V addrs k.
Proof using BK FO.
  intros Hb Hf. unfold fblock. destruct (k <? NDIRECT); [done|]. destruct (Z.eqb_spec (ind addrs) 0) as [|Hi]; [done|].
  by rewrite used_keep by (done || by apply (fo_ind _ _ _ FO)).
Qed.

(** Common to the three ways a block is added. *)
Lemma alloc_bits b b' :
  is_data sb b -> 0 <= b' < sb_size sb -> bit_at V sb b' = true -> bit_at (alloc_view sb V b) sb b' = true.
Proof using Hlen BK. intros Hb Hb' H. rewrite (alloc_view_bit Hlen BK Hb) by done. by rewrite H, orb_true_r. Qed.

Lemma fresh_block b k : bit_at V sb b = false -> 0 <= k < MAXFILE -> b <> 0 -> fblock V addrs k <> b.
Proof using FO.
  intros Hf Hk H0 E. destruct (fo_block _ _ _ FO k Hk) as [_ E']; [congruence|]. by rewrite E, Hf in E'.
Qed.

Lemma fresh_ind b : bit_at V sb b = false -> b <> 0 -> ind addrs <> b.
Proof using FO. intros Hf H0 E. destruct (fo_ind _ _ _ FO) as [_ E']; [congruence|]. by rewrite E, Hf in E'. Qed.

(** Block [b] became block [k0] of the file, or its indirect block. *)
Lemma fext_add V' addrs' b k0 :
  is_data sb b -> bit_at V sb b = false -> length addrs' = 13%nat -> bitmap_ok sb V' ->
  (forall bn, length (V' bn) = Z.to_nat BSIZE) ->
  (forall b', 0 <= b' < sb_size sb -> bit_at V' sb b' = bool_decide (b' = b) || bit_at V sb b') ->
  (forall k, 0 <= k < MAXFILE -> fblock V' addrs' k = fblock V addrs k \/ (k = k0 /\ fblock V addrs k = 0 /\ fblock V' addrs' k = b)) ->
  ind addrs' = ind addrs \/ (ind addrs = 0 /\ ind addrs' = b /\ forall k, 0 <= k < MAXFILE -> fblock V' addrs' k = fblock V addrs k) ->
  (forall bn, 0 <= bn < sb_size sb -> ~ (sb_bmapstart sb <= bn < data_start sb) ->
    bit_at V sb bn = true -> bn <> ind addrs -> V' bn = V bn) ->
  fext sb V addrs V' addrs'.
Proof using BK FO.
  intros Hb Hf Hla BK' Hl' Hbits Hblk Hind Hkeep.
  assert (forall bn, used sb V bn -> used sb V' bn) as Hused.
  { intros bn [H1 H2]. split; [done|]. rewrite Hbits by (by apply (data_range BK)). by rewrite H2, orb_true_r. }
  assert (used sb V' b) as Hnew.
  { split; [done|]. rewrite Hbits by (by apply (data_range BK)). by rewrite bool_decide_eq_true_2. }
  assert (b <> 0) as Hb0 by (by apply data_nonzero).
  pose proof (fun k => fresh_block b k Hf) as Hfb. pose proof (fresh_ind b Hf Hb0) as Hfi.
  split; [split|..]; try done.
  - intros k Hk H. destruct (Hblk k Hk) as [E|(_ & _ & ->)]; [rewrite E in *; by apply Hused, FO|done].
  - intros Hi. destruct Hind as [E|(_ & -> & _)]; [rewrite E in *; by apply Hused, FO|done].
  - intros k k' Hk Hk' H0 E. destruct (Hblk k Hk) as [E1|(-> & _ & E1)], (Hblk k' Hk') as [E2|(-> & _ & E2)].
    + rewrite E1, E2 in *. by apply (fo_inj _ _ _ FO).
    + rewrite E1, E2 in E. by destruct (Hfb k Hk Hb0).
    + rewrite E1, E2 in E. by destruct (Hfb k' Hk' Hb0).
    + done.
  - intros k Hk H0. destruct Hind as [->|(_ & -> & Hs)].
    + destruct (Hblk k Hk) as [E|(_ & _ & ->)]; [rewrite E in *; by apply FO|congruence].
    + rewrite Hs in * by done. by apply Hfb.
  - intros b' Hb' H. rewrite Hbits by done. by rewrite H, orb_true_r.
  - intros k Hk. destruct (Hblk k Hk) as [->|(_ & H & ->)]; [by left|by right].
  - destruct Hind as [->|(H & -> & _)]; [by left|by right].
Qed.

End alloc.

Lemma fext_trans sb V addrs V1 addrs1 V2 addrs2 :
  bitmap_ok sb V -> file_ok sb V addrs -> fext sb V addrs V1 addrs1 -> fext sb V1 addrs1 V2 addrs2 -> fext sb V addrs V2 addrs2.
Proof.
  intros BK FO A B. destruct A as [A1 A2 A3 A4 A5 A6 A7]. destruct B as [B1 B2 B3 B4 B5 B6 B7].
  assert (forall b, used sb V1 b -> bit_at V1 sb b = false -> False) as Hu by (intros b [_ E] E'; congruence).
  assert (forall b, is_data sb b -> bit_at V1 sb b = false -> bit_at V sb b = false) as Hm.
  { intros b Hb E. destruct (bit_at V sb b) eqn:E'; [|done]. rewrite A4 in E; [done|by apply (data_range BK)|done]. }
  split; try done; [by auto|..].
  - intros k Hk. destruct (B5 k Hk) as [->|[E1 E2]]; [by auto|].
    destruct (decide (fblock V2 addrs2 k = 0)) as [E0|Hn0].
    + left. rewrite E0. destruct (A5 k Hk) as [<-|[-> _]]; [done|done].
    + right. destruct (A5 k Hk) as [E3|[E3 _]].
      * rewrite <- E3. split; [done|]. apply Hm; [|done]. by apply B1.
      * split; [done|]. apply Hm; [|done]. by apply B1.
  - destruct B6 as [->|[E1 E2]]; [done|]. destruct (decide (ind addrs2 = 0)) as [E0|Hn0].
    + left. rewrite E0. destruct A6 as [<-|[-> _]]; done.
    + right. destruct A6 as [E3|[E3 _]].
      * rewrite <- E3. split; [done|]. apply Hm; [|done]. by apply B1.
      * split; [done|]. apply Hm; [|done]. by apply B1.
  - intros bn Hbn Hm1 Hbit Hne. rewrite B7; [by apply A7|done|done|by apply A4|].
    destruct A6 as [->|[_ E]]; [done|]. congruence.
Qed.

Lemma rd_zero_block n off : rd n zero_block off = 0.
Proof.
  unfold rd, zero_block. rewrite drop_replicate, take_replicate. generalize (n `min` (Z.to_nat BSIZE - Z.to_nat off))%nat.
  intros k. induction k as [|k IH]; [done|]. cbn [replicate le_decode]. rewrite IH. done.
Qed.

Section ways.
Context {sb : superblock} {V : Z -> list Z} {addrs : list Z} (Hlen : forall bn, length (V bn) = Z.to_nat BSIZE).
Context (BK : bitmap_ok sb V) (FO : file_ok sb V addrs).
Context {b : Z} (Hb : is_data sb b) (Hf : bit_at V sb b = false).

Lemma alloc_keep bn : 0 <= bn < sb_size sb -> ~ (sb_bmapstart sb <= bn < data_start sb) ->
  bit_at V sb bn = true -> alloc_view sb V b bn = V bn.
Proof using BK Hb Hf. intros H1 H2 H3. apply (alloc_view_other BK Hb); [congruence|done]. Qed.

(** A direct block. *)
Lemma fext_direct k :
  0 <= k < NDIRECT -> fblock V addrs k = 0 ->
  fext sb V addrs (alloc_view sb V b) (<[Z.to_nat k := b]> addrs) /\
  fblock (alloc_view sb V b) (<[Z.to_nat k := b]> addrs) k = b.
Proof using All.
  intros Hk H0. pose proof (fo_len _ _ _ FO) as Hl.
  change NDIRECT with 12 in *.
  assert (ind (<[Z.to_nat k := b]> addrs) = ind addrs) as Hi.
  { unfold ind. change (Z.to_nat NDIRECT) with 12%nat. by rewrite !nth_lookup, list_lookup_insert_ne by lia. }
  assert (forall k', 0 <= k' -> fblock (alloc_view sb V b) (<[Z.to_nat k := b]> addrs) k' = if decide (k' = k) then b else fblock V addrs k') as E.
  { intros k' Hk'. rewrite <- (fblock_alloc BK FO b k' Hb Hf). unfold fblock. rewrite Hi. change NDIRECT with 12. case_decide as E.
    - subst k'. destruct (Z.ltb_spec k 12); [|lia]. rewrite nth_lookup, list_lookup_insert_eq by lia. done.
    - destruct (Z.ltb_spec k' 12); [|done]. by rewrite !nth_lookup, list_lookup_insert_ne by lia. }
  split; [|by rewrite E, decide_True by lia].
  apply (fext_add BK FO _ _ b k Hb Hf); [by rewrite length_insert|by apply alloc_view_ok|intros; by apply alloc_view_length
    |intros; by apply alloc_view_bit| |by left|].
  - intros k' Hk'. rewrite E by lia. case_decide; [right; by subst|by left].
  - intros bn H1 H2 H3 _. by apply alloc_keep.
Qed.

(** The indirect block. *)
Lemma fext_indirect :
  ind addrs = 0 ->
  fext sb V addrs (alloc_view sb V b) (<[Z.to_nat NDIRECT := b]> addrs) /\
  ind (<[Z.to_nat NDIRECT := b]> addrs) = b /\
  forall k, 0 <= k -> fblock (alloc_view sb V b) (<[Z.to_nat NDIRECT := b]> addrs) k = fblock V addrs k.
Proof using All.
  intros H0. pose proof (fo_len _ _ _ FO) as Hl.
  assert (ind (<[Z.to_nat NDIRECT := b]> addrs) = b) as Hi.
  { unfold ind. rewrite nth_lookup, list_lookup_insert_eq; [done|]. rewrite Hl. change (Z.to_nat NDIRECT) with 12%nat. lia. }
  assert (b <> 0) as Hb0 by (by apply (data_nonzero BK)).
  assert (forall k', 0 <= k' -> fblock (alloc_view sb V b) (<[Z.to_nat NDIRECT := b]> addrs) k' = fblock V addrs k') as E.
  { intros k' Hk'. unfold fblock. rewrite Hi, H0. change NDIRECT with 12. destruct (Z.ltb_spec k' 12).
    - by rewrite !nth_lookup, list_lookup_insert_ne by lia.
    - rewrite (proj2 (Z.eqb_neq b 0)) by done. rewrite alloc_view_new, rd_zero_block. done. }
  split; [|split; [done|exact E]].
  apply (fext_add BK FO _ _ b 0 Hb Hf); [by rewrite length_insert|by apply alloc_view_ok|intros; by apply alloc_view_length
    |intros; by apply alloc_view_bit| | |].
  - intros k' Hk'. left. apply E. lia.
  - right. split_and!; [done|done|]. intros k' Hk'. apply E. lia.
  - intros bn H1 H2 H3 _. by apply alloc_keep.
Qed.

(** An entry of the indirect block. *)
Definition entry_view (k : Z) : Z -> list Z :=
  vset (alloc_view sb V b) (ind addrs) (wr 4 (V (ind addrs)) (4 * (k - NDIRECT)) b).

Lemma fext_entry k :
  NDIRECT <= k < MAXFILE -> ind addrs <> 0 -> fblock V addrs k = 0 ->
  fext sb V addrs (entry_view k) addrs /\ fblock (entry_view k) addrs k = b.
Proof using All.
  intros Hk Hi0 H0. pose proof (fo_len _ _ _ FO) as Hl. pose proof (fo_ind _ _ _ FO Hi0) as Hi.
  change MAXFILE with 268 in *. change NDIRECT with 12 in *. pose proof (data_range BK b Hb) as Hr. pose proof (bk_size _ _ BK) as Hs.
  assert (forall b', 0 <= b' < sb_size sb -> bit_at (entry_view k) sb b' = bit_at (alloc_view sb V b) sb b') as Hbit.
  { intros b' Hb'. apply bit_vset. pose proof (BBLOCK_meta BK b' Hb'). destruct Hi as [[? ?] _]. lia. }
  assert (forall k', 0 <= k' < 268 -> fblock (entry_view k) addrs k' = if decide (k' = k) then b else fblock V addrs k') as E.
  { intros k' Hk'. unfold fblock. change NDIRECT with 12. destruct (Z.ltb_spec k' 12); [by rewrite decide_False by lia|].
    rewrite (proj2 (Z.eqb_neq _ 0)) by done. unfold entry_view. rewrite vset_eq. change NDIRECT with 12. case_decide as Ek.
    - subst k'. rewrite rd_wr, Z.mod_small; [done|change (8 * Z.of_nat 4) with 32; lia|lia|].
      rewrite Hlen. change (Z.to_nat BSIZE) with 1024%nat. lia.
    - apply rd_wr_ne; lia. }
  split; [|by rewrite E, decide_True by lia].
  apply (fext_add BK FO _ _ b k Hb Hf); [done| | | | |by left|].
  - pose proof (alloc_view_ok Hlen BK Hb) as [K1 K2 K3]. split; [done|done|]. intros b' Hb'. rewrite Hbit by lia. by apply K3.
  - intros bn. unfold entry_view, vset. case_decide; [by rewrite length_wr|by apply alloc_view_length].
  - intros b' Hb'. rewrite Hbit by done. by apply alloc_view_bit.
  - intros k' Hk'. change MAXFILE with 268 in Hk'. rewrite E by done. case_decide; [right; by subst|by left].
  - intros bn H1 H2 H3 H4. unfold entry_view. rewrite vset_ne by done. by apply alloc_keep.
Qed.

End ways.

(** ** [bmap] *)

Definition set_addrs (i : nat) (addrs : list Z) (f : kst) : kst :=
  f <| inodes ::= alter (fun x => x <| i_addrs := addrs |>) i |>.

Definition iaddrs (f : kst) (i : nat) : list Z := i_addrs (inode_at f i).

Lemma inode_at_alter f g i j :
  (i < length (inodes f))%nat ->
  inode_at (f <| inodes ::= alter g i |>) j = if decide (j = i) then g (inode_at f i) else inode_at f j.
Proof.
  intros Hi. unfold inode_at. change (inodes (f <| inodes ::= alter g i |>)) with (alter g i (inodes f)).
  case_decide as E.
  - subst j. rewrite list_lookup_alter_eq. destruct (lookup_lt_is_Some_2 _ _ Hi) as [x Hx]. by rewrite Hx.
  - by rewrite list_lookup_alter_ne by done.
Qed.

Lemma inodes_alter_ext f g h i :
  (i < length (inodes f))%nat -> g (inode_at f i) = h (inode_at f i) ->
  f <| inodes ::= alter g i |> = f <| inodes ::= alter h i |>.
Proof.
  intros Hi Hgh. apply kst_eq; try done. cbn. apply list_eq. intros j. destruct (decide (j = i)) as [->|Hne].
  - rewrite !list_lookup_alter_eq. unfold inode_at in Hgh. destruct (inodes f !! i); [|done]. cbn in *. by f_equal.
  - by rewrite !list_lookup_alter_ne.
Qed.

Lemma set_addrs_id f i : (i < length (inodes f))%nat -> set_addrs i (iaddrs f i) f = f.
Proof.
  intros Hi. unfold set_addrs. rewrite (inodes_alter_ext f _ id i Hi) by (unfold iaddrs; by destruct (inode_at f i)).
  apply kst_eq; try done. cbn. apply list_alter_id. done.
Qed.

Lemma set_addrs_alter f i g :
  (i < length (inodes f))%nat ->
  f <| inodes ::= alter (fun x => x <| i_addrs ::= g |>) i |> = set_addrs i (g (iaddrs f i)) f.
Proof. intros Hi. unfold set_addrs. apply inodes_alter_ext; [done|]. unfold iaddrs. by destruct (inode_at f i). Qed.

Lemma set_addrs_again f i a b : set_addrs i a (set_addrs i b f) = set_addrs i a f.
Proof. apply kst_eq; try done. cbn. generalize (inodes f). intros l. revert i. by induction l as [|x l IH]; intros [|i]; cbn; f_equal; try done; apply IH. Qed.

Lemma iaddrs_set f i a : (i < length (inodes f))%nat -> iaddrs (set_addrs i a f) i = a.
Proof. intros Hi. unfold iaddrs, set_addrs. by rewrite inode_at_alter, decide_True. Qed.

Lemma length_set_addrs f i a : length (inodes (set_addrs i a f)) = length (inodes f).
Proof. cbn. by rewrite length_alter. Qed.

(** The log entries a write may still need for the indirect block: its bitmap
    block and itself, until it is logged. *)
Definition pot (L addrs : list Z) : nat := if decide (ind addrs <> 0 /\ ind addrs ∈ L) then 0%nat else 2%nat.

Lemma pot_le_2 l a : (pot l a <= 2)%nat.
Proof. unfold pot. case_decide; lia. Qed.

Lemma alloc_log_length sb L b : (length (alloc_log sb L b) <= length L + 2)%nat.
Proof. unfold alloc_log. pose proof (log_put_length (BBLOCK b sb) L). pose proof (log_put_length b (log_put (BBLOCK b sb) L)). lia. Qed.

Lemma alloc_log_in sb L b : b ∈ alloc_log sb L b.
Proof. apply log_put_in. Qed.

Lemma alloc_log_incl sb L b : L ⊆ alloc_log sb L b.
Proof. intros x Hx. by apply log_put_incl, log_put_incl. Qed.

Lemma pot_entry sb L addrs b :
  ind addrs <> 0 ->
  (length (log_put (ind addrs) (alloc_log sb L b)) + pot (log_put (ind addrs) (alloc_log sb L b)) addrs
   <= length L + pot L addrs + 2)%nat.
Proof.
  intros H0. unfold pot. rewrite (decide_True (P := _ /\ ind addrs ∈ log_put _ _)) by (split; [done|apply log_put_in]).
  pose proof (alloc_log_length sb L b). case_decide as E.
  - unfold log_put at 1. rewrite decide_True by (apply alloc_log_incl, E). lia.
  - pose proof (log_put_length (ind addrs) (alloc_log sb L b)). lia.
Qed.

Lemma pot_le L L' a a' {P : Prop} : ind a' = ind a \/ (ind a = 0 /\ P) -> L ⊆ L' -> (pot L' a' <= pot L a)%nat.
Proof.
  intros Hi HL. unfold pot. destruct Hi as [->|[E _]].
  - destruct (decide (_ /\ ind a ∈ L)) as [[H0 Hin]|]; [|case_decide; lia]. rewrite decide_True; [lia|]. split; [done|]. by apply HL.
  - rewrite (decide_False (P := _ /\ ind a ∈ L)) by (by intros []). case_decide; lia.
Qed.

Definition full (sb : superblock) (V : Z -> list Z) : Prop := forall b, 0 <= b < sb_size sb -> bit_at V sb b = true.

(** What [bmap] returns for block [k] of inode [i], and the state it leaves. *)
Definition bmapped (dev : Z) (V : Z -> list Z) (D : disk) (L : list Z) (f : kst) (i : nat) (k r : Z) (s' : kst) : Prop :=
  exists V' addrs' L',
    fext (sb f) V (iaddrs f i) V' addrs' /\ txn dev [] V' D L' (set_addrs i addrs' f) s' /\ L ⊆ L' /\
    (length L' + pot L' addrs' <= length L + pot L (iaddrs f i) + (if (fblock V (iaddrs f i) k =? 0)%Z then 2 else 0))%nat /\
    (r <> 0 /\ r = fblock V' addrs' k /\ (fblock V (iaddrs f i) k = 0 -> r ∈ L') \/ r = 0 /\ full (sb f) V').

Section bmap.
Context {dev : Z} {V : Z -> list Z} {D : disk} {L : list Z} {f s : kst} {i : nat}.
Context (X : txn dev [] V D L f s) (BK : bitmap_ok (sb f) V).
Context (Hi : (i < length (inodes f))%nat) (Hdev : i_dev (inode_at f i) = dev).

Lemma wp_addr_or_alloc k (Q : Z -> kst -> Prop) :
  (S (length L) < nbuf)%nat ->
  (nth (Z.to_nat k) (iaddrs f i) 0 <> 0 -> Q (nth (Z.to_nat k) (iaddrs f i) 0) s) ->
  (nth (Z.to_nat k) (iaddrs f i) 0 = 0 -> forall b s', is_data (sb f) b -> bit_at V (sb f) b = false ->
     txn dev [] (alloc_view (sb f) V b) D (alloc_log (sb f) L b) (set_addrs i (<[Z.to_nat k := b]> (iaddrs f i)) f) s' -> Q b s') ->
  (nth (Z.to_nat k) (iaddrs f i) 0 = 0 -> forall s', full (sb f) V -> txn dev [] V D L f s' -> Q 0 s') ->
  wp (addr_or_alloc i k) Q s.
Proof.
  intros Hn Hold Hnew Hfull. unfold addr_or_alloc, addr_of. do 7 wp_step.
  rewrite !(txn_inode X), Hdev. fold (iaddrs f i). destruct (Z.eqb_spec (nth (Z.to_nat k) (iaddrs f i) 0) 0) as [E|E].
  2: { wp_step. by apply Hold. }
  wp_step. apply (wp_balloc _ _ _ _ _ _ _ _ X BK); [intros ? []%elem_of_nil|done| |].
  - intros b s' Hb Hf X'. rewrite (proj2 (Z.eqb_neq b 0)) by (by apply (data_nonzero BK)).
    unfold set_addr. wp_step. wp_step. wp_step. apply Hnew; [done|done|done|].
    pose proof (txn_updi X' i (fun x => x <| i_addrs ::= <[Z.to_nat k := b]> |>)) as X2.
    rewrite set_addrs_alter in X2 by done. exact X2.
  - intros s' Hfl X'. rewrite Z.eqb_refl. wp_step. by apply Hfull.
Qed.

(** Nothing was added. *)
Lemma bmapped_same k r s' :
  file_ok (sb f) V (iaddrs f i) -> txn dev [] V D L f s' ->
  r = fblock V (iaddrs f i) k /\ r <> 0 \/ r = 0 /\ full (sb f) V -> bmapped dev V D L f i k r s'.
Proof.
  intros FO X' Hr. exists V, (iaddrs f i), L. split_and!; [|by rewrite set_addrs_id|done|lia|].
  - by apply (fext_refl (fun bn => txn_length X bn)).
  - destruct Hr as [[-> Hr]|Hr]; [left|by right]. by split_and!.
Qed.

(** The entry of the indirect block, which exists. *)
Lemma wp_entry_or_alloc k (Q : Z -> kst -> Prop) :
  file_ok (sb f) V (iaddrs f i) -> NDIRECT <= k < MAXFILE -> ind (iaddrs f i) <> 0 -> (length L + pot L (iaddrs f i) <= 27)%nat ->
  (forall r s', bmapped dev V D L f i k r s' -> Q r s') ->
  wp (entry_or_alloc dev (ind (iaddrs f i)) (k - NDIRECT)) Q s.
Proof.
  intros FO Hk Hi0 HL HQ. pose proof (fun bn => txn_length X bn) as Hlen. set (a := iaddrs f i) in *.
  assert (fblock V a k = rd 4 (V (ind a)) (4 * (k - NDIRECT))) as Hfb.
  { unfold fblock. rewrite (proj2 (Z.eqb_neq (ind a) 0)) by done. by rewrite (proj2 (Z.ltb_ge k NDIRECT)) by lia. }
  unfold entry_or_alloc. wp_step. apply (txn_bread X); [intros []%elem_of_nil|room|].
  intros bp s1 X1. wp_step. apply (txn_bdata X1 bp (ind a)); [left|]. cbv zeta. rewrite <- Hfb.
  destruct (Z.eqb_spec (fblock V a k) 0) as [E|E].
  - wp_step. apply wp_bind, (wp_balloc _ _ _ _ _ _ _ _ X1 BK); [|room| |].
    + intros bn Hbn%list_elem_of_singleton. subst bn. by apply FO.
    + intros b s2 Hb Hf X2. rewrite (proj2 (Z.eqb_neq b 0)) by (by apply (data_nonzero BK)).
      wp_step. apply (txn_bdata X2 bp (ind a)); [left|].
      rewrite (used_keep BK b (ind a) Hb Hf) by (by apply FO).
      apply wp_bind, (txn_set bp (ind a) _ _ _ X2); [left|by rewrite length_wr; apply Hlen|..].
      * pose proof (alloc_log_length (sb f) L b). lia.
      * intros s3 X3. do 2 wp_step. apply (txn_brelse X3 bp (ind a) []); [done|]. intros s4 X4. wp_step. apply HQ.
        destruct (fext_entry Hlen BK FO Hb Hf k Hk Hi0 E) as [Hx Hr]. eexists _, a, (log_put (ind a) (alloc_log (sb f) L b)).
        split_and!; [exact Hx|by subst a; rewrite set_addrs_id| | |].
        -- intros x Hx'. by apply log_put_incl, alloc_log_incl.
        -- fold a. rewrite E. by apply pot_entry.
        -- left. split_and!; [by apply (data_nonzero BK)|done|]. intros _. apply log_put_incl, alloc_log_in.
    + intros s2 Hfl X2. rewrite Z.eqb_refl. do 2 wp_step. apply (txn_brelse X2 bp (ind a) []); [done|]. intros s3 X3.
      wp_step. apply HQ, bmapped_same; [done..|]. by right.
  - do 3 wp_step. apply (txn_brelse X1 bp (ind a) []); [done|]. intros s3 X3.
    wp_step. apply HQ, bmapped_same; [done..|]. by left.
Qed.

End bmap.

Lemma set_addrs_inode f i a :
  (i < length (inodes f))%nat -> inode_at (set_addrs i a f) i = (inode_at f i) <| i_addrs := a |>.
Proof. intros Hi. unfold set_addrs. by rewrite inode_at_alter, decide_True. Qed.

(** A block was added before [bmap] continued. *)
Lemma bmapped_after dev V V1 D L L1 f i a1 k r s' :
  bitmap_ok (sb f) V -> (i < length (inodes f))%nat -> file_ok (sb f) V (iaddrs f i) -> fext (sb f) V (iaddrs f i) V1 a1 ->
  (length L1 + pot L1 a1 <= length L + pot L (iaddrs f i))%nat -> L ⊆ L1 -> fblock V1 a1 k = fblock V (iaddrs f i) k ->
  bmapped dev V1 D L1 (set_addrs i a1 f) i k r s' -> bmapped dev V D L f i k r s'.
Proof.
  intros BK Hi FO Hx Hp HL Hk (V' & a' & L' & H1 & H2 & H3 & H4 & H5). rewrite (iaddrs_set f i a1 Hi), Hk in *.
  rewrite set_addrs_again in H2. exists V', a', L'. split_and!; [by eapply fext_trans|done|by etrans|lia|done].
Qed.

(** [bmap] returns the block, which it adds to the file when it is missing, or
    0 when no block is free. *)
Lemma wp_bmap dev V D L f s i k (Q : Z -> kst -> Prop) :
  txn dev [] V D L f s -> bitmap_ok (sb f) V -> (i < length (inodes f))%nat -> i_dev (inode_at f i) = dev ->
  file_ok (sb f) V (iaddrs f i) -> 0 <= k < MAXFILE -> (length L + pot L (iaddrs f i) <= 27)%nat ->
  (forall r s', bmapped dev V D L f i k r s' -> Q r s') -> wp (bmap i k) Q s.
Proof.
  intros X BK Hi Hdev FO Hk HL HQ. pose proof (fun bn => txn_length X bn) as Hlen.
  unfold bmap. do 3 wp_step. rewrite (txn_inode X), Hdev. cbv zeta. destruct (Z.ltb_spec k NDIRECT) as [Hd|Hd].
  - assert (fblock V (iaddrs f i) k = nth (Z.to_nat k) (iaddrs f i) 0) as E by (unfold fblock; by rewrite (proj2 (Z.ltb_lt k NDIRECT))).
    apply (wp_addr_or_alloc X BK Hi Hdev); [room|rewrite <- E..].
    + intros H0. apply HQ, (bmapped_same X BK Hi); [done..|]. by left.
    + intros H0 b s' Hb Hf X'. apply HQ. destruct (fext_direct Hlen BK FO Hb Hf k) as [Hx Hr]; [lia|done|].
      eexists _, _, _. split_and!; [exact Hx|exact X'|apply alloc_log_incl| |].
      * rewrite H0. cbn. pose proof (alloc_log_length (sb f) L b).
        pose proof (pot_le _ _ _ _ (fx_ind _ _ _ _ _ Hx) (alloc_log_incl (sb f) L b)). lia.
      * left. split_and!; [by apply (data_nonzero BK)|done|]. intros _. apply alloc_log_in.
    + intros H0 s' Hfl X'. apply HQ, (bmapped_same X BK Hi); [done..|]. by right.
  - destruct (Z.ltb_spec (k - NDIRECT) NINDIRECT) as [Hn|Hn]; [|change MAXFILE with 268 in *; change NDIRECT with 12 in *; change NINDIRECT with 256 in *; lia].
    wp_step. apply (wp_addr_or_alloc X BK Hi Hdev); [room|fold (ind (iaddrs f i))..].
    + intros H0. rewrite (proj2 (Z.eqb_neq _ 0)) by done. apply (wp_entry_or_alloc X BK Hi); [done|lia|done..].
    + intros H0 b s' Hb Hf X'. rewrite (proj2 (Z.eqb_neq b 0)) by (by apply (data_nonzero BK)).
      destruct (fext_indirect Hlen BK FO Hb Hf H0) as (Hx & Hib & Hfb). set (a1 := <[_ := b]> (iaddrs f i)) in *.
      pose proof (iaddrs_set f i a1 Hi) as Ha1. pose proof (alloc_log_length (sb f) L b).
      assert (length (alloc_log (sb f) L b) + pot (alloc_log (sb f) L b) a1 <= length L + pot L (iaddrs f i))%nat as Hp.
      { unfold pot. rewrite Hib, H0, decide_True, decide_False by (split; [by apply (data_nonzero BK)|apply alloc_log_in]) || (by intros []).
        lia. }
      rewrite <- Hib. rewrite <- Ha1 at 1. apply (wp_entry_or_alloc X' (fx_bitmap _ _ _ _ _ Hx)); rewrite ?length_set_addrs, ?Ha1;
        [done|by apply Hx|lia|rewrite Hib; by apply (data_nonzero BK)|lia|].
      intros r s2 HB. apply HQ. eapply bmapped_after; [done|done|done|exact Hx|exact Hp|apply alloc_log_incl|by apply Hfb; lia|done].
    + intros H0 s' Hfl X'. rewrite Z.eqb_refl. wp_step. apply HQ, (bmapped_same X BK Hi); [done..|]. by right.
Qed.

(** ** [readi] *)

Lemma fbytes_app V a off n m : fbytes V a off (n + m) = fbytes V a off n ++ fbytes V a (off + Z.of_nat n) m.
Proof.
  unfold fbytes. rewrite seq_app, fmap_app. f_equal. rewrite Nat.add_0_l. pose proof (fmap_add_seq n 0 m) as E.
  rewrite Nat.add_0_r in E. rewrite <- E, <- list_fmap_compose. apply list_fmap_ext. intros j x _. cbn. f_equal. lia.
Qed.

Lemma fbytes_length V a off n : length (fbytes V a off n) = n.
Proof. unfold fbytes. by rewrite length_fmap, length_seq. Qed.

Lemma fbytes_lookup V a off n j : (j < n)%nat -> fbytes V a off n !! j = Some (fbyte V a (off + Z.of_nat j)).
Proof. intros Hj. unfold fbytes. by rewrite list_lookup_fmap, lookup_seq_lt by done. Qed.

(** A piece of one block. *)
Lemma fbytes_block V a off m :
  0 <= off -> length (V (fblock V a (off / BSIZE))) = Z.to_nat BSIZE -> off `mod` BSIZE + Z.of_nat m <= BSIZE ->
  take m (drop (Z.to_nat (off `mod` BSIZE)) (V (fblock V a (off / BSIZE)))) = fbytes V a off m.
Proof.
  intros Ho Hl Hm. change BSIZE with 1024 in *. pose proof (Z.mod_pos_bound off 1024).
  apply list_eq. intros j. destruct (decide (j < m)%nat) as [Hj|Hj].
  - rewrite lookup_take_lt, lookup_drop, fbytes_lookup by done. unfold fbyte. change BSIZE with 1024.
    replace ((off + Z.of_nat j) / 1024) with (off / 1024) by (Z.div_mod_to_equations; lia).
    replace ((off + Z.of_nat j) `mod` 1024) with (off `mod` 1024 + Z.of_nat j) by (Z.div_mod_to_equations; lia).
    destruct (lookup_lt_is_Some_2 (V (fblock V a (off / 1024))) (Z.to_nat (off `mod` 1024) + j)) as [x Hx]; [lia|].
    rewrite Hx, nth_lookup. replace (Z.to_nat (off `mod` 1024 + Z.of_nat j)) with (Z.to_nat (off `mod` 1024) + j)%nat by lia.
    by rewrite Hx.
  - rewrite lookup_take_ge by lia. symmetry. apply lookup_ge_None. rewrite fbytes_length. lia.
Qed.

(** Every block that holds a byte of the file exists. *)
Definition mapped_file (V : Z -> list Z) (a : list Z) (size : Z) : Prop :=
  0 <= size <= MAXFILE * BSIZE /\ forall k, 0 <= k -> k * BSIZE < size -> fblock V a k <> 0.

(** The number of bytes [readi] returns. *)
Definition read_len (size off n : Z) : Z := if (size <? off) || (u32 (off + n) <? off) then 0 else Z.min n (size - off).

Lemma u32_id x : 0 <= x < 2 ^ 32 -> u32 x = x.
Proof. intros Hx. unfold u32. by apply Z.mod_small. Qed.

(** The piece of a transfer that is in one block. *)
Lemma block_piece o rem (m := Z.min rem (BSIZE - o `mod` BSIZE)) : 0 < rem -> 0 < m <= rem /\ o `mod` BSIZE + m <= BSIZE.
Proof. intros Hr. subst m. change BSIZE with 1024. pose proof (Z.mod_pos_bound o 1024). lia. Qed.

Section readi.
Context {KL : KLayout}.
Context {dev : Z} {V : Z -> list Z} {D : disk} {L : list Z} {f : kst} {i : nat}.
Context (Hdev : i_dev (inode_at f i) = dev) (HM : mapped_file V (iaddrs f i) (i_size (inode_at f i))).
Context (HL : (length L < nbuf)%nat).

Lemma wp_bmap_mapped k (Q : Z -> kst -> Prop) s :
  txn dev [] V D L f s -> 0 <= k < MAXFILE -> fblock V (iaddrs f i) k <> 0 ->
  (forall s', txn dev [] V D L f s' -> Q (fblock V (iaddrs f i) k) s') -> wp (bmap i k) Q s.
Proof using Hdev HL.
  intros X Hk H0 HQ. unfold bmap. do 3 wp_step. rewrite (txn_inode X), Hdev. unfold fblock in *.
  destruct (Z.ltb_spec k NDIRECT) as [Hd|Hd].
  - unfold addr_or_alloc, addr_of. do 7 wp_step. rewrite !(txn_inode X). fold (iaddrs f i).
    rewrite (proj2 (Z.eqb_neq _ 0)) by done. wp_step. by apply HQ.
  - destruct (Z.ltb_spec (k - NDIRECT) NINDIRECT) as [Hn|Hn];
      [|change MAXFILE with 268 in *; change NDIRECT with 12 in *; change NINDIRECT with 256 in *; lia].
    destruct (Z.eqb_spec (ind (iaddrs f i)) 0) as [|Hi]; [done|].
    unfold addr_or_alloc, addr_of. do 8 wp_step. rewrite !(txn_inode X). fold (iaddrs f i) (ind (iaddrs f i)).
    rewrite (proj2 (Z.eqb_neq (ind _) 0)) by done. wp_step. rewrite (proj2 (Z.eqb_neq (ind _) 0)) by done.
    unfold entry_or_alloc. wp_step. apply (txn_bread X); [intros []%elem_of_nil|room|]. intros bp s1 X1.
    wp_step. apply (txn_bdata X1 bp (ind (iaddrs f i))); [left|]. cbv zeta.
    rewrite (proj2 (Z.eqb_neq (rd _ _ _) 0)) by done. do 3 wp_step.
    apply (txn_brelse X1 bp (ind (iaddrs f i)) []); [done|]. intros s2 X2. wp_step. by apply HQ.
Qed.

(** [readi] returns the bytes of the file. *)
Lemma wp_readi off n (Q : Z * list Z -> kst -> Prop) s :
  txn dev [] V D L f s -> 0 <= off < 2 ^ 32 -> 0 <= n < 2 ^ 32 ->
  let m := read_len (i_size (inode_at f i)) off n in
  (forall s', txn dev [] V D L f s' -> Q (m, fbytes V (iaddrs f i) off (Z.to_nat m)) s') ->
  wp (readi i Dlocal off n) Q s.
Proof using Hdev HL HM.
  intros X Ho Hn m HQ. unfold readi. do 3 wp_step. rewrite (txn_inode X), Hdev.
  destruct HM as [Hsz Hmap]. change (MAXFILE * BSIZE) with 274432 in Hsz. set (size := i_size (inode_at f i)) in *.
  destruct ((size <? off) || (u32 (off + n) <? off)) eqn:Hc.
  { wp_step. subst m. unfold read_len in HQ. rewrite Hc in HQ. by apply HQ. }
  assert (m = if size <? u32 (off + n) then size - off else n) as Hm.
  { subst m. unfold read_len. rewrite Hc. apply orb_false_elim in Hc as [H1%Z.ltb_ge H2%Z.ltb_ge].
    assert (u32 (off + n) = off + n) as E.
    { unfold u32 in *. rewrite Z.mod_small; [done|]. Z.div_mod_to_equations. lia. }
    rewrite E. destruct (Z.ltb_spec size (off + n)); lia. }
  cbv zeta. rewrite <- Hm.
  assert (0 <= m /\ (m = 0 \/ off + m <= size)) as Hb.
  { rewrite Hm. apply orb_false_elim in Hc as [H1%Z.ltb_ge H2%Z.ltb_ge]. destruct (Z.ltb_spec size (u32 (off + n))); [lia|].
    unfold u32 in *. Z.div_mod_to_equations. lia. }
  clearbody m. clear Hm Hc.
  apply (wp_loop (fun k '(tot, o, dst, out) s1 => 0 <= tot <= m /\ k = m - tot + 1 /\ o = off + tot /\ dst = Dlocal /\
    out = fbytes V (iaddrs f i) off (Z.to_nat tot) /\ txn dev [] V D L f s1) _ _ (m + 1)); [|lia|split_and!; (lia || done)].
  clear s X. intros k [[[tot o] dst] out] s (Ht & -> & -> & -> & -> & X). split; [lia|].
  destruct (Z.ltb_spec tot m) as [Hlt|Hge]; cbn [negb].
  2: { wp_step. replace tot with m by lia. rewrite i32_id by lia. by apply HQ. }
  set (b := fblock V (iaddrs f i) ((off + tot) / BSIZE)).
  assert (b <> 0) as Hb0 by (apply Hmap; change BSIZE with 1024; Z.div_mod_to_equations; lia).
  wp_step. apply (wp_bmap_mapped _ _ _ X); [change MAXFILE with 268; change BSIZE with 1024; Z.div_mod_to_equations; lia|done|].
  fold b. rewrite (proj2 (Z.eqb_neq b 0)) by done. clear s X. intros s X.
  wp_step. apply (txn_bread X); [intros []%elem_of_nil|room|]. clear s X. intros bp s X. wp_step.
  apply (txn_bdata X bp b); [left|]. cbv zeta. set (q := Z.min _ _).
  assert (0 < q <= m - tot /\ (off + tot) `mod` BSIZE + q <= BSIZE) as Hq by (apply block_piece; lia).
  unfold b at 1. rewrite fbytes_block; [|lia|apply (txn_length X)|lia].
  wp_step. cbn [either_copyout]. wp_step. cbn [Z.eqb]. wp_step. apply (txn_brelse X bp b []); [done|]. clear s X. intros s X.
  wp_step. exists (m - (tot + q) + 1). split; [lia|]. rewrite u32_id by lia. cbn [dst_add].
  split_and!; try (lia || done). rewrite Z2Nat.inj_add, fbytes_app by lia. f_equal. f_equal. lia.
Qed.

End readi.

(** ** [writei] *)

(** The bytes [bs] were written at [off] of a file of [size] bytes: they are in
    the file, its other bytes are unchanged, and so is every data block in use
    that is not the file's, and every block before the bitmap but [ib]. *)
Record wrote (sb : superblock) (ib size : Z) (V : Z -> list Z) (a : list Z) (V' : Z -> list Z) (a' : list Z)
    (off : Z) (bs : list Z) : Prop := {
  wt_file : file_ok sb V' a';
  wt_bitmap : bitmap_ok sb V';
  wt_len : forall bn, length (V' bn) = Z.to_nat BSIZE;
  wt_mapped : mapped_file V' a' (Z.max size (off + Z.of_nat (length bs)));
  wt_new : fbytes V' a' off (length bs) = bs;
  wt_old : forall o, 0 <= o < size -> (o < off \/ off + Z.of_nat (length bs) <= o) -> fbyte V' a' o = fbyte V a o;
  wt_others : forall bn, used sb V bn -> foreign V a bn -> V' bn = V bn /\ foreign V' a' bn /\ used sb V' bn;
  wt_meta : forall bn, 0 < bn < sb_bmapstart sb -> bn <> ib -> V' bn = V bn
}.

Lemma wrote_nil sb ib size V a off :
  file_ok sb V a -> bitmap_ok sb V -> (forall bn, length (V bn) = Z.to_nat BSIZE) -> mapped_file V a size ->
  0 <= off <= size -> wrote sb ib size V a V a off [].
Proof.
  intros FO BK Hlen HM Ho. split; try done.
  cbn [length]. by replace (Z.max size (off + Z.of_nat 0)) with size by lia.
Qed.

Lemma bmap_lt_data {sb V} : bitmap_ok sb V -> sb_bmapstart sb < data_start sb.
Proof.
  intros BK. unfold data_start. pose proof (bk_size _ _ BK). pose proof (Z.div_pos (sb_size sb) BPB). change BPB with 8192 in *. lia.
Qed.

Lemma meta_not_ind {sb V a} : bitmap_ok sb V -> file_ok sb V a -> forall bn, 0 < bn < sb_bmapstart sb -> bn <> ind a.
Proof.
  intros BK FO bn Hbn E. pose proof (bmap_lt_data BK). destruct (fo_ind _ _ _ FO) as [[? ?] _]; lia.
Qed.

(** A mapped byte is in a block that stays. *)
Lemma fext_byte sb V a V' a' o :
  bitmap_ok sb V -> file_ok sb V a -> fext sb V a V' a' -> 0 <= o < MAXFILE * BSIZE -> fblock V a (o / BSIZE) <> 0 ->
  fbyte V' a' o = fbyte V a o.
Proof.
  intros BK FO X Ho H0. unfold fbyte. change (MAXFILE * BSIZE) with 274432 in Ho.
  assert (0 <= o / BSIZE < MAXFILE) as Hk by (change BSIZE with 1024; change MAXFILE with 268; Z.div_mod_to_equations; lia).
  destruct (fx_block _ _ _ _ _ X _ Hk) as [->|[? _]]; [|done].
  destruct (fo_block _ _ _ FO _ Hk H0) as [Hd Hbit]. rewrite (fx_keep _ _ _ _ _ X); [done| |destruct Hd; lia|done|by apply FO].
  by apply (data_range BK).
Qed.

Lemma fext_mapped sb V a V' a' size : fext sb V a V' a' -> mapped_file V a size -> mapped_file V' a' size.
Proof.
  intros X [Hs Hm]. split; [done|]. intros k Hk Hlt.
  assert (0 <= k < MAXFILE) by (change (MAXFILE * BSIZE) with 274432 in Hs; change MAXFILE with 268; change BSIZE with 1024 in *; lia).
  destruct (fx_block _ _ _ _ _ X k) as [->|[E _]]; [done|by apply Hm|]. by destruct (Hm k).
Qed.

Lemma mapped_block V a size o : mapped_file V a size -> 0 <= o < size -> 0 <= o < MAXFILE * BSIZE /\ fblock V a (o / BSIZE) <> 0.
Proof.
  intros [Hs Hm] Ho. split; [lia|]. apply Hm; change BSIZE with 1024; Z.div_mod_to_equations; lia.
Qed.

Lemma fbytes_ext V a V' a' off n :
  (forall j, (j < n)%nat -> fbyte V' a' (off + Z.of_nat j) = fbyte V a (off + Z.of_nat j)) -> fbytes V' a' off n = fbytes V a off n.
Proof. intros H. apply list_fmap_ext. intros j x Hx. apply lookup_seq in Hx as [-> Hj]. by apply H. Qed.

Lemma wrote_fext sb ib size V a V1 a1 V2 a2 off bs :
  0 <= off -> wrote sb ib size V a V1 a1 off bs -> fext sb V1 a1 V2 a2 -> wrote sb ib size V a V2 a2 off bs.
Proof.
  intros Ho W X. pose proof (wt_bitmap _ _ _ _ _ _ _ _ _ W) as BK. pose proof (wt_file _ _ _ _ _ _ _ _ _ W) as FO.
  pose proof (wt_mapped _ _ _ _ _ _ _ _ _ W) as HM. split; try apply X.
  - by eapply fext_mapped, HM.
  - rewrite <- (wt_new _ _ _ _ _ _ _ _ _ W) at 2. apply fbytes_ext. intros j Hj.
    destruct (mapped_block _ _ _ (off + Z.of_nat j) HM); [lia|]. by eapply fext_byte.
  - intros o Ho' Hout. rewrite <- (wt_old _ _ _ _ _ _ _ _ _ W o Ho' Hout).
    destruct (mapped_block _ _ _ o HM); [lia|]. by eapply fext_byte.
  - intros bn H1 H2. destruct (wt_others _ _ _ _ _ _ _ _ _ W bn H1 H2) as (E & [F1 F2] & [Hd Hbit]).
    pose proof (data_range BK bn Hd) as Hr.
    rewrite (fx_keep _ _ _ _ _ X) by (done || destruct Hd; lia). split_and!; [done|split|split; [done|by apply (fx_bits _ _ _ _ _ X)]].
    + destruct (fx_ind _ _ _ _ _ X) as [->|[_ E2]]; [done|congruence].
    + intros k Hk. destruct (fx_block _ _ _ _ _ X k Hk) as [->|[_ E2]]; [by apply F2|congruence].
  - intros bn H1 H2. rewrite <- (wt_meta _ _ _ _ _ _ _ _ _ W bn H1 H2). pose proof (bmap_lt_data BK). pose proof (bk_start _ _ BK).
    apply (fx_keep _ _ _ _ _ X); [lia|lia|apply BK; lia|]. by apply (meta_not_ind BK FO).
Qed.

(** Changing a block that is neither the indirect block nor in the bitmap. *)
Section keep_map.
Context {sb : superblock} {V : Z -> list Z} {a : list Z} {bn : Z} {d : list Z}.
Context (BK : bitmap_ok sb V) (Hbm : ~ (sb_bmapstart sb <= bn < data_start sb)) (Hind : bn <> ind a).

Lemma keep_bit b : 0 <= b < sb_size sb -> bit_at (vset V bn d) sb b = bit_at V sb b.
Proof using BK Hbm. intros Hb. apply bit_vset. pose proof (BBLOCK_meta BK b Hb). lia. Qed.

Lemma keep_fblock k : fblock (vset V bn d) a k = fblock V a k.
Proof using Hind. unfold fblock. by rewrite vset_ne. Qed.

Lemma keep_used b : used sb V b -> used sb (vset V bn d) b.
Proof using BK Hbm. intros [H1 H2]. split; [done|]. by rewrite keep_bit by (by apply (data_range BK)). Qed.

Lemma keep_bitmap : bitmap_ok sb (vset V bn d).
Proof using BK Hbm.
  split; [apply BK..|]. intros b Hb. pose proof (bk_start _ _ BK) as [_ ?]. rewrite keep_bit by lia. by apply BK.
Qed.

Lemma keep_file : file_ok sb V a -> file_ok sb (vset V bn d) a.
Proof using BK Hbm Hind.
  intros FO. split; [apply FO|..].
  - intros k Hk. rewrite keep_fblock. intros H. by apply keep_used, FO.
  - intros H. by apply keep_used, FO.
  - intros k k' Hk Hk'. rewrite !keep_fblock. by apply FO.
  - intros k Hk. rewrite keep_fblock. by apply FO.
Qed.

Lemma keep_foreign b : foreign V a b -> foreign (vset V bn d) a b.
Proof using Hind. intros [H1 H2]. split; [done|]. intros k Hk. rewrite keep_fblock. by apply H2. Qed.

Lemma keep_mapped size : mapped_file V a size -> mapped_file (vset V bn d) a size.
Proof using Hind. intros [Hs Hm]. split; [done|]. intros k Hk Hlt. rewrite keep_fblock. by apply Hm. Qed.

Lemma keep_fbyte o : fblock V a (o / BSIZE) <> bn -> fbyte (vset V bn d) a o = fbyte V a o.
Proof using Hind. intros H. unfold fbyte. rewrite keep_fblock. by rewrite vset_ne. Qed.

End keep_map.

(** The bytes of the block that is overwritten. *)
Lemma fbyte_chunk V a o c x :
  fblock V a (o / BSIZE) <> ind a -> length (V (fblock V a (o / BSIZE))) = Z.to_nat BSIZE ->
  0 <= o -> o `mod` BSIZE + Z.of_nat (length c) <= BSIZE -> 0 <= x -> x / BSIZE = o / BSIZE ->
  fbyte (vset V (fblock V a (o / BSIZE)) (list_inserts (Z.to_nat (o `mod` BSIZE)) c (V (fblock V a (o / BSIZE))))) a x =
  if decide (o <= x < o + Z.of_nat (length c)) then nth (Z.to_nat (x - o)) c 0 else fbyte V a x.
Proof.
  intros Hi Hl Ho Hc Hx E. unfold fbyte. rewrite keep_fblock by done. rewrite E, vset_eq. change BSIZE with 1024 in *.
  rewrite !nth_lookup. assert (x `mod` 1024 - o `mod` 1024 = x - o) as Hd by (Z.div_mod_to_equations; lia).
  pose proof (Z.mod_pos_bound x 1024). pose proof (Z.mod_pos_bound o 1024). case_decide as Hin.
  - rewrite list_lookup_inserts by (rewrite ?Hl; lia). do 2 f_equal. lia.
  - destruct (Z.lt_ge_cases x o); [rewrite list_lookup_inserts_lt by lia|rewrite list_lookup_inserts_ge by lia]; done.
Qed.

Section wrote_more.
Context {sb : superblock} {ib size : Z} {V : Z -> list Z} {a : list Z} {V1 : Z -> list Z} {a1 : list Z} {off : Z} {bs : list Z}.
Context (W : wrote sb ib size V a V1 a1 off bs) (Hoff : 0 <= off).

(** One more piece, in the block that follows. *)
Lemma wrote_chunk c (o := off + Z.of_nat (length bs)) (b := fblock V1 a1 (o / BSIZE)) :
  b <> 0 -> o `mod` BSIZE + Z.of_nat (length c) <= BSIZE -> o + Z.of_nat (length c) <= MAXFILE * BSIZE ->
  (0 < length c)%nat ->
  wrote sb ib size V a (vset V1 b (list_inserts (Z.to_nat (o `mod` BSIZE)) c (V1 b))) a1 off (bs ++ c).
Proof using W Hoff.
  intros Hb0 Hc Hmax Hpos. destruct W as [FO BK Hlen HM Hnew Hold Hoth Hmeta].
  assert (forall x, 0 <= x < MAXFILE * BSIZE -> 0 <= x / BSIZE < MAXFILE) as Hrange.
  { intros x Hx. change (MAXFILE * BSIZE) with 274432 in Hx. change MAXFILE with 268. change BSIZE with 1024. Z.div_mod_to_equations. lia. }
  assert (0 <= o / BSIZE < MAXFILE) as Hk by (apply Hrange; lia).
  destruct (fo_block _ _ _ FO _ Hk Hb0) as [Hd Hbit]. pose proof (fo_ind_ne _ _ _ FO _ Hk Hb0) as Hi. fold b in Hd, Hbit, Hi.
  set (d := list_inserts _ _ _).
  assert (forall x, 0 <= x < MAXFILE * BSIZE -> fbyte (vset V1 b d) a1 x =
    if decide (o <= x < o + Z.of_nat (length c)) then nth (Z.to_nat (x - o)) c 0 else fbyte V1 a1 x) as Hbyte.
  { intros x Hx. destruct (decide (x / BSIZE = o / BSIZE)) as [E|E]; [apply fbyte_chunk; try done; lia|].
    rewrite decide_False by (change BSIZE with 1024 in *; Z.div_mod_to_equations; lia). apply keep_fbyte; [done|].
    intros E'. apply E. apply (fo_inj _ _ _ FO); [by apply Hrange|done|by rewrite E'|done]. }
  assert (~ (sb_bmapstart sb <= b < data_start sb)) as Hbm by (destruct Hd; lia).
  split; [by apply keep_file|by apply keep_bitmap| | | | | |].
  - intros bn. unfold vset, d. case_decide; [by rewrite length_inserts|done].
  - destruct HM as [Hs Hm]. rewrite length_app. split; [lia|]. intros k Hk0 Hlt. rewrite keep_fblock by done.
    destruct (decide (k * BSIZE < Z.max size (off + Z.of_nat (length bs)))); [by apply Hm|].
    replace k with (o / BSIZE); [done|]. change BSIZE with 1024 in *. Z.div_mod_to_equations. lia.
  - rewrite length_app, fbytes_app. f_equal.
    + rewrite <- Hnew at 2. apply fbytes_ext. intros j Hj. destruct (mapped_block _ _ _ (off + Z.of_nat j) HM) as [? _]; [lia|].
      rewrite Hbyte by lia. rewrite decide_False; [done|lia].
    + fold o. apply list_eq. intros j. destruct (decide (j < length c)%nat) as [Hj|Hj].
      * rewrite fbytes_lookup, Hbyte, decide_True, nth_lookup by lia. replace (Z.to_nat (o + Z.of_nat j - o)) with j by lia.
        destruct (lookup_lt_is_Some_2 c j Hj) as [y Hy]. by rewrite Hy.
      * rewrite !(proj2 (lookup_ge_None _ _)) by (rewrite ?fbytes_length; lia). done.
  - intros x Hx Hout. rewrite length_app in Hout. destruct (mapped_block _ _ _ x HM) as [? _]; [lia|].
    rewrite Hbyte by lia. rewrite decide_False by lia. apply Hold; [done|lia].
  - intros bn H1 H2. destruct (Hoth bn H1 H2) as (E1 & E2 & E3).
    rewrite vset_ne by (intros ->; by apply (proj2 E2 (o / BSIZE))). split_and!; [done|by apply keep_foreign|by apply keep_used].
  - intros bn H1 H2. pose proof (bmap_lt_data BK). rewrite vset_ne by (destruct Hd; lia). by apply Hmeta.
Qed.

End wrote_more.

(** Block [ib], which is before the bitmap, is changed. *)
Lemma wrote_ib sb ib size V a V1 a1 off bs d :
  wrote sb 0 size V a V1 a1 off bs -> 0 <= off ->
  0 < ib < sb_bmapstart sb -> length d = Z.to_nat BSIZE -> wrote sb ib size V a (vset V1 ib d) a1 off bs.
Proof.
  intros W Hoff Hib Hd. destruct W as [FO BK Hlen HM Hnew Hold Hoth Hmeta]. pose proof (bmap_lt_data BK).
  assert (~ (sb_bmapstart sb <= ib < data_start sb)) as Hbm by lia.
  pose proof (meta_not_ind BK FO ib Hib) as Hi.
  assert (forall o, 0 <= o < Z.max size (off + Z.of_nat (length bs)) -> fbyte (vset V1 ib d) a1 o = fbyte V1 a1 o) as Hbyte.
  { intros o Ho. apply keep_fbyte; [done|]. destruct (mapped_block _ _ _ o HM Ho) as [Hr H0].
    destruct (fo_block _ _ _ FO (o / BSIZE)) as [[? ?] _]; [|done|lia].
    change (MAXFILE * BSIZE) with 274432 in Hr. change MAXFILE with 268. change BSIZE with 1024 in *. Z.div_mod_to_equations. lia. }
  split; [by apply keep_file|by apply keep_bitmap| |by apply keep_mapped| | | |].
  - intros bn. unfold vset. by case_decide.
  - rewrite <- Hnew at 2. apply fbytes_ext. intros j Hj. apply Hbyte. lia.
  - intros o Ho Hout. rewrite Hbyte by lia. by apply Hold.
  - intros bn H1 H2. destruct (Hoth bn H1 H2) as (E1 & E2 & E3). split_and!; [|by apply keep_foreign|by apply keep_used].
    rewrite vset_ne; [done|]. destruct E3 as [[? ?] _]. lia.
  - intros bn H1 H2. rewrite vset_ne by done. apply Hmeta; lia.
Qed.

Definition iblock (f : kst) (i : nat) : Z := IBLOCK (i_inum (inode_at f i)) (sb f).

(** The cost in log blocks of the first [q] blocks of a write at [off]. *)
Definition cost (off q : Z) : Z := if q =? 0 then 0 else 2 * q - (if off `mod` BSIZE =? 0 then 0 else 1).

(** [q] blocks are done and [tot] bytes are not all: the cost of the next one. *)
Lemma cost_next off n tot q :
  n <= 3 * BSIZE -> tot < n -> q = 0 /\ tot = 0 \/ 0 < q /\ (tot = n \/ off + tot = off - off `mod` BSIZE + BSIZE * q) ->
  cost off q <= 5 /\ (0 < q \/ off `mod` BSIZE = 0 -> cost off (q + 1) = cost off q + 2) /\
  (q = 0 /\ off `mod` BSIZE <> 0 -> cost off q = 0 /\ cost off (q + 1) = 1).
Proof.
  change BSIZE with 1024. intros Hn Ht Hq. unfold cost. change BSIZE with 1024. pose proof (Z.mod_pos_bound off 1024).
  generalize dependent (off `mod` 1024). intros r Hq Hr.
  destruct (Z.eqb_spec q 0), (Z.eqb_spec (q + 1) 0), (Z.eqb_spec r 0); lia.
Qed.

(** The state in the middle of a write: [tot] bytes of [bs] are written. *)
Definition writing (dev : Z) (V : Z -> list Z) (D : disk) (L : list Z) (f : kst) (i : nat) (off : Z) (bs : list Z)
    (tot c : Z) (V' : Z -> list Z) (a' L' : list Z) (s' : kst) : Prop :=
  wrote (sb f) 0 (i_size (inode_at f i)) V (iaddrs f i) V' a' off (take (Z.to_nat tot) bs) /\
  txn dev [] V' D L' (set_addrs i a' f) s' /\ L ⊆ L' /\
  Z.of_nat (length L' + pot L' a') <= Z.of_nat (length L + pot L (iaddrs f i)) + c.

Lemma writing_le dev V D L f i off bs tot c c' V' a' L' s' :
  writing dev V D L f i off bs tot c V' a' L' s' -> c <= c' -> writing dev V D L f i off bs tot c' V' a' L' s'.
Proof. intros (? & ? & ? & ?) Hc. split_and!; try done. lia. Qed.

Section writei.
Context {KL : KLayout}.
Context {dev : Z} {V : Z -> list Z} {D : disk} {L : list Z} {f : kst} {i : nat}.
Context (Hi : (i < length (inodes f))%nat) (Hdev : i_dev (inode_at f i) = dev).
Context {off : Z} {bs : list Z} (n := Z.of_nat (length bs)) (size := i_size (inode_at f i)).
Context (Hoff : 0 <= off <= size) (Hn : n <= 3 * BSIZE) (Hmax : off + n <= MAXFILE * BSIZE).
Context (HL : (length L + 10 <= 30)%nat).

(** The block for the next piece. *)
Lemma wp_writing_bmap tot c V1 a1 L1 s (Q : Z -> kst -> Prop) :
  writing dev V D L f i off bs tot c V1 a1 L1 s -> 0 <= tot < n -> c <= 5 ->
  (forall V2 a2 L2 s', writing dev V D L f i off bs tot (c + if fblock V1 a1 ((off + tot) / BSIZE) =? 0 then 2 else 0) V2 a2 L2 s' ->
     fblock V2 a2 ((off + tot) / BSIZE) <> 0 ->
     (fblock V1 a1 ((off + tot) / BSIZE) = 0 -> fblock V2 a2 ((off + tot) / BSIZE) ∈ L2) ->
     Q (fblock V2 a2 ((off + tot) / BSIZE)) s') ->
  (forall V2 a2 L2 s', writing dev V D L f i off bs tot (c + 2) V2 a2 L2 s' -> full (sb f) V2 -> Q 0 s') ->
  wp (bmap i ((off + tot) / BSIZE)) Q s.
Proof using Hi Hdev Hoff Hn Hmax HL.
  intros (W & X & HL1 & HP) Ht Hc Hok Hno.
  pose proof (pot_le_2 L (iaddrs f i)).
  eapply (wp_bmap _ _ _ _ _ _ _ _ _ X); rewrite ?length_set_addrs, ?iaddrs_set, ?set_addrs_inode by done;
    [by apply W|done|done|by apply W| |lia|].
  { change (MAXFILE * BSIZE) with 274432 in Hmax. change MAXFILE with 268. change BSIZE with 1024. Z.div_mod_to_equations. lia. }
  intros r s' (V2 & a2 & L2 & H1 & H2 & H3 & H4 & H5). rewrite iaddrs_set in * by done. rewrite set_addrs_again in H2.
  assert (forall c', c + (if fblock V1 a1 ((off + tot) / BSIZE) =? 0 then 2 else 0) <= c' -> writing dev V D L f i off bs tot c' V2 a2 L2 s') as HW.
  { intros c' Hc'. split_and!; [by eapply wrote_fext; [lia|..]|done|by etrans|]. destruct (_ =? 0); lia. }
  destruct H5 as [(H0 & -> & Hin)|[-> Hfl]].
  - apply (Hok V2 a2 L2); [by apply HW|done|done].
  - apply (Hno V2 a2 L2); [apply HW; destruct (_ =? 0); lia|done].
Qed.

(** The next piece, of [m] bytes, written to its block. *)
Lemma writing_put tot c V2 a2 L2 bp s0 s m :
  let b := fblock V2 a2 ((off + tot) / BSIZE) in
  let d := list_inserts (Z.to_nat ((off + tot) `mod` BSIZE)) (take (Z.to_nat m) (drop (Z.to_nat tot) bs)) (V2 b) in
  writing dev V D L f i off bs tot c V2 a2 L2 s0 -> 0 <= tot -> b <> 0 ->
  0 < m <= n - tot -> (off + tot) `mod` BSIZE + m <= BSIZE -> c <= 7 ->
  txn dev [(bp, b)] V2 D L2 (set_addrs i a2 f) s ->
  forall A (k : unit -> M kst A) Q,
  (forall L3 s', (L3 = L2 \/ length L3 = S (length L2)) /\ (b ∈ L2 -> L3 = L2) ->
     writing dev V D L f i off bs (tot + m) (c + Z.of_nat (length L3) - Z.of_nat (length L2)) (vset V2 b d) a2 L3 s' -> wp (k tt) Q s') ->
  wp (set_bdata bp d;; log_write bp;; u ← brelse bp; k u) Q s.
Proof using Hi Hdev Hoff Hn Hmax HL.
  intros b d (W & X & HL2 & HP) Ht Hb0 Hm Hmod Hc X1 A k Q HQ.
  assert (Z.of_nat (length (take (Z.to_nat tot) bs)) = tot) as Elen by (rewrite length_take; lia).
  assert (Z.of_nat (length (take (Z.to_nat m) (drop (Z.to_nat tot) bs))) = m) as Ec by (rewrite length_take, length_drop; lia).
  pose proof (pot_le_2 L (iaddrs f i)).
  apply (txn_put bp b d [] _ _ X1); [done|by unfold d; rewrite length_inserts; apply (txn_length X1)|lia|].
  intros s' X'. apply (HQ (log_put b L2)).
  - unfold log_put. case_decide; [by split; [left|]|]. split; [right; rewrite length_app; cbn; lia|done].
  - split_and!; [|done|intros x Hx; by apply log_put_incl, HL2|].
    + rewrite Z2Nat.inj_add, <- take_take_drop by lia. pose proof (wrote_chunk W (proj1 Hoff) (take (Z.to_nat m) (drop (Z.to_nat tot) bs))) as H1.
      rewrite Elen, Ec in H1. apply H1; try done; lia.
    + pose proof (pot_le L2 (log_put b L2) a2 a2 (P := True) (or_introl eq_refl) (log_put_incl b L2)). lia.
Qed.

(** The loop of [writei]: all the bytes are written, or the disk is full. *)
Lemma wp_write_loop s (Q : Z * Z -> kst -> Prop) :
  txn dev [] V D L f s -> bitmap_ok (sb f) V -> file_ok (sb f) V (iaddrs f i) -> mapped_file V (iaddrs f i) size ->
  (forall tot V' a' L' s', writing dev V D L f i off bs tot 7 V' a' L' s' -> 0 <= tot <= n ->
     (tot = n \/ full (sb f) V') -> Q (tot, off + tot) s') ->
  wp (loop (write_round i dev n) (0, off, Skernel bs)) Q s.
Proof using Hi Hdev Hoff Hn Hmax HL.
  intros X BK FO HM HQ. change (3 * BSIZE) with 3072 in Hn. change (MAXFILE * BSIZE) with 274432 in Hmax.
  apply (wp_loop (fun k '(tot, o, src) s1 => 0 <= tot <= n /\ k = n - tot + 1 /\ o = off + tot /\ src = Skernel (drop (Z.to_nat tot) bs) /\
    exists q V' a' L', writing dev V D L f i off bs tot (cost off q) V' a' L' s1 /\ cost off q <= 7 /\
      (q = 0 /\ tot = 0 \/ 0 < q /\ (tot = n \/ off + tot = off - off `mod` BSIZE + BSIZE * q))) _ _ (n + 1)); [|lia|].
  2: { split_and!; try (lia || done). exists 0, V, (iaddrs f i), L. split_and!; [|done|by left].
    split_and!; [|by rewrite set_addrs_id|done|unfold cost; cbn; lia].
    rewrite take_0. apply wrote_nil; try done. intros bn. apply (txn_length X). }
  clear s X. intros k [[tot o] src] s (Ht & -> & -> & -> & q & V1 & a1 & L1 & HW & Hcq & Hq). split; [lia|]. unfold write_round.
  destruct (Z.ltb_spec tot n) as [Hlt|Hge]; cbn [negb].
  2: { wp_step. apply (HQ _ V1 a1 L1); [by eapply writing_le|lia|left; lia]. }
  destruct (cost_next off n tot q) as (Hc5 & Hc2 & Hc1); [done..|].
  assert (q = 0 /\ off `mod` BSIZE <> 0 -> fblock V1 a1 ((off + tot) / BSIZE) <> 0) as Hfirst.
  { intros [E1 E2]. destruct (wt_mapped _ _ _ _ _ _ _ _ _ (proj1 HW)) as [_ Hm]. fold size in Hm.
    apply Hm; change BSIZE with 1024 in *; Z.div_mod_to_equations; lia. }
  wp_step. apply (wp_writing_bmap _ _ _ _ _ _ _ HW); [lia|done| |].
  2: { intros V2 a2 L2 s2 HW2 Hfl. rewrite Z.eqb_refl. wp_step. apply (HQ _ V2 a2 L2); [eapply writing_le; [done|lia]|lia|by right]. }
  intros V2 a2 L2 s2 HW2 Hb0 Hin. set (b := fblock V2 a2 _) in *. rewrite (proj2 (Z.eqb_neq b 0)) by done.
  wp_step. apply (txn_bread (proj1 (proj2 HW2))); [intros []%elem_of_nil|destruct HW2 as (_ & _ & _ & HP); pose proof (pot_le_2 L (iaddrs f i)); destruct (_ =? 0); room|].
  intros bp s3 X3. cbv zeta. set (m := Z.min _ _).
  destruct (block_piece (off + tot) (n - tot)) as [Hm1 Hm2]; [lia|]. fold m in Hm1, Hm2.
  wp_step. cbn [either_copyin]. wp_step. wp_step. apply (txn_bdata X3 bp b); [left|]. cbn [Z.eqb].
  apply (writing_put _ _ _ _ _ _ _ _ _ HW2 (proj1 Ht) Hb0 Hm1 Hm2); [destruct (_ =? 0); lia|done|].
  intros L3 s4 HL3 HW4. wp_step. exists (n - (tot + m) + 1). split; [lia|]. rewrite u32_id by lia.
  split_and!; [lia..|cbn [src_add]; by rewrite drop_drop, <- Z2Nat.inj_add by lia|].
  exists (q + 1), (vset V2 b (list_inserts (Z.to_nat ((off + tot) `mod` BSIZE)) (take (Z.to_nat m) (drop (Z.to_nat tot) bs)) (V2 b))), a2, L3.
  assert (cost off (q + 1) <= 7 /\ cost off q + (if fblock V1 a1 ((off + tot) / BSIZE) =? 0 then 2 else 0) +
    Z.of_nat (length L3) - Z.of_nat (length L2) <= cost off (q + 1)) as [Hc7 Hcn].
  { destruct HL3 as [HL3 Hsame]. destruct (decide (q = 0 /\ off `mod` BSIZE <> 0)) as [E|E].
    - destruct (Hc1 E) as [-> ->]. rewrite (proj2 (Z.eqb_neq _ 0)) by auto. destruct HL3 as [->| ->]; lia.
    - rewrite Hc2 by (destruct (decide (off `mod` BSIZE = 0)); lia). destruct (Z.eqb_spec (fblock V1 a1 ((off + tot) / BSIZE)) 0) as [E0|E0].
      + rewrite Hsame by auto. lia.
      + destruct HL3 as [->| ->]; lia. }
  split_and!; [by eapply writing_le|done|]. right. split; [lia|].
  destruct (decide (m = n - tot)); [left; lia|right]. subst m. change BSIZE with 1024 in *. Z.div_mod_to_equations. lia.
Qed.

End writei.

(** ** [iupdate] *)

Lemma wr_other n d off v j :
  0 <= off -> (Z.of_nat j < off \/ off + Z.of_nat n <= Z.of_nat j) -> wr n d off v !! j = d !! j.
Proof.
  intros Ho Hj. unfold wr. destruct Hj; [apply list_lookup_inserts_lt; lia|].
  apply list_lookup_inserts_ge. rewrite le_encode_length. lia.
Qed.

(** The words [bl] at [o], as the loops of [iupdate] write them. *)
Definition put_words (bl : list Z) (o : Z) (k : nat) (data : list Z) : list Z :=
  fold_left (fun d (i : nat) => wr 4 d (o + 4 * Z.of_nat i) (nth i bl 0)) (seq 0 k) data.

Lemma put_words_S bl o k data : put_words bl o (S k) data = wr 4 (put_words bl o k data) (o + 4 * Z.of_nat k) (nth k bl 0).
Proof. unfold put_words. by rewrite seq_S, fold_left_app. Qed.

Lemma put_words_spec bl o k data :
  0 <= o -> o + 4 * Z.of_nat k <= Z.of_nat (length data) ->
  length (put_words bl o k data) = length data /\
  (forall n o', 0 <= o' -> o' + Z.of_nat n <= o -> rd n (put_words bl o k data) o' = rd n data o') /\
  (forall j, (Z.of_nat j < o \/ o + 4 * Z.of_nat k <= Z.of_nat j) -> put_words bl o k data !! j = data !! j) /\
  forall i, (i < k)%nat -> rd 4 (put_words bl o k data) (o + 4 * Z.of_nat i) = nth i bl 0 `mod` 2 ^ 32.
Proof.
  intros Ho. induction k as [|k IH]; intros Hk; [split_and!; try done; lia|]. destruct IH as (Hl & Hr & Hj & Hi); [lia|].
  rewrite put_words_S, length_wr. split_and!; [done|..].
  - intros n o' Ho' Hd. rewrite rd_wr_ne by lia. by apply Hr.
  - intros j Hout. rewrite wr_other by lia. apply Hj. lia.
  - intros i Hik. destruct (decide (i = k)) as [->|Hne]; [apply rd_wr; [lia|rewrite Hl; lia]|].
    rewrite rd_wr_ne by lia. apply Hi. lia.
Qed.

(** The fields are in the ranges of their types. *)
Record inode_fits (ip : inode) : Prop := {
  if_type : - 2 ^ 15 <= i_type ip < 2 ^ 15;
  if_major : - 2 ^ 15 <= i_major ip < 2 ^ 15;
  if_minor : - 2 ^ 15 <= i_minor ip < 2 ^ 15;
  if_nlink : - 2 ^ 15 <= i_nlink ip < 2 ^ 15;
  if_size : 0 <= i_size ip < 2 ^ 32;
  if_len : length (i_addrs ip) = 13%nat;
  if_addrs : forall k, (k < 13)%nat -> 0 <= nth k (i_addrs ip) 0 < 2 ^ 32
}.

(** The dinode at [o] of a block is that of [ip]. *)
Definition dinode_of (ip : inode) (data : list Z) (o : Z) : Prop :=
  dip_type data o = i_type ip /\ i16 (rd 2 data (o + 2)) = i_major ip /\ i16 (rd 2 data (o + 4)) = i_minor ip /\
  dip_nlink data o = i_nlink ip /\ rd 4 data (o + 8) = i_size ip /\ dip_addrs data o = i_addrs ip.

Lemma i16_wrap x : - 2 ^ 15 <= x < 2 ^ 15 -> i16 (x `mod` 2 ^ (8 * Z.of_nat 2)) = x.
Proof. intros Hx. change (8 * Z.of_nat 2) with 16. unfold i16. Z.div_mod_to_equations. lia. Qed.

Lemma put_dinode_spec ip o data :
  inode_fits ip -> 0 <= o -> o + DINODE_SIZE <= Z.of_nat (length data) ->
  dinode_of ip (put_dinode ip o data) o /\ length (put_dinode ip o data) = length data /\
  forall j, (Z.of_nat j < o \/ o + DINODE_SIZE <= Z.of_nat j) -> put_dinode ip o data !! j = data !! j.
Proof.
  intros [F1 F2 F3 F4 F5 F6 F7] Ho Hl. change DINODE_SIZE with 64 in *. unfold put_dinode. set (d0 := wr 4 _ (o + 8) _).
  change (fold_left _ _ _) with (put_words (i_addrs ip) (o + 12) 13 d0).
  assert (length d0 = length data) as Hd0 by (unfold d0; by rewrite !length_wr).
  destruct (put_words_spec (i_addrs ip) (o + 12) 13 d0) as (P1 & P2 & P3 & P4); [lia|lia|].
  split_and!; [split_and!| |].
  1-4: unfold dip_type, dip_nlink; rewrite P2 by lia; unfold d0; rewrite ?rd_wr_ne, rd_wr by (rewrite ?length_wr; lia); by apply i16_wrap.
  - rewrite P2 by lia. unfold d0. rewrite rd_wr by (rewrite ?length_wr; lia). by apply Z.mod_small.
  - unfold dip_addrs. apply list_eq. intros k. rewrite list_lookup_fmap. destruct (decide (k < 13)%nat) as [Hk|Hk].
    + rewrite lookup_seq_lt by done. cbn [fmap option_fmap option_map]. rewrite Nat.add_0_l, P4 by done.
      rewrite Z.mod_small by (by apply F7). rewrite nth_lookup.
      destruct (lookup_lt_is_Some_2 (i_addrs ip) k) as [x Hx]; [lia|]. by rewrite Hx.
    + rewrite lookup_seq_ge, (proj2 (lookup_ge_None _ _)) by lia. done.
  - rewrite P1. done.
  - intros j Hj. rewrite P3 by lia. unfold d0. by rewrite !wr_other by lia.
Qed.

Lemma dip_off_range inum : 0 <= dip_off inum /\ dip_off inum + DINODE_SIZE <= Z.of_nat (Z.to_nat BSIZE).
Proof. unfold dip_off. change IPB with 16. change DINODE_SIZE with 64. change BSIZE with 1024. pose proof (Z.mod_pos_bound inum 16). lia. Qed.

(** [iupdate] writes the inode to its slot. *)
Lemma wp_iupdate dev V D L f s i (Q : unit -> kst -> Prop) :
  txn dev [] V D L f s -> i_dev (inode_at f i) = dev -> (length L < nbuf)%nat -> inode_fits (inode_at f i) ->
  (forall s', txn dev [] (vset V (iblock f i) (put_dinode (inode_at f i) (dip_off (i_inum (inode_at f i))) (V (iblock f i)))) D
     (log_put (iblock f i) L) f s' -> Q tt s') ->
  wp (iupdate i) Q s.
Proof.
  intros X Hdev HL Hfit HQ. unfold iupdate. do 5 wp_step. rewrite (txn_inode X), (txn_sb X), Hdev. fold (iblock f i).
  wp_step. apply (txn_bread X); [intros []%elem_of_nil|room|]. clear s X. intros bp s X.
  wp_step. apply (txn_bdata X bp (iblock f i)); [left|]. destruct (dip_off_range (i_inum (inode_at f i))) as [H1 H2].
  apply (txn_put_end bp (iblock f i) _ [] _ X); [done| |room|done].
  destruct (put_dinode_spec (inode_at f i) (dip_off (i_inum (inode_at f i))) (V (iblock f i))) as (_ & E & _);
    [done|done|by rewrite (txn_length X)|]. rewrite E. apply (txn_length X).
Qed.

(** The state with the addresses and the size of inode [i] set. *)
Definition set_file (i : nat) (a : list Z) (size : Z) (f : kst) : kst :=
  f <| inodes ::= alter (fun x => x <| i_addrs := a |> <| i_size := size |>) i |>.

Lemma set_file_inode f i a size :
  (i < length (inodes f))%nat -> inode_at (set_file i a size f) i = (inode_at f i) <| i_addrs := a |> <| i_size := size |>.
Proof. intros Hi. unfold set_file. by rewrite inode_at_alter, decide_True. Qed.

Lemma set_file_grow f i a o :
  (i < length (inodes f))%nat ->
  (set_addrs i a f) <| inodes ::= alter (fun x => if i_size x <? o then x <| i_size := o |> else x) i |> =
  set_file i a (Z.max (i_size (inode_at f i)) o) f.
Proof.
  intros Hi. apply kst_eq; try done. cbn. apply list_eq. intros j. destruct (decide (j = i)) as [->|Hne].
  - rewrite !list_lookup_alter_eq. unfold inode_at. destruct (inodes f !! i) as [x|]; [|done]. cbn.
    f_equal. destruct x as [x1 x2 x3 x4 x5 x6 x7 x8 x9 x10 x11]. cbn. destruct (Z.ltb_spec x10 o); [by rewrite Z.max_r by lia|by rewrite Z.max_l by lia].
  - by rewrite !list_lookup_alter_ne.
Qed.

(** A write of [bs] at [off] of inode [i], inside an operation that has the log
    blocks [begin_op] reserves; [filewrite] writes at most 3 blocks at a time. *)
Record write_ready (dev : Z) (V : Z -> list Z) (D : disk) (L : list Z) (f : kst) (i : nat) (off : Z) (bs : list Z) (s : kst) : Prop := {
  wy_txn : txn dev [] V D L f s;
  wy_log : Z.of_nat (length L) + MAXOPBLOCKS <= LOGBLOCKS;
  wy_bitmap : bitmap_ok (sb f) V;
  wy_i : (i < length (inodes f))%nat;
  wy_dev : i_dev (inode_at f i) = dev;
  wy_fits : inode_fits (inode_at f i);
  wy_block : 0 < iblock f i < sb_bmapstart (sb f);
  wy_file : file_ok (sb f) V (iaddrs f i);
  wy_mapped : mapped_file V (iaddrs f i) (i_size (inode_at f i));
  wy_off : 0 <= off <= i_size (inode_at f i);
  wy_len : Z.of_nat (length bs) <= 3 * BSIZE;
  wy_max : off + Z.of_nat (length bs) <= MAXFILE * BSIZE
}.

(** The state after [tot] of the bytes were written. *)
Record write_done (dev : Z) (V : Z -> list Z) (D : disk) (L : list Z) (f : kst) (i : nat) (off : Z) (bs : list Z) (tot : Z)
    (V' : Z -> list Z) (a' L' : list Z) (s' : kst) (f' := set_file i a' (Z.max (i_size (inode_at f i)) (off + tot)) f) : Prop := {
  wd_tot : 0 <= tot <= Z.of_nat (length bs);
  wd_all : tot = Z.of_nat (length bs) \/ full (sb f) V';
  wd_wrote : wrote (sb f) (iblock f i) (i_size (inode_at f i)) V (iaddrs f i) V' a' off (take (Z.to_nat tot) bs);
  wd_txn : txn dev [] V' D L' f' s';
  wd_log : Z.of_nat (length L') <= Z.of_nat (length L) + MAXOPBLOCKS;
  wd_dinode : dinode_of (inode_at f' i) (V' (iblock f i)) (dip_off (i_inum (inode_at f i)));
  wd_slots : forall j, (Z.of_nat j < dip_off (i_inum (inode_at f i)) \/ dip_off (i_inum (inode_at f i)) + DINODE_SIZE <= Z.of_nat j) ->
    V' (iblock f i) !! j = V (iblock f i) !! j
}.

Lemma file_fits sb V a : bitmap_ok sb V -> file_ok sb V a -> length a = 13%nat /\ forall k, (k < 13)%nat -> 0 <= nth k a 0 < 2 ^ 32.
Proof.
  intros BK FO. split; [apply FO|]. intros k Hk. destruct (decide (nth k a 0 = 0)) as [->|H0]; [lia|].
  assert (used sb V (nth k a 0)) as [Hd%(data_range BK) _].
  { destruct (decide (k = 12)%nat) as [->|]; [by apply FO|].
    assert (fblock V a (Z.of_nat k) = nth k a 0) as E.
    { unfold fblock. rewrite (proj2 (Z.ltb_lt _ _)) by (change NDIRECT with 12; lia). by rewrite Nat2Z.id. }
    rewrite <- E in *. apply FO; [change MAXFILE with 268; lia|done]. }
  pose proof (bk_size _ _ BK). lia.
Qed.

Section write.
Context {KL : KLayout}.

Lemma wp_writei dev V D L f i off bs s (Q : Z -> kst -> Prop) :
  write_ready dev V D L f i off bs s ->
  (forall tot V' a' L' s', write_done dev V D L f i off bs tot V' a' L' s' -> Q tot s') ->
  wp (writei i (Skernel bs) off (Z.of_nat (length bs))) Q s.
Proof.
  intros [X HL BK Hi Hdev Hfit Hib FO HM Hoff Hlen Hmax] HQ. change (MAXFILE * BSIZE) with 274432 in *. change (3 * BSIZE) with 3072 in Hlen.
  unfold writei. do 3 wp_step. rewrite (txn_inode X), Hdev. rewrite (u32_id (off + _)) by lia.
  rewrite (proj2 (Z.ltb_ge _ off)), (proj2 (Z.ltb_ge _ off)), (proj2 (Z.ltb_ge (MAXFILE * BSIZE) _)) by (done || lia). cbn [orb].
  wp_step. change MAXOPBLOCKS with 10 in *. change LOGBLOCKS with 30 in HL.
  assert (length L + 10 <= 30)%nat as HL' by lia.
  apply (wp_write_loop Hi Hdev Hoff Hlen Hmax HL' _ _ X BK FO HM).
  clear s X. intros tot V1 a1 L1 s (W & X & HL1 & HP) Ht Hfull. do 2 wp_step. wp_step.
  pose proof (txn_updi X i (fun x => if i_size x <? off + tot then x <| i_size := off + tot |> else x)) as X2.
  rewrite (set_file_grow f i a1 (off + tot) Hi) in X2. set (f' := set_file _ _ _ _) in X2. set (s2 := s <| inodes ::= _ |>) in X2 |- *.
  assert (inode_at f' i = (inode_at f i) <| i_addrs := a1 |> <| i_size := Z.max (i_size (inode_at f i)) (off + tot) |>) as Ei
    by (by apply set_file_inode).
  assert (inode_fits (inode_at f' i)) as Hfit'.
  { rewrite Ei. pose proof (file_fits _ _ _ (wt_bitmap _ _ _ _ _ _ _ _ _ W) (wt_file _ _ _ _ _ _ _ _ _ W)) as [F1 F2].
    split; try apply Hfit; cbn; [|done|done]. pose proof (if_size _ Hfit). lia. }
  apply (wp_iupdate _ _ _ _ _ _ _ _ X2); [by rewrite Ei|pose proof (pot_le_2 L (iaddrs f i)); room|done|].
  assert (iblock f' i = iblock f i) as Eb by (unfold iblock; by rewrite Ei). rewrite Eb.
  destruct (dip_off_range (i_inum (inode_at f i))) as [H1 H2]. pose proof (txn_length X (iblock f i)) as Hl.
  destruct (put_dinode_spec (inode_at f' i) (dip_off (i_inum (inode_at f i))) (V1 (iblock f i))) as (P1 & P2 & P3); [done|done|by rewrite Hl|].
  replace (i_inum (inode_at f' i)) with (i_inum (inode_at f i)) by (by rewrite Ei).
  clear s X X2 s2. intros s X. wp_step. rewrite i32_id by lia. set (V2 := vset _ _ _) in X.
  apply (HQ tot V2 a1 (log_put (iblock f i) L1)). split; try done.
  - destruct Hfull as [->|Hfl]; [by left|right]. intros b Hb. unfold V2. rewrite keep_bit; [by apply Hfl|by apply W|lia|done].
  - apply (wrote_ib _ _ _ _ _ _ _ _ _ _ W (proj1 Hoff)); [done|by rewrite P2].
  - pose proof (log_put_length (iblock f i) L1). pose proof (pot_le_2 L (iaddrs f i)). change MAXOPBLOCKS with 10. lia.
  - unfold V2. rewrite vset_eq. exact P1.
  - intros j Hj. unfold V2. rewrite vset_eq, P3 by done. by rewrite (wt_meta _ _ _ _ _ _ _ _ _ W) by lia.
Qed.


Lemma read_len_in size off n : 0 <= off -> 0 <= n -> off + n <= size < 2 ^ 32 -> read_len size off n = n.
Proof.
  intros Ho Hn Hs. unfold read_len. rewrite u32_id by lia. rewrite (proj2 (Z.ltb_ge size off)), (proj2 (Z.ltb_ge (off + n) off)) by lia.
  cbn [orb]. lia.
Qed.

(** C12: what was written is read back.  Reading the bytes that [writei] reports
    as written returns them. *)
Theorem writei_readi dev V D L f i off bs s :
  write_ready dev V D L f i off bs s -> Z.of_nat (length L) + MAXOPBLOCKS < LOGBLOCKS ->
  wp (r ← writei i (Skernel bs) off (Z.of_nat (length bs)); x ← readi i Dlocal off r; mret (r, x))
    (fun '(r, x) _ => 0 <= r /\ x = (r, take (Z.to_nat r) bs)) s.
Proof.
  intros HR HL. apply wp_bind, (wp_writei _ _ _ _ _ _ _ _ _ _ HR). intros r V' a' L' s' WD.
  destruct HR as [_ _ _ Hi Hdev _ _ _ _ Hoff Hlen Hmax]. destruct WD as [Ht _ W X HL' _ _].
  set (f' := set_file _ _ _ _) in X. pose proof (set_file_inode f i a' (Z.max (i_size (inode_at f i)) (off + r)) Hi) as Ei. fold f' in Ei.
  change (MAXFILE * BSIZE) with 274432 in Hmax. change (3 * BSIZE) with 3072 in Hlen. change LOGBLOCKS with 30 in *.
  assert (Z.of_nat (length (take (Z.to_nat r) bs)) = r) as El by (rewrite length_take; lia).
  pose proof (wt_mapped _ _ _ _ _ _ _ _ _ W) as HM. rewrite El in HM. pose proof (proj1 HM) as Hs. change (MAXFILE * BSIZE) with 274432 in Hs.
  assert (i_dev (inode_at f' i) = dev) as Hd' by (by rewrite Ei). assert (iaddrs f' i = a') as Ea by (unfold iaddrs; by rewrite Ei).
  assert (i_size (inode_at f' i) = Z.max (i_size (inode_at f i)) (off + r)) as Es by (by rewrite Ei).
  rewrite <- Ea, <- Es in HM. assert (length L' < nbuf)%nat as Hroom by room.
  wp_step. apply (wp_readi Hd' HM Hroom _ _ _ _ X); [lia|lia|]. rewrite Es, Ea, read_len_in by lia.
  intros s2 X2. wp_step. split; [lia|]. f_equal. etrans; [|apply (wt_new _ _ _ _ _ _ _ _ _ W)]. f_equal. rewrite length_take. lia.
Qed.

(** The blocks of another file, [b], are in use and not those of inode [i]. *)
Definition disjoint_file (sb : superblock) (V : Z -> list Z) (a b : list Z) (size : Z) : Prop :=
  mapped_file V b size /\
  (ind b <> 0 -> used sb V (ind b) /\ foreign V a (ind b)) /\
  (forall k, 0 <= k -> k * BSIZE < size -> used sb V (fblock V b k) /\ foreign V a (fblock V b k)).

Lemma wrote_disjoint sb ib size V a V' a' off bs b size' :
  wrote sb ib size V a V' a' off bs -> disjoint_file sb V a b size' ->
  mapped_file V' b size' /\ forall o, 0 <= o < size' -> fbyte V' b o = fbyte V b o.
Proof.
  intros W ([Hs Hm] & Hind & Hblk).
  assert (forall k, 0 <= k -> k * BSIZE < size' -> fblock V' b k = fblock V b k) as E.
  { intros k Hk Hlt. unfold fblock. destruct (k <? NDIRECT); [done|]. destruct (Z.eqb_spec (ind b) 0) as [|Hi]; [done|].
    destruct (Hind Hi) as [U F]. by destruct (wt_others _ _ _ _ _ _ _ _ _ W _ U F) as [-> _]. }
  split; [split; [done|]; intros k Hk Hlt; rewrite E by done; by apply Hm|].
  intros o Ho. assert (0 <= o / BSIZE /\ o / BSIZE * BSIZE < size') as [H1 H2] by (change BSIZE with 1024; Z.div_mod_to_equations; lia).
  unfold fbyte. rewrite E by done. destruct (Hblk _ H1 H2) as [U F]. by destruct (wt_others _ _ _ _ _ _ _ _ _ W _ U F) as [-> _].
Qed.

Lemma set_file_other f i j a size : j <> i -> (i < length (inodes f))%nat -> inode_at (set_file i a size f) j = inode_at f j.
Proof. intros Hne Hi. unfold set_file. by rewrite inode_at_alter, decide_False. Qed.

(** C13: files do not interfere.  After a write to one file, whatever its
    outcome, every read of another file returns the bytes it held before. *)
Theorem write_isolated dev V D L f i j off bs off' n s :
  write_ready dev V D L f i off bs s -> Z.of_nat (length L) + MAXOPBLOCKS < LOGBLOCKS ->
  j <> i -> i_dev (inode_at f j) = dev -> disjoint_file (sb f) V (iaddrs f i) (iaddrs f j) (i_size (inode_at f j)) ->
  0 <= off' -> 0 <= n -> off' + n <= i_size (inode_at f j) ->
  wp (writei i (Skernel bs) off (Z.of_nat (length bs));; readi j Dlocal off' n)
    (fun x _ => x = (n, fbytes V (iaddrs f j) off' (Z.to_nat n))) s.
Proof.
  intros HR HL Hne Hdev HD Ho Hn Hon. apply wp_bind, (wp_writei _ _ _ _ _ _ _ _ _ _ HR). intros r V' a' L' s' WD.
  destruct HR as [_ _ _ Hi _ _ _ _ _ _ _ _]. destruct WD as [_ _ W X HL' _ _]. change LOGBLOCKS with 30 in HL.
  set (f' := set_file _ _ _ _) in X. assert (inode_at f' j = inode_at f j) as Ej by (by apply set_file_other).
  destruct (wrote_disjoint _ _ _ _ _ _ _ _ _ _ _ W HD) as [HM Hb]. pose proof (proj1 HM) as Hs. change (MAXFILE * BSIZE) with 274432 in Hs.
  assert (length L' < nbuf)%nat as Hroom by room. unfold iaddrs in HM. rewrite <- Ej in HM, Hdev, Hs, Hon. fold (iaddrs f' j) in HM.
  apply (wp_readi Hdev HM Hroom _ _ _ _ X); [lia|lia|]. intros s2 X2. rewrite read_len_in by lia. f_equal.
  unfold iaddrs. rewrite Ej. apply fbytes_ext. intros k Hk. apply Hb. rewrite Ej in Hon. lia.
Qed.

End write.

(** ** A small file system: 64 blocks, the bitmap in block 6, an empty file and
    a file of 5 bytes in block 7 *)

Definition fs_layout : KLayout := small_layout 16 ltac:(lia).

Definition fs_sb : superblock := mksuperblock FSMAGIC 64 57 16 2 2 4 6.

Definition fs_disk : disk := mkdisk {[ 6 := 255 :: replicate 1023 0 ]} [].

Definition fs_st : kst :=
  (quiet (replicate nbuf buf0) fs_disk (mklog 2 1 false 1 0 (replicate 30 0)))
    <| sb := fs_sb |>
    <| inodes := [mkinode 1 1 1 (mksleeplock true 0) true T_FILE 0 0 1 0 (replicate 13 0);
                  mkinode 1 2 1 (mksleeplock true 0) true T_FILE 0 0 1 5 (7 :: replicate 12 0)] |>.

Lemma fs_disk_length bn : length (disk_read fs_disk bn) = Z.to_nat BSIZE.
Proof.
  unfold disk_read. change (d_blocks fs_disk) with ({[ 6 := 255 :: replicate 1023 0 ]} : gmap Z (list Z)).
  destruct (decide (bn = 6)) as [->|]; [by rewrite lookup_singleton_eq|by rewrite lookup_singleton_ne].
Qed.

Lemma fs_txn : txn 1 [] (disk_read fs_disk) fs_disk [] (tx_frame fs_st) fs_st.
Proof.
  assert (bio_ok 1 [] ∅ fs_st) as OK.
  { pose proof (quiet_ok fs_disk (mklog 2 1 false 1 0 (replicate 30 0)) fs_disk_length) as Q. split; apply Q. }
  pose proof (cache_of_bio _ _ _ OK (not_elem_of_nil _)) as C.
  split; [|done..|apply NoDup_nil_2|done|apply not_elem_of_nil|by right|done].
  apply (cache_ext C). intros bn. apply (cache_clean C); [apply not_elem_of_empty|apply not_elem_of_nil].
Qed.

Lemma small_cases (P : Z -> Prop) (n : nat) : Forall P (Z.of_nat <$> seq 0 n) -> forall b, 0 <= b < Z.of_nat n -> P b.
Proof.
  intros H b Hb. rewrite Forall_forall in H. apply H, list_elem_of_fmap. exists (Z.to_nat b).
  split; [lia|]. apply elem_of_seq. lia.
Qed.

Lemma fs_bitmap : bitmap_ok fs_sb (disk_read fs_disk).
Proof.
  split; [cbn; lia|vm_compute; split; congruence|].
  change (data_start fs_sb) with (Z.of_nat 7). apply small_cases. repeat constructor.
Qed.

Lemma nth_zeros k n : nth k (replicate n 0) 0 = 0.
Proof. revert k. induction n as [|n IH]; intros [|k]; try done. apply IH. Qed.

Lemma fs_file : file_ok fs_sb (disk_read fs_disk) (replicate 13 0).
Proof.
  assert (forall k, fblock (disk_read fs_disk) (replicate 13 0) k = 0) as E.
  { intros k. unfold fblock. change (ind (replicate 13 0)) with 0. destruct (k <? NDIRECT); [apply nth_zeros|done]. }
  split; try done; intros k; rewrite ?E; done.
Qed.

Lemma fs_ready : write_ready 1 (disk_read fs_disk) fs_disk [] (tx_frame fs_st) 0 0 [104; 105; 10] fs_st.
Proof.
  split; [apply fs_txn|done|apply fs_bitmap|cbn; lia|done| |done|apply fs_file| |done|done|done].
  - split; try done. intros k Hk. change (i_addrs _) with (replicate 13 0). rewrite nth_zeros. lia.
  - split; [done|]. intros k Hk Hlt. change (i_size _) with 0 in Hlt. change BSIZE with 1024 in Hlt. lia.
Qed.


Lemma writei_readi_witness :
  wp (r ← writei (KL := fs_layout) 0 (Skernel [104; 105; 10]) 0 3;
      x ← readi (KL := fs_layout) 0 Dlocal 0 r; mret (r, x))
    (fun '(r, x) _ => 0 <= r /\ x = (r, take (Z.to_nat r) [104; 105; 10])) fs_st.
Proof. apply (writei_readi (KL := fs_layout) _ _ _ _ _ _ _ _ _ fs_ready). reflexivity. Defined.

Lemma fs_disjoint : disjoint_file fs_sb (disk_read fs_disk) (replicate 13 0) (7 :: replicate 12 0) 5.
Proof.
  assert (used fs_sb (disk_read fs_disk) 7) as U by (split; [split; vm_compute; congruence|reflexivity]).
  assert (foreign (disk_read fs_disk) (replicate 13 0) 7) as F.
  { split; [done|]. intros k _. unfold fblock. change (ind (replicate 13 0)) with 0. destruct (k <? NDIRECT); [by rewrite nth_zeros|done]. }
  assert (forall k, 0 <= k -> k * BSIZE < 5 -> k = 0) as E by (intros k Hk; change BSIZE with 1024; lia).
  split_and!; [|done|].
  - split; [done|]. intros k Hk Hlt. by rewrite (E k Hk Hlt).
  - intros k Hk Hlt. by rewrite (E k Hk Hlt).
Qed.

Lemma write_isolated_witness :
  wp (writei (KL := fs_layout) 0 (Skernel [104; 105; 10]) 0 3;; readi (KL := fs_layout) 1 Dlocal 1 4)
    (fun x _ => x = (4, fbytes (disk_read fs_disk) (7 :: replicate 12 0) 1 4)) fs_st.
Proof.
  apply (write_isolated (KL := fs_layout) _ _ _ _ _ 0 1 0 [104; 105; 10] 1 4 _ fs_ready);
    [reflexivity|discriminate|reflexivity|exact fs_disjoint|..]; vm_compute; congruence.
Defined.
