(* ===== verification/DirSpec.v ===== *)
(** * Directories are finite maps

    A directory is a file of 16-byte entries; its meaning is the map from
    names to inode numbers that the entries give ([lookup_name]).
    [dirlookup] looks a name up in that map and [dirlink] adds a name to it,
    inside a transaction, whatever blocks the directory occupies. *)

From S2P Require Import Prelude CMem Riscv Kalloc Vm KState Sched Printf Bio BioSpec Log LogSpec Fs FsSpec InodeSpec.

(** ** Names *)

Definition no_nul (name : list Z) : Prop := Forall (fun c => c <> 0) name.

(** A name ends at its NUL, or after [DIRSIZ] bytes. *)
Fixpoint cname (l : list Z) : list Z :=
  match l with
  | [] => []
  | c :: l' => if c =? 0 then [] else c :: cname l'
  end.

Definition short (name : list Z) : list Z := take (Z.to_nat DIRSIZ) name.

Lemma strncmp_bytes_0 n p q : no_nul p -> strncmp_bytes n p q = 0 <-> take n p = cname (take n q).
Proof.
  revert p q. induction n as [|n IH]; intros p q Hp; [done|]. cbn [strncmp_bytes].
  destruct p as [|x p], q as [|b q]; cbn [head tail take cname]; change (default 0 None) with 0;  try change (default 0 (Some x)) with x; try change (default 0 (Some b)) with b; try (apply Forall_cons in Hp as [Hx Hp]).
  - by split.
  - cbn [Z.eqb negb andb]. destruct (Z.eqb_spec b 0) as [->|Hb]; [by split|]. split; [intros; lia|done].
  - rewrite (proj2 (Z.eqb_neq x 0)) by done. cbn [negb andb]. split; [intros; lia|done].
  - rewrite (proj2 (Z.eqb_neq x 0)) by done. cbn [negb andb]. destruct (Z.eqb_spec x b) as [<-|Hne].
    + rewrite (proj2 (Z.eqb_neq x 0)) by done. rewrite IH by done. split; [by intros ->|by intros [= ->]].
    + destruct (Z.eqb_spec b 0); (split; [intros; lia|]); [done|by intros [= ]].
Qed.

Lemma namecmp_0 name t : no_nul name -> length t = Z.to_nat DIRSIZ -> namecmp name t =? 0 = bool_decide (cname t = short name).
Proof.
  intros Hn Ht. unfold namecmp, short. pose proof (strncmp_bytes_0 (Z.to_nat DIRSIZ) name t Hn) as E. rewrite (take_ge t) in E by lia.
  destruct (Z.eqb_spec (strncmp_bytes (Z.to_nat DIRSIZ) name t) 0) as [H|H].
  - rewrite bool_decide_eq_true_2; [done|]. symmetry. by apply E.
  - rewrite bool_decide_eq_false_2; [done|]. intros H'. by apply H, E.
Qed.

Lemma cname_pad name n : no_nul name -> cname (name ++ replicate n 0) = name.
Proof.
  induction name as [|c name IH]; intros H; cbn [app cname]; [by destruct n|]. apply Forall_cons in H as [Hc H].
  rewrite (proj2 (Z.eqb_neq c 0)) by done. by rewrite IH.
Qed.

(** The bytes that [dirlink] stores are those of the name, cut to [DIRSIZ]. *)
Lemma cname_dirent name : no_nul name -> cname (dirent_name name) = short name.
Proof.
  intros H. unfold dirent_name, short. rewrite take_app, take_replicate. apply cname_pad. by apply Forall_take.
Qed.

Lemma dirent_name_length name : length (dirent_name name) = Z.to_nat DIRSIZ.
Proof. unfold dirent_name. rewrite length_take, length_app, length_replicate. lia. Qed.

(** ** The entries of a directory *)

Abbreviation slot := (option (list Z * Z)).

(** A free entry has inode number 0. *)
Definition entry (de : list Z) : slot := if de_inum de =? 0 then None else Some (cname (de_name de), de_inum de).

Definition slots (size : Z) : nat := Z.to_nat (size / DIRENT_SIZE).

Definition entry_at (V : Z -> list Z) (a : list Z) (k : nat) : slot := entry (fbytes V a (DIRENT_SIZE * Z.of_nat k) (Z.to_nat DIRENT_SIZE)).

Definition entries (V : Z -> list Z) (a : list Z) (size : Z) : list slot := entry_at V a <$> seq 0 (slots size).

Definition named (nm : list Z) (e : slot) : Prop := exists i, e = Some (nm, i).

#[export] Instance named_dec nm e : Decision (named nm e).
Proof.
  refine (match e with Some (n, i) => cast_if (decide (n = nm)) | None => right _ end); [subst; by exists i|..]; intros [j Hj]; congruence.
Defined.

(** The first entry with a name: its position and its inode number. *)
Definition lookup_name (es : list slot) (nm : list Z) : option (nat * Z) :=
  match list_find (named nm) es with Some (k, Some (_, i)) => Some (k, i) | _ => None end.

Lemma lookup_name_Some es nm k i :
  lookup_name es nm = Some (k, i) <-> es !! k = Some (Some (nm, i)) /\ forall j e, es !! j = Some e -> (j < k)%nat -> ~ named nm e.
Proof.
  unfold lookup_name. split.
  - destruct (list_find (named nm) es) as [[k' e]|] eqn:E; [|done]. apply list_find_Some in E as (Hk & [i' ->] & Hb). intros [= -> ->]. done.
  - intros [Hk Hb]. assert (list_find (named nm) es = Some (k, Some (nm, i))) as ->; [|done].
    apply list_find_Some. split; [done|]. split; [by exists i|done].
Qed.

Lemma lookup_name_None es nm : lookup_name es nm = None <-> forall j e, es !! j = Some e -> ~ named nm e.
Proof.
  unfold lookup_name. split.
  - destruct (list_find (named nm) es) as [[k' e]|] eqn:E.
    + apply list_find_Some in E as (_ & [i ->] & _). done.
    + intros _ j e Hj. apply list_find_None in E. rewrite Forall_lookup in E. by eapply E.
  - intros H. assert (list_find (named nm) es = None) as ->; [|done]. apply list_find_None, Forall_lookup. intros j e Hj. by eapply H.
Qed.

(** Filling one free or new slot adds one name to the map. *)
Lemma lookup_name_fill es es' k nm i :
  (forall j, es' !! j = if decide (j = k) then Some (Some (nm, i)) else es !! j) -> (forall e, es !! k = Some e -> e = None) ->
  lookup_name es nm = None ->
  forall n, snd <$> lookup_name es' n = if decide (n = nm) then Some i else snd <$> lookup_name es n.
Proof.
  intros Hes Hk Hnm n. destruct (decide (n = nm)) as [->|Hn].
  - assert (lookup_name es' nm = Some (k, i)) as ->; [|done]. apply lookup_name_Some. split; [by rewrite Hes, decide_True|].
    intros j e Hj Hlt. rewrite Hes, decide_False in Hj by lia. rewrite lookup_name_None in Hnm. by eapply Hnm.
  - assert (forall j e, es' !! j = Some e -> named n e -> es !! j = Some e) as Hback.
    { intros j e Hj [i' ->]. rewrite Hes in Hj. destruct (decide (j = k)); [by simplify_eq|done]. }
    destruct (lookup_name es n) as [[k0 i0]|] eqn:E.
    + assert (lookup_name es' n = Some (k0, i0)) as ->; [|done]. apply lookup_name_Some in E as [H1 H2]. apply lookup_name_Some.
      split; [|intros j e Hj Hlt Hn'; by eapply H2; [apply Hback| |]].
      rewrite Hes. destruct (decide (k0 = k)) as [->|]; [by apply Hk in H1|done].
    + assert (lookup_name es' n = None) as ->; [|done]. rewrite lookup_name_None in E. apply lookup_name_None.
      intros j e Hj Hn'. by eapply E; [apply Hback|].
Qed.

(** ** iget *)

(** An entry of the inode table in use for an inode. *)
Definition is_inode (dev inum : Z) (ip : inode) : Prop := 0 < i_ref ip /\ i_dev ip = dev /\ i_inum ip = inum.

Lemma iget_scan_ok dev inum l i0 e0 :
  match iget_scan dev inum l i0 e0 with
  | inl i => exists ip, (i0 <= i)%nat /\ l !! (i - i0)%nat = Some ip /\ is_inode dev inum ip
  | inr e => Forall (fun ip => ~ is_inode dev inum ip) l /\
      (e = e0 /\ (e0 = None -> Forall (fun ip => i_ref ip <> 0) l) \/
       exists i ip, e = Some i /\ e0 = None /\ (i0 <= i)%nat /\ l !! (i - i0)%nat = Some ip /\ i_ref ip = 0)
  end.
Proof.
  revert i0 e0. induction l as [|ip l IH]; intros i0 e0; cbn [iget_scan].
  { split; [done|]. left. split; [done|]. done. }
  destruct ((0 <? i_ref ip) && (i_dev ip =? dev) && (i_inum ip =? inum)) eqn:E.
  { exists ip. split; [done|]. rewrite Nat.sub_diag. split; [done|]. unfold is_inode.
    apply andb_true_iff in E as [[E1 E2]%andb_true_iff E3]. lia. }
  assert (~ is_inode dev inum ip) as Hn.
  { intros (H1 & H2 & H3). rewrite (proj2 (Z.ltb_lt _ _)), (proj2 (Z.eqb_eq _ _)), (proj2 (Z.eqb_eq _ _)) in E by done. done. }
  specialize (IH (S i0) (match e0 with Some _ => e0 | None => if i_ref ip =? 0 then Some i0 else None end)).
  destruct (iget_scan dev inum l (S i0) _) as [i|e].
  - destruct IH as (ip' & Hle & Hl & Hi). exists ip'. split; [lia|]. split; [|done]. by replace (i - i0)%nat with (S (i - S i0)) by lia.
  - destruct IH as [HF Hor]. split; [by constructor|]. destruct e0 as [e0|].
    + destruct Hor as [[-> _]|(i & ip' & _ & Hno & _)]; [by left|done].
    + destruct (Z.eqb_spec (i_ref ip) 0) as [H0|H0].
      * destruct Hor as [[-> _]|(i & ip' & _ & Hno & _)]; [|done]. right. exists i0, ip. by rewrite Nat.sub_diag.
      * destruct Hor as [[-> Hf]|(i & ip' & -> & _ & Hle & Hl & Hr)].
        -- left. split; [done|]. intros _. constructor; [done|by apply Hf].
        -- right. exists i, ip'. split_and!; try done; [lia|]. by replace (i - i0)%nat with (S (i - S i0)) by lia.
Qed.

(** The table after [iget]: the entry [j] is that of the inode, with one more
    reference; it was so before or it was free, and no other entry changed. *)
Record igot (dev inum : Z) (f : kst) (j : nat) (f' : kst) : Prop := {
  ig_j : (j < length (inodes f))%nat;
  ig_inode : is_inode dev inum (inode_at f' j);
  ig_ref : is_inode dev inum (inode_at f j) /\ i_ref (inode_at f' j) = i_ref (inode_at f j) + 1 \/
    i_ref (inode_at f j) = 0 /\ i_ref (inode_at f' j) = 1 /\ i_valid (inode_at f' j) = false /\ Forall (fun ip => ~ is_inode dev inum ip) (inodes f);
  ig_frame : exists g, f' = f <| inodes ::= alter g j |>
}.

Section iget.
Context {dev : Z} {H : list (nat * Z)} {V : Z -> list Z} {D : disk} {L : list Z} {f s : kst}.
Context (X : txn dev H V D L f s) (HLk : Litable ∉ locks f).

Lemma table_unlocked : Litable ∉ locks s.
Proof using X HLk. change (locks s) with (locks (tx_frame s)). by rewrite (tn_frame _ _ _ _ _ _ _ X). Qed.

(** An update of one entry, at the end of a critical section of the table. *)
Lemma wp_table_upd {B} j g (k : M kst B) (Q : B -> kst -> Prop) :
  (forall s', txn dev H V D L (f <| inodes ::= alter g j |>) s' -> wp k Q s') ->
  wp (updi j g;; release Litable;; k) Q (s <| locks ::= cons Litable |>).
Proof using X HLk.
  intros HQ. wp_step. wp_step. apply wp_bind, wp_release; [left|].
  assert (s <| locks ::= cons Litable |> <| inodes ::= alter g j |> <| locks ::= filter (fun x => x <> Litable) |> = s <| inodes ::= alter g j |>) as ->.
  { apply kst_eq; try reflexivity. change (filter (fun x => x <> Litable) (Litable :: locks s) = locks s). apply filter_locked, table_unlocked. }
  apply HQ. by apply txn_updi.
Qed.

(** [iput] of an entry that is not the last reference to a removed file. *)
Lemma wp_iput_ref {B} j (k : M kst B) (Q : B -> kst -> Prop) :
  (i_ref (inode_at f j) =? 1) && i_valid (inode_at f j) && (i_nlink (inode_at f j) =? 0) = false ->
  (forall s', txn dev H V D L (f <| inodes ::= alter (fun x => x <| i_ref ::= fun r => r - 1 |>) j |>) s' -> wp k Q s') -> wp (iput j;; k) Q s.
Proof using X HLk.
  intros Hc HQ. apply wp_bind. unfold iput. apply wp_bind, wp_acquire; [apply table_unlocked|]. apply wp_bind, wp_gets.
  change (inode_at (s <| locks ::= cons Litable |>) j) with (inode_at s j). rewrite (txn_inode X), Hc. unfold when. apply wp_bind, wp_ret.
  pose proof (wp_table_upd j (fun x => x <| i_ref ::= fun r => r - 1 |>) k Q HQ) as W. apply wp_bind_inv in W. apply wp_bind.
  eapply wp_mono; [exact W|]. cbv beta. intros [] s1 W1. by apply wp_bind_inv in W1.
Qed.

Lemma wp_iget inum (Q : nat -> kst -> Prop) :
  Exists (fun ip => i_ref ip = 0) (inodes f) ->
  (forall j f' s', igot dev inum f j f' -> txn dev H V D L f' s' -> Q j s') -> wp (iget dev inum) Q s.
Proof using X HLk.
  intros Hfree HQ. assert (inodes s = inodes f) as Ein by (by rewrite <- (tn_frame _ _ _ _ _ _ _ X)).
  unfold iget. apply wp_bind, wp_acquire; [apply table_unlocked|]. apply wp_bind, wp_gets. cbn [inodes upd].
  change (inodes (s <| locks ::= cons Litable |>)) with (inodes s). rewrite Ein.
  pose proof (iget_scan_ok dev inum (inodes f) 0 None) as Hs. destruct (iget_scan dev inum (inodes f) 0 None) as [j|[j|]].
  - destruct Hs as (ip & _ & Hl & Hi). rewrite Nat.sub_0_r in Hl. apply wp_table_upd. intros s' X'. apply wp_ret. eapply HQ; [|exact X'].
    assert (inode_at f j = ip) as Ej by (unfold inode_at; by rewrite Hl). pose proof (lookup_lt_Some _ _ _ Hl) as Hj.
    split; [done|rewrite inode_at_alter, decide_True by done|rewrite inode_at_alter, decide_True by done|by eexists]; rewrite Ej.
    + destruct Hi as (? & ? & ?). split_and!; cbn; lia.
    + left. by split.
  - destruct Hs as [HF [[[= ] _]|(i & ip & [= <-] & _ & _ & Hl & Hr)]]. rewrite Nat.sub_0_r in Hl. apply wp_table_upd. intros s' X'.
    apply wp_ret. eapply HQ; [|exact X']. assert (inode_at f j = ip) as Ej by (unfold inode_at; by rewrite Hl). pose proof (lookup_lt_Some _ _ _ Hl) as Hj.
    split; [done|rewrite inode_at_alter, decide_True by done|rewrite inode_at_alter, decide_True by done|by eexists]; rewrite ?Ej.
    + by split_and!.
    + right. by split_and!.
  - exfalso. destruct Hs as [_ [[_ Hno]|(i & ip & [= ] & _)]]. specialize (Hno eq_refl). apply Exists_exists in Hfree as (ip & Hin & H0).
    rewrite Forall_forall in Hno. by apply (Hno ip).
Qed.
End iget.

(** ** dirlookup *)

(** Inode [dp] is a directory of whole entries; there is room in the cache
    and in the inode table. *)
Record dir_ok (dev : Z) (V : Z -> list Z) (L : list Z) (f : kst) (dp : nat) : Prop := {
  di_type : i_type (inode_at f dp) = T_DIR;
  di_dev : i_dev (inode_at f dp) = dev;
  di_size : i_size (inode_at f dp) `mod` DIRENT_SIZE = 0;
  di_mapped : mapped_file V (iaddrs f dp) (i_size (inode_at f dp));
  di_room : (length L < nbuf)%nat;
  di_lock : Litable ∉ locks f;
  di_free : Exists (fun ip => i_ref ip = 0) (inodes f)
}.

Definition dir_entries (V : Z -> list Z) (f : kst) (dp : nat) : list slot := entries V (iaddrs f dp) (i_size (inode_at f dp)).

Lemma entries_lookup V a size k : (k < slots size)%nat -> entries V a size !! k = Some (entry_at V a k).
Proof. intros Hk. unfold entries. by rewrite list_lookup_fmap, lookup_seq_lt by done. Qed.

Section dir.
Context {KL : KLayout}.
Context {dev : Z} {V : Z -> list Z} {D : disk} {L : list Z} {f : kst} {dp : nat}.
Context (DO : dir_ok dev V L f dp).

Lemma dir_size : 0 <= i_size (inode_at f dp) <= 274432 /\ i_size (inode_at f dp) = DIRENT_SIZE * Z.of_nat (slots (i_size (inode_at f dp))).
Proof using DO.
  pose proof (di_size _ _ _ _ _ DO) as Hm. destruct (di_mapped _ _ _ _ _ DO) as [Hs _]. change (MAXFILE * BSIZE) with 274432 in Hs.
  unfold slots. change DIRENT_SIZE with 16 in *. Z.div_mod_to_equations. lia.
Qed.

(** Reading one entry. *)
Lemma wp_read_entry {B} (k : nat) (c : Z -> list Z -> M kst B) Q s :
  txn dev [] V D L f s -> (k < slots (i_size (inode_at f dp)))%nat ->
  (forall s', txn dev [] V D L f s' -> let de := fbytes V (iaddrs f dp) (DIRENT_SIZE * Z.of_nat k) (Z.to_nat DIRENT_SIZE) in
     wp (c DIRENT_SIZE de) Q s') ->
  wp ('(r, de) ← readi dp Dlocal (DIRENT_SIZE * Z.of_nat k) DIRENT_SIZE; c r de) Q s.
Proof using DO.
  intros X Hk HQ. destruct dir_size as [Hs He]. change DIRENT_SIZE with 16 in *. apply wp_bind.
  apply (wp_readi (di_dev _ _ _ _ _ DO) (di_mapped _ _ _ _ _ DO) (di_room _ _ _ _ _ DO) _ _ _ _ X); [lia|lia|].
  rewrite read_len_in by lia. intros s' X'. by apply HQ.
Qed.

Lemma de_name_length k : length (de_name (fbytes V (iaddrs f dp) k (Z.to_nat DIRENT_SIZE))) = Z.to_nat DIRSIZ.
Proof. unfold de_name. rewrite length_drop, fbytes_length. done. Qed.

(** [dirlookup] returns the inode of the first entry with the name, in the
    inode table with a reference taken, and the offset of the entry. *)
Lemma wp_dirlookup name (Q : option (nat * Z) -> kst -> Prop) s :
  txn dev [] V D L f s -> no_nul name ->
  (match lookup_name (dir_entries V f dp) (short name) with
   | None => forall s', txn dev [] V D L f s' -> Q None s'
   | Some (k, inum) => forall j f' s', igot dev inum f j f' -> txn dev [] V D L f' s' -> Q (Some (j, DIRENT_SIZE * Z.of_nat k)) s'
   end) -> wp (dirlookup dp name) Q s.
Proof using DO.
  intros X Hn HQ. destruct dir_size as [Hs He]. set (size := i_size (inode_at f dp)) in *.
  unfold dirlookup. apply wp_bind, wp_gets. rewrite (txn_inode X), (di_type _ _ _ _ _ DO). cbn [Z.eqb negb]. change (T_DIR =? T_DIR) with true. cbn [negb].
  fold size. rewrite (di_dev _ _ _ _ _ DO). change (dir_entries V f dp) with (entries V (iaddrs f dp) size) in HQ.
  apply (wp_for_until _ _ _ _ _ (fun o s' => exists k, o = DIRENT_SIZE * Z.of_nat k /\ txn dev [] V D L f s' /\
    forall j e, entries V (iaddrs f dp) size !! j = Some e -> (j < k)%nat -> ~ named (short name) e)); [done|lia|..].
  - exists 0%nat. split; [done|]. split; [done|]. intros; lia.
  - clear s X. intros o s Ho (k & -> & X & Hb). assert (k < slots size)%nat as Hk by (change DIRENT_SIZE with 16 in *; lia).
    apply (wp_read_entry k); [done|done|]. clear s X. intros s X de. change (DIRENT_SIZE =? DIRENT_SIZE) with true. cbn [negb].
    pose proof (entries_lookup V (iaddrs f dp) size k Hk) as Hek. unfold entry_at, entry in Hek. fold de in Hek.
    assert (forall s', txn dev [] V D L f s' -> ~ named (short name) (if de_inum de =? 0 then None else Some (cname (de_name de), de_inum de)) ->
      exists k', DIRENT_SIZE * Z.of_nat k + DIRENT_SIZE = DIRENT_SIZE * Z.of_nat k' /\ txn dev [] V D L f s' /\
      forall j e, entries V (iaddrs f dp) size !! j = Some e -> (j < k')%nat -> ~ named (short name) e) as Hnext.
    { intros s' X' Hne. exists (S k). split; [lia|]. split; [done|]. intros j e Hj Hlt. destruct (decide (j = k)) as [->|]; [|apply (Hb j e Hj); lia].
      rewrite Hek in Hj. by injection Hj as <-. }
    destruct (Z.eqb_spec (de_inum de) 0) as [H0|H0].
    { apply wp_ret. apply Hnext; [done|]. by intros [? ?]. }
    rewrite namecmp_0 by (done || apply de_name_length). case_bool_decide as Hc.
    + apply wp_bind, (wp_iget X (di_lock _ _ _ _ _ DO)); [apply (di_free _ _ _ _ _ DO)|]. intros j f' s' Hg X'. apply wp_ret.
      assert (lookup_name (entries V (iaddrs f dp) size) (short name) = Some (k, de_inum de)) as E.
      { apply lookup_name_Some. split; [by rewrite Hek, Hc|done]. }
      rewrite E in HQ. by apply (HQ j f').
    + apply wp_ret. apply Hnext; [done|]. intros [i [= E _]]. done.
  - clear s X. intros o s Ho (k & -> & X & Hb).
    assert (lookup_name (entries V (iaddrs f dp) size) (short name) = None) as E.
    { apply lookup_name_None. intros j e Hj. apply (Hb j e Hj). apply lookup_lt_Some in Hj. unfold entries in Hj. rewrite length_fmap, length_seq in Hj.
      change DIRENT_SIZE with 16 in *. lia. }
    rewrite E in HQ. by apply HQ.
Qed.
End dir.

(** ** dirlink *)

(** Directory [dp] can take another entry, in an operation that has its log blocks. *)
Record link_ready (dev : Z) (V : Z -> list Z) (D : disk) (L : list Z) (f : kst) (dp : nat) (s : kst) : Prop := {
  lr_dir : dir_ok dev V L f dp;
  lr_txn : txn dev [] V D L f s;
  lr_log : Z.of_nat (length L) + MAXOPBLOCKS <= LOGBLOCKS;
  lr_bitmap : bitmap_ok (sb f) V;
  lr_dp : (dp < length (inodes f))%nat;
  lr_fits : inode_fits (inode_at f dp);
  lr_block : 0 < iblock f dp < sb_bmapstart (sb f);
  lr_file : file_ok (sb f) V (iaddrs f dp);
  lr_max : i_size (inode_at f dp) + DIRENT_SIZE <= MAXFILE * BSIZE
}.

Definition dirent_bytes (name : list Z) (inum : Z) : list Z := le_encode 2 inum ++ dirent_name name.

Lemma dirent_bytes_length name inum : length (dirent_bytes name inum) = Z.to_nat DIRENT_SIZE.
Proof. unfold dirent_bytes. rewrite length_app, le_encode_length, dirent_name_length. done. Qed.

Lemma entry_dirent name inum : no_nul name -> 0 < inum < 2 ^ 16 -> entry (dirent_bytes name inum) = Some (short name, inum).
Proof.
  intros Hn Hi. assert (de_inum (dirent_bytes name inum) = inum) as E.
  { unfold de_inum, rd, dirent_bytes. change (Z.to_nat 0) with 0%nat. rewrite drop_0, take_app_length' by (by rewrite le_encode_length).
    rewrite le_decode_encode. apply Z.mod_small. change (2 ^ (8 * Z.of_nat 2)) with (2 ^ 16). lia. }
  unfold entry. rewrite E, (proj2 (Z.eqb_neq inum 0)) by lia. unfold de_name, dirent_bytes.
  rewrite drop_app_length' by (by rewrite le_encode_length). by rewrite cname_dirent.
Qed.

Section dirlink.
Context {KL : KLayout}.
Context {dev : Z} {V : Z -> list Z} {D : disk} {L : list Z} {f : kst} {dp : nat}.

(** The offset [dirlink] writes to: of a free entry, or the end. *)
Lemma wp_find_slot {B} (c : Z -> M kst B) Q s :
  dir_ok dev V L f dp -> txn dev [] V D L f s ->
  (forall k s', (k <= slots (i_size (inode_at f dp)))%nat -> (forall e, dir_entries V f dp !! k = Some e -> e = None) ->
     txn dev [] V D L f s' -> wp (c (DIRENT_SIZE * Z.of_nat k)) Q s') ->
  wp (off ← loop (fun off =>
        d ← geti dp;
        if off <? i_size d then
          '(r, de) ← readi dp Dlocal off DIRENT_SIZE;
          if negb (r =? DIRENT_SIZE) then panic "dirlink read"
          else if de_inum de =? 0 then mret (inr off)
          else mret (inl (off + DIRENT_SIZE))
        else mret (inr off)) 0; c off) Q s.
Proof.
  intros DO X HQ. destruct (dir_size DO) as [Hs He]. set (size := i_size (inode_at f dp)) in *. apply wp_bind.
  apply (wp_loop (fun n o s' => exists k, o = DIRENT_SIZE * Z.of_nat k /\ (k <= slots size)%nat /\ n = Z.of_nat (slots size - k) + 1 /\
    txn dev [] V D L f s') _ _ (Z.of_nat (slots size) + 1)); [|change DIRENT_SIZE with 16 in *; lia|exists 0%nat; split_and!; (lia || done)].
  clear s X. intros n o s (k & -> & Hk & -> & X). split; [lia|]. apply wp_bind, wp_gets. rewrite (txn_inode X). fold size.
  destruct (Z.ltb_spec (DIRENT_SIZE * Z.of_nat k) size) as [Hlt|Hge].
  - assert (k < slots size)%nat as Hks by (change DIRENT_SIZE with 16 in *; lia).
    apply (wp_read_entry (D := D) DO k); [done|done|]. clear s X. intros s X de. change (DIRENT_SIZE =? DIRENT_SIZE) with true. cbn [negb].
    destruct (Z.eqb_spec (de_inum de) 0) as [H0|H0]; apply wp_ret.
    + apply HQ; [done| |done]. intros e Hek. unfold dir_entries in Hek. rewrite entries_lookup in Hek by done. injection Hek as <-.
      unfold entry_at, entry. fold de. by rewrite H0.
    + exists (Z.of_nat (slots size - S k) + 1). split; [lia|]. exists (S k). split_and!; [lia|lia|done|done].
  - apply wp_ret. apply HQ; [done| |done]. intros e Hek. apply lookup_lt_Some in Hek. unfold dir_entries, entries in Hek.
    rewrite length_fmap, length_seq in Hek. fold size in Hek. change DIRENT_SIZE with 16 in *. lia.
Qed.

(** The entries after 16 bytes were written at entry [k]. *)
Lemma entries_written ib k name inum V' a' :
  dir_ok dev V L f dp -> (k <= slots (i_size (inode_at f dp)))%nat -> no_nul name -> 0 < inum < 2 ^ 16 ->
  wrote (sb f) ib (i_size (inode_at f dp)) V (iaddrs f dp) V' a' (DIRENT_SIZE * Z.of_nat k) (dirent_bytes name inum) ->
  forall j, entries V' a' (Z.max (i_size (inode_at f dp)) (DIRENT_SIZE * Z.of_nat k + DIRENT_SIZE)) !! j =
    if decide (j = k) then Some (Some (short name, inum)) else dir_entries V f dp !! j.
Proof.
  intros DO Hk Hn Hi W j. destruct (dir_size DO) as [Hs He]. unfold dir_entries. set (size := i_size (inode_at f dp)) in *.
  set (size' := Z.max _ _). assert (slots size' = Nat.max (slots size) (S k)) as Es.
  { subst size'. unfold slots in *. change DIRENT_SIZE with 16 in *. Z.div_mod_to_equations. lia. }
  pose proof (dirent_bytes_length name inum) as Hl. destruct (decide (j = k)) as [->|Hne].
  - rewrite entries_lookup by lia. unfold entry_at. f_equal. rewrite <- Hl, (wt_new _ _ _ _ _ _ _ _ _ W). by apply entry_dirent.
  - destruct (decide (j < slots size)%nat) as [Hj|Hj].
    + rewrite !entries_lookup by lia. unfold entry_at. do 2 f_equal. apply fbytes_ext. intros x Hx.
      apply (wt_old _ _ _ _ _ _ _ _ _ W); rewrite ?Hl; change DIRENT_SIZE with 16 in *; lia.
    + rewrite !(proj2 (lookup_ge_None _ _)); [done|..]; unfold entries; rewrite length_fmap, length_seq; lia.
Qed.

Lemma Exists_alter {A} (P : A -> Prop) (g : A -> A) i l : (forall x, P x -> P (g x)) -> Exists P l -> Exists P (alter g i l).
Proof.
  intros Hg. revert i. induction l as [|x l IH]; intros i H; [done|]. destruct i as [|i]; cbn.
  - apply Exists_cons in H as [H|H]; [left; by apply Hg|by right].
  - apply Exists_cons in H as [H|H]; [by left|right; by apply IH].
Qed.

(** How [dirlink] ends: the name was there and no block changes; or the map has
    the new name and the other names are as they were; or the disk is full. *)
Inductive linked (name : list Z) (inum : Z) : Z -> kst -> Prop :=
  | linked_exists f' s' : is_Some (lookup_name (dir_entries V f dp) (short name)) -> txn dev [] V D L f' s' -> linked name inum (-1) s'
  | linked_new V' L' f' s' :
      lookup_name (dir_entries V f dp) (short name) = None ->
      txn dev [] V' D L' f' s' -> Z.of_nat (length L') <= Z.of_nat (length L) + MAXOPBLOCKS -> file_ok (sb f) V' (iaddrs f' dp) ->
      (((length L' < nbuf)%nat) -> dir_ok dev V' L' f' dp) ->
      (forall nm, snd <$> lookup_name (dir_entries V' f' dp) nm =
         if decide (nm = short name) then Some inum else snd <$> lookup_name (dir_entries V f dp) nm) ->
      linked name inum 0 s'
  | linked_full V' L' f' s' :
      lookup_name (dir_entries V f dp) (short name) = None -> full (sb f) V' -> txn dev [] V' D L' f' s' -> linked name inum (-1) s'.

Lemma wp_dirlink name inum (Q : Z -> kst -> Prop) s :
  link_ready dev V D L f dp s -> no_nul name -> 0 < inum < 2 ^ 16 ->
  (forall r s', linked name inum r s' -> Q r s') -> wp (dirlink dp name inum) Q s.
Proof.
  intros [DO X HL BK Hdp Hfit Hib FO Hmax] Hn Hi HQ. unfold dirlink. apply wp_bind, (wp_dirlookup (D := D) DO); [done|done|].
  destruct (lookup_name (dir_entries V f dp) (short name)) as [[k inum0]|] eqn:El.
  - intros j f' s' Hg X'. assert (Litable ∉ locks f') as HLk by (destruct (ig_frame _ _ _ _ _ Hg) as [g ->]; apply (di_lock _ _ _ _ _ DO)).
    apply (wp_iput_ref X' HLk).
    + destruct (ig_ref _ _ _ _ _ Hg) as [[(Hr & _) ->]|(_ & _ & -> & _)]; [|by rewrite andb_false_r].
      by rewrite (proj2 (Z.eqb_neq (_ + 1) 1)) by lia.
    + intros s2 X2. apply wp_ret, HQ. eapply linked_exists; [by rewrite El|exact X2].
  - clear s X. intros s X. apply (wp_find_slot _ _ _ DO X). clear s X. intros k s Hk Hek X.
    destruct (dir_size DO) as [Hs He]. pose proof (dirent_bytes_length name inum) as Hlen. fold (dirent_bytes name inum). apply wp_bind.
    replace DIRENT_SIZE with (Z.of_nat (length (dirent_bytes name inum))) at 2 by (by rewrite Hlen).
    assert (write_ready dev V D L f dp (DIRENT_SIZE * Z.of_nat k) (dirent_bytes name inum) s) as WR.
    { split; try done; rewrite ?Hlen; try apply DO; change (MAXFILE * BSIZE) with 274432 in *; change DIRENT_SIZE with 16 in *; try lia. done. }
    apply (wp_writei _ _ _ _ _ _ _ _ _ _ WR). intros tot V' a' L' s' [Ht Hall W X' HL' _ _]. rewrite Hlen in *. apply wp_ret.
    destruct (Z.eqb_spec tot DIRENT_SIZE) as [->|Hne].
    + rewrite take_ge in W by (rewrite Hlen; done). apply HQ. set (size' := Z.max _ _) in X'.
      pose proof (set_file_inode f dp a' size' Hdp) as Ei. set (f' := set_file _ _ _ _) in X', Ei.
      assert (iaddrs f' dp = a') as Ea by (unfold iaddrs; by rewrite Ei).
      assert (dir_entries V' f' dp = entries V' a' size') as Ee by (unfold dir_entries; by rewrite Ea, Ei).
      eapply (linked_new _ _ V' L' f'); [done|exact X'|done|rewrite Ea; apply W| |].
      * intros Hroom. split; rewrite ?Ea, ?Ei; try apply DO; try done.
        -- subst size'. cbn. pose proof (di_size _ _ _ _ _ DO). change DIRENT_SIZE with 16 in *. Z.div_mod_to_equations. lia.
        -- pose proof (wt_mapped _ _ _ _ _ _ _ _ _ W) as HM. rewrite Hlen in HM. exact HM.
        -- unfold f', set_file. apply Exists_alter; [by intros x|apply DO].
      * intros nm. rewrite Ee. eapply lookup_name_fill; [by eapply entries_written|done|done].
    + destruct Hall as [E|Hfull]; [done|]. apply HQ. by eapply linked_full.
Qed.

(** C8: a directory is a map from names to inodes.  [dirlink] of a name that is
    not in the directory, followed by [dirlookup] of any name, finds for the
    new name the inode it was linked to and for every other name what it was
    before; [dirlink] fails only when the name is there, in which case nothing
    changes on disk, or when the disk is full.  Names are compared up to
    [DIRSIZ] bytes. *)
Theorem dirlink_dirlookup name inum nm s :
  link_ready dev V D L f dp s -> Z.of_nat (length L) + MAXOPBLOCKS < LOGBLOCKS -> no_nul name -> no_nul nm -> 0 < inum < 2 ^ 16 ->
  wp (r ← dirlink dp name inum; if r =? 0 then x ← dirlookup dp nm; mret (Some x) else mret None) (fun o s' =>
    match o with
    | None => is_Some (lookup_name (dir_entries V f dp) (short name)) /\ (exists f', txn dev [] V D L f' s') \/
        exists V' L' f', full (sb f) V' /\ txn dev [] V' D L' f' s'
    | Some x => lookup_name (dir_entries V f dp) (short name) = None /\
        match if decide (short nm = short name) then Some inum else snd <$> lookup_name (dir_entries V f dp) (short nm) with
        | None => x = None
        | Some i => exists j off, x = Some (j, off) /\ is_inode dev i (inode_at s' j)
        end
    end) s.
Proof.
  intros LR HL Hn Hnm Hi. apply wp_bind, (wp_dirlink _ _ _ _ LR); [done|done|]. clear s LR.
  intros r s [f' s' He X|V' L' f' s' He X HL' _ HD Hmap|V' L' f' s' He Hf X].
  - apply wp_ret. left. eauto.
  - change (0 =? 0) with true. cbv iota. rewrite <- Hmap. assert (length L' < nbuf)%nat as Hroom by (change LOGBLOCKS with 30 in *; room).
    apply wp_bind, (wp_dirlookup (D := D) (HD Hroom)); [exact X|done|].
    destruct (lookup_name (dir_entries V' f' dp) (short nm)) as [[k i]|]; cbn [fmap option_fmap option_map snd].
    + intros j f2 s2 Hg X2. apply wp_ret. split; [done|]. eexists j, _. split; [done|]. rewrite (txn_inode X2). apply (ig_inode _ _ _ _ _ Hg).
    + intros s2 X2. by apply wp_ret.
  - apply wp_ret. right. eauto.
Qed.
End dirlink.

(** ** Paths *)

(** The components of a path: the longest pieces without a slash. *)
Fixpoint split_slash (path : list Z) : list (list Z) :=
  match path with
  | [] => [[]]
  | c :: path' =>
      if c =? SLASH then [] :: split_slash path'
      else match split_slash path' with e :: es => (c :: e) :: es | [] => [[c]] end
  end.

Definition components (path : list Z) : list (list Z) := filter (fun e => e <> []) (split_slash path).

Lemma split_slash_cons path : exists e es, split_slash path = e :: es.
Proof.
  induction path as [|c path (e & es & IH)]; cbn [split_slash]; [by eexists _, _|].
  destruct (c =? SLASH); [by eexists _, _|]. rewrite IH. by eexists _, _.
Qed.

Lemma components_skip path : components (skip_slashes path) = components path.
Proof.
  induction path as [|c path IH]; [done|]. cbn [skip_slashes]. destruct (c =? SLASH) eqn:E; [|done].
  rewrite IH. unfold components. cbn [split_slash]. rewrite E. by rewrite filter_cons_False by (by intros []).
Qed.

Lemma take_elem_split path e rest : take_elem path = (e, rest) ->
  split_slash path = e :: match rest with [] => [] | _ :: rest' => split_slash rest' end /\ (rest = [] \/ head rest = Some SLASH) /\
  (length path = length e + length rest)%nat.
Proof.
  revert e rest. induction path as [|c path IH]; intros e rest; cbn [take_elem split_slash]; [by intros [= <- <-]; auto|].
  destruct (Z.eqb_spec c SLASH) as [->|Hc]; [by intros [= <- <-]; auto|].
  destruct (take_elem path) as [e' rest']. intros [= <- <-]. destruct (IH e' rest' eq_refl) as (-> & Hr & Hl). split; [done|]. split; [done|]. cbn. lia.
Qed.

Lemma skip_slashes_le path : (length (skip_slashes path) <= length path)%nat.
Proof. induction path as [|c path IH]; [done|]. cbn [skip_slashes]. destruct (c =? SLASH); cbn [length] in *; lia. Qed.

(** [skipelem] takes the first component of a path off, cut to [DIRSIZ] bytes;
    what is left is shorter, so the loop of [namex] ends. *)
Theorem skipelem_components path :
  match skipelem path with
  | None => components path = []
  | Some (rest, name) => exists e, components path = e :: components rest /\ name = short e /\ (length rest < length path)%nat
  end.
Proof.
  unfold skipelem. rewrite <- (components_skip path). pose proof (skip_slashes_le path) as Hle.
  assert (forall c p, skip_slashes path = c :: p -> c <> SLASH) as Hns.
  { clear Hle. induction path as [|c path IH]; [done|]. cbn [skip_slashes]. destruct (Z.eqb_spec c SLASH); [apply IH|]. by intros c' p [= <- _]. }
  destruct (skip_slashes path) as [|c p] eqn:E; [done|]. specialize (Hns c p eq_refl). destruct (take_elem (c :: p)) as [e rest] eqn:Et.
  pose proof (take_elem_split _ _ _ Et) as (Hs & Hr & Hl). exists e. cbn [length] in Hle, Hl.
  assert (e <> []) as He.
  { cbn [take_elem] in Et. rewrite (proj2 (Z.eqb_neq c SLASH)) in Et by done. destruct (take_elem p). by injection Et as <- _. }
  split; [|split; [done|]].
  - unfold components at 1. rewrite Hs, filter_cons_True by done. f_equal. destruct rest as [|x rest]; [done|].
    destruct Hr as [|Hr]; [done|]. injection Hr as ->. rewrite components_skip. unfold components. cbn [split_slash]. rewrite Z.eqb_refl.
    by rewrite filter_cons_False by (by intros []).
  - pose proof (skip_slashes_le rest). destruct e; [done|]. cbn [length] in Hl. lia.
Qed.

(** ** An empty directory in the small file system of InodeSpec *)

Definition dir_st : kst :=
  fs_st <| inodes := [mkinode 1 1 1 (mksleeplock true 0) true T_DIR 0 0 1 0 (replicate 13 0); inode0] |>.

Lemma dir_txn : txn 1 [] (disk_read fs_disk) fs_disk [] (tx_frame dir_st) dir_st.
Proof.
  pose proof fs_txn as [[C1 C2 C3 C4 C5 C6] X2 X3 X4 X5 X6 X7 X8 X9]. split; try done. split; try done. split; apply C1.
Qed.

Lemma dir_ready : link_ready 1 (disk_read fs_disk) fs_disk [] (tx_frame dir_st) 0 dir_st.
Proof.
  assert (mapped_file (disk_read fs_disk) (replicate 13 0) 0) as HM.
  { split; [done|]. intros k Hk Hlt. change BSIZE with 1024 in Hlt. lia. }
  split; [|apply dir_txn|done|apply fs_bitmap|cbn; lia| |done|apply fs_file|done].
  - split; try done; [cbn; change nbuf with 30%nat; lia|apply not_elem_of_nil|]. right. by left.
  - split; try done. intros k Hk. change (i_addrs _) with (replicate 13 0). rewrite nth_zeros. lia.
Qed.

Lemma dirlink_dirlookup_witness :
  wp (r ← dirlink (KL := fs_layout) 0 (str "notas") 7; if r =? 0 then x ← dirlookup (KL := fs_layout) 0 (str "notas"); mret (Some x) else mret None)
    (fun o s' => match o with
    | None => is_Some (lookup_name (dir_entries (disk_read fs_disk) (tx_frame dir_st) 0) (short (str "notas"))) /\
          (exists f', txn 1 [] (disk_read fs_disk) fs_disk [] f' s') \/
        exists V' L' f', full fs_sb V' /\ txn 1 [] V' fs_disk L' f' s'
    | Some x => lookup_name (dir_entries (disk_read fs_disk) (tx_frame dir_st) 0) (short (str "notas")) = None /\
        match if decide (short (str "notas") = short (str "notas")) then Some 7
              else snd <$> lookup_name (dir_entries (disk_read fs_disk) (tx_frame dir_st) 0) (short (str "notas")) with
        | None => x = None
        | Some i => exists j off, x = Some (j, off) /\ is_inode 1 i (inode_at s' j)
        end
    end) dir_st.
Proof. apply (dirlink_dirlookup (KL := fs_layout) _ _ _ _ dir_ready); [reflexivity| | |lia]; apply (bool_decide_unpack _); vm_compute; exact I. Defined.
