(* ===== verification/Console.v ===== *)
(** * kernel/console.c and kernel/uart.c, and procdump of proc.c

    The three counters of the input ring are 32-bit and wrap; the ring is the
    128-byte list [c_buf].  What the UART's line status register says at an
    interrupt ([LSR_TX_IDLE]) is an argument of [uartintr]. *)

From S2P Require Import Prelude CMem Riscv Kalloc Vm KState Sched Printf Fs.
From Stdlib Require Import Ascii.

Definition getc {A} (f : console -> A) : M kst A := gets (fun s => f (kcons s)).
Definition updc (f : console -> console) : M kst unit := modify (fun s => s <| kcons ::= f |>).

#[export] Hint Unfold getc updc : wp_prim.

(** ** proc.c: procdump *)

Definition state_name (st : procstate) : list Z :=
  str (match st with
       | UNUSED => "unused" | USED => "used" | SLEEPING => "sleep " | RUNNABLE => "runble"
       | RUNNING => "run   " | ZOMBIE => "zombie"
       end).

Definition procdump : M kst unit :=
  printf [10] [];;
  for_procs (fun p =>
    pr ← getp p;
    when (negb (bool_decide (state pr = UNUSED)))
      (printf (str "%d %s %s") [Anum (pid pr); Astr (state_name (state pr)); Astr (pname pr)];;
       printf [10] [])).

(** ** uart.c *)

Definition uartwrite (buf : list Z) : M kst unit :=
  acquire Ltx;;
  loop (fun buf =>
    match buf with
    | [] => mret (inr tt)
    | c :: buf' =>
        loop (fun _ : unit =>
          busy ← getc tx_busy;
          if busy : bool then sleep ch_tx Ltx;; mret (inl tt) else mret (inr tt)) tt;;
        updc (fun x => x <| uart_out ::= fun o => o ++ [c] |> <| tx_busy := true |>);;
        mret (inl buf')
    end) buf;;
  release Ltx.

(** [-1] when no character is waiting. *)
Definition uartgetc : M kst Z :=
  l ← getc uart_in;
  match l with
  | c :: l' => updc (fun x => x <| uart_in := l' |>);; mret c
  | [] => mret (-1)
  end.

(** ** console.c *)

Definition ctrl (c : Z) : Z := c - 64.

(** [cons.buf[k % INPUT_BUF_SIZE]]. *)
Definition cons_at (x : console) (k : Z) : Z := nth (Z.to_nat (k `mod` INPUT_BUF_SIZE)) (c_buf x) 0.

Definition kill_line : M kst unit :=
  loop (fun _ : unit =>
    c ← getc id;
    if negb (c_e c =? c_w c) && negb (cons_at c (u32 (c_e c - 1)) =? 10) then
      updc (fun x => x <| c_e ::= fun e => u32 (e - 1) |>);;
      consputc BACKSPACE;;
      mret (inl tt)
    else mret (inr tt)) tt.

Definition consoleintr (c : Z) : M kst unit :=
  acquire Lcons;;
  (if c =? ctrl (chr "P"%char) then procdump
   else if c =? ctrl (chr "U"%char) then kill_line
   else if (c =? ctrl (chr "H"%char)) || (c =? 0x7f) then
     x ← getc id;
     when (negb (c_e x =? c_w x))
       (updc (fun x => x <| c_e ::= fun e => u32 (e - 1) |>);; consputc BACKSPACE)
   else
     x ← getc id;
     when (negb (c =? 0) && (u32 (c_e x - c_r x) <? INPUT_BUF_SIZE))
       (let c := if c =? 13 then 10 else c in
        consputc c;;
        updc (fun x => x <| c_buf ::= <[Z.to_nat (c_e x `mod` INPUT_BUF_SIZE) := u8 c]> |>
                         <| c_e ::= fun e => u32 (e + 1) |>);;
        x ← getc id;
        when ((c =? 10) || (c =? ctrl (chr "D"%char)) || (u32 (c_e x - c_r x) =? INPUT_BUF_SIZE))
          (updc (fun x => x <| c_w := c_e x |>);;
           wakeup ch_cons)));;
  release Lcons.

Definition uartintr (tx_idle : bool) : M kst unit :=
  acquire Ltx;;
  when tx_idle (updc (fun x => x <| tx_busy := false |>);; wakeup ch_tx);;
  release Ltx;;
  loop (fun _ : unit =>
    c ← uartgetc;
    if c =? -1 then mret (inr tt) else consoleintr c;; mret (inl tt)) tt.

(** [initlock], the UART's registers and [devsw] have no other state here. *)
Section device.
Context {KL : KLayout}.

Definition consolewrite (src : ksrc) (n : Z) : M kst Z :=
  loop (fun '(i, src) =>
    if negb (i <? n) then mret (inr i)
    else
      let nn := if n - i <? 32 then n - i else 32 in
      '(r, buf) ← either_copyin src nn;
      if r =? -1 then mret (inr i)
      else uartwrite buf;; mret (inl (i + nn, src_add src nn))) (0, src).

(** The wait for input: [false] when the process was killed. *)
Definition cons_wait : M kst bool :=
  loop (fun _ : unit =>
    c ← getc id;
    if c_r c =? c_w c then
      p ← myproc;
      k ← killed p;
      if k : bool then release Lcons;; mret (inr false)
      else sleep ch_cons Lcons;; mret (inl tt)
    else mret (inr true)) tt.

(** The result and the bytes copied out. *)
Definition consoleread (dst : kdst) (n : Z) : M kst (Z * list Z) :=
  let target := n in
  acquire Lcons;;
  r ←
    loop (fun '(n, dst, out) =>
      if negb (0 <? n) then mret (inr (Some (n, out)))
      else
        ok ← cons_wait;
        if negb ok then mret (inr None)
        else
          x ← getc id;
          let c := cons_at x (c_r x) in
          updc (fun x => x <| c_r ::= fun r => u32 (r + 1) |>);;
          if c =? ctrl (chr "D"%char) then
            when (n <? target) (updc (fun x => x <| c_r ::= fun r => u32 (r - 1) |>));;
            mret (inr (Some (n, out)))
          else
            st ← either_copyout dst [c];
            if st =? -1 then mret (inr (Some (n, out)))
            else if c =? 10 then mret (inr (Some (n - 1, out ++ [c])))
            else mret (inl (n - 1, dst_add dst 1, out ++ [c])))
      (n, dst, []);
  match r with
  | None => mret (-1, [])
  | Some (n, out) => release Lcons;; mret (target - n, out)
  end.

End device.
