(* ===== verification/File.v ===== *)
(** * kernel/file.c and kernel/pipe.c

    A pipe is the object at the page [kalloc] gave it: the map [pipes] holds it
    under that address from [pipealloc] until [pipeclose] frees the page. *)

From S2P Require Import Prelude CMem Riscv Kalloc Vm KState Sched Printf Bio Log Fs Console.

Definition pipe0 : pipe := mkpipe (replicate (Z.to_nat PIPESIZE) 5) 0 0 true true.

Definition pipe_at (s : kst) (pi : Z) : pipe := default pipe0 (pipes s !! pi).

Definition getpi (pi : Z) : M kst pipe := gets (fun s => pipe_at s pi).

Definition updpi (pi : Z) (f : pipe -> pipe) : M kst unit :=
  modify (fun s => s <| pipes ::= alter f pi |>).

#[export] Hint Unfold getpi updpi : wp_prim.

(** ** The file table *)

Definition filealloc : M kst (option nat) :=
  acquire Lftable;;
  loop (fun f : nat =>
    if (f <? Z.to_nat NFILE)%nat then
      x ← getf f;
      if f_ref x =? 0 then
        updf f (fun x => x <| f_ref := 1 |>);;
        release Lftable;;
        mret (inr (Some f))
      else mret (inl (S f))
    else release Lftable;; mret (inr None)) 0%nat.

Definition filedup (f : nat) : M kst nat :=
  acquire Lftable;;
  x ← getf f;
  if f_ref x <? 1 then panic "filedup"
  else
    updf f (fun x => x <| f_ref ::= fun r => r + 1 |>);;
    release Lftable;;
    mret f.

Section files.
Context {KL : KLayout}.

(** ** Pipes *)

Definition pipeclose (pi : Z) (writable : bool) : M kst unit :=
  acquire (Lpipe pi);;
  (if writable then
     updpi pi (fun x => x <| pi_writeopen := false |>);;
     wakeup (ch_pipe_nread pi)
   else
     updpi pi (fun x => x <| pi_readopen := false |>);;
     wakeup (ch_pipe_nwrite pi));;
  x ← getpi pi;
  if negb (pi_readopen x) && negb (pi_writeopen x) then
    release (Lpipe pi);;
    modify (fun s => s <| pipes ::= delete pi |>);;
    zoom (kfree pi)
  else release (Lpipe pi).

(** [pi->data[k % PIPESIZE]]. *)
Definition pipe_byte (x : pipe) (k : Z) : Z := nth (Z.to_nat (k `mod` PIPESIZE)) (pi_data x) 0.

Definition pipe_push (ch : Z) (x : pipe) : pipe :=
  x <| pi_data ::= <[Z.to_nat (pi_nwrite x `mod` PIPESIZE) := ch]> |>
    <| pi_nwrite ::= fun w => u32 (w + 1) |>.

(** The loop ends with [Some i] after [break] or at [n], with [None] at the
    early return. *)
Definition pipewrite_loop (pr : nat) (pi addr n : Z) : M kst (option Z) :=
  loop (fun i =>
    if negb (i <? n) then mret (inr (Some i))
    else
      x ← getpi pi;
      k ← (if negb (pi_readopen x) then mret true else killed pr);
      if k : bool then release (Lpipe pi);; mret (inr None)
      else
        x ← getpi pi;
        if pi_nwrite x =? u32 (pi_nread x + PIPESIZE) then
          wakeup (ch_pipe_nread pi);;
          sleep (ch_pipe_nwrite pi) (Lpipe pi);;
          mret (inl i)
        else
          '(r, bytes) ← copyin_cur (u64 (addr + i)) 1;
          if r =? -1 then mret (inr (Some i))
          else
            updpi pi (pipe_push (nth 0 bytes 0));;
            mret (inl (i + 1))) 0.

Definition pipewrite (pi addr n : Z) : M kst Z :=
  pr ← myproc;
  acquire (Lpipe pi);;
  r ← pipewrite_loop pr pi addr n;
  match r with
  | None => mret (-1)
  | Some i =>
      wakeup (ch_pipe_nread pi);;
      release (Lpipe pi);;
      mret i
  end.

(** The wait for data: [false] at the early return. *)
Definition piperead_wait (pr : nat) (pi : Z) : M kst bool :=
  loop (fun _ : unit =>
    x ← getpi pi;
    if (pi_nread x =? pi_nwrite x) && pi_writeopen x then
      k ← killed pr;
      if k : bool then release (Lpipe pi);; mret (inr false)
      else sleep (ch_pipe_nread pi) (Lpipe pi);; mret (inl tt)
    else mret (inr true)) tt.

Definition piperead_copy (pi addr n : Z) : M kst Z :=
  loop (fun i =>
    if negb (i <? n) then mret (inr i)
    else
      x ← getpi pi;
      if pi_nread x =? pi_nwrite x then mret (inr i)
      else
        r ← copyout_cur (u64 (addr + i)) [pipe_byte x (pi_nread x)];
        if r =? -1 then mret (inr (if i =? 0 then -1 else i))
        else
          updpi pi (fun x => x <| pi_nread ::= fun r => u32 (r + 1) |>);;
          mret (inl (i + 1))) 0.

Definition piperead (pi addr n : Z) : M kst Z :=
  pr ← myproc;
  acquire (Lpipe pi);;
  ok ← piperead_wait pr pi;
  if negb ok then mret (-1)
  else
    i ← piperead_copy pi addr n;
    wakeup (ch_pipe_nwrite pi);;
    release (Lpipe pi);;
    mret i.

(** ** Closing, creating a pipe, stat, read, write *)

Definition fileclose (f : nat) : M kst unit :=
  acquire Lftable;;
  x ← getf f;
  if f_ref x <? 1 then panic "fileclose"
  else
    updf f (fun x => x <| f_ref ::= fun r => r - 1 |>);;
    ff ← getf f;
    if 0 <? f_ref ff then release Lftable
    else
      updf f (fun x => x <| f_ref := 0 |> <| f_type := FD_NONE |>);;
      release Lftable;;
      match f_type ff with
      | FD_PIPE => pipeclose (f_pipe ff) (f_writable ff)
      | FD_INODE | FD_DEVICE =>
          begin_op;;
          match f_ip ff with Some i => iput i | None => panic "kerneltrap" end;;
          end_op
      | FD_NONE => mret tt
      end.

Definition close_if (f : option nat) : M kst unit :=
  match f with Some f => fileclose f | None => mret tt end.

Definition pipealloc : M kst (option (nat * nat)) :=
  f0 ← filealloc;
  match f0 with
  | None => mret None
  | Some a =>
      f1 ← filealloc;
      match f1 with
      | None => close_if f0;; mret None
      | Some b =>
          pi ← zoom kalloc;
          if pi =? 0 then close_if f0;; close_if f1;; mret None
          else
            modify (fun s => s <| pipes ::= <[pi := pipe0]> |>);;
            updf a (fun x => x <| f_type := FD_PIPE |> <| f_readable := true |>
                               <| f_writable := false |> <| f_pipe := pi |>);;
            updf b (fun x => x <| f_type := FD_PIPE |> <| f_readable := false |>
                               <| f_writable := true |> <| f_pipe := pi |>);;
            mret (Some (a, b))
      end
  end.

(** The inode of an open file; NULL is dereferenced otherwise. *)
Definition file_inode (x : file) : M kst nat :=
  match f_ip x with Some i => mret i | None => panic "kerneltrap" end.

Definition filestat (f : nat) (addr : Z) (pad : list Z) : M kst Z :=
  x ← getf f;
  match f_type x with
  | FD_INODE | FD_DEVICE =>
      i ← file_inode x;
      ilock i;;
      st ← stati i pad;
      iunlock i;;
      r ← copyout_cur addr st;
      mret (if r <? 0 then -1 else 0)
  | _ => mret (-1)
  end.

(** Only the console is registered in [devsw]. *)
Definition has_dev (major : Z) : bool := major =? CONSOLE.

Definition fileread (f : nat) (addr n : Z) : M kst Z :=
  x ← getf f;
  if negb (f_readable x) then mret (-1)
  else
    match f_type x with
    | FD_PIPE => piperead (f_pipe x) addr n
    | FD_DEVICE =>
        if negb (has_dev (f_major x)) then mret (-1)
        else '(r, _) ← consoleread (Duser addr) n; mret r
    | FD_INODE =>
        i ← file_inode x;
        ilock i;;
        x ← getf f;
        '(r, _) ← readi i (Duser addr) (f_off x) (u32 n);
        when (0 <? r) (updf f (fun x => x <| f_off ::= fun o => u32 (o + r) |>));;
        iunlock i;;
        mret r
    | FD_NONE => panic "fileread"
    end.

Definition filewrite_max : Z := ((MAXOPBLOCKS - 1 - 1 - 2) / 2) * BSIZE.

Definition filewrite (f : nat) (addr n : Z) : M kst Z :=
  x ← getf f;
  if negb (f_writable x) then mret (-1)
  else
    match f_type x with
    | FD_PIPE => pipewrite (f_pipe x) addr n
    | FD_DEVICE =>
        if negb (has_dev (f_major x)) then mret (-1)
        else consolewrite (Suser addr) n
    | FD_INODE =>
        ip ← file_inode x;
        i ←
          loop (fun i =>
            if negb (i <? n) then mret (inr i)
            else
              let n1 := if filewrite_max <? n - i then filewrite_max else n - i in
              begin_op;;
              ilock ip;;
              x ← getf f;
              r ← writei ip (Suser (u64 (addr + i))) (f_off x) n1;
              when (0 <? r) (updf f (fun x => x <| f_off ::= fun o => u32 (o + r) |>));;
              iunlock ip;;
              end_op;;
              if negb (r =? n1) then mret (inr i) else mret (inl (i + r))) 0;
        mret (if i =? n then n else -1)
    | FD_NONE => panic "filewrite"
    end.

End files.
