(* ===== verification/PipeSpec.v ===== *)
(** * Pipes are queues

    The ring of a pipe, with its 32-bit counters that wrap, represents a queue
    of bytes; [pipewrite] appends the bytes of the writer's memory to it in
    order, [piperead] delivers its bytes to the reader's memory in order, and
    both do so whatever other processes do while they sleep. *)

From S2P Require Import Prelude CMem Riscv Kalloc Vm PageTable UserMem UserCopy UserSpace VmTheorems KState Sched Conc Fs Console File.

(** ** The ring *)

Record pipe_holds (x : pipe) (q : list Z) : Prop := {
  pq_data : length (pi_data x) = Z.to_nat PIPESIZE;
  pq_nread : is_u32 (pi_nread x);
  pq_nwrite : pi_nwrite x = u32 (pi_nread x + Z.of_nat (length q));
  pq_len : Z.of_nat (length q) <= PIPESIZE;
  pq_at : forall i b, q !! i = Some b ->
    pi_data x !! Z.to_nat ((pi_nread x + Z.of_nat i) `mod` PIPESIZE) = Some b
}.

(** The size of the ring divides 2^32, so the wrap of the counters is not seen
    in the ring. *)
Lemma u32_mod_pipesize a : u32 a `mod` PIPESIZE = a `mod` PIPESIZE.
Proof.
  unfold u32, PIPESIZE. change (2 ^ 32) with (512 * 2 ^ 23). rewrite Z.rem_mul_r by lia.
  rewrite (Z.mul_comm 512), Z.mod_add by lia. apply Z.mod_mod. lia.
Qed.

Lemma pipe_empty x q : pipe_holds x q -> (pi_nread x =? pi_nwrite x) = bool_decide (q = []).
Proof.
  intros P. pose proof (pq_nread _ _ P) as Hr. pose proof (pq_len _ _ P) as Hl. unfold is_u32, PIPESIZE in *.
  rewrite (pq_nwrite _ _ P). unfold u32. case_bool_decide as Hq.
  - subst q. apply Z.eqb_eq. cbn. rewrite Z.add_0_r, Z.mod_small; lia.
  - apply Z.eqb_neq. assert (0 < Z.of_nat (length q)) by (destruct q; cbn in *; [done|lia]). intros He.
    destruct (decide (pi_nread x + Z.of_nat (length q) < 2 ^ 32)).
    + rewrite Z.mod_small in He; lia.
    + rewrite <- (Z.mod_add _ (-1)) in He by lia. rewrite Z.mod_small in He; lia.
Qed.

Lemma pipe_full x q :
  pipe_holds x q -> (pi_nwrite x =? u32 (pi_nread x + PIPESIZE)) = (Z.of_nat (length q) =? PIPESIZE).
Proof.
  intros P. pose proof (pq_nread _ _ P) as Hr. pose proof (pq_len _ _ P) as Hl. unfold is_u32, PIPESIZE in *.
  rewrite (pq_nwrite _ _ P). destruct (Z.eqb_spec (Z.of_nat (length q)) 512) as [->|Hne]; [apply Z.eqb_refl|].
  apply Z.eqb_neq. unfold u32. intros He.
  assert ((pi_nread x + 512) `mod` 2 ^ 32 - (pi_nread x + Z.of_nat (length q)) `mod` 2 ^ 32 = 0) as Hd by lia.
  rewrite !Z.mod_eq in Hd by lia.
  pose proof (Z.div_mod (pi_nread x + 512) (2 ^ 32) ltac:(lia)).
  pose proof (Z.div_mod (pi_nread x + Z.of_nat (length q)) (2 ^ 32) ltac:(lia)).
  set (a := (pi_nread x + 512) / 2 ^ 32) in *. set (b := (pi_nread x + Z.of_nat (length q)) / 2 ^ 32) in *. lia.
Qed.

Lemma mod_pipe_inj r i j :
  0 <= i < PIPESIZE -> 0 <= j < PIPESIZE -> (r + i) `mod` PIPESIZE = (r + j) `mod` PIPESIZE -> i = j.
Proof.
  unfold PIPESIZE. intros Hi Hj He. rewrite !Z.mod_eq in He by lia.
  set (a := (r + i) / 512) in *. set (b := (r + j) / 512) in *. lia.
Qed.

Lemma pipe_push_holds x q c :
  pipe_holds x q -> Z.of_nat (length q) < PIPESIZE -> pipe_holds (pipe_push c x) (q ++ [c]).
Proof.
  intros P Hl. pose proof (pq_nread _ _ P) as Hr. pose proof (pq_data _ _ P) as Hd.
  unfold pipe_push. split; cbn.
  - by rewrite length_insert.
  - done.
  - rewrite (pq_nwrite _ _ P), length_app. cbn. unfold u32. rewrite Zplus_mod_idemp_l. f_equal. lia.
  - rewrite length_app. cbn. lia.
  - rewrite (pq_nwrite _ _ P), u32_mod_pipesize. intros i b Hi.
    destruct (decide (i = length q)) as [->|Hne].
    + rewrite lookup_app_r, Nat.sub_diag in Hi by lia. injection Hi as <-.
      apply list_lookup_insert_eq. rewrite Hd. pose proof (Z.mod_pos_bound (pi_nread x + Z.of_nat (length q)) PIPESIZE ltac:(done)). lia.
    + assert (i < length q)%nat as Hlt.
      { apply lookup_lt_Some in Hi. rewrite length_app in Hi. cbn in Hi. lia. }
      rewrite lookup_app_l in Hi by done. rewrite list_lookup_insert_ne; [by apply (pq_at _ _ P)|].
      intros He. apply Hne. apply Nat2Z.inj. symmetry. apply (mod_pipe_inj (pi_nread x)); [lia..|].
      pose proof (Z.mod_pos_bound (pi_nread x + Z.of_nat (length q)) PIPESIZE ltac:(done)).
      pose proof (Z.mod_pos_bound (pi_nread x + Z.of_nat i) PIPESIZE ltac:(done)). lia.
Qed.

(** The byte [piperead] takes is the oldest one. *)
Lemma pipe_byte_head x b q : pipe_holds x (b :: q) -> pipe_byte x (pi_nread x) = b.
Proof.
  intros P. unfold pipe_byte. pose proof (pq_at _ _ P 0 b eq_refl) as H0.
  rewrite Z.add_0_r in H0. by rewrite (nth_lookup_Some _ _ _ _ H0).
Qed.

Lemma pipe_pop_holds x b q :
  pipe_holds x (b :: q) -> pipe_holds (x <| pi_nread ::= fun r => u32 (r + 1) |>) q.
Proof.
  intros P. split; cbn.
  - apply P.
  - unfold is_u32, u32. apply Z.mod_pos_bound. lia.
  - rewrite (pq_nwrite _ _ P). cbn. unfold u32. rewrite Zplus_mod_idemp_l. f_equal. lia.
  - pose proof (pq_len _ _ P) as Hl. cbn in Hl. lia.
  - intros i c Hi. pose proof (pq_at _ _ P (S i) c Hi) as H.
    rewrite <- Zplus_mod_idemp_l, u32_mod_pipesize, Zplus_mod_idemp_l.
    by replace (pi_nread x + 1 + Z.of_nat i) with (pi_nread x + Z.of_nat (S i)) by lia.
Qed.

Lemma pipe0_holds : pipe_holds pipe0 [].
Proof. split; cbn; [done|unfold is_u32; lia|done|unfold PIPESIZE; lia|done]. Qed.

Lemma pipe_holds_inj x q q' : pipe_holds x q -> pipe_holds x q' -> q = q'.
Proof.
  intros P P'. assert (length q = length q') as Hlen.
  { pose proof (pq_nwrite _ _ P) as H1. rewrite (pq_nwrite _ _ P') in H1. unfold u32 in H1.
    pose proof (pq_len _ _ P). pose proof (pq_len _ _ P'). unfold PIPESIZE in *.
    rewrite !Z.mod_eq in H1 by lia. set (a := _ / _) in H1. set (b := _ / _) in H1. lia. }
  apply list_eq_same_length with (n := length q); [done..|].
  intros i b b' Hi Hb Hb'. apply (pq_at _ _ P) in Hb. apply (pq_at _ _ P') in Hb'. congruence.
Qed.

(** ** A process and its memory *)

Section runs.
Context {KL : KLayout}.

(** Process [p] runs, with page table [pt] and size [psz], and sees [view]. *)
Record runs (p : nat) (pt psz : Z) (view : Z -> option Z) (s : kst) : Prop := {
  ru_cur : cur s = Some p;
  ru_p : (p < length (procs s))%nat;
  ru_procs : (length (procs s) <= Z.to_nat NPROC)%nat;
  ru_pt : pagetable (proc_at s p) = pt;
  ru_sz : sz (proc_at s p) = psz;
  ru_max : psz <= TRAPFRAME;
  ru_mem : exists l T A, uspace (ph s) l pt T A /\ forall va, uview (mem (ph s)) A psz va = view va
}.

Lemma runs_ext p pt psz view s s' :
  runs p pt psz view s -> cur s' = cur s -> ph s' = ph s -> length (procs s') = length (procs s) ->
  pagetable (proc_at s' p) = pagetable (proc_at s p) -> sz (proc_at s' p) = sz (proc_at s p) ->
  runs p pt psz view s'.
Proof.
  intros [H1 H2 H3 H4 H5 H6 H7] Hc Hph Hl Hpt Hsz. split; try congruence; try (rewrite Hl; done).
  by rewrite Hph.
Qed.

Lemma proc_at_alter s i j f :
  proc_at (s <| procs ::= alter f i |>) j = if decide (j = i) then default proc0 (f <$> procs s !! i) else proc_at s j.
Proof.
  unfold proc_at. change (procs (s <| procs ::= alter f i |>)) with (alter f i (procs s)).
  case_decide as Hj; [subst; by rewrite list_lookup_alter_eq|by rewrite list_lookup_alter_ne].
Qed.

Lemma proc_at_woken s c me j :
  proc_at (s <| procs ::= imap (woken c me) |>) j = woken c me j (proc_at s j).
Proof.
  unfold proc_at. change (procs (s <| procs ::= _ |>)) with (imap (woken c me) (procs s)).
  rewrite list_lookup_imap. destruct (procs s !! j); cbn; [done|].
  unfold woken. by rewrite bool_decide_eq_false_2 by (intros (_ & H & _); discriminate H).
Qed.

Lemma runs_wakeup p pt psz view c s :
  runs p pt psz view s -> runs p pt psz view (s <| procs ::= imap (woken c (cur s)) |>).
Proof.
  intros Hr. eapply runs_ext; [done|done|done| | |]; [apply length_imap|rewrite proc_at_woken..];
    unfold woken; by case_bool_decide.
Qed.

Lemma runs_awake p pt psz view lk s : runs p pt psz view s -> runs p pt psz view (awake p lk s).
Proof.
  intros Hr. assert (proc_at (awake p lk s) p = (proc_at s p) <| pchan := None |>) as Hat.
  { change (proc_at (awake p lk s) p) with (proc_at (s <| procs ::= alter (fun x => x <| pchan := None |>) p |>) p).
    rewrite proc_at_alter, decide_True by done. unfold proc_at. by destruct (procs s !! p). }
  eapply runs_ext; [done|done|done| |by rewrite Hat..].
  change (length (alter (fun x => x <| pchan := None |>) p (procs s)) = length (procs s)). apply length_alter.
Qed.

Lemma asleep_at p c s :
  (p < length (procs s))%nat ->
  proc_at (asleep p c s) p = (proc_at s p) <| pchan := Some c |> <| state := SLEEPING |>.
Proof.
  intros Hp. unfold asleep. rewrite proc_at_alter, decide_True by done. unfold proc_at.
  change (procs (s <| locks := _ |>)) with (procs s). by destruct (lookup_lt_is_Some_2 _ _ Hp) as [x ->].
Qed.

Lemma asleep_at_ne p c s j : j <> p -> proc_at (asleep p c s) j = proc_at s j.
Proof. intros Hj. unfold asleep. by rewrite proc_at_alter, decide_False by done. Qed.

(** One byte from the memory of the process. *)
Lemma wp_copyin1 p pt psz view a (Q : Z * list Z -> kst -> Prop) s :
  runs p pt psz view s -> 0 <= a ->
  (forall m b, runs p pt psz view (s <| ph := m |>) -> view a = Some b -> Q (0, [b]) (s <| ph := m |>)) ->
  (forall m dst, runs p pt psz view (s <| ph := m |>) -> Q (-1, dst) (s <| ph := m |>)) ->
  wp (copyin_cur a 1) Q s.
Proof.
  intros Hr Ha Hok Hfail. pose proof Hr as [Hc Hp Hl Hpt Hsz Hmax (l & T & A & Hu & Hv)].
  assert (forall m l', copying (ph s) l pt T A psz (uview (mem (ph s)) A psz) m l' -> runs p pt psz view (s <| ph := m |>)) as Hc'.
  { intros m l' (T' & A' & Hu' & _ & Hv' & _). split; try done.
    exists l', T', A'. split; [done|]. intros va. by rewrite Hv', Hv. }
  unfold copyin_cur. apply wp_bind, (wp_myproc p); [done|]. wp_step. wp_step. wp_step. wp_step.
  unfold vmproc_of. rewrite Hpt, Hsz. apply (wp_copyin _ l pt T A); [done..|unfold is_u64; lia| |].
  - intros m l' dst Hcp _ _ _. by eapply Hfail, Hc'.
  - intros m l' dst Hcp Hlen Hs. destruct dst as [|b [|? ?]]; cbn in Hlen; try lia.
    eapply Hok; [by eapply Hc'|]. rewrite <- Hv. rewrite <- (Z.add_0_r a). by apply (Hs 0%nat).
Qed.

(** One byte to the memory of the process. *)
Lemma wp_copyout1 p pt psz view a b (Q : Z -> kst -> Prop) s :
  runs p pt psz view s -> 0 <= a -> is_byte b ->
  (forall m, runs p pt psz (write_view view a [b]) (s <| ph := m |>) -> Q 0 (s <| ph := m |>)) ->
  (forall m, runs p pt psz view (s <| ph := m |>) -> Q (-1) (s <| ph := m |>)) ->
  wp (copyout_cur a [b]) Q s.
Proof.
  intros Hr Ha Hb Hok Hfail. pose proof Hr as [Hc Hp Hl Hpt Hsz Hmax (l & T & A & Hu & Hv)].
  unfold copyout_cur. apply wp_bind, (wp_myproc p); [done|]. wp_step. wp_step. wp_step. wp_step.
  unfold vmproc_of. rewrite Hpt, Hsz. apply (wp_copyout _ l pt T A); [done|done|done|by apply Forall_singleton|unfold is_u64; cbn; lia| |].
  - intros m l' n (T' & A' & Hu' & _ & Hv' & _) Hn _. cbn in Hn. assert (n = 0)%nat as -> by lia.
    apply Hfail. split; try done. exists l', T', A'. split; [done|]. intros va. rewrite Hv', <- Hv. apply write_view_nil.
  - intros m l' (T' & A' & Hu' & _ & Hv' & _). apply Hok. split; try done. exists l', T', A'.
    split; [done|]. intros va. rewrite Hv'. unfold write_view. by case_decide.
Qed.

End runs.

(** Nobody but [p] sleeps on [c]. *)
Definition none_asleep (p : nat) (c : chan) (s : kst) : Prop :=
  forall j, j <> p -> ~ (state (proc_at s j) = SLEEPING /\ pchan (proc_at s j) = Some c).

Lemma wakeup_none_asleep p c s :
  cur s = Some p -> none_asleep p c (s <| procs ::= imap (woken c (cur s)) |>).
Proof.
  intros Hc j Hj. rewrite proc_at_woken, Hc. unfold woken.
  case_bool_decide as Hw; cbn; [by intros [? _]|]. intros [H1 H2]. apply Hw. split; [congruence|done].
Qed.

Lemma pipe_at_Some s pi x : pipes s !! pi = Some x -> pipe_at s pi = x.
Proof. intros H. unfold pipe_at. by rewrite H. Qed.

(** ** pipewrite *)

Section writer.
Context {KL : KLayout} (p : nat) (pt psz : Z) (view : Z -> option Z) (pi addr : Z) (U : list Z).
Let n : Z := Z.of_nat (length U).

(** The pipe of [s] holds [q] followed by the bytes written since, and what was
    written so far is [acc] followed by them: the first [i] bytes of [U]. *)
Definition wrote (i : Z) (s : kst) (g : list Z * list Z) : Prop :=
  0 <= i <= n /\ exists x bs, pipes s !! pi = Some x /\ pipe_holds x (g.1 ++ bs) /\
    g.2 ++ bs = take (Z.to_nat i) U.

(** At a switch the pipe is full, its lock is free, the writer sleeps on the
    channel the readers wake, and no reader is left asleep. *)
Definition w_switch (s : kst) (g : list Z * list Z) : Prop :=
  (exists i, wrote i s g) /\ (Lpipe pi ∉ locks s) /\
  state (proc_at s p) = SLEEPING /\ pchan (proc_at s p) = Some (ch_pipe_nwrite pi) /\
  none_asleep p (ch_pipe_nread pi) s.

(** Others have run: the pipe holds any queue [g'.1]. *)
Definition w_resume (s : kst) (g : list Z * list Z) (s' : kst) (g' : list Z * list Z) : Prop :=
  runs p pt psz view s' /\ locks s' = [Lproc p] /\
  (exists x', pipes s' !! pi = Some x' /\ pipe_holds x' g'.1) /\
  exists x bs, pipes s !! pi = Some x /\ pipe_holds x (g.1 ++ bs) /\ g'.2 = g.2 ++ bs.

Definition w_done (r : option Z) (s : kst) (g : list Z * list Z) : Prop :=
  runs p pt psz view s /\
  match r with
  | Some i => locks s = [Lpipe pi] /\ wrote i s g
  | None => locks s = [] /\ exists i, wrote i s g
  end.

Context (HU : sees view addr U) (Haddr : 0 <= addr /\ addr + n <= 2 ^ 64).

Lemma wrote_ext i s s' g : wrote i s g -> pipes s' = pipes s -> wrote i s' g.
Proof. intros [Hi (x & bs & Hx & H)] He. split; [done|]. exists x, bs. by rewrite He. Qed.

(** After a resumption the same bytes have been written. *)
Lemma wrote_resume i s g s' g' : wrote i s g -> w_resume s g s' g' -> wrote i s' g'.
Proof.
  intros [Hi (x & bs & Hx & Hh & Ha)] (_ & _ & (x' & Hx' & Hh') & (x1 & bs1 & Hx1 & Hh1 & Hg)).
  assert (x1 = x) as -> by congruence. pose proof (pipe_holds_inj _ _ _ Hh Hh1) as He%app_inv_head.
  split; [done|]. exists x', []. rewrite !app_nil_r. split; [done|]. split; [done|]. by rewrite Hg, <- He.
Qed.

Lemma wrote_push i b s g x q :
  wrote i s g -> i < n -> pipes s !! pi = Some x -> pipe_holds x q -> Z.of_nat (length q) < PIPESIZE ->
  view (addr + i) = Some b -> wrote (i + 1) (s <| pipes ::= alter (pipe_push b) pi |>) g.
Proof.
  intros [Hi (x' & bs & Hx & Hh & Ha)] Hlt Hx' Hq Hlen Hb. assert (x' = x) as -> by congruence.
  pose proof (pipe_holds_inj _ _ _ Hq Hh) as ->. split; [lia|].
  exists (pipe_push b x), (bs ++ [b]). split.
  { change (alter (pipe_push b) pi (pipes s) !! pi = Some (pipe_push b x)). by rewrite lookup_alter_eq, Hx. }
  rewrite !app_assoc. split; [by apply pipe_push_holds|]. rewrite Ha.
  replace (Z.to_nat (i + 1)) with (S (Z.to_nat i)) by lia.
  assert (U !! Z.to_nat i = Some b) as HUi.
  { destruct (lookup_lt_is_Some_2 U (Z.to_nat i)) as [c Hc]; [unfold n in *; lia|]. rewrite Hc.
    apply HU in Hc. rewrite Z2Nat.id in Hc by lia. congruence. }
  by rewrite (take_S_r _ _ _ HUi).
Qed.

(** A round that finds the pipe full. *)
Lemma rg_write_sleep i s g (Q : Z + option Z -> kst -> list Z * list Z -> Prop) :
  runs p pt psz view s -> locks s = [Lpipe pi] -> wrote i s g ->
  (forall s' g', runs p pt psz view s' -> locks s' = [Lpipe pi] -> wrote i s' g' -> Q (inl i) s' g') ->
  rg w_switch w_resume
    (wakeup (ch_pipe_nread pi);; sleep (ch_pipe_nwrite pi) (Lpipe pi);; mret (inl i)) Q s g.
Proof.
  intros Hr HL Hw HQ. pose proof Hr as [Hc Hp Hlen _ _ _ _].
  apply rg_bind, rg_wp, wp_wakeup; [rewrite HL; intros j; rewrite list_elem_of_singleton; done|done|].
  set (s1 := s <| procs ::= imap (woken (ch_pipe_nread pi) (cur s)) |>).
  pose proof (runs_wakeup _ _ _ _ (ch_pipe_nread pi) _ Hr) as Hr1. fold s1 in Hr1.
  assert (none_asleep p (ch_pipe_nread pi) s1) as Hn by (by apply wakeup_none_asleep).
  apply rg_bind, (rg_sleep _ _ p); [done|done|done|apply (ru_p _ _ _ _ _ Hr1)| |].
  - split; [by exists i; apply (wrote_ext i s)|]. split; [cbn; rewrite list_elem_of_singleton; done|].
    rewrite asleep_at by apply Hr1. split; [done|]. split; [done|].
    intros j Hj. rewrite asleep_at_ne by done. by apply Hn.
  - intros s' g' HR. pose proof HR as (Hr' & HL' & _). split; [done|]. apply rg_ret, HQ.
    + by apply runs_awake.
    + done.
    + apply (wrote_ext i s'); [|done]. eapply wrote_resume; [|done]. by apply (wrote_ext i s).
Qed.

Lemma rg_pipewrite_loop s g :
  runs p pt psz view s -> locks s = [Lpipe pi] -> wrote 0 s g ->
  rg w_switch w_resume (pipewrite_loop p pi addr n) w_done s g.
Proof.
  intros Hr HL Hw. unfold pipewrite_loop.
  apply (rg_loop _ _ (fun i s g => runs p pt psz view s /\ locks s = [Lpipe pi] /\ wrote i s g)); [|done].
  clear s g Hr HL Hw. intros i s g (Hr & HL & Hw).
  assert (Lproc p ∉ locks s) as HLp by (rewrite HL, list_elem_of_singleton; done).
  pose proof Hw as [Hi (x & bs & Hx & Hh & Ha)]. pose proof (pipe_at_Some _ _ _ Hx) as Hpx.
  destruct (Z.ltb_spec i n) as [Hlt|Hge]; cbn [negb]; [|by apply rg_ret].
  apply rg_bind, rg_wp, wp_gets. rewrite Hpx.
  apply rg_bind, (rg_mono _ _ _ (fun _ s' g' => s' = s /\ g' = g)).
  { destruct (pi_readopen x); cbn [negb]; [|by apply rg_ret]. by apply rg_wp, wp_killed. }
  intros k s' g' [-> ->]. destruct k.
  { apply rg_bind, rg_wp, wp_release; [rewrite HL; left|]. apply rg_ret.
    split; [by eapply runs_ext|]. split; [|exists i; by apply (wrote_ext i s)].
    change (filter (fun y => y <> Lpipe pi) (locks s) = []). rewrite HL. apply filter_locked, not_elem_of_nil. }
  apply rg_bind, rg_wp, wp_gets. rewrite Hpx, (pipe_full _ _ Hh).
  destruct (Z.eqb_spec (Z.of_nat (length (g.1 ++ bs))) PIPESIZE) as [Hfull|Hroom].
  { apply rg_write_sleep; auto. }
  pose proof (pq_len _ _ Hh) as Hle. apply rg_bind, rg_wp.
  assert (u64 (addr + i) = addr + i) as -> by (unfold u64; apply Z.mod_small; lia).
  apply (wp_copyin1 p pt psz view); [done|lia| |].
  - intros m b Hr' Hb. cbn [Z.eqb]. apply rg_bind, rg_wp, wp_modify, rg_ret. cbn [nth].
    split_and!; [by eapply runs_ext|done|]. apply (wrote_push i b (s <| ph := m |>) g x (g.1 ++ bs)); try done. lia.
  - intros m dst Hr'. apply rg_ret. split; [done|]. split; [done|]. by apply (wrote_ext i s).
Qed.


End writer.

(** ** piperead *)

Section reader.
Context {KL : KLayout} (p : nat) (pt psz : Z) (view : Z -> option Z) (pi addr n : Z).

Definition queue (q : list Z) (s : kst) : Prop :=
  exists x, pipes s !! pi = Some x /\ pipe_holds x q /\ Forall is_byte q.

(** It sleeps only on an empty pipe, with the pipe's lock free, on the channel
    the writers wake. *)
Definition r_switch (s : kst) (q : list Z) : Prop :=
  q = [] /\ queue [] s /\ (Lpipe pi ∉ locks s) /\
  state (proc_at s p) = SLEEPING /\ pchan (proc_at s p) = Some (ch_pipe_nread pi).

Definition r_resume (s : kst) (q : list Z) (s' : kst) (q' : list Z) : Prop :=
  runs p pt psz view s' /\ locks s' = [Lproc p] /\ queue q' s'.

Lemma queue_ext q s s' : queue q s -> pipes s' = pipes s -> queue q s'.
Proof. intros (x & Hx & H) He. exists x. by rewrite He. Qed.

Lemma rg_piperead_wait s q :
  runs p pt psz view s -> locks s = [Lpipe pi] -> queue q s ->
  rg r_switch r_resume (piperead_wait p pi) (fun ok s' q' =>
    runs p pt psz view s' /\ queue q' s' /\ locks s' = (if ok : bool then [Lpipe pi] else [])) s q.
Proof.
  intros Hr HL Hq. unfold piperead_wait.
  apply (rg_loop _ _ (fun _ s q => runs p pt psz view s /\ locks s = [Lpipe pi] /\ queue q s)); [|done].
  clear s q Hr HL Hq. intros [] s q (Hr & HL & Hq). pose proof Hq as (x & Hx & Hh & Hb).
  apply rg_bind, rg_wp, wp_gets. rewrite (pipe_at_Some _ _ _ Hx), (pipe_empty _ _ Hh).
  case_bool_decide as Hempty; cbn [andb]; [|by apply rg_ret]. subst q.
  destruct (pi_writeopen x); [|by apply rg_ret].
  apply rg_bind, rg_wp, wp_killed; [rewrite HL, list_elem_of_singleton; done|].
  destruct (pkilled _).
  - apply rg_bind, rg_wp, wp_release; [rewrite HL; left|]. apply rg_ret.
    split; [by eapply runs_ext|]. split; [done|].
    change (filter (fun y => y <> Lpipe pi) (locks s) = []). rewrite HL. apply filter_locked, not_elem_of_nil.
  - apply rg_bind, (rg_sleep _ _ p); [apply Hr|done|done|apply Hr| |].
    + split; [done|]. split; [by apply (queue_ext [] s)|]. split; [cbn; rewrite list_elem_of_singleton; done|].
      by rewrite asleep_at by apply Hr.
    + intros s' q' (Hr' & HL' & Hq'). split; [done|]. apply rg_ret.
      split; [by apply runs_awake|]. split; [done|]. by apply (queue_ext q' s').
Qed.

(** What the copy loop has done: the first bytes [out] of [q] are in the
    reader's memory, the rest is in the pipe. *)
Definition delivered (q out : list Z) (s : kst) : Prop :=
  exists rest, q = out ++ rest /\ queue rest s /\
  runs p pt psz (write_view view addr out) s.

Lemma write_view_snoc v a out b x :
  write_view (write_view v a out) (a + Z.of_nat (length out)) [b] x = write_view v a (out ++ [b]) x.
Proof. apply write_view_app. Qed.

Lemma runs_view v v' s : runs p pt psz v s -> (forall a, v a = v' a) -> runs p pt psz v' s.
Proof.
  intros [H1 H2 H3 H4 H5 H6 (l & T & A & Hu & Hv)] He. split; try done.
  exists l, T, A. split; [done|]. intros va. by rewrite Hv.
Qed.

Lemma wp_piperead_copy q s (Q : Z -> kst -> Prop) :
  0 <= addr -> addr + n <= 2 ^ 64 -> n <= 2 ^ 31 -> delivered q [] s -> locks s = [Lpipe pi] ->
  (forall s' out r, delivered q out s' -> locks s' = [Lpipe pi] -> Z.of_nat (length out) <= Z.max 0 n ->
     (r = Z.of_nat (length out) \/ r = -1 /\ out = []) -> Q r s') ->
  wp (piperead_copy pi addr n) Q s.
Proof.
  intros Ha Hn Hn31 Hd HL HQ. unfold piperead_copy.
  apply (wp_loop (fun k i s => exists out, delivered q out s /\ i = Z.of_nat (length out) /\ i <= Z.max 0 n /\
    k = Z.max 0 n - i + 1 /\ locks s = [Lpipe pi])) with (n := Z.max 0 n + 1); [|lia|].
  2:{ exists []. split_and!; [done..|cbn; lia|cbn; lia|done]. }
  clear s Hd HL. intros k i s (out & Hd & Hi & Hin & -> & HL). split; [lia|].
  destruct (Z.ltb_spec i n) as [Hlt|Hge]; cbn [negb]; [|apply wp_ret; eapply HQ; eauto; lia].
  pose proof Hd as (rest & -> & Hq & Hr). pose proof Hq as (x & Hx & Hh & Hb).
  wp_step. wp_step. wp_step. rewrite (pipe_at_Some _ _ _ Hx), (pipe_empty _ _ Hh).
  case_bool_decide as Hempty; [apply wp_ret; eapply HQ; eauto; lia|].
  destruct rest as [|b rest]; [done|]. rewrite (pipe_byte_head _ _ _ Hh). wp_step.
  assert (u64 (addr + i) = addr + i) as -> by (unfold u64; apply Z.mod_small; lia).
  apply Forall_cons in Hb as [Hb Hbs].
  apply (wp_copyout1 p pt psz (write_view view addr out)); [done|lia|done| |].
  - intros m Hr'. cbn [Z.eqb]. wp_steps. exists (Z.max 0 n - (i + 1) + 1). split; [lia|].
    exists (out ++ [b]). rewrite length_app. cbn [length]. split_and!; [|lia|lia|lia|done].
    exists rest. rewrite <- app_assoc. split; [done|]. split.
    + exists (x <| pi_nread ::= fun r => u32 (r + 1) |>). split; [|split; [by eapply pipe_pop_holds|done]].
      change (alter (fun y => y <| pi_nread ::= fun r => u32 (r + 1) |>) pi (pipes s) !! pi = Some (x <| pi_nread ::= fun r => u32 (r + 1) |>)).
      by rewrite lookup_alter_eq, Hx.
    + eapply runs_ext; [eapply runs_view; [exact Hr'|]|done..]. intros a. subst i. apply write_view_snoc.
  - intros m Hr'. apply wp_ret. cbn [Z.eqb].
    assert (delivered (out ++ b :: rest) out (s <| ph := m |>)) as Hd' by (exists (b :: rest); done).
    eapply HQ; [exact Hd'|done|lia|].
    destruct (Z.eqb_spec i 0) as [H0|H0]; [right|by left]. split; [done|]. destruct out; [done|cbn in *; lia].
Qed.

(** C33: the reader of a pipe gets its bytes in order.  [piperead] of up to [n]
    bytes, whatever other processes do while it waits: it waits only on an
    empty pipe, with the pipe's lock free; when it returns, the bytes [out] it
    took are the oldest of the queue the pipe held, they are in its memory at
    [addr] in order with everything else there unchanged, exactly they are gone
    from the pipe, it returns their number (or -1 when it took none because it
    was killed or its memory is not writable), and every writer waiting for
    room has been woken. *)
Theorem piperead_fifo s q :
  0 <= addr -> addr + n <= 2 ^ 64 -> n <= 2 ^ 31 ->
  runs p pt psz view s -> locks s = [] -> queue q s ->
  rg r_switch r_resume (piperead pi addr n)
    (fun r s' q' => locks s' = [] /\ exists out, delivered q' out s' /\
       Z.of_nat (length out) <= Z.max 0 n /\
       ((r = Z.of_nat (length out) /\ none_asleep p (ch_pipe_nwrite pi) s') \/ (r = -1 /\ out = []))) s q.
Proof.
  intros Ha Hn Hn31 Hr HL Hq. unfold piperead. apply rg_bind, rg_wp, (wp_myproc p); [apply Hr|].
  apply rg_bind, rg_wp, wp_acquire; [rewrite HL; apply not_elem_of_nil|].
  apply rg_bind. eapply rg_mono; [apply (rg_piperead_wait _ q); [by eapply runs_ext|cbn; by rewrite HL|done]|].
  assert (forall q s, runs p pt psz view s -> queue q s -> delivered q [] s) as Hstart.
  { intros q1 s1 Hr1 Hq1. exists q1. split; [done|]. split; [done|]. eapply runs_view; [done|].
    intros a. by rewrite write_view_nil. }
  intros ok s1 q1 (Hr1 & Hq1 & HL1). destruct ok; cbn [negb].
  2:{ apply rg_ret. split; [done|]. exists []. split; [by apply Hstart|]. split; [cbn; lia|]. by right. }
  apply rg_bind, rg_wp, (wp_piperead_copy q1); [done..|by apply Hstart|done|].
  intros s2 out r Hd HL2 Hlen Hres. pose proof Hd as (rest & Hrest & Hq2 & Hr2).
  apply rg_bind, rg_wp, wp_wakeup; [rewrite HL2; intros j; rewrite list_elem_of_singleton; done|apply Hr2|].
  apply rg_bind, rg_wp, wp_release; [cbn; rewrite HL2; left|]. apply rg_ret. split.
  { change (filter (fun y => y <> Lpipe pi) (locks s2) = []). rewrite HL2. apply filter_locked, not_elem_of_nil. }
  exists out. split.
  { exists rest. split; [done|]. split; [by apply (queue_ext rest s2)|].
    eapply runs_ext; [by apply (runs_wakeup _ _ _ _ (ch_pipe_nwrite pi))|done..]. }
  split; [done|]. destruct Hres as [Hres|Hres]; [left|by right]. split; [done|].
  exact (wakeup_none_asleep p (ch_pipe_nwrite pi) s2 (ru_cur _ _ _ _ _ Hr2)).
Qed.

End reader.

(** ** Instances: a process with two pages of zeros, not yet allocated *)

#[local] Existing Instance small.

Definition small_proc : proc := proc0 <| pagetable := sp 8 |> <| sz := 8192 |> <| state := RUNNING |> <| pid := 1 |>.

Definition small_kst (ps : gmap Z pipe) : kst :=
  mkkst small_state [] (small_proc :: replicate 63 proc0) (Some 0%nat) 2 None false 0 0 0 [] [] (mkdisk ∅ [])
    log0 (mksuperblock 0 0 0 0 0 0 0 0) [] [] ps (mkconsole [] 0 0 0 false [] []) (mkcsrs 0 0 0 0 0 0 0 0) 0 false.

Definition small_view : Z -> option Z := uview (mem small_state) ∅ 8192.

Lemma small_runs ps : runs 0 (sp 8) 8192 small_view (small_kst ps).
Proof.
  split; try done.
  - change (0 < S (length (replicate 63 proc0)))%nat. lia.
  - exists small_free, {[(2, 0) := sp 8]}, ∅. split; [apply small_uspace|done].
Qed.


Lemma piperead_fifo_witness :
  let s := small_kst {[ 12288 := pipe_push 7 pipe0 ]} in
  rg (r_switch 0 12288) (r_resume 0 (sp 8) 8192 small_view 12288) (piperead 12288 100 3)
    (fun r s' q' => locks s' = [] /\ exists out, delivered 0 (sp 8) 8192 small_view 12288 100 q' out s' /\
       Z.of_nat (length out) <= Z.max 0 3 /\
       ((r = Z.of_nat (length out) /\ none_asleep 0 (ch_pipe_nwrite 12288) s') \/ (r = -1 /\ out = []))) s [7].
Proof.
  apply (piperead_fifo 0 (sp 8) 8192 small_view 12288 100 3).
  - lia.
  - lia.
  - lia.
  - apply small_runs.
  - reflexivity.
  - exists (pipe_push 7 pipe0). split; [apply lookup_singleton_eq|]. split.
    + apply (pipe_push_holds pipe0 [] 7 pipe0_holds). reflexivity.
    + apply Forall_singleton. split; [lia|reflexivity].
Defined.
