(* ===== verification/Proc.v ===== *)
(** * kernel/proc.c and kernel/crear_memoria_compartida.c: processes

    Allocation and release of processes, fork, exit, wait, growth of the user
    memory, and the page shared by fork.  The scheduling functions of proc.c
    are in Sched, [procdump] is in Console, [forkret] is in Trap. *)

From S2P Require Import Prelude CMem Riscv Kalloc Vm KState Sched Printf Bio Log Fs Console File.

Definition procinit : M kst unit :=
  for_procs (fun p => updp p (fun x => x <| state := UNUSED |> <| kstack := KSTACK (Z.of_nat p) |>)).

Definition allocpid : M kst Z :=
  acquire Lpid;;
  pid ← gets nextpid;
  modify (fun s => s <| nextpid := pid + 1 |>);;
  release Lpid;;
  mret pid.

Section processes.
Context {KL : KLayout}.

Definition proc_pagetable (p : nat) : M kst Z :=
  pr ← getp p;
  zoom (pagetable ← uvmcreate;
        if pagetable =? 0 then mret 0
        else
          r ← mappages pagetable TRAMPOLINE PGSIZE trampoline (Z.lor PTE_R PTE_X);
          if r <? 0 then uvmfree pagetable 0;; mret 0
          else
            r ← mappages pagetable TRAPFRAME PGSIZE (trapframe pr) (Z.lor PTE_R PTE_W);
            if r <? 0 then uvmunmap pagetable TRAMPOLINE 1 false;; uvmfree pagetable 0;; mret 0
            else mret pagetable).

Definition proc_freepagetable (pagetable sz : Z) : M phys unit :=
  uvmunmap pagetable TRAMPOLINE 1 false;;
  uvmunmap pagetable TRAPFRAME 1 false;;
  uvmfree pagetable sz.

(** The part of [freeproc] that drops the shared page. *)
Definition free_shared (pr : proc) : M kst unit :=
  acquire Lshm;;
  modify (fun s => s <| refcount ::= fun r => r - 1 |>);;
  zoom (uvmunmap (pagetable pr) (shm_va pr) 1 false);;
  rc ← gets refcount;
  when (rc =? 0)
    (pg ← gets shared_page;
     zoom (kfree pg);;
     modify (fun s => s <| shared_page := 0 |>));;
  release Lshm.

(** The pages of the mapzero region that a fault has mapped. *)
Definition free_vregion (pagetable : Z) (v : vregion) : M phys unit :=
  loop (fun va =>
    if negb (va <? u64 (vr_start v + u64 (vr_size v))) then mret (inr tt)
    else
      pte ← walk pagetable va false;
      when (negb (pte =? 0))
        (e ← load64 pte;
         when (has e PTE_V) (uvmunmap pagetable va 1 true));;
      mret (inl (u64 (va + PGSIZE)))) (vr_start v).

Definition freeproc (p : nat) : M kst unit :=
  pr ← getp p;
  when (negb (trapframe pr =? 0)) (zoom (kfree (trapframe pr)));;
  updp p (fun x => x <| trapframe := 0 |>);;
  when (negb (pagetable pr =? 0))
    (when (usar_memoria_compartida pr && negb (shm_va pr =? 0)) (free_shared pr);;
     when (negb (map_ro_va pr =? 0))
       (zoom (uvmunmap (pagetable pr) (map_ro_va pr) 1 true);;
        updp p (fun x => x <| map_ro_va := 0 |>));;
     when (vr_active (vr pr))
       (zoom (free_vregion (pagetable pr) (vr pr));;
        updp p (fun x => x <| vr ::= fun v => v <| vr_active := false |> |>));;
     zoom (proc_freepagetable (pagetable pr) (sz pr)));;
  updp p (fun x => x <| pagetable := 0 |> <| sz := 0 |> <| pid := 0 |> <| parent := None |>
                     <| pname := [] |> <| pchan := None |> <| pkilled := false |> <| xstate := 0 |>
                     <| usar_memoria_compartida := false |> <| shm_va := 0 |> <| trace_mask := 0 |>
                     <| pagefault_count := 0 |> <| vr := mkvregion 0 0 false |>
                     <| state := UNUSED |>).

Definition allocproc : M kst (option nat) :=
  found ←
    loop (fun p : nat =>
      if (p <? Z.to_nat NPROC)%nat then
        acquire (Lproc p);;
        pr ← getp p;
        if decide (state pr = UNUSED) then mret (inr (Some p))
        else release (Lproc p);; mret (inl (S p))
      else mret (inr None)) 0%nat;
  match found with
  | None => mret None
  | Some p =>
      newpid ← allocpid;
      updp p (fun x => x <| pid := newpid |> <| state := USED |>);;
      tf ← zoom kalloc;
      updp p (fun x => x <| trapframe := tf |>);;
      if tf =? 0 then freeproc p;; release (Lproc p);; mret None
      else
        pt ← proc_pagetable p;
        updp p (fun x => x <| pagetable := pt |>);;
        if pt =? 0 then freeproc p;; release (Lproc p);; mret None
        else
          updp p (fun x => x <| context_ra := entry_forkret |>
                             <| context_sp := u64 (kstack x + PGSIZE) |>
                             <| pagefault_count := 0 |> <| vr := mkvregion 0 0 false |>);;
          mret (Some p)
  end.

Definition userinit : M kst unit :=
  np ← allocproc;
  modify (fun s => s <| initproc := np |>);;
  match np with
  | None => panic "kerneltrap"
  | Some p =>
      c ← namei (str "/");
      updp p (fun x => x <| cwd := c |> <| state := RUNNABLE |>);;
      release (Lproc p)
  end.

Definition growproc (n : Z) : M kst Z :=
  p ← myproc;
  pr ← getp p;
  if 0 <? n then
    if TRAPFRAME <? u64 (sz pr + n) then mret (-1)
    else
      sz' ← zoom (uvmalloc (pagetable pr) (sz pr) (u64 (sz pr + n)) PTE_W);
      if sz' =? 0 then mret (-1)
      else updp p (fun x => x <| sz := sz' |>);; mret 0
  else if n <? 0 then
    sz' ← zoom (uvmdealloc (pagetable pr) (sz pr) (u64 (sz pr + n)));
    updp p (fun x => x <| sz := sz' |>);;
    mret 0
  else mret 0.

(** ** crear_memoria_compartida.c *)

Definition crear_memoria_compartida (p np : nat) : M kst Z :=
  acquire Lshm;;
  pg ← gets shared_page;
  ok ←
    (if pg =? 0 then
       pg ← zoom kalloc;
       modify (fun s => s <| shared_page := pg |>);;
       (if pg =? 0 then mret false
        else
          zoom (fill pg 0 PGSIZE);;
          modify (fun s => s <| refcount := 2 |>);;
          mret true)
     else modify (fun s => s <| refcount ::= fun r => r + 1 |>);; mret true);
  release Lshm;;
  if negb ok then mret (-1)
  else
    pa ← gets shared_page;
    x ← getp p;
    y ← getp np;
    let va := PGROUNDUP (sz x) in
    let perm := Z.lor (Z.lor PTE_W PTE_R) PTE_U in
    r ← zoom (mappages (pagetable x) va PGSIZE pa perm);
    if r <? 0 then mret (-1)
    else
      r ← zoom (mappages (pagetable y) va PGSIZE pa perm);
      if r <? 0 then mret (-1)
      else
        updp p (fun x => x <| sz := u64 (va + PGSIZE) |>);;
        updp np (fun x => x <| sz := u64 (va + PGSIZE) |>);;
        updp p (fun x => x <| shm_va := va |>);;
        updp np (fun x => x <| shm_va := va |>);;
        updp p (fun x => x <| usar_memoria_compartida := true |>);;
        updp np (fun x => x <| usar_memoria_compartida := true |>);;
        mret 0.

(** ** fork, exit, wait *)

(** [np->ofile[i] = filedup(p->ofile[i])] for the open descriptors. *)
Definition dup_ofiles (p np : nat) : M kst unit :=
  for_range (Z.to_nat NOFILE) 0 (fun i =>
    x ← getp p;
    match ofile x !! Z.to_nat i with
    | Some (Some f) =>
        f ← filedup f;
        updp np (fun y => y <| ofile ::= <[Z.to_nat i := Some f]> |>)
    | _ => mret tt
    end).

(** [safestrcpy(np->name, p->name, sizeof(p->name))]. *)
Definition name_copy (n : list Z) : list Z := take 15 n.

Definition kfork : M kst Z :=
  p ← myproc;
  np ← allocproc;
  match np with
  | None => mret (-1)
  | Some np =>
      x ← getp p;
      y ← getp np;
      r ← zoom (uvmcopy (pagetable x) (pagetable y) (sz x));
      if r <? 0 then freeproc np;; release (Lproc np);; mret (-1)
      else
        updp np (fun y => y <| sz := sz x |>);;
        zoom (move (trapframe y) (trapframe x) TF_SIZE;;
              store64 (trapframe y + TF_a 0) 0);;
        dup_ofiles p np;;
        c ← (match cwd x with Some c => idup c | None => panic "kerneltrap" end);
        updp np (fun y => y <| cwd := Some c |> <| pname := name_copy (pname x) |>
                            <| trace_mask := trace_mask x |>);;
        y ← getp np;
        release (Lproc np);;
        acquire Lwait;;
        updp np (fun y => y <| parent := Some p |>);;
        release Lwait;;
        acquire (Lproc np);;
        x ← getp p;
        when (usar_memoria_compartida x)
          (crear_memoria_compartida p np;;
           updp np (fun y => y <| usar_memoria_compartida := true |>));;
        updp np (fun y => y <| state := RUNNABLE |>);;
        release (Lproc np);;
        mret (pid y)
  end.

Definition reparent (p : nat) : M kst unit :=
  for_procs (fun pp =>
    x ← getp pp;
    when (bool_decide (parent x = Some p))
      (ip ← gets initproc;
       updp pp (fun x => x <| parent := ip |>);;
       match ip with Some i => wakeup (ch_proc i) | None => mret tt end)).

Definition close_ofiles (p : nat) : M kst unit :=
  for_range (Z.to_nat NOFILE) 0 (fun fd =>
    x ← getp p;
    match ofile x !! Z.to_nat fd with
    | Some (Some f) =>
        fileclose f;;
        updp p (fun x => x <| ofile ::= <[Z.to_nat fd := None]> |>)
    | _ => mret tt
    end).

(** [wakeup(NULL)] wakes nobody: [p->chan] is a valid address in a sleeper. *)
Definition kexit (status : Z) : M kst unit :=
  p ← myproc;
  ip ← gets initproc;
  if decide (ip = Some p) then panic "init exiting"
  else
    close_ofiles p;;
    begin_op;;
    x ← getp p;
    match cwd x with Some c => iput c | None => panic "kerneltrap" end;;
    end_op;;
    updp p (fun x => x <| cwd := None |>);;
    acquire Lwait;;
    reparent p;;
    x ← getp p;
    match parent x with Some pp => wakeup (ch_proc pp) | None => mret tt end;;
    acquire (Lproc p);;
    updp p (fun x => x <| xstate := status |> <| state := ZOMBIE |>);;
    release Lwait;;
    sched;;
    panic "zombie exit".

(** One scan of the table: [inr r] when the call returns, [inl havekids]
    otherwise. *)
Definition kwait_scan (p : nat) (addr : Z) : M kst (bool + Z) :=
  loop (fun '(pp, havekids) =>
    if (pp <? Z.to_nat NPROC)%nat then
      x ← getp pp;
      if decide (parent x = Some p) then
        acquire (Lproc pp);;
        x ← getp pp;
        if decide (state x = ZOMBIE) then
          r ← (if negb (addr =? 0) then copyout_cur addr (le_encode 4 (xstate x)) else mret 0);
          if r <? 0 then release (Lproc pp);; release Lwait;; mret (inr (inr (-1)))
          else
            freeproc pp;;
            release (Lproc pp);;
            release Lwait;;
            mret (inr (inr (pid x)))
        else release (Lproc pp);; mret (inl (S pp, true))
      else mret (inl (S pp, havekids))
    else mret (inr (inl havekids))) (0%nat, false).

Definition kwait (addr : Z) : M kst Z :=
  p ← myproc;
  acquire Lwait;;
  loop (fun _ : unit =>
    r ← kwait_scan p addr;
    match r with
    | inr v => mret (inr v)
    | inl havekids =>
        k ← (if negb havekids then mret true else killed p);
        if k : bool then release Lwait;; mret (inr (-1))
        else sleep (ch_proc p) Lwait;; mret (inl tt)
    end) tt.

End processes.
