(* ===== verification/Exec.v ===== *)
(** * kernel/exec.c and kernel/elf.h: loading a program

    [argv] is a list of NUL-terminated strings without their NUL. *)

From S2P Require Import Prelude CMem Riscv Kalloc Vm KState Sched Printf Bio Log Fs Console File Proc.

(** ** elf.h *)

Definition ELF_MAGIC : Z := 0x464C457F.
Definition ELFHDR_SIZE : Z := 64.
Definition elf_magic (h : list Z) : Z := rd 4 h 0.
Definition elf_entry (h : list Z) : Z := rd 8 h 24.
Definition elf_phoff (h : list Z) : Z := rd 8 h 32.
Definition elf_phnum (h : list Z) : Z := rd 2 h 56.

Definition PROGHDR_SIZE : Z := 56.
Definition ELF_PROG_LOAD : Z := 1.
Definition ph_type (h : list Z) : Z := rd 4 h 0.
Definition ph_flags (h : list Z) : Z := rd 4 h 4.
Definition ph_off (h : list Z) : Z := rd 8 h 8.
Definition ph_vaddr (h : list Z) : Z := rd 8 h 16.
Definition ph_filesz (h : list Z) : Z := rd 8 h 32.
Definition ph_memsz (h : list Z) : Z := rd 8 h 40.

(** ** exec.c *)

Definition flags2perm (flags : Z) : Z :=
  let perm := if has flags 0x1 then PTE_X else 0 in
  if has flags 0x2 then Z.lor perm PTE_W else perm.

Section exec.
Context {KL : KLayout}.

Definition loadseg (pagetable va : Z) (ip : nat) (offset sz : Z) : M kst Z :=
  loop (fun i =>
    if negb (i <? sz) then mret (inr 0)
    else
      pa ← zoom (walkaddr pagetable (u64 (va + i)));
      if pa =? 0 then panic "loadseg: address should exist"
      else
        let n := if sz - i <? PGSIZE then sz - i else PGSIZE in
        '(r, _) ← readi ip (Dphys pa) (u32 (offset + i)) n;
        if negb (r =? n) then mret (inr (-1)) else mret (inl (u32 (i + PGSIZE)))) 0.

(** The program headers: whether all of them were loaded, and [sz]. *)
Definition load_segments (pagetable : Z) (ip : nat) (elf : list Z) : M kst (bool * Z) :=
  loop (fun '(i, off, sz) =>
    if negb (i <? elf_phnum elf) then mret (inr (true, sz))
    else
      '(r, h) ← readi ip Dlocal (u32 off) PROGHDR_SIZE;
      if negb (r =? PROGHDR_SIZE) then mret (inr (false, sz))
      else
        let next sz := mret (inl (i + 1, i32 (off + PROGHDR_SIZE), sz)) in
        if negb (ph_type h =? ELF_PROG_LOAD) then next sz
        else if ph_memsz h <? ph_filesz h then mret (inr (false, sz))
        else if u64 (ph_vaddr h + ph_memsz h) <? ph_vaddr h then mret (inr (false, sz))
        else if negb (ph_vaddr h `mod` PGSIZE =? 0) then mret (inr (false, sz))
        else
          sz1 ← zoom (uvmalloc pagetable sz (u64 (ph_vaddr h + ph_memsz h)) (flags2perm (ph_flags h)));
          if sz1 =? 0 then mret (inr (false, sz))
          else
            r ← loadseg pagetable (ph_vaddr h) ip (u32 (ph_off h)) (u32 (ph_filesz h));
            if r <? 0 then mret (inr (false, sz1)) else next sz1)
    (0, i32 (elf_phoff elf), 0).

(** The argument strings: [None] for [goto bad], or [sp] and [ustack]. *)
Definition push_args (pr : proc) (pagetable stackbase sp : Z) (argv : list (list Z))
  : M kst (option (Z * list Z)) :=
  loop (fun '(argv, sp, ustack) =>
    match argv with
    | [] => mret (inr (Some (sp, ustack)))
    | a :: argv' =>
        if MAXARG <=? Z.of_nat (length ustack) then mret (inr None)
        else
          let sp := u64 (sp - (Z.of_nat (length a) + 1)) in
          let sp := sp - sp `mod` 16 in
          if sp <? stackbase then mret (inr None)
          else
            r ← zoom (copyout (vmproc_of pr) pagetable sp (a ++ [0]));
            if r <? 0 then mret (inr None)
            else mret (inl (argv', sp, ustack ++ [sp]))
    end) (argv, sp, []).

Definition exec_bad (pagetable sz : Z) (ip : option nat) : M kst Z :=
  when (negb (pagetable =? 0)) (zoom (proc_freepagetable pagetable sz));;
  match ip with Some i => iunlockput i;; end_op | None => mret tt end;;
  mret (-1).

Fixpoint last_elem (path last : list Z) : list Z :=
  match path with
  | [] => last
  | c :: path' => last_elem path' (if c =? SLASH then path' else last)
  end.

(** The new image is complete: the process takes it and drops the old one. *)
Definition exec_commit (p : nat) (path : list Z) (elf : list Z) (pagetable_new sz_new sp oldsz : Z)
  : M kst unit :=
  pr ← getp p;
  zoom (store64 (trapframe pr + TF_a 1) sp);;
  updp p (fun x => x <| pname := name_copy (last_elem path path) |>
                     <| pagetable := pagetable_new |> <| sz := sz_new |>);;
  zoom (store64 (trapframe pr + TF_epc) (elf_entry elf);;
        store64 (trapframe pr + TF_sp) sp;;
        proc_freepagetable (pagetable pr) oldsz).

(** The stack, the arguments and the commit. *)
Definition exec_stack (p : nat) (path : list Z) (argv : list (list Z)) (elf : list Z) (pt sz0 : Z)
  : M kst Z :=
  pr ← getp p;
  let oldsz := KState.sz pr in
  let sz0 := PGROUNDUP sz0 in
  sz1 ← zoom (uvmalloc pt sz0 (u64 (sz0 + (USERSTACK + 1) * PGSIZE)) PTE_W);
  if sz1 =? 0 then exec_bad pt sz0 None
  else
    zoom (uvmclear pt (u64 (sz1 - (USERSTACK + 1) * PGSIZE)));;
    let stackbase := u64 (sz1 - USERSTACK * PGSIZE) in
    args ← push_args pr pt stackbase sz1 argv;
    match args with
    | None => exec_bad pt sz1 None
    | Some (sp, ustack) =>
        let argc := Z.of_nat (length ustack) in
        let sp := u64 (sp - (argc + 1) * 8) in
        let sp := sp - sp `mod` 16 in
        if sp <? stackbase then exec_bad pt sz1 None
        else
          r ← zoom (copyout (vmproc_of pr) pt sp (concat (le_encode 8 <$> ustack ++ [0])));
          if r <? 0 then exec_bad pt sz1 None
          else exec_commit p path elf pt sz1 sp oldsz;; mret (i32 argc)
    end.

Definition kexec (path : list Z) (argv : list (list Z)) : M kst Z :=
  p ← myproc;
  begin_op;;
  ip ← namei path;
  match ip with
  | None => end_op;; mret (-1)
  | Some ip =>
      ilock ip;;
      '(r, elf) ← readi ip Dlocal 0 ELFHDR_SIZE;
      if negb (r =? ELFHDR_SIZE) then exec_bad 0 0 (Some ip)
      else if negb (elf_magic elf =? ELF_MAGIC) then exec_bad 0 0 (Some ip)
      else
        pt ← proc_pagetable p;
        if pt =? 0 then exec_bad 0 0 (Some ip)
        else
          '(ok, sz) ← load_segments pt ip elf;
          if negb ok then exec_bad pt sz (Some ip)
          else
            iunlockput ip;;
            end_op;;
            exec_stack p path argv elf pt sz
  end.

End exec.
