(* ===== verification/Sysproc.v ===== *)
(** * The argument functions of kernel/syscall.c, kernel/sysproc.c, and vmprint

    A system call reads its arguments from the trapframe of the current
    process, which is a page of physical memory.  Results are 64-bit. *)

From S2P Require Import Prelude CMem Riscv Kalloc Vm KState Sched Printf Bio Log Fs Console File Proc.

(** ** The trapframe of the current process *)

Definition tf_get (off : Z) : M kst Z :=
  p ← myproc; pr ← getp p; zoom (load64 (trapframe pr + off)).

Definition tf_set (off v : Z) : M kst unit :=
  p ← myproc; pr ← getp p; zoom (store64 (trapframe pr + off) (u64 v)).

(** ** syscall.c: arguments *)

Section args.
Context {KL : KLayout}.

(** The status and the word. *)
Definition fetchaddr (addr : Z) : M kst (Z * Z) :=
  p ← myproc;
  pr ← getp p;
  if (sz pr <=? addr) || (sz pr <? u64 (addr + 8)) then mret (-1, 0)
  else
    '(r, bytes) ← copyin_cur addr 8;
    if negb (r =? 0) then mret (-1, 0) else mret (0, le_decode bytes).

(** The bytes of a buffer up to its first NUL. *)
Fixpoint until_nul (bs : list Z) : list Z :=
  match bs with
  | [] => []
  | b :: bs' => if b =? 0 then [] else b :: until_nul bs'
  end.

(** The result and the bytes written to [buf]. *)
Definition fetchstr (addr max : Z) : M kst (Z * list Z) :=
  '(r, bytes) ← copyinstr_cur addr max;
  if r <? 0 then mret (-1, bytes) else mret (Z.of_nat (length (until_nul bytes)), bytes).

Definition argraw (n : Z) : M kst Z :=
  if (0 <=? n) && (n <=? 5) then tf_get (TF_a n) else panic "argraw".

Definition argint (n : Z) : M kst Z := v ← argraw n; mret (i32 v).

Definition argaddr (n : Z) : M kst Z := argraw n.

(** The string, or [None] for -1. *)
Definition argstr (n max : Z) : M kst (option (list Z)) :=
  addr ← argaddr n;
  '(r, bytes) ← fetchstr addr max;
  mret (if r <? 0 then None else Some (until_nul bytes)).

(** ** vm.c: vmprint *)

Definition flag (e bit : Z) (c : string) : arg := Astr (if has e bit then str c else str "-").

Definition vmprint_line (prefix : string) (i e : Z) : M kst unit :=
  printf (str prefix ++ str "%d: pte 0x%lx pa 0x%lx [%s%s%s%s]" ++ [10])
    [Anum i; Anum e; Anum (PTE2PA e); flag e PTE_R "R"; flag e PTE_W "W"; flag e PTE_X "X";
     flag e PTE_U "U"].

Definition pte_at (pagetable i : Z) : M kst Z := zoom (load64 (pagetable + 8 * i)).

(** The loop over one table; [sub] is applied to the table a directory entry
    points to. *)
Definition vmprint_table (prefix : string) (pagetable : Z) (sub : Z -> M kst unit) : M kst unit :=
  for_range 512 0 (fun i =>
    e ← pte_at pagetable i;
    when (has e PTE_V)
      (vmprint_line prefix i e;;
       when (Z.land e (Z.lor (Z.lor PTE_R PTE_W) PTE_X) =? 0) (sub (PTE2PA e)))).

Definition vmprint (pagetable : Z) : M kst unit :=
  vmprint_table ".." pagetable (fun level1 =>
    vmprint_table ".. .." level1 (fun level0 =>
      for_range 512 0 (fun k =>
        e ← pte_at level0 k;
        when (has e PTE_V) (vmprint_line ".. .. .." k e)))).

(** ** sysproc.c *)

Definition sys_exit : M kst Z := n ← argint 0; kexit n;; mret 0.

Definition sys_getpid : M kst Z := p ← myproc; pr ← getp p; mret (pid pr).

Definition sys_fork : M kst Z := kfork.

Definition sys_wait : M kst Z := p ← argaddr 0; kwait p.

Definition sys_sbrk : M kst Z :=
  n ← argint 0;
  p ← myproc;
  pr ← getp p;
  let addr := sz pr in
  if 0 <? n then
    if (u64 (addr + n) <? addr) || (TRAPFRAME <? u64 (addr + n)) then mret (-1)
    else updp p (fun x => x <| sz := u64 (addr + n) |>);; mret addr
  else if n <? 0 then
    r ← growproc n;
    if r <? 0 then mret (-1) else mret addr
  else mret addr.

Definition sys_pause : M kst Z :=
  n ← argint 0;
  let n := if n <? 0 then 0 else n in
  acquire Lticks;;
  ticks0 ← gets ticks;
  r ←
    loop (fun _ : unit =>
      t ← gets ticks;
      if u32 (t - ticks0) <? n then
        p ← myproc;
        k ← killed p;
        if k : bool then release Lticks;; mret (inr (-1))
        else sleep ch_ticks Lticks;; mret (inl tt)
      else mret (inr 0)) tt;
  if r =? 0 then release Lticks;; mret 0 else mret r.

Definition sys_kill : M kst Z := pid ← argint 0; kkill pid.

Definition sys_uptime : M kst Z :=
  acquire Lticks;; t ← gets ticks; release Lticks;; mret t.

(** [struct rtcdate]: year, month, day, hour, minute, second. *)
Definition sys_date : M kst Z :=
  acquire Lticks;;
  t ← gets ticks;
  release Lticks;;
  let seconds := i32 (t / 10) in
  let r := concat (le_encode 4 <$> [2026; 2; 20; 2; 38; Z.rem seconds 60]) in
  addr ← argaddr 0;
  st ← copyout_cur addr r;
  mret (if st <? 0 then -1 else 0).

(** The store to the test device powers the machine off. *)
Definition sys_halt : M kst Z := modify (fun s => s <| poweroff := true |>);; mret 0.

Definition sys_setshm : M kst Z :=
  p ← myproc; updp p (fun x => x <| usar_memoria_compartida := true |>);; mret 0.

Definition sys_getshm : M kst Z :=
  p ← myproc; pr ← getp p; mret (if usar_memoria_compartida pr then shm_va pr else 0).

Definition sys_hello : M kst Z :=
  printf (str "hello: greetings from the xv6 kernel!" ++ [10]) [];; mret 42.

Definition sys_trace : M kst Z :=
  mask ← argint 0;
  p ← myproc;
  updp p (fun x => x <| trace_mask := mask |>);;
  mret 0.

Definition sys_dumpvm : M kst Z :=
  p ← myproc;
  pr ← getp p;
  printf (str "=== Page table for pid %d ===" ++ [10]) [Anum (pid pr)];;
  vmprint (pagetable pr);;
  mret 0.

Definition map_ro_msg : list Z := str "Hola desde el kernel xv6 - pagina solo lectura" ++ [0].

Definition sys_map_ro : M kst Z :=
  va ← argaddr 0;
  p ← myproc;
  pr ← getp p;
  let va := PGROUNDDOWN va in
  mapped ← zoom (ismapped (pagetable pr) va);
  if mapped : bool then mret (-1)
  else
    mem ← zoom kalloc;
    if mem =? 0 then mret (-1)
    else
      zoom (fill mem 0 PGSIZE;; store_bytes mem map_ro_msg);;
      r ← zoom (mappages (pagetable pr) va PGSIZE mem (Z.lor PTE_R PTE_U));
      if negb (r =? 0) then zoom (kfree mem);; mret (-1)
      else updp p (fun x => x <| map_ro_va := va |>);; mret 0.

Definition sys_mapzero : M kst Z :=
  size ← argint 0;
  if size <=? 0 then mret (-1)
  else
    p ← myproc;
    let aligned := PGROUNDUP size in
    updp p (fun x => x <| vr := mkvregion (sz x) (i32 aligned) true |>
                       <| sz := u64 (sz x + aligned) |>);;
    pr ← getp p;
    mret (vr_start (vr pr)).

End args.
