(* ===== verification/Sysfile.v ===== *)
(** * kernel/sysfile.c: the file system calls *)

From S2P Require Import Prelude CMem Riscv Kalloc Vm KState Sched Printf Bio Log Fs Console File Proc Exec Sysproc.


(** The descriptor and the file. *)
Definition argfd (n : Z) : M kst (option (Z * nat)) :=
  fd ← argint n;
  if (fd <? 0) || (NOFILE <=? fd) then mret None
  else
    p ← myproc;
    pr ← getp p;
    mret (match ofile pr !! Z.to_nat fd with Some (Some f) => Some (fd, f) | _ => None end).

Definition set_ofile (p : nat) (fd : Z) (f : option nat) : M kst unit :=
  updp p (fun x => x <| ofile ::= <[Z.to_nat fd := f]> |>).

(** The first free descriptor. *)
Fixpoint free_fd (l : list (option nat)) (fd : Z) : Z :=
  match l with
  | [] => -1
  | None :: _ => fd
  | Some _ :: l' => free_fd l' (fd + 1)
  end.

Definition fdalloc (f : nat) : M kst Z :=
  p ← myproc;
  pr ← getp p;
  let fd := free_fd (take (Z.to_nat NOFILE) (ofile pr)) 0 in
  when (0 <=? fd) (set_ofile p fd (Some f));;
  mret fd.

Section calls.
Context {KL : KLayout}.

Definition sys_dup : M kst Z :=
  a ← argfd 0;
  match a with
  | None => mret (-1)
  | Some (_, f) =>
      fd ← fdalloc f;
      if fd <? 0 then mret (-1) else filedup f;; mret fd
  end.

Definition sys_read : M kst Z :=
  p ← argaddr 1;
  n ← argint 2;
  a ← argfd 0;
  match a with None => mret (-1) | Some (_, f) => fileread f p n end.

Definition sys_write : M kst Z :=
  p ← argaddr 1;
  n ← argint 2;
  a ← argfd 0;
  match a with None => mret (-1) | Some (_, f) => filewrite f p n end.

Definition sys_close : M kst Z :=
  a ← argfd 0;
  match a with
  | None => mret (-1)
  | Some (fd, f) => p ← myproc; set_ofile p fd None;; fileclose f;; mret 0
  end.

Definition sys_fstat (pad : list Z) : M kst Z :=
  st ← argaddr 1;
  a ← argfd 0;
  match a with None => mret (-1) | Some (_, f) => filestat f st pad end.

(** The label [bad] of [sys_link]. *)
Definition link_bad (ip : nat) : M kst Z :=
  ilock ip;;
  updi ip (fun x => x <| i_nlink ::= fun n => i16 (n - 1) |>);;
  iupdate ip;;
  iunlockput ip;;
  end_op;;
  mret (-1).

Definition sys_link : M kst Z :=
  old ← argstr 0 MAXPATH;
  match old with
  | None => mret (-1)
  | Some old =>
      new ← argstr 1 MAXPATH;
      match new with
      | None => mret (-1)
      | Some new =>
          begin_op;;
          ip ← namei old;
          match ip with
          | None => end_op;; mret (-1)
          | Some ip =>
              ilock ip;;
              x ← geti ip;
              if i_type x =? T_DIR then iunlockput ip;; end_op;; mret (-1)
              else
                updi ip (fun x => x <| i_nlink ::= fun n => i16 (n + 1) |>);;
                iupdate ip;;
                iunlock ip;;
                dp ← nameiparent new;
                match dp with
                | None => link_bad ip
                | Some (dp, name) =>
                    ilock dp;;
                    d ← geti dp;
                    x ← geti ip;
                    r ← (if negb (i_dev d =? i_dev x) then mret (-1) else dirlink dp name (i_inum x));
                    if r <? 0 then iunlockput dp;; link_bad ip
                    else
                      iunlockput dp;;
                      iput ip;;
                      end_op;;
                      mret 0
                end
          end
      end
  end.

Definition isdirempty (dp : nat) : M kst bool :=
  d ← geti dp;
  for_until (2 * DIRENT_SIZE) (i_size d) DIRENT_SIZE true (fun off =>
    '(r, de) ← readi dp Dlocal off DIRENT_SIZE;
    if negb (r =? DIRENT_SIZE) then panic "isdirempty: readi"
    else mret (if negb (de_inum de =? 0) then Some false else None)).

(** The label [bad] of [sys_unlink]. *)
Definition unlink_bad (dp : nat) : M kst Z := iunlockput dp;; end_op;; mret (-1).

Definition unlink_entry (dp ip : nat) (off : Z) : M kst Z :=
  r ← writei dp (Skernel (replicate (Z.to_nat DIRENT_SIZE) 0)) off DIRENT_SIZE;
  if negb (r =? DIRENT_SIZE) then panic "unlink: writei"
  else
    x ← geti ip;
    when (i_type x =? T_DIR)
      (updi dp (fun x => x <| i_nlink ::= fun n => i16 (n - 1) |>);; iupdate dp);;
    iunlockput dp;;
    updi ip (fun x => x <| i_nlink ::= fun n => i16 (n - 1) |>);;
    iupdate ip;;
    iunlockput ip;;
    end_op;;
    mret 0.

Definition sys_unlink : M kst Z :=
  path ← argstr 0 MAXPATH;
  match path with
  | None => mret (-1)
  | Some path =>
      begin_op;;
      dp ← nameiparent path;
      match dp with
      | None => end_op;; mret (-1)
      | Some (dp, name) =>
          ilock dp;;
          if (namecmp name (str ".") =? 0) || (namecmp name (str "..") =? 0) then unlink_bad dp
          else
            ent ← dirlookup dp name;
            match ent with
            | None => unlink_bad dp
            | Some (ip, off) =>
                ilock ip;;
                x ← geti ip;
                if i_nlink x <? 1 then panic "unlink: nlink < 1"
                else
                  full ← (if i_type x =? T_DIR then e ← isdirempty ip; mret (negb e) else mret false);
                  if full : bool then iunlockput ip;; unlink_bad dp
                  else unlink_entry dp ip off
            end
      end
  end.

(** ** create *)

(** The label [fail]. *)
Definition create_fail (dp ip : nat) : M kst (option nat) :=
  updi ip (fun x => x <| i_nlink := 0 |>);;
  iupdate ip;;
  iunlockput ip;;
  iunlockput dp;;
  mret None.

(** The new inode [ip], allocated and not yet linked. *)
Definition create_new (dp ip : nat) (name : list Z) (type major minor : Z) : M kst (option nat) :=
  ilock ip;;
  updi ip (fun x => x <| i_major := major |> <| i_minor := minor |> <| i_nlink := 1 |>);;
  iupdate ip;;
  x ← geti ip;
  d ← geti dp;
  r ← (if type =? T_DIR then
         r ← dirlink ip (str ".") (i_inum x);
         if r <? 0 then mret r else dirlink ip (str "..") (i_inum d)
       else mret 0);
  if r <? 0 then create_fail dp ip
  else
    r ← dirlink dp name (i_inum x);
    if r <? 0 then create_fail dp ip
    else
      when (type =? T_DIR)
        (updi dp (fun x => x <| i_nlink ::= fun n => i16 (n + 1) |>);; iupdate dp);;
      iunlockput dp;;
      mret (Some ip).

Definition create (path : list Z) (type major minor : Z) : M kst (option nat) :=
  dp ← nameiparent path;
  match dp with
  | None => mret None
  | Some (dp, name) =>
      ilock dp;;
      ent ← dirlookup dp name;
      match ent with
      | Some (ip, _) =>
          iunlockput dp;;
          ilock ip;;
          x ← geti ip;
          if (type =? T_FILE) && ((i_type x =? T_FILE) || (i_type x =? T_DEVICE)) then mret (Some ip)
          else iunlockput ip;; mret None
      | None =>
          d ← geti dp;
          ip ← ialloc (i_dev d) type;
          match ip with
          | None => iunlockput dp;; mret None
          | Some ip => create_new dp ip name type major minor
          end
      end
  end.

(** ** open and the calls on path names *)

(** The inode is found and locked: [None] after the [end_op] of an error. *)
Definition open_inode (path : list Z) (omode : Z) : M kst (option nat) :=
  if negb (Z.land omode O_CREATE =? 0) then
    ip ← create path T_FILE 0 0;
    match ip with None => end_op;; mret None | Some i => mret (Some i) end
  else
    ip ← namei path;
    match ip with
    | None => end_op;; mret None
    | Some i =>
        ilock i;;
        x ← geti i;
        if (i_type x =? T_DIR) && negb (omode =? O_RDONLY) then iunlockput i;; end_op;; mret None
        else mret (Some i)
    end.

(** [f = filealloc()] and [fd = fdalloc(f)], both or neither. *)
Definition open_file : M kst (option (nat * Z)) :=
  f ← filealloc;
  match f with
  | None => mret None
  | Some f =>
      fd ← fdalloc f;
      if fd <? 0 then fileclose f;; mret None else mret (Some (f, fd))
  end.

Definition sys_open : M kst Z :=
  omode ← argint 1;
  path ← argstr 0 MAXPATH;
  match path with
  | None => mret (-1)
  | Some path =>
      begin_op;;
      ip ← open_inode path omode;
      match ip with
      | None => mret (-1)
      | Some ip =>
          x ← geti ip;
          if (i_type x =? T_DEVICE) && ((i_major x <? 0) || (NDEV <=? i_major x)) then
            iunlockput ip;; end_op;; mret (-1)
          else
            ff ← open_file;
            match ff with
            | None => iunlockput ip;; end_op;; mret (-1)
            | Some (f, fd) =>
                (if i_type x =? T_DEVICE then
                   updf f (fun y => y <| f_type := FD_DEVICE |> <| f_major := i_major x |>)
                 else updf f (fun y => y <| f_type := FD_INODE |> <| f_off := 0 |>));;
                updf f (fun y =>
                  y <| f_ip := Some ip |> <| f_readable := Z.land omode O_WRONLY =? 0 |>
                    <| f_writable := negb (Z.land omode O_WRONLY =? 0) || negb (Z.land omode O_RDWR =? 0) |>);;
                when (negb (Z.land omode O_TRUNC =? 0) && (i_type x =? T_FILE)) (itrunc ip);;
                iunlock ip;;
                end_op;;
                mret fd
            end
      end
  end.

(** The end of [sys_mkdir] and [sys_mknod]. *)
Definition create_done (ip : option nat) : M kst Z :=
  match ip with
  | None => end_op;; mret (-1)
  | Some ip => iunlockput ip;; end_op;; mret 0
  end.

Definition sys_mkdir : M kst Z :=
  begin_op;;
  path ← argstr 0 MAXPATH;
  ip ← (match path with None => mret None | Some path => create path T_DIR 0 0 end);
  create_done ip.

Definition sys_mknod : M kst Z :=
  begin_op;;
  major ← argint 1;
  minor ← argint 2;
  path ← argstr 0 MAXPATH;
  ip ← (match path with None => mret None | Some path => create path T_DEVICE (i16 major) (i16 minor) end);
  create_done ip.

Definition sys_chdir : M kst Z :=
  p ← myproc;
  begin_op;;
  path ← argstr 0 MAXPATH;
  ip ← (match path with None => mret None | Some path => namei path end);
  match ip with
  | None => end_op;; mret (-1)
  | Some ip =>
      ilock ip;;
      x ← geti ip;
      if negb (i_type x =? T_DIR) then iunlockput ip;; end_op;; mret (-1)
      else
        iunlock ip;;
        pr ← getp p;
        match cwd pr with Some c => iput c | None => panic "kerneltrap" end;;
        end_op;;
        updp p (fun x => x <| cwd := Some ip |>);;
        mret 0
  end.

(** ** exec *)

(** The loop over the argument vector: the pages taken, and the strings, or
    [None] for [goto bad]. *)
Definition exec_args (uargv : Z) : M kst (list Z * option (list (list Z))) :=
  loop (fun '(i, pages, argv) =>
    if MAXARG <=? i then mret (inr (pages, None))
    else
      '(r, uarg) ← fetchaddr (u64 (uargv + 8 * i));
      if r <? 0 then mret (inr (pages, None))
      else if uarg =? 0 then mret (inr (pages, Some argv))
      else
        pg ← zoom kalloc;
        if pg =? 0 then mret (inr (pages, None))
        else
          '(r, bytes) ← fetchstr uarg PGSIZE;
          zoom (store_bytes pg bytes);;
          if r <? 0 then mret (inr (pages ++ [pg], None))
          else mret (inl (i + 1, pages ++ [pg], argv ++ [until_nul bytes])))
    (0, [], []).

Fixpoint kfree_all (pages : list Z) : M phys unit :=
  match pages with
  | [] => mret tt
  | pg :: pages' => kfree pg;; kfree_all pages'
  end.

Definition sys_exec : M kst Z :=
  uargv ← argaddr 1;
  path ← argstr 0 MAXPATH;
  match path with
  | None => mret (-1)
  | Some path =>
      '(pages, argv) ← exec_args uargv;
      match argv with
      | None => zoom (kfree_all pages);; mret (-1)
      | Some argv =>
          ret ← kexec path argv;
          zoom (kfree_all pages);;
          mret ret
      end
  end.

(** ** pipe *)

(** The two descriptors, or [None] after what was taken is given back. *)
Definition pipe_fds (p rf wf : nat) : M kst (option (Z * Z)) :=
  fd0 ← fdalloc rf;
  if fd0 <? 0 then fileclose rf;; fileclose wf;; mret None
  else
    fd1 ← fdalloc wf;
    if fd1 <? 0 then
      set_ofile p fd0 None;;
      fileclose rf;;
      fileclose wf;;
      mret None
    else mret (Some (fd0, fd1)).

Definition sys_pipe : M kst Z :=
  p ← myproc;
  fdarray ← argaddr 0;
  rw ← pipealloc;
  match rw with
  | None => mret (-1)
  | Some (rf, wf) =>
      fds ← pipe_fds p rf wf;
      match fds with
      | None => mret (-1)
      | Some (fd0, fd1) =>
          r ← copyout_cur fdarray (le_encode 4 fd0);
          r ← (if r <? 0 then mret r else copyout_cur (u64 (fdarray + 4)) (le_encode 4 fd1));
          if r <? 0 then
            set_ofile p fd0 None;;
            set_ofile p fd1 None;;
            fileclose rf;;
            fileclose wf;;
            mret (-1)
          else mret 0
      end
  end.

End calls.
