(* ===== verification/Syscall.v ===== *)
(** * kernel/syscall.c: the dispatch of system calls *)

From S2P Require Import Prelude CMem Riscv Kalloc Vm KState Sched Printf Bio Log Fs Console File Proc Exec Sysproc Sysfile.

(** ** syscall.h *)

Definition SYS_fork : Z := 1.
Definition SYS_exit : Z := 2.
Definition SYS_wait : Z := 3.
Definition SYS_pipe : Z := 4.
Definition SYS_read : Z := 5.
Definition SYS_kill : Z := 6.
Definition SYS_exec : Z := 7.
Definition SYS_fstat : Z := 8.
Definition SYS_chdir : Z := 9.
Definition SYS_dup : Z := 10.
Definition SYS_getpid : Z := 11.
Definition SYS_sbrk : Z := 12.
Definition SYS_pause : Z := 13.
Definition SYS_uptime : Z := 14.
Definition SYS_open : Z := 15.
Definition SYS_write : Z := 16.
Definition SYS_mknod : Z := 17.
Definition SYS_unlink : Z := 18.
Definition SYS_link : Z := 19.
Definition SYS_mkdir : Z := 20.
Definition SYS_close : Z := 21.
Definition SYS_date : Z := 22.
Definition SYS_halt : Z := 23.
Definition SYS_setshared : Z := 24.
Definition SYS_getshm : Z := 25.
Definition SYS_setshm : Z := 26.
Definition SYS_hello : Z := 27.
Definition SYS_trace : Z := 28.
Definition SYS_dumpvm : Z := 29.
Definition SYS_map_ro : Z := 30.
Definition SYS_mapzero : Z := 31.

Definition syscall_names : gmap Z string := list_to_map
  [(0, "(none)"); (SYS_fork, "fork"); (SYS_exit, "exit"); (SYS_wait, "wait"); (SYS_pipe, "pipe");
   (SYS_read, "read"); (SYS_kill, "kill"); (SYS_exec, "exec"); (SYS_fstat, "fstat");
   (SYS_chdir, "chdir"); (SYS_dup, "dup"); (SYS_getpid, "getpid"); (SYS_sbrk, "sbrk");
   (SYS_pause, "pause"); (SYS_uptime, "uptime"); (SYS_open, "open"); (SYS_write, "write");
   (SYS_mknod, "mknod"); (SYS_unlink, "unlink"); (SYS_link, "link"); (SYS_mkdir, "mkdir");
   (SYS_close, "close"); (SYS_date, "date"); (SYS_halt, "halt"); (SYS_setshared, "setshared");
   (SYS_getshm, "getshm"); (SYS_setshm, "setshm"); (SYS_hello, "hello"); (SYS_trace, "trace");
   (SYS_dumpvm, "dumpvm"); (SYS_map_ro, "map_ro"); (SYS_mapzero, "mapzero")]%string.

Section syscall.
Context {KL : KLayout}.

(** The padding bytes of the [struct stat] on the kernel stack of
    [filestat], which is not initialised. *)
Context (stat_pad : list Z).

Definition syscalls (num : Z) : option (M kst Z) :=
  if num =? SYS_fork then Some sys_fork
  else if num =? SYS_exit then Some sys_exit
  else if num =? SYS_wait then Some sys_wait
  else if num =? SYS_pipe then Some sys_pipe
  else if num =? SYS_read then Some sys_read
  else if num =? SYS_kill then Some sys_kill
  else if num =? SYS_exec then Some sys_exec
  else if num =? SYS_fstat then Some (sys_fstat stat_pad)
  else if num =? SYS_chdir then Some sys_chdir
  else if num =? SYS_dup then Some sys_dup
  else if num =? SYS_getpid then Some sys_getpid
  else if num =? SYS_sbrk then Some sys_sbrk
  else if num =? SYS_pause then Some sys_pause
  else if num =? SYS_uptime then Some sys_uptime
  else if num =? SYS_open then Some sys_open
  else if num =? SYS_write then Some sys_write
  else if num =? SYS_mknod then Some sys_mknod
  else if num =? SYS_unlink then Some sys_unlink
  else if num =? SYS_link then Some sys_link
  else if num =? SYS_mkdir then Some sys_mkdir
  else if num =? SYS_close then Some sys_close
  else if num =? SYS_date then Some sys_date
  else if num =? SYS_halt then Some sys_halt
  else if num =? SYS_getshm then Some sys_getshm
  else if num =? SYS_setshm then Some sys_setshm
  else if num =? SYS_hello then Some sys_hello
  else if num =? SYS_trace then Some sys_trace
  else if num =? SYS_dumpvm then Some sys_dumpvm
  else if num =? SYS_map_ro then Some sys_map_ro
  else if num =? SYS_mapzero then Some sys_mapzero
  else None.

Definition TF_a7 : Z := TF_a 7.

Definition trace_fmt : list Z :=
  str "[trace] pid %d: syscall %s (num=%d) args=(%ld, %ld, %ld, %ld, %ld, %ld) -> %ld" ++ [10].

(** The line printed after a traced call: every register is read after the
    result has been stored in [a0]. *)
Definition trace_print (p : nat) (num : Z) : M kst unit :=
  pr ← getp p;
  a0 ← tf_get (TF_a 0);
  a1 ← tf_get (TF_a 1);
  a2 ← tf_get (TF_a 2);
  a3 ← tf_get (TF_a 3);
  a4 ← tf_get (TF_a 4);
  a5 ← tf_get (TF_a 5);
  printf trace_fmt
    [Anum (pid pr); Astr (match syscall_names !! num with Some n => str n | None => str "?" end);
     Anum num; Anum a0; Anum a1; Anum a2; Anum a3; Anum a4; Anum a5; Anum a0].

Definition syscall : M kst unit :=
  p ← myproc;
  a7 ← tf_get TF_a7;
  let num := i32 a7 in
  match syscalls num with
  | Some f =>
      r ← f;
      tf_set (TF_a 0) r;;
      pr ← getp p;
      when (negb (Z.land (trace_mask pr) (Z.shiftl 1 num) =? 0)) (trace_print p num)
  | None =>
      pr ← getp p;
      printf (str "%d %s: unknown sys call %d" ++ [10]) [Anum (pid pr); Astr (pname pr); Anum num];;
      tf_set (TF_a 0) (-1)
  end.

End syscall.
