(* ===== verification/Trap.v ===== *)
(** * kernel/trap.c, and forkret of proc.c

    What the devices answer during an interrupt (the PLIC's claim register,
    the UART's transmit status) is an argument; the addresses of the assembly
    entry points are parameters. *)

From S2P Require Import Prelude CMem Riscv Kalloc Vm KState Sched Printf Bio Log Fs Console File Proc Exec Sysproc Sysfile Syscall.

(** ** riscv.h: the status register *)

Definition SSTATUS_SPP : Z := Z.shiftl 1 8.
Definition SSTATUS_SPIE : Z := Z.shiftl 1 5.
Definition SSTATUS_SIE : Z := Z.shiftl 1 1.

Definition updcsr (f : csrs -> csrs) : M kst unit := modify (fun s => s <| csr ::= f |>).
Definition getcsr {A} (f : csrs -> A) : M kst A := gets (fun s => f (csr s)).

#[export] Hint Unfold updcsr getcsr : wp_prim.

Definition intr_on : M kst unit := updcsr (fun c => c <| sstatus ::= fun x => Z.lor x SSTATUS_SIE |>).
Definition intr_off : M kst unit :=
  updcsr (fun c => c <| sstatus ::= fun x => Z.land x (Z.lnot SSTATUS_SIE) |>).

(** The entry points of kernelvec.S and trampoline.S, and of [usertrap]. *)
Class TrapLayout := {
  kernelvec : Z;
  uservec_off : Z;
  usertrap_addr : Z
}.

(** What the devices say: the interrupt claimed from the PLIC, and whether the
    UART's transmitter is idle. *)
Record hw := mkhw { hw_irq : Z; hw_tx_idle : bool }.

(** ** Interrupts *)


Definition clockintr : M kst unit :=
  acquire Lticks;;
  modify (fun s => s <| ticks ::= fun t => u32 (t + 1) |>);;
  wakeup ch_ticks;;
  release Lticks;;
  updcsr (fun c => c <| stimecmp := u64 (rtime c + 1000000) |>).

(** The disk driver's transfers are complete when [virtio_disk_rw] returns, so
    a disk interrupt has nothing left to do. *)
Definition devintr (h : hw) : M kst Z :=
  cause ← getcsr scause;
  if cause =? 0x8000000000000009 then
    (if hw_irq h =? UART0_IRQ then uartintr (hw_tx_idle h)
     else if hw_irq h =? VIRTIO0_IRQ then mret tt
     else when (negb (hw_irq h =? 0))
            (printf (str "unexpected interrupt irq=%d" ++ [10]) [Anum (hw_irq h)]));;
    mret 1
  else if cause =? 0x8000000000000005 then clockintr;; mret 2
  else mret 0.

Section trap.
Context {KL : KLayout} {TL : TrapLayout}.
Context (stat_pad : list Z).

Definition prepare_return : M kst unit :=
  p ← myproc;
  pr ← getp p;
  intr_off;;
  updcsr (fun c => c <| stvec := TRAMPOLINE + uservec_off |>);;
  c ← getcsr id;
  tf_set TF_kernel_satp (satp c);;
  tf_set TF_kernel_sp (kstack pr + PGSIZE);;
  tf_set TF_kernel_trap usertrap_addr;;
  tf_set TF_kernel_hartid 0;;
  updcsr (fun c => c <| sstatus ::= fun x => Z.lor (Z.land x (Z.lnot SSTATUS_SPP)) SSTATUS_SPIE |>);;
  epc ← tf_get TF_epc;
  updcsr (fun c => c <| sepc := epc |>).

(** The branch of [usertrap] for load and store page faults. *)
Definition user_pagefault (p : nat) (va cause : Z) : M kst unit :=
  pr ← getp p;
  printf (str "page fault: pid=%d scause=%ld stval=0x%lx" ++ [10]) [Anum (pid pr); Anum cause; Anum va];;
  let v := vr pr in
  if vr_active v && (vr_start v <=? va) && (va <? u64 (vr_start v + u64 (vr_size v))) then
    pa ← zoom kalloc;
    if pa =? 0 then setkilled p
    else
      zoom (fill pa 65 PGSIZE);;
      r ← zoom (mappages (pagetable pr) (PGROUNDDOWN va) PGSIZE pa (Z.lor (Z.lor PTE_W PTE_R) PTE_U));
      if negb (r =? 0) then zoom (kfree pa);; setkilled p
      else updp p (fun x => x <| pagefault_count ::= fun n => n + 1 |>)
  else if (va =? 0) || (sz pr <=? va) then setkilled p
  else
    r ← zoom (vmfault (vmproc_of pr) (pagetable pr) va);
    if r =? 0 then setkilled p
    else updp p (fun x => x <| pagefault_count ::= fun n => n + 1 |>).

(** The branch for system calls. *)
Definition user_syscall (p : nat) : M kst unit :=
  k ← killed p;
  when k (kexit (-1));;
  epc ← tf_get TF_epc;
  tf_set TF_epc (epc + 4);;
  a7 ← tf_get TF_a7;
  pr ← getp p;
  pc ← getcsr sepc;
  when (SYS_hello <=? i32 a7)
    (printf (str "[trap] pid %d: ecall from U-mode, scause=8, sepc=0x%lx, syscall=%d" ++ [10])
       [Anum (pid pr); Anum pc; Anum (i32 a7)]);;
  intr_on;;
  syscall stat_pad.

Definition user_unexpected (p : nat) : M kst unit :=
  pr ← getp p;
  c ← getcsr id;
  printf (str "usertrap(): unexpected scause 0x%lx pid=%d" ++ [10]) [Anum (scause c); Anum (pid pr)];;
  printf (str "            sepc=0x%lx stval=0x%lx" ++ [10]) [Anum (sepc c); Anum (stval c)];;
  setkilled p.

Definition usertrap (h : hw) : M kst Z :=
  c ← getcsr id;
  if negb (Z.land (sstatus c) SSTATUS_SPP =? 0) then panic "usertrap: not from user mode"
  else
    updcsr (fun c => c <| stvec := kernelvec |>);;
    p ← myproc;
    tf_set TF_epc (sepc c);;
    which_dev ←
      (if scause c =? 8 then user_syscall p;; mret 0
       else
         d ← devintr h;
         if negb (d =? 0) then mret d
         else if (scause c =? 15) || (scause c =? 13) then
           user_pagefault p (stval c) (scause c);; mret 0
         else user_unexpected p;; mret 0);
    k ← killed p;
    when k (kexit (-1));;
    when (which_dev =? 2) yield;;
    prepare_return;;
    pr ← getp p;
    mret (MAKE_SATP (pagetable pr)).

Definition kerneltrap (h : hw) : M kst unit :=
  c ← getcsr id;
  if Z.land (sstatus c) SSTATUS_SPP =? 0 then panic "kerneltrap: not from supervisor mode"
  else if negb (Z.land (sstatus c) SSTATUS_SIE =? 0) then panic "kerneltrap: interrupts enabled"
  else
    which_dev ← devintr h;
    if which_dev =? 0 then
      printf (str "scause=0x%lx sepc=0x%lx stval=0x%lx" ++ [10])
        [Anum (scause c); Anum (sepc c); Anum (stval c)];;
      panic "kerneltrap"
    else
      me ← gets cur;
      when ((which_dev =? 2) && bool_decide (is_Some me)) yield;;
      updcsr (fun x => x <| sepc := sepc c |> <| sstatus := sstatus c |>).

(** ** proc.c: forkret *)

Definition forkret : M kst Z :=
  p ← myproc;
  release (Lproc p);;
  fst ← gets first;
  when fst
    (fsinit ROOTDEV;;
     modify (fun s => s <| first := false |>);;
     r ← kexec (str "/init") [str "/init"];
     tf_set (TF_a 0) r;;
     when (r =? -1) (panic "exec"));;
  prepare_return;;
  pr ← getp p;
  mret (MAKE_SATP (pagetable pr)).

End trap.
