(* ===== verification/TrapSpec.v ===== *)
(** * Page faults and the system calls on the memory of a process

    What a process sees of its memory after sbrk, mapzero, map_ro and the
    page-fault branch of [usertrap], over the invariant of its address space
    ([uspace] of UserMem). *)

From Stdlib Require Import String.
From S2P Require Import Prelude CMem Riscv Kalloc Vm PageTable UserMem UserCopy UserSpace VmTheorems KState Sched Printf Fs Console File PipeSpec Proc Sysproc Trap.

(** ** Allocating and mapping a page from the kernel state *)

Section alloc.
Context {KL : KLayout}.

(** The three ends of allocating, initialising and mapping a page. *)
Inductive mapped := NoMemory | NoTable | Mapped (pa : Z).

Definition alloc_map (root a perm : Z) (init : Z -> M phys unit) : M phys mapped :=
  m ← kalloc;
  if m =? 0 then mret NoMemory
  else init m;;
       r ← mappages root a PGSIZE m perm;
       if negb (r =? 0) then kfree m;; mret NoTable else mret (Mapped m).

(** Code that runs the three steps on the physical memory of the kernel. *)
Lemma wp_alloc_map_zoom {B} root a perm init (f0 f1 : M kst B) (k : Z -> M kst B) Q s :
  wp (alloc_map root a perm init)
    (fun o t => wp (match o with NoMemory => f0 | NoTable => f1 | Mapped m => k m end) Q (s <| ph := t |>)) (ph s) ->
  wp (m ← zoom kalloc;
      if m =? 0 then f0
      else zoom (init m);;
           r ← zoom (mappages root a PGSIZE m perm);
           if negb (r =? 0) then zoom (kfree m);; f1 else k m) Q s.
Proof.
  intros H. unfold alloc_map in H. apply wp_bind, wp_zoom. apply wp_bind_inv in H.
  eapply wp_mono; [exact H|]. clear H. intros m t1 H. cbn beta in H.
  destruct (m =? 0); [exact H|].
  apply wp_bind, wp_zoom. apply wp_bind_inv in H. eapply wp_mono; [exact H|]. clear H. intros u2 t2 H.
  cbn beta in H. apply wp_bind, wp_zoom. apply wp_bind_inv in H. eapply wp_mono; [exact H|]. clear H. intros r t3 H.
  cbn beta in H. destruct (negb (r =? 0)); [|exact H].
  apply wp_bind, wp_zoom. apply wp_bind_inv in H. eapply wp_mono; [exact H|]. clear H. intros u4 t4 H. exact H.
Qed.

(** A fresh page shows its contents; the rest of the view stays. *)
Lemma uview_fresh_page l T A m m' v p flags sz (val : Z -> Z) va :
  uown l T A -> ukeep A m m' -> freeable p ->
  0 <= flags < 1024 -> has flags PTE_U = true ->
  (forall i, 0 <= i < PGSIZE -> ldb m' (p + i) = val i) ->
  uview m' (<[v := mkpte p flags]> A) sz va =
    if decide (vpn_of va = v) then Some (val (va `mod` PGSIZE)) else uview m A sz va.
Proof.
  intros Ho Hk Hp Hfl HU Hz. case_decide as Hv.
  - unfold uview. rewrite Hv, lookup_insert_eq, has_mkpte by done.
    rewrite PTE2PA_mkpte by (done || by apply freeable_page_addr).
    rewrite HU. f_equal. apply Hz. unfold PGSIZE. apply Z.mod_pos_bound. lia.
  - rewrite <- (uview_keep l T A m m') by done. unfold uview. by rewrite lookup_insert_ne.
Qed.

(** The view of the memory [m] through [A'] is that through [A] with the page
    [v] replaced by [val]. *)
Definition page_added (m m' : memory) (A A' : leaves) (sz v : Z) (val : Z -> Z) : Prop :=
  forall va, uview m' A' sz va =
    if decide (vpn_of va = v) then Some (val (va `mod` PGSIZE)) else uview m A sz va.

Lemma wp_alloc_map_view s l root T A a sz perm init ini (val : Z -> Z) (Q : mapped -> phys -> Prop) :
  uspace s l root T A -> 0 <= a < TRAPFRAME -> pg_aligned a -> 0 <= perm < 1024 -> has perm PTE_U = true ->
  A !! vpn_of a = None ->
  (forall p t, init p t = Ok tt (t <| mem ::= ini p |>)) ->
  (forall p m1, agree (fun a => ~ in_page p a) m1 (ini p m1) /\
     forall i, 0 <= i < PGSIZE -> ldb (ini p m1) (p + i) = val i) ->
  (forall s' l' T' o, o = NoMemory \/ o = NoTable -> uspace s' l' root T' A -> (length l' <= 1)%nat ->
     (forall va, uview (mem s') A sz va = uview (mem s) A sz va) -> Q o s') ->
  (forall s' p l' T', let A' := <[vpn_of a := mkpte p (Z.lor perm PTE_V)]> A in
     freeable p -> uspace s' l' root T' A' -> page_added (mem s) (mem s') A A' sz (vpn_of a) val ->
     Q (Mapped p) s') ->
  wp (alloc_map root a perm init) Q s.
Proof.
  intros Hu Ha Hal Hperm HU Hn Hinit Hini Hfail Hok.
  assert (0 <= Z.lor perm PTE_V < 1024) as Hfl by (by apply perm_V_range).
  assert (has (Z.lor perm PTE_V) PTE_U = true) as HfU by (by rewrite has_lor, HU).
  assert (wp (m ← kalloc; if m =? 0 then mret NoMemory
      else modify (fun s => s <| mem ::= ini m |>);;
           r ← mappages root a PGSIZE m perm;
           if negb (r =? 0) then kfree m;; mret NoTable else mret (Mapped m)) Q s) as Hm.
  { apply (wp_alloc_map s l root T A a perm ini val (mret NoMemory) (mret NoTable) (fun m => mret (Mapped m))); try done.
    - intros ->. wp_step. eapply Hfail; [by left|done|simpl; lia|done].
    - intros s' p T' Hu' _ Hk. wp_step. eapply Hfail; [by right|done|simpl; lia|].
      intros va. eapply uview_keep; [apply Hu|done].
    - intros s' p l' T' A' Hp Hu' _ Hk Hv. wp_step. eapply Hok; [done..|].
      intros va. eapply uview_fresh_page; try done. apply Hu. }
  unfold alloc_map. apply wp_bind. apply wp_bind_inv in Hm. eapply wp_mono; [exact Hm|]. intros m t H.
  cbn beta in H. destruct (m =? 0); [exact H|]. apply wp_bind. eapply wp_run; [apply Hinit|]. by apply wp_bind_inv in H.
Qed.

End alloc.

(** ** The process whose memory is at stake *)

Section faults.
Context {KL : KLayout}.

(** Process [p] runs; its address space has the leaves [A]. *)
Record pmem (p : nat) (s : kst) (l : list Z) (T : tables) (A : leaves) : Prop := {
  pm_cur : cur s = Some p;
  pm_p : (p < length (procs s))%nat;
  pm_size : 0 <= sz (proc_at s p) <= TRAPFRAME;
  pm_space : uspace (ph s) l (pagetable (proc_at s p)) T A
}.

(** What it sees. *)
Definition pview (p : nat) (s : kst) (A : leaves) (va : Z) : option Z :=
  uview (mem (ph s)) A (sz (proc_at s p)) va.

(** The addresses of its mapzero region. *)
Definition in_vr (x : proc) (va : Z) : Prop :=
  vr_active (vr x) = true /\ vr_start (vr x) <= va < vr_start (vr x) + vr_size (vr x).

#[export] Instance in_vr_dec x va : Decision (in_vr x va) := ltac:(unfold in_vr; apply _).

(** An active region lies in the memory of the process. *)
Definition vr_ok (x : proc) : Prop :=
  vr_active (vr x) = true ->
  0 <= vr_start (vr x) /\ 0 <= vr_size (vr x) /\ vr_start (vr x) + vr_size (vr x) <= sz x.

Lemma proc_at_updp s p f :
  (p < length (procs s))%nat -> proc_at (s <| procs ::= alter f p |>) p = f (proc_at s p).
Proof.
  intros Hp. rewrite proc_at_alter, decide_True by done. unfold proc_at.
  by destruct (lookup_lt_is_Some_2 _ _ Hp) as [x ->].
Qed.

Lemma wp_setkilled p (Q : unit -> kst -> Prop) s :
  (Lproc p ∉ locks s) -> Q tt (s <| procs ::= alter (fun x => x <| pkilled := true |>) p |>) ->
  wp (setkilled p) Q s.
Proof. intros HL HQ. unfold setkilled, updp. by apply wp_locked_modify. Qed.

(** A new physical memory and new contents of the entry of [p] that keep its
    page table and its size. *)
Lemma pmem_update p s l T A t f l' T' A' :
  pmem p s l T A -> pagetable (f (proc_at s p)) = pagetable (proc_at s p) ->
  sz (f (proc_at s p)) = sz (proc_at s p) ->
  uspace t l' (pagetable (proc_at s p)) T' A' ->
  pmem p (s <| ph := t |> <| procs ::= alter f p |>) l' T' A'.
Proof.
  intros [Hc Hp Hs Hu] H1 H2 Ht.
  assert (proc_at (s <| ph := t |> <| procs ::= alter f p |>) p = f (proc_at s p)) as Hat
    by exact (proc_at_updp s p f Hp).
  split; [done| |by rewrite Hat, H2|by rewrite Hat, H1].
  change (p < length (alter f p (procs s)))%nat. by rewrite length_alter.
Qed.

(** How a page fault of [p] at [va] ends: the process is killed, with its memory
    as it was; a page of the mapzero region appears, filled with the letter A;
    or a page of zeros appears where the process saw zeros already. *)
Inductive fault_end (p : nat) (va : Z) (s : kst) (A : leaves) (s' : kst) (l' : list Z) (A' : leaves) : Prop :=
| fault_killed :
    proc_at s' p = (proc_at s p) <| pkilled := true |> -> A' = A ->
    (forall va', pview p s' A va' = pview p s A va') ->
    (in_vr (proc_at s p) va -> (length l' <= 1)%nat) ->
    (~ in_vr (proc_at s p) va -> va = 0 \/ fault_refused A (sz (proc_at s p)) va l') ->
    fault_end p va s A s' l' A'
| fault_filled q :
    in_vr (proc_at s p) va ->
    proc_at s' p = (proc_at s p) <| pagefault_count ::= fun n => n + 1 |> ->
    A' = <[vpn_of va := mkpte q fault_flags]> A ->
    page_added (mem (ph s)) (mem (ph s')) A A' (sz (proc_at s p)) (vpn_of va) (fun _ => 65) ->
    fault_end p va s A s' l' A'
| fault_zeroed q :
    ~ in_vr (proc_at s p) va -> 0 < va < sz (proc_at s p) -> A !! vpn_of va = None ->
    proc_at s' p = (proc_at s p) <| pagefault_count ::= fun n => n + 1 |> ->
    A' = <[vpn_of va := mkpte q fault_flags]> A ->
    (forall va', pview p s' A' va' = pview p s A va') ->
    fault_end p va s A s' l' A'.

(** The test of the region, with its 64-bit sums. *)
Lemma in_vr_test x va :
  vr_ok x -> sz x <= TRAPFRAME ->
  vr_active (vr x) && (vr_start (vr x) <=? va) && (va <? u64 (vr_start (vr x) + u64 (vr_size (vr x))))
  = bool_decide (in_vr x va).
Proof.
  intros Hok Hs. apply Bool.eq_true_iff_eq. rewrite bool_decide_eq_true, !andb_true_iff, Z.leb_le, Z.ltb_lt.
  unfold in_vr. unfold vr_ok in Hok. change TRAPFRAME with ((2 ^ 26 - 2) * 4096) in Hs.
  destruct (vr_active (vr x)) eqn:Ha; [|intuition discriminate]. destruct (Hok eq_refl) as (H0 & H1 & H2).
  unfold u64. rewrite (Z.mod_small (vr_size _)), Z.mod_small by lia. tauto.
Qed.

Lemma wp_user_pagefault p va cause s l T A (Q : unit -> kst -> Prop) :
  pmem p s l T A -> locks s = [] -> 0 <= va -> vr_ok (proc_at s p) ->
  (in_vr (proc_at s p) va -> A !! vpn_of va = None) ->
  (forall s' l' T' A', pmem p s' l' T' A' -> locks s' = [] -> fault_end p va s A s' l' A' -> Q tt s') ->
  wp (user_pagefault p va cause) Q s.
Proof.
  intros Hm HL Hva Hvr Hfree HQ. pose proof Hm as [Hc Hp Hs Hu].
  assert (forall x, x ∉ locks s) as Hno by (intros x; rewrite HL; apply not_elem_of_nil).
  unfold user_pagefault. wp_step. wp_step. apply wp_bind, wp_printf; [done|].
  set (bs := concat _). change (proc_at (emit bs s) p) with (proc_at s p). cbv zeta.
  rewrite in_vr_test by (done || lia).
  assert (forall t f l' T' A', pagetable (f (proc_at s p)) = pagetable (proc_at s p) ->
    sz (f (proc_at s p)) = sz (proc_at s p) -> uspace t l' (pagetable (proc_at s p)) T' A' ->
    (forall s', proc_at s' p = f (proc_at s p) -> ph s' = t -> fault_end p va s A s' l' A') ->
    Q tt ((emit bs s) <| ph := t |> <| procs ::= alter f p |>)) as Hend.
  { intros t f l' T' A' H1 H2 Ht He. eapply HQ; [|done|].
    - apply (pmem_update p (emit bs s) l T A); [by split|done..].
    - apply He; [|done]. exact (proc_at_updp s p f Hp). }
  case_bool_decide as Hin.
  - pose proof Hin as [Hact Hr]. destruct (Hvr Hact) as (H0 & H1 & H2).
    pose proof (PGROUNDDOWN_le va Hva).
    apply wp_alloc_map_zoom. eapply (wp_alloc_map_view _ l _ T A (PGROUNDDOWN va) (sz (proc_at s p)) _ _
      (fun p m => memset m p 65 PGSIZE) (fun _ => 65)); try done.
    + lia.
    + apply PGROUNDDOWN_aligned.
    + by rewrite vpn_of_PGROUNDDOWN; apply Hfree.
    + intros q m1. split; [apply memset_page_agree|]. intros i Hi. rewrite memset_spec by done.
      by rewrite decide_True by lia.
    + intros t l' T' o Ho Hu' Hl Hv. assert (wp (setkilled p) Q ((emit bs s) <| ph := t |>)) as Hk.
      { apply wp_setkilled; [apply Hno|]. eapply Hend; [done..|]. intros s' Hat Hph.
        apply fault_killed; [done|done| |done|done]. intros va'. unfold pview. rewrite Hat, Hph. apply Hv. }
      by destruct Ho as [-> | ->].
    + rewrite vpn_of_PGROUNDDOWN. intros t q l' T' A' Hq Hu' Hadd. wp_step.
      eapply (Hend t (fun x => x <| pagefault_count ::= fun n => n + 1 |>)); [done..|]. intros s' Hat Hph.
      eapply fault_filled; [done|done|done|]. by rewrite Hph.
  - assert (forall t l' T', uspace t l' (pagetable (proc_at s p)) T' A -> 
      (forall va', uview (mem t) A (sz (proc_at s p)) va' = pview p s A va') ->
      va = 0 \/ fault_refused A (sz (proc_at s p)) va l' ->
      wp (setkilled p) Q ((emit bs s) <| ph := t |>)) as Hk.
    { intros t l' T' Ht Hv Hw. apply wp_setkilled; [apply Hno|]. eapply Hend; [done..|]. intros s' Hat Hph.
      apply fault_killed; [done|done| |done|done]. intros va'. unfold pview at 1. rewrite Hat, Hph. apply Hv. }
    destruct ((va =? 0) || (sz (proc_at s p) <=? va)) eqn:Hz.
    { apply (Hk (ph s) l T); [done|done|]. apply orb_true_iff in Hz as [Hz|Hz]; [left; lia|right; left; lia]. }
    apply orb_false_iff in Hz as [Hz1 Hz2]. apply wp_bind, wp_zoom.
    eapply (wp_vmfault _ l _ T A); [done|done|lia| |].
    + intros t l' T' Hu' _ Hk' Hw. apply (Hk t l' T'); [done| |by right].
      intros va'. eapply uview_keep; [apply Hu|done].
    + intros t l' T' q A' Hlt Hn Hq Hu' _ _ Hv. destruct (Z.eqb_spec q 0) as [->|_]; [by apply freeable_nonzero in Hq|].
      wp_step. eapply (Hend t (fun x => x <| pagefault_count ::= fun n => n + 1 |>)); [done..|].
      intros s' Hat Hph. eapply fault_zeroed; [done|lia|done|done|done|].
      intros va'. unfold pview. rewrite Hat, Hph. apply Hv.
Qed.

(** ** The arguments of a system call *)

(** Register a[n] as the trap saved it. *)
Definition uarg (p : nat) (s : kst) (n : Z) : Z :=
  ld64 (mem (ph s)) (trapframe (proc_at s p) + TF_a n).

Lemma wp_argraw p n (Q : Z -> kst -> Prop) s :
  cur s = Some p -> 0 <= n <= 5 -> Q (uarg p s n) s -> wp (argraw n) Q s.
Proof.
  intros Hc Hn HQ. unfold argraw. destruct (Z.leb_spec 0 n); [|lia]. destruct (Z.leb_spec n 5); [|lia].
  cbn [andb]. unfold tf_get. apply wp_bind, (wp_myproc p); [done|]. wp_step. wp_step. wp_step. wp_step. apply wp_gets.
  change (Q (uarg p s n) (lset (lget s) s)). by rewrite lset_lget.
Qed.

Lemma wp_argint p n (Q : Z -> kst -> Prop) s :
  cur s = Some p -> 0 <= n <= 5 -> Q (i32 (uarg p s n)) s -> wp (argint n) Q s.
Proof. intros Hc Hn HQ. unfold argint. apply wp_bind, (wp_argraw p); [done..|]. by wp_step. Qed.

(** ** sbrk *)

(** Moving the end of the memory from [old] to [new] keeps what was seen below
    it and shows zeros in the new part. *)
Lemma uview_grow m A old new :
  old <= new ->
  (forall va b, uview m A old va = Some b -> uview m A new va = Some b) /\
  (forall va, 0 <= va < new -> A !! vpn_of va = None -> uview m A new va = Some 0).
Proof.
  intros Hle. split.
  - intros va b. unfold uview. destruct (A !! vpn_of va); [done|].
    destruct (Z.ltb_spec (va - va `mod` PGSIZE) old); [|done]. by destruct (Z.ltb_spec (va - va `mod` PGSIZE) new); [|lia].
  - intros va Hva Hn. unfold uview. rewrite Hn. destruct (Z.ltb_spec (va - va `mod` PGSIZE) new); [done|].
    unfold PGSIZE in *. pose proof (Z.mod_pos_bound va 4096). lia.
Qed.

(** Unmapping the pages above [new] keeps what was seen below it and leaves
    nothing between the two ends. *)
Lemma uview_shrink l T A m m' old new :
  0 <= new < old -> old <= TRAPFRAME ->
  let A' := unmap_range (npages (PGROUNDUP new) (PGROUNDUP old)) A (vpn_of (PGROUNDUP new)) in
  uown l T A' -> ukeep A' m m' ->
  (forall va, 0 <= va < PGROUNDUP new -> uview m' A' new va = uview m A old va) /\
  (forall va, PGROUNDUP new <= va < old -> uview m' A' new va = None).
Proof.
  intros Hn Ho A' Hown Hk.
  destruct (pgroundup_user new) as (Ha & Hb & Hc); [lia|]. destruct (pgroundup_user old) as (Ha' & Hb' & Hc'); [lia|].
  assert (forall va, A' !! vpn_of va = if decide (PGROUNDUP new <= va < PGROUNDUP old) then None else A !! vpn_of va) as HA'.
  { intros va. unfold A'. rewrite lookup_unmap_range. unfold npages, vpn_of, pg_aligned, PGSIZE in *.
    repeat case_decide; try done; exfalso; Z.div_mod_to_equations; lia. }
  split; intros va Hva; rewrite (uview_keep l T A' m m') by done; unfold uview; rewrite HA'.
  - rewrite decide_False by lia. destruct (A !! vpn_of va); [done|]. unfold pg_aligned, PGSIZE in *.
    destruct (Z.ltb_spec (va - va `mod` 4096) new), (Z.ltb_spec (va - va `mod` 4096) old); try done;
      exfalso; Z.div_mod_to_equations; lia.
  - rewrite decide_True by lia. unfold pg_aligned, PGSIZE in *.
    destruct (Z.ltb_spec (va - va `mod` 4096) new); [|done]. exfalso. Z.div_mod_to_equations. lia.
Qed.

(** How sbrk([n]) ends. *)
Inductive sbrk_end (p : nat) (n : Z) (s : kst) (A : leaves) : Z -> kst -> leaves -> Prop :=
| sbrk_refused :
    TRAPFRAME < sz (proc_at s p) + n -> sbrk_end p n s A (-1) s A
| sbrk_grown s' :
    0 <= n -> sz (proc_at s p) + n <= TRAPFRAME ->
    ph s' = ph s -> proc_at s' p = (proc_at s p) <| sz := sz (proc_at s p) + n |> ->
    (forall va b, pview p s A va = Some b -> pview p s' A va = Some b) ->
    (forall va, 0 <= va < sz (proc_at s p) + n -> A !! vpn_of va = None -> pview p s' A va = Some 0) ->
    sbrk_end p n s A (sz (proc_at s p)) s' A
| sbrk_too_far s' :
    sz (proc_at s p) + n < 0 -> ph s' = ph s -> proc_at s' p = proc_at s p ->
    sbrk_end p n s A (sz (proc_at s p)) s' A
| sbrk_shrunk s' A' :
    n < 0 -> 0 <= sz (proc_at s p) + n -> proc_at s' p = (proc_at s p) <| sz := sz (proc_at s p) + n |> ->
    (forall va, 0 <= va < sz (proc_at s p) + n -> pview p s' A' va = pview p s A va) ->
    (forall va, PGROUNDUP (sz (proc_at s p) + n) <= va < sz (proc_at s p) -> pview p s' A' va = None) ->
    sbrk_end p n s A (sz (proc_at s p)) s' A'.

Lemma set_sz_id (x : proc) : x <| sz := sz x |> = x.
Proof. by destruct x. Qed.

(** A new size for [p]. *)
Lemma pmem_resize p s l T A t n l' T' A' :
  pmem p s l T A -> 0 <= n <= TRAPFRAME -> uspace t l' (pagetable (proc_at s p)) T' A' ->
  let s' := s <| ph := t |> <| procs ::= alter (fun x => x <| sz := n |>) p |> in
  pmem p s' l' T' A' /\ proc_at s' p = (proc_at s p) <| sz := n |> /\
  forall va, pview p s' A' va = uview (mem t) A' n va.
Proof.
  intros [Hc Hp Hs Hu] Hn Ht s'.
  assert (proc_at s' p = (proc_at s p) <| sz := n |>) as Hat by exact (proc_at_updp s p (fun x => x <| sz := n |>) Hp).
  split; [|split; [done|intros va; unfold pview; by rewrite Hat]]. split; [done| |by rewrite Hat..].
  change (p < length (alter (fun x => x <| sz := n |>) p (procs s)))%nat. by rewrite length_alter.
Qed.

Lemma wp_sbrk_down p s l T A n (Q : Z -> kst -> Prop) :
  pmem p s l T A -> - 2 ^ 31 <= n < 0 ->
  (forall s' l' T' A', pmem p s' l' T' A' -> locks s' = locks s ->
     sbrk_end p n s A (sz (proc_at s p)) s' A' -> Q 0 s') ->
  wp (growproc n) Q s.
Proof.
  intros Hm Hn HQ. pose proof Hm as [Hc Hp Hs Hu]. change TRAPFRAME with ((2 ^ 26 - 2) * 4096) in Hs.
  unfold growproc. apply wp_bind, (wp_myproc p); [done|]. wp_step. wp_step.
  destruct (Z.ltb_spec 0 n); [lia|]. destruct (Z.ltb_spec n 0); [|lia].
  apply wp_bind, wp_zoom.
  apply (wp_uvmdealloc _ l _ T A); [done|apply Z.mod_pos_bound; lia|change TRAPFRAME with ((2 ^ 26 - 2) * 4096); lia| |].
  - intros Hle. destruct (Z.ltb_spec (sz (proc_at s p) + n) 0) as [Hlt|Hge].
    2: { unfold u64 in Hle. rewrite Z.mod_small in Hle by lia. lia. }
    wp_step. wp_step. wp_step. destruct (pmem_resize p s l T A (ph s) (sz (proc_at s p)) l T A) as (Hm' & Hat & Hv); [done|done|done|].
    eapply HQ; [exact Hm'|done|]. apply sbrk_too_far; [done|done|]. etransitivity; [exact Hat|apply set_sz_id].
  - intros t l'. cbv zeta. intros Hlt Hu' _ Hk. destruct (Z.ltb_spec (sz (proc_at s p) + n) 0) as [Hneg|Hge].
    { unfold u64 in Hlt. rewrite <- (Z.mod_add _ 1), Z.mod_small in Hlt by lia. lia. }
    assert (u64 (sz (proc_at s p) + n) = sz (proc_at s p) + n) as Hw by (unfold u64; apply Z.mod_small; lia).
    rewrite Hw in *. set (A' := unmap_range _ _ _) in *. wp_step. wp_step. wp_step.
    destruct (pmem_resize p s l T A t (sz (proc_at s p) + n) l' T A') as (Hm' & Hat & Hv);
      [done|change TRAPFRAME with ((2 ^ 26 - 2) * 4096); lia|done|].
    destruct (uview_shrink l' T A (mem (ph s)) (mem t) (sz (proc_at s p)) (sz (proc_at s p) + n)) as [Hlo Hhi];
      [lia|change TRAPFRAME with ((2 ^ 26 - 2) * 4096); lia|apply Hu'|done|].
    pose proof (pgroundup_user (sz (proc_at s p) + n) ltac:(change TRAPFRAME with ((2 ^ 26 - 2) * 4096); lia)).
    eapply HQ; [exact Hm'|done|]. apply sbrk_shrunk; [done|done|exact Hat| |]; intros va Hva;
      (etransitivity; [apply Hv|]); [apply Hlo; lia|by apply Hhi].
Qed.


(** ** Page faults *)


(** ** mapzero *)

(** The process after mapzero reserved [n] bytes. *)
Definition mapzeroed (n : Z) (x : proc) : proc :=
  x <| vr := mkvregion (sz x) (i32 n) true |> <| sz := u64 (sz x + n) |>.

Lemma wp_sys_mapzero p s l T A (Q : Z -> kst -> Prop) :
  let n := i32 (uarg p s 0) in
  let s1 := s <| procs ::= alter (mapzeroed (PGROUNDUP n)) p |> in
  pmem p s l T A -> 0 < n <= 2 ^ 31 - PGSIZE -> sz (proc_at s p) + PGROUNDUP n <= TRAPFRAME ->
  (pmem p s1 l T A -> proc_at s1 p = mapzeroed (PGROUNDUP n) (proc_at s p) ->
   vr (proc_at s1 p) = mkvregion (sz (proc_at s p)) (PGROUNDUP n) true ->
   sz (proc_at s1 p) = sz (proc_at s p) + PGROUNDUP n -> Q (sz (proc_at s p)) s1) ->
  wp sys_mapzero Q s.
Proof.
  intros n s1 Hm Hn Hfit HQ. pose proof Hm as [Hc Hp Hs Hu].
  assert (0 < PGROUNDUP n < 2 ^ 31) as Hr.
  { unfold PGSIZE in *. rewrite PGROUNDUP_eq by (unfold PGSIZE; lia). unfold PGSIZE. Z.div_mod_to_equations. lia. }
  change TRAPFRAME with ((2 ^ 26 - 2) * 4096) in *.
  assert (i32 (PGROUNDUP n) = PGROUNDUP n) as Hi by (unfold i32; rewrite Z.mod_small; lia).
  assert (u64 (sz (proc_at s p) + PGROUNDUP n) = sz (proc_at s p) + PGROUNDUP n) as Hw by (apply Z.mod_small; lia).
  assert (proc_at s1 p = mapzeroed (PGROUNDUP n) (proc_at s p)) as Hat by (by apply proc_at_updp).
  assert (sz (proc_at s1 p) = sz (proc_at s p) + PGROUNDUP n) as Hsz by (by rewrite Hat).
  assert (vr (proc_at s1 p) = mkvregion (sz (proc_at s p)) (PGROUNDUP n) true) as Hvr.
  { rewrite Hat. unfold mapzeroed. cbn. by rewrite Hi. }
  unfold sys_mapzero. apply wp_bind, (wp_argint p); [done|lia|]. fold n.
  destruct (Z.leb_spec n 0); [lia|]. apply wp_bind, (wp_myproc p); [done|]. wp_step. wp_step. wp_step. wp_step. wp_step.
  change (Q (vr_start (vr (proc_at s1 p))) s1). rewrite Hvr. apply HQ; try done. split; try done.
  - change (p < length (alter (mapzeroed (PGROUNDUP n)) p (procs s)))%nat. by rewrite length_alter.
  - change TRAPFRAME with ((2 ^ 26 - 2) * 4096). lia.
  - by rewrite Hat.
Qed.

(** C35: mapzero of [n] bytes reserves the pages above the end of the memory and
    returns where they start; the first access to one of them finds a page
    filled with the letter A.  At every other address the process sees what it
    would see had it only grown by that many bytes.  Only with no memory left
    the access kills the process. *)
Theorem mapzero_first_touch p s l T A off cause :
  let n := i32 (uarg p s 0) in
  let a := sz (proc_at s p) in
  pmem p s l T A -> locks s = [] -> 0 < n <= 2 ^ 31 - PGSIZE -> a + PGROUNDUP n <= TRAPFRAME ->
  0 <= off < PGROUNDUP n -> A !! vpn_of (a + off) = None ->
  wp (r ← sys_mapzero; user_pagefault p (r + off) cause;; mret r)
    (fun r s' => exists l' T' A', pmem p s' l' T' A' /\ locks s' = [] /\
       r = a /\ sz (proc_at s' p) = a + PGROUNDUP n /\
       ((pkilled (proc_at s' p) = true /\ (length l' <= 1)%nat /\
         forall va, pview p s' A' va = uview (mem (ph s)) A (a + PGROUNDUP n) va) \/
        forall va, pview p s' A' va =
          if decide (vpn_of va = vpn_of (a + off)) then Some 65
          else uview (mem (ph s)) A (a + PGROUNDUP n) va)) s.
Proof.
  intros n a Hm HL Hn Hfit Hoff Hfree. subst n a. apply wp_bind, (wp_sys_mapzero p s l T A); [done..|].
  set (s1 := s <| procs ::= _ |>). intros Hm1 Hat Hvr Hsz.
  assert (in_vr (proc_at s1 p) (sz (proc_at s p) + off)) as Hin.
  { unfold in_vr. rewrite Hvr. cbn [vr_active vr_start vr_size]. split; [done|lia]. }
  assert (0 <= sz (proc_at s p)) by apply Hm.
  apply wp_bind, (wp_user_pagefault p _ _ s1 l T A); [done|done|lia| |done|].
  { intros _. rewrite Hvr, Hsz. cbn [vr_start vr_size]. lia. }
  intros s' l' T' A' Hm' HL' He. wp_step. exists l', T', A'. split; [done|]. split; [done|]. split; [done|].
  destruct He as [Hp' -> Hv Hl _|q _ Hp' -> Hadd|q Hnin]; [| |by destruct Hnin].
  - rewrite Hp'. split; [exact Hsz|]. left. split; [done|]. split; [by apply Hl|]. intros va. rewrite Hv.
    unfold pview. by rewrite Hsz.
  - rewrite Hp'. split; [exact Hsz|]. right. intros va. unfold pview. rewrite Hp', <- Hsz. apply Hadd.
Qed.

(** ** map_ro *)

(** The contents of the page map_ro maps. *)
Definition ro_byte (i : Z) : Z := default 0 (map_ro_msg !! Z.to_nat i).

Lemma ro_page m p :
  let m' := st_bytes (memset m p 0 PGSIZE) p map_ro_msg in
  agree (fun a => ~ in_page p a) m m' /\
  forall i, 0 <= i < PGSIZE -> ldb m' (p + i) = ro_byte i.
Proof.
  assert (length map_ro_msg = 47%nat) as Hlen by reflexivity. split.
  - eapply agree_trans; [apply memset_page_agree|]. eapply agree_sub; [apply st_bytes_agree|].
    intros a Ha. rewrite Hlen. unfold in_page, PGSIZE in Ha. lia.
  - intros i Hi. unfold ro_byte. destruct (decide (i < 47)) as [Hlt|Hge].
    + assert (Forall is_byte map_ro_msg) as HB by (by apply (bool_decide_unpack (Forall (fun b => 0 <= b < 256) map_ro_msg))).
      generalize (memset m p 0 PGSIZE). intros m0. pose proof (ldb_st_bytes map_ro_msg m0 p (Z.to_nat i) HB ltac:(lia)) as H.
      rewrite Z2Nat.id in H by lia. rewrite <- H. reflexivity.
    + rewrite (st_bytes_agree map_ro_msg) by (rewrite Hlen; lia). rewrite lookup_ge_None_2 by lia.
      rewrite memset_spec by done. by rewrite decide_True by lia.
Qed.

(** Map_ro at a page where nothing is mapped gives the process a page it
    can read and not write: it finds the kernel's message there, followed by
    zeros, sees the rest of its memory as before, and every write to the page
    is refused.  Where a page is mapped already, or with no memory left, the
    call returns -1 and changes nothing the process sees.  The address must
    be below MAXVA. *)
Theorem map_ro_read_only p s l T A :
  let va := uarg p s 0 in
  pmem p s l T A -> 0 <= va < MAXVA -> (TRAPFRAME <= PGROUNDDOWN va -> is_Some (A !! vpn_of va)) ->
  wp sys_map_ro (fun r s' => exists l' T' A', pmem p s' l' T' A' /\ locks s' = locks s /\
    ((r = -1 /\ A' = A /\ proc_at s' p = proc_at s p /\ (forall x, pview p s' A x = pview p s A x) /\
      (is_Some (A !! vpn_of va) \/ (length l' <= 1)%nat)) \/
     (r = 0 /\ A !! vpn_of va = None /\ proc_at s' p = (proc_at s p) <| map_ro_va := PGROUNDDOWN va |> /\
      page_added (mem (ph s)) (mem (ph s')) A A' (sz (proc_at s p)) (vpn_of va) ro_byte /\
      forall x, vpn_of x = vpn_of va -> unwritable (mem (ph s')) A' (sz (proc_at s' p)) x))) s.
Proof.
  intros va Hm Hva Htop. pose proof Hm as [Hc Hp Hs Hu]. pose proof (PGROUNDDOWN_le va ltac:(lia)).
  unfold sys_map_ro, argaddr. apply wp_bind, (wp_argraw p); [done|lia|]. fold va.
  apply wp_bind, (wp_myproc p); [done|]. wp_step. wp_step. wp_step. cbv zeta. apply wp_bind, wp_zoom.
  apply (wp_ismapped _ l _ T A); [apply Hu|lia|]. rewrite vpn_of_PGROUNDDOWN.
  change (lset (lget s) s) with (s <| ph := ph s |>). replace (s <| ph := ph s |>) with s by (by destruct s).
  case_bool_decide as Hmap.
  { wp_step. exists l, T, A. split; [done|]. split; [done|]. left. auto 10. }
  assert (PGROUNDDOWN va < TRAPFRAME) by (destruct (Z.ltb_spec (PGROUNDDOWN va) TRAPFRAME); [done|by destruct Hmap; apply Htop]).
  apply eq_None_not_Some in Hmap.
  apply wp_alloc_map_zoom. eapply (wp_alloc_map_view _ l _ T A (PGROUNDDOWN va) (sz (proc_at s p)) _ _
    (fun p m => st_bytes (memset m p 0 PGSIZE) p map_ro_msg) ro_byte);
    [done|lia|apply PGROUNDDOWN_aligned|done|done|by rewrite vpn_of_PGROUNDDOWN|reflexivity|intros; apply ro_page| |].
  - intros t l' T' o Ho Hu' Hl Hv.
    assert (pmem p (s <| ph := t |>) l' T' A) as Hm' by (by split).
    destruct Ho as [-> | ->]; wp_step; exists l', T', A; auto 10.
  - rewrite vpn_of_PGROUNDDOWN. intros t q l' T' A' Hq Hu' Hadd. wp_step. wp_step. wp_step.
    set (f := fun x => x <| map_ro_va := PGROUNDDOWN va |>).
    exists l', T', A'. split; [apply (pmem_update p s l T A t f); done|]. split; [done|]. right. split; [done|].
    split; [done|]. split; [exact (proc_at_updp s p f Hp)|]. split; [exact Hadd|].
    intros x Hx. right. exists (mkpte q (Z.lor (Z.lor PTE_R PTE_U) PTE_V)). split; [by rewrite Hx; apply lookup_insert_eq|].
    by rewrite has_mkpte.
Qed.

End faults.

(** ** Instances on the small machine *)

Section instances.
#[local] Existing Instance small.

(** The process of the small machine in a system call with argument [v]. *)
Definition small_call (v : Z) : kst :=
  (small_kst ∅) <| ph := small_state <| mem := st64 (mem small_state) (sp 7 + TF_a 0) v |> |>
                <| procs := (small_proc <| trapframe := sp 7 |>) :: replicate 63 proc0 |>.

Lemma small_pmem v : pmem 0 (small_call v) small_free {[(2, 0) := sp 8]} ∅.
Proof.
  split; [done| |done|].
  - change (0 < S (length (replicate 63 proc0)))%nat. lia.
  - destruct small_uspace as [Has Ho]. split; [|done]. apply (aspace_frame_page small_state _ _ _ _ _ (sp 7)); [done|done| | |].
    + apply (bool_decide_unpack _). vm_compute. exact I.
    + intros (k & Hk). apply lookup_singleton_Some in Hk as [_ Hk]. discriminate Hk.
    + apply (st64_page_agree _ (sp 7) 14). lia.
Qed.

Lemma small_uarg v : is_u64 v -> uarg 0 (small_call v) 0 = v.
Proof. intros Hv. etransitivity; [exact (ld_st_eq 8 (mem small_state) (sp 7 + TF_a 0) v)|]. by apply Z.mod_small. Qed.

Definition sT : tables := {[(2, 0) := sp 8]}.



Lemma mapzero_first_touch_witness :
  let s := small_call 5000 in
  let n := i32 (uarg 0 s 0) in
  n = 5000 /\
  wp (r ← sys_mapzero; user_pagefault 0 (r + 4097) 13;; mret r)
    (fun r s' => exists l' T' A', pmem 0 s' l' T' A' /\ locks s' = [] /\
       r = 8192 /\ sz (proc_at s' 0) = 8192 + PGROUNDUP n /\
       ((pkilled (proc_at s' 0) = true /\ (length l' <= 1)%nat /\
         forall va, pview 0 s' A' va = uview (mem (ph s)) ∅ (8192 + PGROUNDUP n) va) \/
        forall va, pview 0 s' A' va =
          if decide (vpn_of va = vpn_of (8192 + 4097)) then Some 65
          else uview (mem (ph s)) ∅ (8192 + PGROUNDUP n) va)) s.
Proof.
  cbv zeta. split; [by rewrite small_uarg|].
  apply (mapzero_first_touch 0 (small_call 5000) small_free sT ∅ 4097 13); [apply small_pmem|done|..];
    rewrite ?small_uarg by done; done.
Defined.

Lemma map_ro_read_only_witness :
  let s := small_call 0x40000010 in
  let va := uarg 0 s 0 in
  va = 0x40000010 /\
  wp sys_map_ro (fun r s' => exists l' T' A', pmem 0 s' l' T' A' /\ locks s' = locks s /\
    ((r = -1 /\ A' = ∅ /\ proc_at s' 0 = proc_at s 0 /\ (forall x, pview 0 s' ∅ x = pview 0 s ∅ x) /\
      (is_Some ((∅ : leaves) !! vpn_of va) \/ (length l' <= 1)%nat)) \/
     (r = 0 /\ (∅ : leaves) !! vpn_of va = None /\ proc_at s' 0 = (proc_at s 0) <| map_ro_va := PGROUNDDOWN va |> /\
      page_added (mem (ph s)) (mem (ph s')) ∅ A' (sz (proc_at s 0)) (vpn_of va) ro_byte /\
      forall x, vpn_of x = vpn_of va -> unwritable (mem (ph s')) A' (sz (proc_at s' 0)) x))) s.
Proof.
  cbv zeta. split; [by rewrite small_uarg|].
  apply (map_ro_read_only 0 (small_call 0x40000010) small_free sT ∅); [apply small_pmem|..];
    rewrite ?small_uarg by done; done.
Defined.

End instances.
