(* ===== verification/Limits.v ===== *)
(** * The memory system calls at their edges

    Runs of the model from a fresh machine that end where the code does not
    mean to: a panic a user program can provoke, a page that is freed while it
    is mapped, a trace line with the wrong argument.  Each run boots the
    allocator, creates a process with the code of [allocproc] and makes the
    system calls in order; the results are computed. *)

From Stdlib Require Import String.
From S2P Require Import Prelude CMem Riscv Kalloc Vm PageTable UserMem VmTheorems KState Sched Printf Fs Console File PipeSpec Proc Exec Sysproc Syscall Trap TrapSpec.

Lemma bind_Ok {S A B} (m : M S A) (f : A -> M S B) s a s' : m s = Ok a s' -> (m ≫= f) s = f a s'.
Proof. unfold mbind, M_bind. by intros ->. Qed.

(** C36: map_ro of an address at or beyond MAXVA panics the kernel in [walk]; the
    argument comes from the user program unchecked. *)
Theorem map_ro_beyond_maxva {KL : KLayout} p s :
  cur s = Some p -> MAXVA <= PGROUNDDOWN (uarg p s 0) -> sys_map_ro s = Panic "walk".
Proof.
  intros Hc Hva. assert (wp (argaddr 0) (fun v s' => v = uarg p s 0 /\ s' = s) s) as Ha
    by (by apply (wp_argraw p)).
  apply wp_inv in Ha as (v & s' & Ha & -> & ->). unfold sys_map_ro. rewrite (bind_Ok _ _ _ _ _ Ha).
  rewrite (bind_Ok myproc _ s p s) by (unfold myproc; unfold mbind, M_bind; cbn; by rewrite Hc).
  rewrite (bind_Ok (getp p) _ s (proc_at s p) s) by done. cbv zeta. unfold zoom, ismapped, walk.
  destruct (Z.leb_spec MAXVA (PGROUNDDOWN (uarg p s 0))); [done|lia].
Qed.

Lemma map_ro_beyond_maxva_witness :
  uarg 0 (small_call (2 ^ 39)) 0 = 2 ^ 39 /\ sys_map_ro (KL := small) (small_call (2 ^ 39)) = Panic "walk".
Proof.
  split; [by rewrite small_uarg|].
  apply (map_ro_beyond_maxva (KL := small) 0); [reflexivity|]. rewrite small_uarg by done. vm_compute. congruence.
Defined.

(** ** A machine of 32 pages *)

Definition machine : KLayout := small_layout 32 ltac:(lia).

Section runs.
#[local] Existing Instance machine.

(** The kernel's memory at boot: everything zero, one inode in use. *)
Definition boot : kst :=
  mkkst (mkphys ∅ 0 false) [] (replicate (Z.to_nat NPROC) proc0) None 1 None false 0 0 0 [] [] (mkdisk ∅ [])
    log0 (mksuperblock 0 0 0 0 0 0 0 0) (replicate 50 inode0) [] ∅ (mkconsole [] 0 0 0 false [] [])
    (mkcsrs 0 0 0 0 0 0 0 0) 0 false.

(** The first process runs. *)
Definition start : M kst unit :=
  zoom kinit;;
  p ← allocproc;
  release (Lproc 0);;
  updp 0 (fun x => x <| state := RUNNING |> <| cwd := Some 0%nat |>);;
  modify (fun s => s <| cur := p |>).

(** A system call with argument [v]. *)
Definition call (v : Z) (f : M kst Z) : M kst Z := tf_set (TF_a 0) v;; f.

Definition panic_of {A} (r : result kst A) : option string :=
  match r with Panic m => Some m | _ => None end.

(** ** map_ro *)


(** ** mapzero *)


(** ** The shared page *)

(** Is [q] on the free list, among its first [n] pages? *)
Fixpoint on_freelist (n : nat) (m : memory) (head q : Z) : bool :=
  match n with
  | O => false
  | S n => if head =? 0 then false else (head =? q) || on_freelist n m (ld64 m head) q
  end.

(** The page is free and mapped by process [p] at its [shm_va]. *)
Definition freed_while_mapped (p : nat) (s : kst) : bool :=
  on_freelist 32 (mem (ph s)) (freelist (ph s)) (shared_page s) &&
  match walkaddr (pagetable (proc_at s p)) (shm_va (proc_at s p)) (ph s) with
  | Ok pa _ => pa =? shared_page s
  | _ => false
  end.


(** ** trace *)

(** The trace line prints the register a0 after the result was stored there,
    so its first argument is the result: getpid by process 1 with 77 in a0 is
    traced with first argument 1. *)
Theorem trace_shows_result :
  match (start;; updp 0 (fun x => x <| trace_mask := 2 ^ SYS_getpid |>);;
         tf_set TF_a7 SYS_getpid;; for_range 6 0 (fun i => tf_set (TF_a i) (77 + i));; syscall []) boot with
  | Ok _ s => uart_out (kcons s)
  | _ => []
  end = str "[trace] pid 1: syscall getpid (num=11) args=(1, 78, 79, 80, 81, 82) -> 1" ++ [10].
Proof. vm_compute. reflexivity. Qed.

End runs.
