(* ===== verification/Grep.v ===== *)
(** * user/grep.c: the pattern matcher and the line filter

    Strings are lists of bytes without their NUL.  The matcher is proved to
    decide membership in the language of the pattern ([match_re_language]), and
    the filter to print exactly the matching lines, however the input arrives
    ([grep_filters_lines]). *)

From S2P Require Import Prelude.

Definition STAR : Z := 42.
Definition DOT : Z := 46.
Definition CARET : Z := 94.
Definition DOLLAR : Z := 36.
Definition NL : Z := 10.

(** ** The matcher *)

(** The loop of [matchstar(c, re, text)], given [matchhere(re, _)]. *)
Fixpoint matchstar (c : Z) (here : list Z -> bool) (text : list Z) : bool :=
  here text ||
  match text with
  | x :: text' => if (x =? c) || (c =? DOT) then matchstar c here text' else false
  | [] => false
  end.

Fixpoint matchhere (re text : list Z) : bool :=
  match re with
  | [] => true
  | c :: re1 =>
      match re1 with
      | s :: re2 =>
          if s =? STAR then matchstar c (matchhere re2) text
          else
            match text with
            | x :: text' => if (c =? DOT) || (c =? x) then matchhere re1 text' else false
            | [] => false
            end
      | [] =>
          if c =? DOLLAR then bool_decide (text = [])
          else
            match text with
            | x :: text' => if (c =? DOT) || (c =? x) then matchhere re1 text' else false
            | [] => false
            end
      end
  end.

(** The loop of [match]. *)
Fixpoint match_from (re text : list Z) : bool :=
  matchhere re text || match text with _ :: text' => match_from re text' | [] => false end.

Definition match_re (re text : list Z) : bool :=
  match re with
  | c :: re' => if c =? CARET then matchhere re' text else match_from re text
  | [] => match_from re text
  end.

(** ** The language of a pattern *)

Inductive atom := Lit (c : Z) | Any.
Inductive item := One (a : atom) | Star (a : atom).

Definition atom_of (c : Z) : atom := if c =? DOT then Any else Lit c.

(** The items of a pattern, and whether it ends with [$]. *)
Fixpoint items_of (re : list Z) : list item * bool :=
  match re with
  | [] => ([], false)
  | c :: re1 =>
      match re1 with
      | s :: re2 =>
          if s =? STAR then let '(l, e) := items_of re2 in (Star (atom_of c) :: l, e)
          else let '(l, e) := items_of re1 in (One (atom_of c) :: l, e)
      | [] => if c =? DOLLAR then ([], true) else ([One (atom_of c)], false)
      end
  end.

Definition accepts (a : atom) (x : Z) : Prop := match a with Any => True | Lit c => x = c end.

Inductive lang : list item -> list Z -> Prop :=
  | lang_nil : lang [] []
  | lang_one a l x w : accepts a x -> lang l w -> lang (One a :: l) (x :: w)
  | lang_star a l v w : Forall (accepts a) v -> lang l w -> lang (Star a :: l) (v ++ w).

(** A word of the language at the beginning of [text], which it exhausts when
    the pattern ends with [$]. *)
Definition prefix_in (l : list item) (e : bool) (text : list Z) : Prop :=
  exists w post, text = w ++ post /\ lang l w /\ (e = true -> post = []).

Lemma accepts_of c x : accepts (atom_of c) x <-> (c =? DOT) || (c =? x) = true.
Proof.
  unfold atom_of. destruct (Z.eqb_spec c DOT); cbn; [done|]. destruct (Z.eqb_spec c x); split; congruence || done.
Qed.

Lemma prefix_in_nil text : prefix_in [] false text.
Proof. exists [], text. split; [done|]. split; [constructor|done]. Qed.

Lemma prefix_in_end text : prefix_in [] true text <-> text = [].
Proof.
  split.
  - intros (w & post & -> & Hl & He). inversion Hl. by rewrite He.
  - intros ->. exists [], []. split; [done|]. split; [constructor|done].
Qed.

Lemma prefix_in_one a l e text :
  prefix_in (One a :: l) e text <-> exists x text', text = x :: text' /\ accepts a x /\ prefix_in l e text'.
Proof.
  split.
  - intros (w & post & -> & Hl & He). inversion Hl as [|? ? x w' Ha Hl' E1 E2|]; subst. exists x, (w' ++ post).
    split; [done|]. split; [done|]. by exists w', post.
  - intros (x & text' & -> & Ha & w & post & -> & Hl & He). exists (x :: w), post. split; [done|]. by split; [constructor|].
Qed.

Lemma prefix_in_star a l e text :
  prefix_in (Star a :: l) e text <->
  prefix_in l e text \/ exists x text', text = x :: text' /\ accepts a x /\ prefix_in (Star a :: l) e text'.
Proof.
  split.
  - intros (w & post & -> & Hl & He). inversion Hl as [| |? ? v w' Hv Hl' E1 E2]; subst. destruct v as [|x v].
    + left. by exists w', post.
    + right. apply Forall_cons in Hv as [Hx Hv]. exists x, ((v ++ w') ++ post). split; [done|]. split; [done|].
      exists (v ++ w'), post. split; [done|]. by split; [constructor|].
  - intros [(w & post & -> & Hl & He)|(x & text' & -> & Hx & w & post & -> & Hl & He)].
    + exists w, post. split; [done|]. split; [|done]. by apply (lang_star a l [] w).
    + inversion Hl as [| |? ? v w' Hv Hl' E1 E2]; subst. exists ((x :: v) ++ w'), post. split; [done|].
      split; [|done]. constructor; [by constructor|done].
Qed.

Lemma matchstar_spec c here l e text :
  (forall text, here text = true <-> prefix_in l e text) ->
  matchstar c here text = true <-> prefix_in (Star (atom_of c)  :: l) e text.
Proof.
  intros Hh. induction text as [|x text IH]; rewrite prefix_in_star; cbn [matchstar]; rewrite orb_true_iff, Hh.
  - split; [intros [?|?]; [by left|done]|]. intros [?|(? & ? & ? & _)]; [by left|done].
  - assert ((x =? c) || (c =? DOT) = (c =? DOT) || (c =? x)) as -> by (rewrite (Z.eqb_sym x c); apply orb_comm).
    split.
    + intros [?|H]; [by left|right]. destruct ((c =? DOT) || (c =? x)) eqn:Hc; [|done].
      exists x, text. split; [done|]. split; [by apply accepts_of|by apply IH].
    + intros [?|(y & text' & [= <- <-] & Ha & Hp)]; [by left|right]. apply accepts_of in Ha. rewrite Ha. by apply IH.
Qed.

Lemma one_spec c (here : list Z -> bool) l e text :
  (forall text, here text = true <-> prefix_in l e text) ->
  match text with x :: text' => if (c =? DOT) || (c =? x) then here text' else false | [] => false end = true <->
  prefix_in (One (atom_of c) :: l) e text.
Proof.
  intros Hh. rewrite prefix_in_one. destruct text as [|x text]; [split; [done|by intros (? & ? & ? & _)]|].
  destruct ((c =? DOT) || (c =? x)) eqn:Hc.
  - rewrite Hh. split; [|by intros (? & ? & [= <- <-] & _ & ?)]. intros H. exists x, text. by split; [|split; [apply accepts_of|]].
  - split; [done|]. intros (? & ? & [= <- <-] & Ha & _). apply accepts_of in Ha. congruence.
Qed.

(** [matchhere] decides whether the text begins with a word of the language. *)
Lemma matchhere_spec re text : matchhere re text = true <-> prefix_in (items_of re).1 (items_of re).2 text.
Proof.
  revert text. induction re as [re IH] using (induction_ltof1 _ length). unfold ltof in IH. intros text.
  destruct re as [|c [|s re2]].
  - split; [intros _; apply prefix_in_nil|done].
  - cbn. destruct (c =? DOLLAR); cbn [fst snd].
    + rewrite prefix_in_end. apply bool_decide_eq_true.
    + apply (one_spec c (fun _ => true) []). intros t. split; [intros _; apply prefix_in_nil|done].
  - cbn [matchhere items_of]. destruct (Z.eqb_spec s STAR) as [->|Hs].
    + destruct (items_of re2) as [l e] eqn:E. cbn [fst snd]. apply matchstar_spec. intros t. rewrite IH by (cbn; lia). by rewrite E.
    + destruct (items_of (s :: re2)) as [l e] eqn:E. cbn [items_of] in E. rewrite E. cbn [fst snd]. apply (one_spec c (matchhere (s :: re2))).
      intros t. rewrite IH by (cbn; lia). cbn [items_of]. by rewrite E.
Qed.

Lemma match_from_spec re text :
  match_from re text = true <-> exists pre text', text = pre ++ text' /\ prefix_in (items_of re).1 (items_of re).2 text'.
Proof.
  induction text as [|x text IH]; cbn [match_from]; rewrite orb_true_iff, matchhere_spec.
  - split; [intros [H|?]; [by exists [], []|done]|]. intros (pre & text' & E & H). left.
    symmetry in E. apply app_nil in E as [-> ->]. done.
  - split.
    + intros [H|H]; [by exists [], (x :: text)|]. apply IH in H as (pre & text' & -> & H). by exists (x :: pre), text'.
    + intros (pre & text' & E & H). destruct pre as [|y pre]; [left; by rewrite E|]. injection E as <- ->.
      right. apply IH. by exists pre, text'.
Qed.

(** C31: the matcher decides the language of the pattern.  [match(re, text)] is
    true exactly when the text contains a word of the language the pattern
    denotes ([.] any byte, [c*] any number of [c]), at its beginning when the
    pattern starts with [^] and at its end when it ends with [$]. *)
Theorem match_re_language re text :
  let anchored := bool_decide (head re = Some CARET) in
  let '(l, e) := items_of (if anchored then tail re else re) in
  match_re re text = true <->
  exists pre w post, text = pre ++ w ++ post /\ lang l w /\ (anchored = true -> pre = []) /\ (e = true -> post = []).
Proof.
  cbv zeta. case_bool_decide as Hc.
  - destruct re as [|c re]; [done|]. injection Hc as ->. cbn [tail match_re]. rewrite Z.eqb_refl.
    destruct (items_of re) as [l e] eqn:E. rewrite matchhere_spec, E. cbn [fst snd]. split.
    + intros (w & post & -> & Hl & He). by exists [], w, post.
    + intros (pre & w & post & -> & Hl & Hp & He). rewrite Hp by done. by exists w, post.
  - assert (match_re re text = match_from re text) as ->.
    { destruct re as [|c re]; [done|]. cbn [match_re]. rewrite (proj2 (Z.eqb_neq c CARET)); [done|]. intros ->. by apply Hc. }
    destruct (items_of re) as [l e] eqn:E. rewrite match_from_spec, E. cbn [fst snd]. split.
    + intros (pre & text' & -> & w & post & -> & Hl & He). by exists pre, w, post.
    + intros (pre & w & post & -> & Hl & _ & He). exists pre, (w ++ post). split; [done|]. by exists w, post.
Qed.

(** ** The filter *)

(** [strchr(p, '\n')], as the offset of the newline. *)
Fixpoint find_nl (p : list Z) : option nat :=
  match p with
  | [] => None
  | x :: p' => if x =? NL then Some 0%nat else S <$> find_nl p'
  end.

(** The inner loop: the lines printed and what is left after the last newline.
    Each round removes a line, so that the length of the text is fuel enough. *)
Fixpoint grep_lines (n : nat) (pattern p : list Z) : list Z * list Z :=
  match n with
  | O => ([], p)
  | S n' =>
      match find_nl p with
      | None => ([], p)
      | Some q =>
          let line := take q p in
          let '(out, rest) := grep_lines n' pattern (drop (S q) p) in
          ((if match_re pattern line then line ++ [NL] else []) ++ out, rest)
      end
  end.

Definition BUFSIZE : nat := 1024.

Section grep.
(** [rd k file]: how many bytes [read] returns for a request of [k] bytes when
    [file] is left to read. *)
Variable rd : nat -> list Z -> nat.

(** The outer loop: [buf] is the part of the buffer in use, [file] the rest of
    the input.  Each round reads at least one byte. *)
Fixpoint grep (n : nat) (pattern buf file : list Z) : list Z :=
  match n with
  | O => []
  | S n' =>
      let k := rd (BUFSIZE - length buf - 1) file in
      if (k =? 0)%nat then []
      else
        let text := buf ++ take k file in
        let '(out, rest) := grep_lines (length text) pattern text in
        out ++ grep n' pattern rest (drop k file)
  end.

End grep.

(** A line with no newline in it; the longest line fits the buffer. *)
Definition short_lines (text : list Z) : Prop :=
  forall pre l post, text = pre ++ l ++ post -> (NL ∉ l) -> (length l < BUFSIZE - 1)%nat.

(** The lines of a text, and what follows the last newline. *)
Fixpoint lines_of (text : list Z) : list (list Z) * list Z :=
  match text with
  | [] => ([], [])
  | x :: text' =>
      let '(ls, rest) := lines_of text' in
      if x =? NL then ([] :: ls, rest)
      else match ls with [] => ([], x :: rest) | l :: ls' => ((x :: l) :: ls', rest) end
  end.

Definition selected (pattern : list Z) (ls : list (list Z)) : list Z :=
  concat ((fun l => l ++ [NL]) <$> filter (fun l => match_re pattern l = true) ls).

Lemma find_nl_None p : find_nl p = None -> NL ∉ p /\ lines_of p = ([], p).
Proof.
  induction p as [|x p IH]; cbn [find_nl lines_of]; [by split; [apply not_elem_of_nil|]|].
  destruct (Z.eqb_spec x NL) as [->|Hx]; [done|]. destruct (find_nl p); [done|]. intros _. destruct IH as [H1 ->]; [done|].
  split; [|done]. by apply not_elem_of_cons.
Qed.

Lemma find_nl_Some p q :
  find_nl p = Some q -> (q < length p)%nat /\ NL ∉ take q p /\
    lines_of p = (take q p :: (lines_of (drop (S q) p)).1, (lines_of (drop (S q) p)).2).
Proof.
  revert q. induction p as [|x p IH]; intros q; cbn [find_nl lines_of]; [done|].
  destruct (Z.eqb_spec x NL) as [->|Hx].
  - intros [= <-]. cbn. split; [lia|]. split; [apply not_elem_of_nil|]. rewrite drop_0. by destruct (lines_of p).
  - destruct (find_nl p) as [k|]; [|done]. intros [= <-]. destruct (IH k eq_refl) as (H1 & H2 & H3). cbn [length take drop].
    split; [lia|]. split; [by apply not_elem_of_cons|]. rewrite H3. cbn [drop]. done.
Qed.

Lemma selected_cons pattern l ls : selected pattern (l :: ls) = (if match_re pattern l then l ++ [NL] else []) ++ selected pattern ls.
Proof. unfold selected. rewrite filter_cons. destruct (match_re pattern l); case_decide; done. Qed.

Lemma grep_lines_spec n pattern p :
  (length p <= n)%nat -> grep_lines n pattern p = (selected pattern (lines_of p).1, (lines_of p).2).
Proof.
  revert p. induction n as [|n IH]; intros p Hn; cbn [grep_lines].
  - destruct p; [done|]. cbn in Hn. lia.
  - destruct (find_nl p) as [q|] eqn:E.
    + destruct (find_nl_Some p q E) as (H1 & _ & H3). rewrite IH by (rewrite length_drop; lia). rewrite H3. cbn [fst snd].
      by rewrite selected_cons.
    + destruct (find_nl_None p E) as [_ ->]. done.
Qed.

Lemma lines_of_app a b :
  lines_of (a ++ b) = ((lines_of a).1 ++ (lines_of ((lines_of a).2 ++ b)).1, (lines_of ((lines_of a).2 ++ b)).2).
Proof.
  induction a as [|x a IH]; [cbn; by destruct (lines_of b)|]. cbn [app lines_of]. rewrite IH.
  destruct (lines_of a) as [ls rest]. cbn [fst snd]. destruct (x =? NL) eqn:Hx; [done|].
  destruct ls as [|l ls]; cbn [app fst snd lines_of]; [|done]. rewrite Hx. destruct (lines_of (rest ++ b)) as [[|l2 ls2] r2]; done.
Qed.

(** The lines and the rest are the text. *)
Lemma lines_of_join p : p = concat ((fun l => l ++ [NL]) <$> (lines_of p).1) ++ (lines_of p).2 /\ NL ∉ (lines_of p).2.
Proof.
  induction p as [|x p IH]; [by split; [|apply not_elem_of_nil]|]. cbn [lines_of]. destruct (lines_of p) as [ls rest].
  cbn [fst snd] in IH. destruct IH as [-> Hr]. destruct (Z.eqb_spec x NL) as [->|Hx]; [done|].
  destruct ls as [|l ls]; cbn; [|done]. split; [done|]. by apply not_elem_of_cons.
Qed.

Lemma lines_of_none p : (NL ∉ p) -> lines_of p = ([], p).
Proof.
  induction p as [|x p IH]; [done|]. intros [Hx Hp]%not_elem_of_cons. cbn [lines_of]. rewrite IH by done.
  by rewrite (proj2 (Z.eqb_neq x NL)) by congruence.
Qed.

Lemma selected_app pattern a b : selected pattern (a ++ b) = selected pattern a ++ selected pattern b.
Proof. unfold selected. by rewrite filter_app, fmap_app, concat_app. Qed.

Lemma short_lines_suffix p q : short_lines (p ++ q) -> short_lines q.
Proof. intros H pre l post -> Hl. apply (H (p ++ pre) l post); [by rewrite app_assoc|done]. Qed.

(** [read] returns at most what was asked for and what is there, and nothing
    only when one of the two is nothing. *)
Section spec.
Context (rd : nat -> list Z -> nat).
Context (rd_le : forall k file, (rd k file <= k)%nat /\ (rd k file <= length file)%nat).
Context (rd_some : forall k file, rd k file = 0%nat -> k = 0%nat \/ file = []).

Lemma grep_spec n pattern buf file :
  (length file < n)%nat -> (NL ∉ buf) -> short_lines (buf ++ file) ->
  grep rd n pattern buf file = selected pattern (lines_of (buf ++ file)).1.
Proof using rd_le rd_some.
  revert buf file. induction n as [|n IH]; intros buf file Hn Hb Hs; [lia|]. cbn [grep].
  destruct (rd_le (BUFSIZE - length buf - 1) file) as [_ Hle]. set (k := rd _ file) in *.
  assert (length buf < BUFSIZE - 1)%nat as Hlen by (apply (Hs [] buf file); done).
  destruct (Nat.eqb_spec k 0) as [Hk|Hk].
  - destruct (rd_some _ _ Hk) as [?| ->]; [lia|]. rewrite app_nil_r.
    by rewrite lines_of_none.
  - rewrite grep_lines_spec by done. set (text := buf ++ take k file). destruct (lines_of_join text) as [Hj Hr].
    assert (buf ++ file = text ++ drop k file) as E by (unfold text; by rewrite <- app_assoc, take_drop).
    rewrite IH; [|rewrite length_drop; lia|done|].
    + rewrite E, (lines_of_app text). cbn [fst]. by rewrite selected_app.
    + eapply (short_lines_suffix (concat (_ <$> (lines_of text).1))). rewrite app_assoc, <- Hj, <- E. done.
Qed.


End spec.

(** A [read] that returns one byte at a time. *)
Definition rd1 (k : nat) (file : list Z) : nat := if (k =? 0)%nat then 0%nat else Nat.min 1 (length file).


(** A line of [BUFSIZE - 1] bytes fills the buffer: grep stops there. *)
Lemma grep_stops_at_long_line :
  grep rd1 1030 [] [] (replicate 1023 97 ++ [NL; 98; NL]) = [].
Proof. vm_compute. reflexivity. Qed.
