(* ===== verification/Umalloc.v ===== *)
(** * user/umalloc.c: the storage allocator of the user programs

    Addresses count units of [sizeof(Header)] bytes; the memory gives the header
    a unit would be read as.  The free blocks form a circular list sorted by
    address, which starts at [base]. *)

From S2P Require Import Prelude.

Record Header := mkheader { hptr : Z; hsize : Z }.

#[export] Instance eta_Header : Eta Header := fun x => mkheader (hptr x) (hsize x).

Definition HSIZE : Z := 16.

(** The memory, [freep] (0 for null), and the break, in units. *)
Record heap := mkheap { hmem : Z -> Header; freep : Z; hbrk : Z }.

#[export] Instance eta_heap : Eta heap := fun x => mkheap (hmem x) (freep x) (hbrk x).

Definition hset (m : Z -> Header) (a : Z) (h : Header) : Z -> Header := fun x => if x =? a then h else m x.

Definition getH (a : Z) : M heap Header := gets (fun s => hmem s a).
Definition setH (a : Z) (f : Header -> Header) : M heap unit :=
  modify (fun s => s <| hmem ::= fun m => hset m a (f (m a)) |>).

#[export] Hint Unfold getH setH : wp_prim.

Section umalloc.
(** [&base], and whether [sbrk] grants [n] more bytes at break [b]. *)
Context (base : Z) (grants : Z -> Z -> bool).

(** [sbrk(n)] for a number of bytes that is a multiple of the unit: the old
    break, or [None] for SBRK_ERROR.  The argument is an [int]. *)
Definition sbrk (n : Z) : M heap (option Z) :=
  b ← gets hbrk;
  let n := i32 n in
  if grants b n then modify (fun s => s <| hbrk ::= fun b => b + n / HSIZE |>);; mret (Some b) else mret None.

(** The loop of [free]: the block after which [bp] is inserted. *)
Definition free_find (bp : Z) : M heap Z :=
  p ← gets freep;
  loop (fun p =>
    h ← getH p;
    if (p <? bp) && (bp <? hptr h) then mret (inr p)
    else if (hptr h <=? p) && ((p <? bp) || (bp <? hptr h)) then mret (inr p)
    else mret (inl (hptr h))) p.

(** The rest of [free]: [bp] is inserted after [p], and joined with its neighbours. *)
Definition free_link (bp p : Z) : M heap unit :=
  hb ← getH bp;
  h ← getH p;
  (if bp + hsize hb =? hptr h then
     hn ← getH (hptr h);
     setH bp (fun x => x <| hsize := u32 (hsize hb + hsize hn) |> <| hptr := hptr hn |>)
   else setH bp (fun x => x <| hptr := hptr h |>));;
  hb ← getH bp;
  h ← getH p;
  (if p + hsize h =? bp then
     setH p (fun x => x <| hsize := u32 (hsize h + hsize hb) |> <| hptr := hptr hb |>)
   else setH p (fun x => x <| hptr := bp |>));;
  modify (fun s => s <| freep := p |>).

Definition free (ap : Z) : M heap unit :=
  let bp := ap - 1 in
  p ← free_find bp;
  free_link bp p.

(** [freep], or 0. *)
Definition morecore (nu : Z) : M heap Z :=
  let nu := if nu <? 4096 then 4096 else nu in
  r ← sbrk (u64 (nu * HSIZE));
  match r with
  | None => mret 0
  | Some hp =>
      setH hp (fun x => x <| hsize := nu |>);;
      free (hp + 1);;
      gets freep
  end.

Definition units (nbytes : Z) : Z := u32 (u64 (nbytes + HSIZE - 1) / HSIZE + 1).

(** A block [p] that is large enough: all of it, or its tail. *)
Definition malloc_take (nunits prevp p : Z) : M heap Z :=
  h ← getH p;
  p ←
    (if hsize h =? nunits then
       setH prevp (fun x => x <| hptr := hptr h |>);;
       mret p
     else
       setH p (fun x => x <| hsize := u32 (hsize h - nunits) |>);;
       h ← getH p;
       let p := p + hsize h in
       setH p (fun x => x <| hsize := nunits |>);;
       mret p);
  modify (fun s => s <| freep := prevp |>);;
  mret (p + 1).

(** A round of the loop of [malloc], with [prevp] and [p]. *)
Definition malloc_round (nunits : Z) (st : Z * Z) : M heap ((Z * Z) + Z) :=
  let '(prevp, p) := st in
  h ← getH p;
  if nunits <=? hsize h then r ← malloc_take nunits prevp p; mret (inr r)
  else
    fr ← gets freep;
    if p =? fr then
      p ← morecore nunits;
      if p =? 0 then mret (inr 0)
      else h ← getH p; mret (inl (p, hptr h))
    else mret (inl (p, hptr h)).

Definition malloc (nbytes : Z) : M heap Z :=
  let nunits := units nbytes in
  fr ← gets freep;
  prevp ←
    (if fr =? 0 then
       setH base (fun x => x <| hptr := base |>);;
       modify (fun s => s <| freep := base |>);;
       setH base (fun x => x <| hsize := 0 |>);;
       mret base
     else mret fr);
  h ← getH prevp;
  loop (malloc_round nunits) (prevp, hptr h).

End umalloc.

(** ** The circle of free blocks *)

(** A block: the address of its header and its size in units. *)
Abbreviation block := (Z * Z)%type.

Definition addr_of (l : list block) (e : Z) : Z := match l with (a, _) :: _ => a | [] => e end.

(** [l] is linked in memory, its last block to [e]. *)
Fixpoint links (m : Z -> Header) (l : list block) (e : Z) : Prop :=
  match l with
  | [] => True
  | (a, n) :: l' => m a = mkheader (addr_of l' e) n /\ links m l' e
  end.

(** The blocks of [l] lie above [lo], in ascending order, no two adjacent. *)
Fixpoint asc (lo : Z) (l : list block) : Prop :=
  match l with
  | [] => True
  | (a, n) :: l' => lo < a /\ 0 <= n /\ asc (a + n) l'
  end.

Definition apart (x y : block) : Prop := (x.1 < y.1 /\ x.1 + x.2 <= y.1) \/ (y.1 < x.1 /\ y.1 + y.2 <= x.1).

Definition total (l : list block) : Z := foldr (fun x t => x.2 + t) 0 l.

Record pool (base : Z) (s : heap) (c A : list block) : Prop := {
  pl_base : head c = Some (base, 0);
  pl_pos : 0 < base;
  pl_links : links (hmem s) c base;
  pl_asc : asc (base - 1) c;
  pl_freep : freep s ∈ c.*1;
  pl_alloc : forall x, x ∈ A -> hsize (hmem s x.1) = x.2 /\ 0 < x.2 /\ base < x.1;
  pl_free : forall x y, x ∈ c -> y ∈ A -> apart x y;
  pl_pair : ForallOrdPairs apart A;
  pl_top : forall x, x ∈ c ++ A -> x.1 < hbrk s /\ x.1 + x.2 <= hbrk s;
  pl_lim : hbrk s < 2 ^ 32;
}.

(** The units of the blocks of [A]: what belongs to the clients. *)
Definition owned (A : list block) (x : Z) : Prop := exists y, y ∈ A /\ y.1 <= x < y.1 + y.2.

Definition kept (A : list block) (s s' : heap) : Prop := forall x, owned A x -> hmem s' x = hmem s x.

Lemma kept_refl A s : kept A s s.
Proof. by intros ??. Qed.

Lemma kept_trans A s1 s2 s3 : kept A s1 s2 -> kept A s2 s3 -> kept A s1 s3.
Proof. intros H1 H2 x Hx. by rewrite H2, H1. Qed.

Lemma hset_eq m a h : hset m a h a = h.
Proof. unfold hset. by rewrite Z.eqb_refl. Qed.

Lemma hset_ne m a h x : x <> a -> hset m a h x = m x.
Proof. intros H. unfold hset. by rewrite (proj2 (Z.eqb_neq _ _)). Qed.

Lemma apart_sym x y : apart x y -> apart y x.
Proof. unfold apart. tauto. Qed.

Lemma pairs_cons {T} (R : T -> T -> Prop) x l : ForallOrdPairs R (x :: l) <-> Forall (R x) l /\ ForallOrdPairs R l.
Proof. split; [by inversion 1|by intros []; constructor]. Qed.

Lemma pairs_perm l1 l2 : l1 ≡ₚ l2 -> ForallOrdPairs apart l1 -> ForallOrdPairs apart l2.
Proof.
  induction 1 as [|x l1 l2 Hp IH|x y l|l1 l2 l3 _ IH1 _ IH2]; rewrite ?pairs_cons, ?Forall_cons; auto.
  - intros [? ?]. split; [by rewrite <- Hp|auto].
  - intros [[? ?] [? ?]]. auto using apart_sym.
Qed.

Lemma pairs_apart A x y : ForallOrdPairs apart A -> x ∈ A -> y ∈ A -> x = y \/ apart x y.
Proof.
  intros H Hx%list_elem_of_In Hy%list_elem_of_In.
  destruct (ForallOrdPairs_In H _ _ Hx Hy) as [|[|]]; auto using apart_sym.
Qed.

Lemma total_app l1 l2 : total (l1 ++ l2) = total l1 + total l2.
Proof. induction l1 as [|x l IH]; simpl; [done|]. lia. Qed.

Lemma total_perm l1 l2 : l1 ≡ₚ l2 -> total l1 = total l2.
Proof. induction 1; simpl; lia. Qed.

Lemma links_app m l1 l2 e : links m (l1 ++ l2) e <-> links m l1 (addr_of l2 e) /\ links m l2 e.
Proof.
  induction l1 as [|[a n] l IH]; simpl; [tauto|]. rewrite IH.
  destruct l as [|[a' n'] l]; simpl; tauto.
Qed.

Lemma links_frame m m' l e : (forall x, x ∈ l -> m' x.1 = m x.1) -> links m l e -> links m' l e.
Proof.
  induction l as [|[a n] l IH]; simpl; [done|]. intros Hf [H1 H2]. split.
  - by rewrite <- H1; apply (Hf (a, n)); set_solver.
  - apply IH; [|done]. intros. apply Hf. set_solver.
Qed.

Lemma links_lookup m l e i a n :
  links m l e -> l !! i = Some (a, n) -> m a = mkheader (from_option fst e (l !! S i)) n.
Proof.
  revert i. induction l as [|[a' n'] l IH]; intros [|i]; simpl; try done.
  - intros [H1 _] [= -> ->]. rewrite H1. by destruct l as [|[??] ?].
  - intros [_ H2] Hi. by apply IH.
Qed.

Lemma asc_app lo l a n r : asc lo (l ++ (a, n) :: r) <-> asc lo (l ++ [(a, n)]) /\ asc (a + n) r.
Proof. revert lo. induction l as [|[a' n'] l IH]; intros lo; simpl; [|rewrite IH]; tauto. Qed.

Lemma asc_grow lo l a n n' : n <= n' -> asc lo (l ++ [(a, n)]) -> asc lo (l ++ [(a, n')]).
Proof.
  intros Hn. revert lo. induction l as [|[a0 n0] l IH]; intros lo; simpl.
  - intros (?&?&_). split_and!; [done|lia|done].
  - intros (?&?&?). split_and!; auto.
Qed.

Lemma asc_weaken lo lo' l : lo' <= lo -> asc lo l -> asc lo' l.
Proof. destruct l as [|[a n] l]; simpl; [done|]. intros ? (?&?&?). split_and!; [lia|done|done]. Qed.

Lemma asc_above lo l x : asc lo l -> x ∈ l -> lo < x.1 /\ 0 <= x.2.
Proof.
  revert lo. induction l as [|[a n] l IH]; simpl; intros lo; [set_solver|].
  intros (?&?&Hl) [->|Hx]%elem_of_cons; [done|]. destruct (IH _ Hl Hx). lia.
Qed.

Lemma asc_lookup lo l i j x y :
  asc lo l -> (i < j)%nat -> l !! i = Some x -> l !! j = Some y -> x.1 + x.2 < y.1.
Proof.
  revert lo i j. induction l as [|[a n] l IH]; simpl; intros lo i j; [done|].
  intros (?&?&Hl) Hij Hi Hj. destruct j as [|j]; [lia|]. destruct i as [|i]; simpl in *.
  - injection Hi as <-. apply (asc_above _ _ _ Hl). by eapply list_elem_of_lookup_2.
  - apply (IH _ i j Hl); [lia|done|done].
Qed.

Lemma asc_length lo l hi : asc lo l -> (forall x, x ∈ l -> x.1 <= hi) -> lo <= hi -> Z.of_nat (length l) <= hi - lo.
Proof.
  revert lo. induction l as [|[a n] l IH]; simpl; intros lo; [lia|].
  intros (?&?&Hl) Hhi Hlo. pose proof (Hhi (a, n) ltac:(set_solver)) as Ha. simpl in Ha.
  assert (asc a l) as Hl' by (eapply asc_weaken; [|done]; lia).
  specialize (IH a Hl' ltac:(set_solver) ltac:(lia)). lia.
Qed.

Lemma asc_split lo c b n :
  asc lo c -> (forall x, x ∈ c -> apart x (b, n)) ->
  exists c1 c2, c = c1 ++ c2 /\
    (forall x, x ∈ c1 -> x.1 < b /\ x.1 + x.2 <= b) /\ (forall x, x ∈ c2 -> b < x.1 /\ b + n <= x.1).
Proof.
  revert lo. induction c as [|[a m] c IH]; simpl; intros lo.
  - intros _ _. exists [], []. set_solver.
  - intros (_&Hm&Hc) Hx. destruct (Hx (a, m) ltac:(set_solver)) as [Ha|Ha]; simpl in Ha.
    + destruct (IH _ Hc ltac:(set_solver)) as (c1 & c2 & -> & H1 & H2).
      exists ((a, m) :: c1), c2. split_and!; [done|set_solver|done].
    + exists [], ((a, m) :: c). split_and!; [done|set_solver|].
      intros x [->|Hin]%elem_of_cons; [done|].
      destruct (asc_above _ _ _ Hc Hin). simpl in *. lia.
Qed.

(** ** The walk around the circle *)

(** The index after [i] on a circle of [k] blocks, and the steps from [i] to [t]. *)
Definition after (k i : nat) : nat := if (S i =? k)%nat then 0%nat else S i.
Definition dist (k i t : nat) : Z := if (i <=? t)%nat then Z.of_nat t - Z.of_nat i else Z.of_nat k - Z.of_nat i + Z.of_nat t.

Lemma after_lt k i : (i < k)%nat -> (after k i < k)%nat.
Proof. unfold after. destruct (Nat.eqb_spec (S i) k); lia. Qed.

Lemma dist_after k i t : (i < k)%nat -> (t < k)%nat -> i <> t -> dist k (after k i) t = dist k i t - 1.
Proof.
  unfold dist, after. destruct (Nat.eqb_spec (S i) k), (Nat.leb_spec i t); intros;
    repeat case_match; rewrite ?Nat.leb_le, ?Nat.leb_gt in *; lia.
Qed.

Lemma dist_range k i t : (i < k)%nat -> (t < k)%nat -> 0 <= dist k i t < Z.of_nat k.
Proof. unfold dist. destruct (Nat.leb_spec i t); lia. Qed.

Lemma dist_zero k i t : (i < k)%nat -> (t < k)%nat -> dist k i t = 0 -> i = t.
Proof. unfold dist. destruct (Nat.leb_spec i t); lia. Qed.

Lemma dist_inj k g j t : (g < k)%nat -> (j < k)%nat -> (t < k)%nat -> dist k g t = dist k j t -> g = j.
Proof. unfold dist. destruct (Nat.leb_spec g t), (Nat.leb_spec j t); lia. Qed.

Lemma dist_self k t : dist k t t = 0.
Proof. unfold dist. rewrite Nat.leb_refl. lia. Qed.

Lemma dist_round k t : (t < k)%nat -> dist k (after k t) t = Z.of_nat k - 1.
Proof.
  unfold dist, after. intros.
  destruct (Nat.eqb_spec (S t) k); [destruct (Nat.leb_spec 0 t)|destruct (Nat.leb_spec (S t) t)]; lia.
Qed.

Section pool.
Context (base : Z).

Lemma pool_len s c A : pool base s c A -> Z.of_nat (length c) < 2 ^ 32.
Proof.
  intros H. pose proof (pl_lim _ _ _ _ H). pose proof (pl_pos _ _ _ _ H).
  assert (base < hbrk s).
  { destruct c as [|x c]; [by pose proof (pl_base _ _ _ _ H)|].
    pose proof (pl_base _ _ _ _ H) as [= ->].
    destruct (pl_top _ _ _ _ H (base, 0)) as [? _]; [set_solver|done]. }
  enough (Z.of_nat (length c) <= (hbrk s - 1) - (base - 1)) by lia.
  apply asc_length; [apply H| |lia].
  intros x Hx. destruct (pl_top _ _ _ _ H x) as [? _]; [set_solver|lia].
Qed.

(** The link of the block at index [i]. *)
Lemma pool_next s c A i a n :
  pool base s c A -> c !! i = Some (a, n) ->
  exists a' n', hmem s a = mkheader a' n /\ c !! after (length c) i = Some (a', n').
Proof.
  intros H Hi. pose proof (links_lookup _ _ _ _ _ _ (pl_links _ _ _ _ H) Hi) as Hm.
  pose proof (lookup_lt_Some _ _ _ Hi). unfold after. destruct (Nat.eqb_spec (S i) (length c)) as [Hk|Hk].
  - rewrite (lookup_ge_None_2 c (S i)) in Hm by lia. exists base, 0. split; [done|].
    pose proof (pl_base _ _ _ _ H). by destruct c.
  - destruct (lookup_lt_is_Some_2 c (S i)) as [[a' n'] Hn]; [lia|].
    rewrite Hn in Hm. by exists a', n'.
Qed.

Lemma pool_at s c A a : pool base s c A -> a ∈ c.*1 -> exists i n, c !! i = Some (a, n).
Proof.
  intros _ ([? n] & -> & [i Hi]%list_elem_of_lookup)%list_elem_of_fmap. by exists i, n.
Qed.

(** ** free *)

(** The test of the loop of [free]. *)
Definition stops (p next bp : Z) : bool :=
  ((p <? bp) && (bp <? next)) || ((next <=? p) && ((p <? bp) || (bp <? next))).

(** It holds of the block before [bp] and of no other. *)
Lemma stops_spec s c1 p np c2 A b n i a m a' m' :
  let c := c1 ++ (p, np) :: c2 in
  pool base s c A -> base < b -> 0 < n ->
  (forall x, x ∈ c1 ++ [(p, np)] -> x.1 < b /\ x.1 + x.2 <= b) -> (forall x, x ∈ c2 -> b < x.1 /\ b + n <= x.1) ->
  c !! i = Some (a, m) -> c !! after (length c) i = Some (a', m') ->
  stops a a' b = bool_decide (i = length c1).
Proof.
  intros c H Hb Hn H1 H2 Hi Hi'. pose proof (lookup_lt_Some _ _ _ Hi) as Hlt.
  assert (c !! 0%nat = Some (base, 0)) as H0 by (pose proof (pl_base _ _ _ _ H); by destruct c).
  assert (length c = (length c1 + S (length c2))%nat) as Hlen by (unfold c; by rewrite length_app).
  assert (forall j x, (j <= length c1)%nat -> c !! j = Some x -> x.1 < b) as Hlo.
  { intros j x Hj Hx. apply H1. unfold c in Hx.
    rewrite (cons_middle (p, np)), (assoc_L (++)), lookup_app_l in Hx by (rewrite length_app; simpl; lia).
    by eapply list_elem_of_lookup_2. }
  assert (forall j x, (length c1 < j)%nat -> c !! j = Some x -> b < x.1) as Hhi.
  { intros j x Hj Hx. apply H2. unfold c in Hx.
    rewrite (cons_middle (p, np)), (assoc_L (++)), lookup_app_r in Hx by (rewrite length_app; simpl; lia).
    by eapply list_elem_of_lookup_2. }
  pose proof (Hlo i (a, m)) as La. pose proof (Hhi i (a, m)) as Ha. simpl in *.
  unfold after in Hi'. unfold stops. destruct (Nat.eqb_spec (S i) (length c)) as [Hk|Hk].
  - rewrite H0 in Hi'. injection Hi' as <- <-.
    pose proof (asc_above _ _ (a, m) (pl_asc _ _ _ _ H) ltac:(by eapply list_elem_of_lookup_2)). simpl in *.
    case_bool_decide; [specialize (La ltac:(lia) Hi)|specialize (Ha ltac:(lia) Hi)]; lia.
  - pose proof (asc_lookup _ _ i (S i) _ _ (pl_asc _ _ _ _ H) ltac:(lia) Hi Hi').
    pose proof (asc_above _ _ (a, m) (pl_asc _ _ _ _ H) ltac:(by eapply list_elem_of_lookup_2)).
    pose proof (Hlo (S i) (a', m')) as La'. pose proof (Hhi (S i) (a', m')) as Ha'. simpl in *.
    case_bool_decide; [|destruct (decide (i < length c1)%nat)].
    + specialize (La ltac:(lia) Hi). specialize (Ha' ltac:(lia) Hi'). lia.
    + specialize (La ltac:(lia) Hi). specialize (La' ltac:(lia) Hi'). lia.
    + specialize (Ha ltac:(lia) Hi). specialize (Ha' ltac:(lia) Hi'). lia.
Qed.

Lemma wp_free_find s c1 p np c2 A b n :
  pool base s (c1 ++ (p, np) :: c2) A -> base < b -> 0 < n ->
  (forall x, x ∈ c1 ++ [(p, np)] -> x.1 < b /\ x.1 + x.2 <= b) -> (forall x, x ∈ c2 -> b < x.1 /\ b + n <= x.1) ->
  wp (free_find b) (fun q s' => q = p /\ s' = s) s.
Proof.
  intros H Hb Hn H1 H2. set (c := c1 ++ (p, np) :: c2) in *.
  destruct (pool_at _ _ _ _ H (pl_freep _ _ _ _ H)) as (i0 & n0 & Hi0).
  assert (length c1 < length c)%nat by (unfold c; rewrite length_app; simpl; lia).
  pose proof (pool_len _ _ _ H). unfold free_find. do 2 wp_step.
  apply (wp_loop (fun k q s' => s' = s /\ exists i m, c !! i = Some (q, m) /\ k = 1 + dist (length c) i (length c1)))
    with (n := 1 + dist (length c) i0 (length c1)).
  - intros k q ? (-> & i & m & Hi & ->). pose proof (lookup_lt_Some _ _ _ Hi) as Hlt.
    destruct (pool_next _ _ _ _ _ _ H Hi) as (q' & m' & Hq & Hi').
    pose proof (stops_spec _ _ _ _ _ _ _ _ _ _ _ _ _ H Hb Hn H1 H2 Hi Hi') as Hs.
    pose proof (dist_range (length c) i (length c1) Hlt ltac:(lia)). split; [lia|].
    do 3 wp_step. rewrite Hq. cbn [hptr hsize]. unfold stops in Hs.
    case_bool_decide as Hd.
    + assert (q = p) as ->.
      { rewrite Hd in Hi. unfold c in Hi. rewrite list_lookup_middle in Hi by done. congruence. }
      apply orb_true_iff in Hs as [Hs|Hs]; rewrite Hs; [by wp_steps|].
      case_match; by wp_steps.
    + apply orb_false_iff in Hs as [-> ->]. wp_step.
      eexists. split; [|split; [done|]].
      2: { exists (after (length c) i), m'. split; [done|reflexivity]. }
      rewrite dist_after by (try done; lia). lia.
  - pose proof (dist_range (length c) i0 (length c1) (lookup_lt_Some _ _ _ Hi0) ltac:(lia)). lia.
  - split; [done|]. by exists i0, n0.
Qed.

(** The circle after [free] put the block [b] of [n] units, already joined with
    what follows it, behind the block [p]. *)
Definition put_back (c1 : list block) (p np b n : Z) (c2 : list block) : list block :=
  c1 ++ (if p + np =? b then (p, np + n) :: c2 else (p, np) :: (b, n) :: c2).

Lemma elem_put_back x c1 p np b n c2 :
  x ∈ put_back c1 p np b n c2 -> x ∈ c1 ++ c2 \/ x = (p, np + n) /\ p + np = b \/ x = (p, np) \/ x = (b, n).
Proof. unfold put_back. destruct (Z.eqb_spec (p + np) b); set_solver. Qed.

Lemma put_back_total c1 p np b n c2 : total (put_back c1 p np b n c2) = total c1 + np + n + total c2.
Proof. unfold put_back. rewrite total_app. case_match; simpl; lia. Qed.

Lemma put_back_asc lo c1 p np b n c2 :
  asc lo (c1 ++ [(p, np)]) -> p + np <= b -> 0 <= n -> asc (b + n) c2 -> asc lo (put_back c1 p np b n c2).
Proof.
  intros H1 Hb Hn H2. unfold put_back. destruct (Z.eqb_spec (p + np) b) as [He|He]; rewrite asc_app.
  - split; [eapply asc_grow; [|done]; lia|]. by replace (p + (np + n)) with (b + n) by lia.
  - split; [done|]. simpl. split_and!; [lia|done|done].
Qed.

Lemma put_back_links m m' c1 p np b n c2 :
  links m c1 p -> links m c2 base -> p < b ->
  (forall x, x ∈ c1 -> x.1 < p) -> (forall x, x ∈ c2 -> b < x.1) ->
  (forall x, x <> p -> x <> b -> m' x = m x) ->
  m' b = mkheader (addr_of c2 base) n ->
  m' p = (if p + np =? b then mkheader (addr_of c2 base) (np + n) else mkheader b np) ->
  links m' (put_back c1 p np b n c2) base.
Proof.
  intros L1 L2 Hpb H1 H2 Hm Hb Hp. unfold put_back. rewrite links_app. split.
  - apply (links_frame m); [intros x Hx; specialize (H1 x Hx); apply Hm; lia|].
    by destruct (p + np =? b).
  - assert (links m' c2 base) by (apply (links_frame m); [intros x Hx; specialize (H2 x Hx); apply Hm; lia|done]).
    destruct (p + np =? b); simpl; auto.
Qed.

Lemma pool_tail s c x A : pool base s c (x :: A) -> pool base s c A.
Proof.
  intros []. split; try done; [set_solver|set_solver| |set_solver].
  by inversion pl_pair0.
Qed.

Lemma pool_before s c1 p np c2 A x : pool base s (c1 ++ (p, np) :: c2) A -> x ∈ c1 -> x.1 + x.2 < p.
Proof.
  intros H [i Hi]%list_elem_of_lookup. pose proof (lookup_lt_Some _ _ _ Hi).
  apply (asc_lookup _ _ i (length c1) x (p, np) (pl_asc _ _ _ _ H)); [done| |].
  - by apply lookup_app_l_Some.
  - by apply list_lookup_middle.
Qed.

Lemma pool_put_back s s' c1 p np c2 c2' A b n :
  pool base s (c1 ++ (p, np) :: c2) A ->
  p < b -> p + np <= b -> 0 < n -> b + n <= hbrk s ->
  (forall y, y ∈ A -> apart (b, n) y) ->
  (forall x, x ∈ c2' -> x ∈ c2 /\ b < x.1) -> asc (b + n) c2' -> links (hmem s) c2' base ->
  (forall x, x <> p -> x <> b -> hmem s' x = hmem s x) ->
  hmem s' b = mkheader (addr_of c2' base) n ->
  hmem s' p = (if p + np =? b then mkheader (addr_of c2' base) (np + n) else mkheader b np) ->
  freep s' = p -> hbrk s' = hbrk s ->
  pool base s' (put_back c1 p np b n c2') A.
Proof.
  intros H Hpb Hpn Hn Htop Hap H2 Hasc Hl Hm Hb Hp Hfr Hbrk.
  pose proof (pl_links _ _ _ _ H) as [L1 L2]%links_app. simpl in L1.
  pose proof (pl_asc _ _ _ _ H) as [A1 A2]%asc_app.
  assert (forall x, x ∈ c1 -> x.1 < p) as Hbef.
  { intros x Hx. pose proof (pool_before _ _ _ _ _ _ _ H Hx).
    destruct (asc_above _ _ x (pl_asc _ _ _ _ H)); [set_solver|lia]. }
  assert (0 <= np) by (destruct (asc_above _ _ (p, np) A1); [set_solver|done]).
  assert (forall y, y ∈ A -> apart (p, np) y) as Hp' by (intros; apply (pl_free _ _ _ _ H); set_solver).
  split; [| |by eapply put_back_links; eauto; naive_solver| | | | | | |].
  - pose proof (pl_base _ _ _ _ H) as Hh. unfold put_back. destruct c1; simpl in *; [|done].
    injection Hh as -> ->. by destruct (Z.eqb_spec (base + 0) b); [lia|].
  - apply H.
  - apply put_back_asc; [done..|lia|done].
  - rewrite Hfr. unfold put_back. rewrite fmap_app. destruct (p + np =? b); set_solver.
  - intros y Hy. destruct (pl_alloc _ _ _ _ H y Hy) as (?&?&?). split_and!; try done.
    rewrite Hm; [done| |]; [specialize (Hp' y Hy)|specialize (Hap y Hy)];
      intros E; unfold apart in *; simpl in *; lia.
  - intros x y Hx Hy. specialize (Hp' y Hy). specialize (Hap y Hy).
    apply elem_put_back in Hx as [Hx|[[-> Hx]|[-> | ->]]]; [|unfold apart in *; simpl in *; lia|done..].
    apply (pl_free _ _ _ _ H); [|done]. set_solver.
  - apply H.
  - intros x [Hx|Hx]%elem_of_app; rewrite Hbrk; [|apply (pl_top _ _ _ _ H); set_solver].
    apply elem_put_back in Hx as [Hx|[[-> Hx]|[-> | ->]]];
      [apply (pl_top _ _ _ _ H); set_solver|simpl; lia..].
  - rewrite Hbrk. apply H.
Qed.

(** What [free] joins the block with: the rest of the circle, without the next
    block where it is adjacent. *)
Definition join_next (b n : Z) (c2 : list block) : Z * list block :=
  match c2 with
  | (a, m) :: r => if b + n =? a then (n + m, r) else (n, c2)
  | [] => (n, [])
  end.

Lemma join_next_spec s c1 p np c2 A b n n' c2' :
  pool base s (c1 ++ (p, np) :: c2) ((b, n) :: A) ->
  (forall x, x ∈ c2 -> b < x.1 /\ b + n <= x.1) ->
  join_next b n c2 = (n', c2') ->
  n <= n' /\ b + n' <= hbrk s /\ (forall y, y ∈ A -> apart (b, n') y) /\ (forall x, x ∈ c2' -> x ∈ c2 /\ b < x.1) /\
  asc (b + n') c2' /\ links (hmem s) c2' base /\ total c2' + n' = total c2 + n.
Proof.
  intros H H2 HJ. pose proof (pl_links _ _ _ _ H) as [_ L2]%links_app.
  pose proof (pl_asc _ _ _ _ H) as [_ A2]%asc_app.
  pose proof (pl_top _ _ _ _ H (b, n) ltac:(set_solver)) as Htop.
  pose proof (pl_pair _ _ _ _ H) as [Hpr _]%pairs_cons. rewrite Forall_forall in Hpr.
  simpl in L2. destruct L2 as [_ L2].
  assert (forall x y, x ∈ c2 -> y ∈ A -> apart x y) as Hf by (intros; apply (pl_free _ _ _ _ H); set_solver).
  destruct c2 as [|[a m] r]; simpl in *.
  - injection HJ as <- <-. split_and!; [lia|lia|done|set_solver|done..].
  - destruct (H2 (a, m) ltac:(set_solver)) as [Ha1 Ha2]. destruct A2 as (Ha & Hm & A2). simpl in *.
    destruct (Z.eqb_spec (b + n) a) as [He|He]; injection HJ as <- <-.
    + pose proof (pl_top _ _ _ _ H (a, m) ltac:(set_solver)) as Htop'. simpl in Htop'.
      split_and!; [lia|lia| | | |tauto|lia].
      * intros y Hy. specialize (Hpr y Hy). specialize (Hf (a, m) y ltac:(set_solver) Hy).
        destruct (pl_alloc _ _ _ _ H y ltac:(set_solver)) as (_ & ? & _).
        unfold apart in *. simpl in *. lia.
      * intros x Hx. split; [set_solver|]. apply H2. set_solver.
      * by replace (b + (n + m)) with (a + m) by lia.
    + split_and!; [lia|lia|done| | |done|done].
      * intros x Hx. split; [done|]. by apply H2.
      * simpl. split_and!; [lia|done|done].
Qed.

Lemma pool_split s c A b n :
  pool base s c ((b, n) :: A) ->
  hsize (hmem s b) = n /\ 0 < n /\ base < b /\
  exists c1 p np c2, c = c1 ++ (p, np) :: c2 /\
    (forall x, x ∈ c1 ++ [(p, np)] -> x.1 < b /\ x.1 + x.2 <= b) /\ (forall x, x ∈ c2 -> b < x.1 /\ b + n <= x.1).
Proof.
  intros H. destruct (pl_alloc _ _ _ _ H (b, n) ltac:(set_solver)) as (Hsz & Hn & Hb). simpl in *.
  split_and!; [done..|].
  assert (forall x, x ∈ c -> apart x (b, n)) as Hap by (intros; apply (pl_free _ _ _ _ H); set_solver).
  destruct (asc_split _ _ _ _ (pl_asc _ _ _ _ H) Hap) as (c0 & c2 & -> & H1 & H2).
  destruct c0 as [|[p np] c1 _] using rev_ind.
  - pose proof (pl_base _ _ _ _ H) as Hh. destruct c2 as [|x c2]; [done|]. injection Hh as ->.
    destruct (H2 (base, 0) ltac:(set_solver)). simpl in *. lia.
  - exists c1, p, np, c2. by rewrite <- (assoc_L (++)).
Qed.

Lemma wp_free_link s c1 p np c2 A b n :
  pool base s (c1 ++ (p, np) :: c2) ((b, n) :: A) ->
  hsize (hmem s b) = n -> 0 < n ->
  (forall x, x ∈ c1 ++ [(p, np)] -> x.1 < b /\ x.1 + x.2 <= b) -> (forall x, x ∈ c2 -> b < x.1 /\ b + n <= x.1) ->
  wp (free_link b p) (fun _ s' => exists c2' n', n <= n' /\ total c2' + n' = total c2 + n /\
    pool base s' (put_back c1 p np b n' c2') A /\ kept A s s' /\ hbrk s' = hbrk s /\ freep s' = p) s.
Proof.
  intros H Hsz Hn H1 H2.
  pose proof (pl_links _ _ _ _ H) as [L1 L2]%links_app. simpl in L1, L2. destruct L2 as [Hp L2].
  destruct (join_next b n c2) as [n' c2'] eqn:HJ.
  destruct (join_next_spec _ _ _ _ _ _ _ _ _ _ H H2 HJ) as (Hn' & Htop & Hap' & Hc2 & Hasc & Hl & Htot).
  destruct (H1 (p, np) ltac:(set_solver)) as [Hpb Hpn]. simpl in Hpb, Hpn.
  unfold free_link. do 6 wp_step. rewrite Hsz, Hp. cbn [hptr hsize].
  assert (base < b) as Hb by (by apply (pl_alloc _ _ _ _ H (b, n)); set_solver).
  pose proof (pl_lim _ _ _ _ H). pose proof (pl_pos _ _ _ _ H).
  eapply (wp_mono _ (fun _ s1 => s1 = mkheap (hset (hmem s) b (mkheader (addr_of c2' base) n')) (freep s) (hbrk s))).
  { destruct c2 as [|[a m] r]; simpl in HJ |- *.
    - injection HJ as <- <-. rewrite (proj2 (Z.eqb_neq _ _)) by lia. wp_step. by rewrite <- Hsz.
    - destruct (Z.eqb_spec (b + n) a); injection HJ as <- <-.
      + do 3 wp_step. destruct L2 as [-> _]. cbn [hptr hsize]. unfold u32. by rewrite Z.mod_small by lia.
      + wp_step. by rewrite <- Hsz. }
  intros _ ? ->. do 5 wp_step. cbn [hmem freep hbrk]. rewrite hset_eq, hset_ne by lia. rewrite Hp. cbn [hptr hsize].
  destruct (asc_above _ _ (p, np) (pl_asc _ _ _ _ H)) as [Hlo Hnp]; [set_solver|]. simpl in Hlo, Hnp.
  set (hp := if p + np =? b then mkheader (addr_of c2' base) (np + n') else mkheader b np).
  eapply (wp_mono _ (fun _ s1 => s1 = mkheap (hset (hset (hmem s) b (mkheader (addr_of c2' base) n')) p hp) (freep s) (hbrk s))).
  { unfold hp. destruct (Z.eqb_spec (p + np) b); wp_step;
      refine (f_equal (fun h => mkheap (hset _ p h) _ _) _); cbn [hmem]; rewrite hset_ne, Hp by lia; [|done].
    unfold u32. by rewrite Z.mod_small by lia. }
  intros _ ? ->. wp_step. exists c2', n'. split_and!; [done|done| | |done|done].
  - eapply pool_put_back; [by eapply pool_tail|done|done|lia|done..| | | |done|done]; simpl.
    + intros x ? ?. by rewrite !hset_ne.
    + by rewrite hset_ne, hset_eq by lia.
    + by rewrite hset_eq.
  - intros x (y & Hy & Hx). simpl.
    pose proof (pl_free _ _ _ _ H (p, np) y ltac:(set_solver) ltac:(set_solver)) as Hpy.
    specialize (Hap' y Hy). unfold apart in *; simpl in *. rewrite !hset_ne by lia. done.
Qed.


(** [free] gives a client's block back. *)
Lemma wp_free s c A b n :
  pool base s c ((b, n) :: A) ->
  wp (free (b + 1)) (fun _ s' => exists c' f g q m a k,
    pool base s' c' A /\ kept A s s' /\ hbrk s' = hbrk s /\ total c' = total c + n /\
    c' !! f = Some (q, m) /\ q = freep s' /\ c' !! g = Some (a, k) /\ n <= k /\
    (g = f \/ g = after (length c') f)) s.
Proof.
  intros H. destruct (pool_split _ _ _ _ _ H) as (Hsz & Hn & Hb & c1 & p & np & c2 & -> & H1 & H2).
  unfold free. replace (b + 1 - 1) with b by lia. wp_step.
  eapply wp_mono; [by eapply wp_free_find|]. intros ? ? [-> ->].
  eapply wp_mono; [by eapply wp_free_link|]. intros _ s' (c2' & n' & Hn' & Ht & HP & Hk & Hbrk & Hfr).
  set (f := length c1).
  assert (exists m, put_back c1 p np b n' c2' !! f = Some (p, m) /\ (p + np = b -> m = np + n')) as (m & Hf & Hm).
  { unfold put_back, f. destruct (Z.eqb_spec (p + np) b); rewrite list_lookup_middle by done;
      eexists; (split; [done|]); intros; (done || lia). }
  assert (0 <= np) by (destruct (asc_above _ _ (p, np) (pl_asc _ _ _ _ H)); [set_solver|done]).
  assert (exists g a k, put_back c1 p np b n' c2' !! g = Some (a, k) /\ n <= k /\
    (g = f \/ g = after (length (put_back c1 p np b n' c2')) f)) as (g & a & k & ?).
  { destruct (Z.eq_dec (p + np) b) as [He|He].
    - exists f, p, m. rewrite Hf, Hm by done. split_and!; [done|lia|by left].
    - exists (S f), b, n'. unfold put_back, f, after. rewrite (proj2 (Z.eqb_neq _ _)) by done.
      split_and!; [|done|right].
      + rewrite lookup_app_r by lia. by replace (S (length c1) - length c1)%nat with 1%nat by lia.
      + rewrite length_app. cbn [length]. destruct (Nat.eqb_spec (S (length c1)) (length c1 + S (S (length c2')))); lia. }
  exists (put_back c1 p np b n' c2'), f, g, p, m, a, k. rewrite put_back_total, total_app. simpl.
  split_and!; try done; [lia|tauto..].
Qed.

(** ** morecore *)

Context (grants : Z -> Z -> bool).

(** The break stays below 2^32 units. *)
Hypothesis grants_limit : forall b n, grants b n = true -> b + n / HSIZE < 2 ^ 32.

Lemma pool_fresh s c A n :
  pool base s c A -> 0 < n -> hbrk s + n < 2 ^ 32 ->
  pool base (mkheap (hset (hmem s) (hbrk s) ((hmem s (hbrk s)) <| hsize := n |>)) (freep s) (hbrk s + n)) c
    ((hbrk s, n) :: A).
Proof.
  intros H Hn Hl. assert (forall x, x ∈ c ++ A -> x.1 < hbrk s /\ x.1 + x.2 <= hbrk s) as Ht by apply H.
  assert (base < hbrk s) as Hb.
  { pose proof (pl_base _ _ _ _ H). destruct c as [|x c]; [done|]. injection H0 as ->.
    by apply (Ht (base, 0)); set_solver. }
  destruct H. split; try done; simpl.
  - apply (links_frame (hmem s)); [|done]. intros x Hx. apply hset_ne.
    destruct (Ht x); [set_solver|lia].
  - intros x [->|Hx]%elem_of_cons; [by rewrite hset_eq|]. rewrite hset_ne; [auto|].
    destruct (Ht x); [set_solver|lia].
  - intros x y Hx [->|Hy]%elem_of_cons; [|auto]. left. apply Ht. set_solver.
  - apply pairs_cons. split; [|done]. rewrite Forall_forall. intros x Hx. right. apply Ht. set_solver.
  - intros x Hx. assert (x ∈ c ++ A \/ x = (hbrk s, n)) as [Hx'| ->] by set_solver; [|simpl; lia].
    destruct (Ht x Hx'). lia.
Qed.

Lemma sbrk_units n : 0 < n < 2 ^ 27 -> i32 (u64 (n * HSIZE)) = n * HSIZE.
Proof.
  intros Hn. unfold i32, u64, HSIZE. rewrite (Z.mod_small (n * 16)) by lia. rewrite Z.mod_small; lia.
Qed.

(** What [morecore] asks for. *)
Definition core (nu : Z) : Z := Z.max 4096 nu.

Lemma wp_morecore s c A nu :
  pool base s c A -> 0 < nu < 2 ^ 27 ->
  wp (morecore grants nu) (fun r s' =>
    if grants (hbrk s) (core nu * HSIZE) then
      exists c' f g m a k,
        pool base s' c' A /\ kept A s s' /\ hbrk s' = hbrk s + core nu /\ total c' = total c + core nu /\ freep s' = r /\
        c' !! f = Some (r, m) /\ c' !! g = Some (a, k) /\ nu <= k /\ (g = f \/ g = after (length c') f)
    else r = 0 /\ s' = s) s.
Proof.
  intros H Hnu. unfold morecore.
  replace (if nu <? 4096 then 4096 else nu) with (core nu) by (unfold core; case_match; lia).
  assert (4096 <= core nu < 2 ^ 27 /\ nu <= core nu) as [Hc Hle] by (unfold core; lia).
  wp_step. unfold sbrk. do 3 wp_step. rewrite sbrk_units by lia.
  destruct (grants (hbrk s) (core nu * HSIZE)) eqn:Hg; [|by wp_steps].
  pose proof (grants_limit _ _ Hg) as Hl. unfold HSIZE in Hl. rewrite Z.div_mul in Hl by lia.
  pose proof (pool_fresh _ _ _ (core nu) H ltac:(lia) Hl) as HF. set (s1 := mkheap _ _ _) in HF.
  do 6 wp_step.
  match goal with |- wp _ _ ?t => assert (t = s1) as -> end.
  { unfold s1, HSIZE. by rewrite Z.div_mul. }
  eapply wp_mono; [by apply (wp_free _ _ _ _ _ HF)|].
  intros _ s' (c' & f & g & q & m & a & k & HP & Hk & Hb & Ht & Hf & -> & Hg' & Hnk & Hfg). wp_step.
  exists c', f, g, m, a, k. split_and!; try done; [|lia].
  intros x Hx. rewrite Hk by done. unfold s1. apply hset_ne.
  destruct Hx as (y & Hy & Hx). destruct (pl_top _ _ _ _ H y); [set_solver|lia].
Qed.

(** ** malloc *)

Lemma pool_asc2 s c1 q nq p np c2 A :
  pool base s (c1 ++ (q, nq) :: (p, np) :: c2) A ->
  0 <= nq /\ 0 <= np /\ base <= q /\ q + nq < p /\ (forall x, x ∈ c1 -> x.1 < q) /\ (forall x, x ∈ c2 -> p + np < x.1).
Proof.
  intros H. pose proof (pl_asc _ _ _ _ H) as [H1 [H2 [Hp H3]]]%asc_app.
  destruct (asc_above _ _ (q, nq) H1) as [Hq Hnq]; [set_solver|]. simpl in *.
  split_and!; [done|done|lia|lia| |].
  - intros x Hx. pose proof (pool_before _ _ _ _ _ _ _ H Hx).
    destruct (asc_above _ _ x (pl_asc _ _ _ _ H)); [set_solver|lia].
  - intros x Hx. by apply (asc_above _ _ _ H3).
Qed.

(** The whole block [p] is unlinked. *)
Lemma pool_take_all s s' c1 q nq p np c2 A :
  pool base s (c1 ++ (q, nq) :: (p, np) :: c2) A -> 0 < np ->
  hmem s' = hset (hmem s) q (mkheader (addr_of c2 base) nq) -> freep s' = q -> hbrk s' = hbrk s ->
  pool base s' (c1 ++ (q, nq) :: c2) ((p, np) :: A).
Proof.
  intros H Hn Hm Hfr Hbrk. destruct (pool_asc2 _ _ _ _ _ _ _ _ H) as (Hnq & Hnp & Hq & Hqp & H1 & H2).
  pose proof (pl_links _ _ _ _ H) as [L1 (Lq & Lp & L2)]%links_app. simpl in *.
  assert (forall y, y ∈ A -> apart (q, nq) y /\ apart (p, np) y) as Hy.
  { intros y Hy. split; apply (pl_free _ _ _ _ H); set_solver. }
  split; [| |rewrite Hm, links_app; split| | | | | | |].
  - pose proof (pl_base _ _ _ _ H). by destruct c1.
  - apply H.
  - apply (links_frame (hmem s)); [|done]. intros x Hx. specialize (H1 x Hx). apply hset_ne. lia.
  - simpl. rewrite hset_eq. split; [done|].
    apply (links_frame (hmem s)); [|done]. intros x Hx. specialize (H2 x Hx). apply hset_ne. lia.
  - pose proof (pl_asc _ _ _ _ H) as [A1 (A2 & _ & A3)]%asc_app. rewrite asc_app. split; [done|].
    eapply asc_weaken; [|done]. lia.
  - rewrite Hfr, fmap_app. set_solver.
  - intros y [->|HA]%elem_of_cons; simpl; rewrite Hm.
    + rewrite hset_ne by lia. rewrite Lp. simpl. split_and!; [done|done|lia].
    + destruct (Hy y HA) as [Hqy _]. rewrite hset_ne by (unfold apart in Hqy; simpl in *; lia). by apply H.
  - intros x y Hx [->|HA]%elem_of_cons; [|apply (pl_free _ _ _ _ H); set_solver].
    assert (x ∈ c1 \/ x = (q, nq) \/ x ∈ c2) as [Hx'|[->|Hx']] by set_solver.
    + left. simpl. pose proof (pool_before _ _ _ _ _ _ _ H Hx'). specialize (H1 x Hx'). lia.
    + left. simpl. lia.
    + right. simpl. specialize (H2 x Hx'). lia.
  - apply pairs_cons. split; [|apply H]. rewrite Forall_forall. intros y HA. by apply Hy.
  - intros x Hx. rewrite Hbrk. apply (pl_top _ _ _ _ H). set_solver.
  - rewrite Hbrk. apply H.
Qed.

(** The last [n] units of the block [p] are cut off. *)
Lemma pool_take_tail s s' c1 q nq p np c2 A n :
  pool base s (c1 ++ (q, nq) :: (p, np) :: c2) A -> 0 < n < np ->
  (forall x, x <> p -> x <> p + np - n -> hmem s' x = hmem s x) ->
  hmem s' p = mkheader (addr_of c2 base) (np - n) -> hsize (hmem s' (p + np - n)) = n ->
  freep s' = q -> hbrk s' = hbrk s ->
  pool base s' (c1 ++ (q, nq) :: (p, np - n) :: c2) ((p + np - n, n) :: A).
Proof.
  intros H Hn Hm Hp Hb Hfr Hbrk. destruct (pool_asc2 _ _ _ _ _ _ _ _ H) as (Hnq & Hnp & Hq & Hqp & H1 & H2).
  pose proof (pl_links _ _ _ _ H) as [L1 (Lq & Lp & L2)]%links_app. simpl in *.
  assert (forall y, y ∈ A -> apart (p, np) y) as Hy by (intros; apply (pl_free _ _ _ _ H); set_solver).
  pose proof (pl_top _ _ _ _ H (p, np) ltac:(set_solver)) as Htp.
  split; [| |rewrite links_app; split| | | | | | |].
  - pose proof (pl_base _ _ _ _ H). by destruct c1.
  - apply H.
  - apply (links_frame (hmem s)); [|done]. intros x Hx. specialize (H1 x Hx). apply Hm; lia.
  - simpl. rewrite Hm by lia. split_and!; [done|done|].
    apply (links_frame (hmem s)); [|done]. intros x Hx. specialize (H2 x Hx). apply Hm; lia.
  - pose proof (pl_asc _ _ _ _ H) as [A1 (A2 & _ & A3)]%asc_app. rewrite asc_app. split; [done|].
    simpl. split_and!; [done|lia|]. eapply asc_weaken; [|done]. lia.
  - rewrite Hfr, fmap_app. set_solver.
  - intros y [->|HA]%elem_of_cons; simpl; [split_and!; [done|lia..]|].
    specialize (Hy y HA). pose proof (pl_alloc _ _ _ _ H y HA) as HAy.
    rewrite Hm by (unfold apart in Hy; simpl in *; lia). done.
  - intros x y Hx HyA.
    rewrite elem_of_app, !elem_of_cons in Hx.
    apply elem_of_cons in HyA as [->|HA].
    + destruct Hx as [Hx'|[->|[->|Hx']]]; [|left; simpl; lia..|].
      * left. simpl. pose proof (pool_before _ _ _ _ _ _ _ H Hx'). specialize (H1 x Hx'). lia.
      * right. simpl. specialize (H2 x Hx'). lia.
    + destruct (decide (x = (p, np - n))) as [->|Hne];
        [|apply (pl_free _ _ _ _ H); [|done]; rewrite elem_of_app, !elem_of_cons; tauto].
      specialize (Hy y HA). unfold apart in *. simpl in *. lia.
  - apply pairs_cons. split; [|apply H]. rewrite Forall_forall. intros y HA. specialize (Hy y HA).
    pose proof (pl_alloc _ _ _ _ H y HA). unfold apart in *. simpl in *. lia.
  - intros x Hx. rewrite Hbrk.
    rewrite !elem_of_app, !elem_of_cons in Hx.
    destruct (decide (x = (p, np - n))) as [->|H3]; [simpl in *; lia|].
    destruct (decide (x = (p + np - n, n))) as [->|H4]; [simpl in *; lia|].
    apply (pl_top _ _ _ _ H). rewrite !elem_of_app, !elem_of_cons. tauto.
  - rewrite Hbrk. apply H.
Qed.

Lemma wp_malloc_take s c1 q nq p np c2 A n :
  pool base s (c1 ++ (q, nq) :: (p, np) :: c2) A -> 0 < n <= np ->
  wp (malloc_take n q p) (fun r s' => exists c' b,
    r = b + 1 /\ pool base s' c' ((b, n) :: A) /\ kept A s s' /\ hbrk s' = hbrk s /\
    total c' + n = total (c1 ++ (q, nq) :: (p, np) :: c2)) s.
Proof.
  intros H Hn. destruct (pool_asc2 _ _ _ _ _ _ _ _ H) as (Hnq & Hnp & Hq & Hqp & H1 & H2).
  pose proof (pl_links _ _ _ _ H) as [L1 (Lq & Lp & L2)]%links_app. simpl in L1, Lq, Lp.
  pose proof (pl_pos _ _ _ _ H). pose proof (pl_lim _ _ _ _ H).
  pose proof (pl_top _ _ _ _ H (p, np) ltac:(set_solver)) as Htp. simpl in Htp.
  assert (forall y, y ∈ A -> apart (q, nq) y /\ apart (p, np) y) as Hy.
  { intros y Hy. split; apply (pl_free _ _ _ _ H); set_solver. }
  unfold malloc_take. do 4 wp_step. rewrite Lp. cbn [hptr hsize]. destruct (Z.eqb_spec np n) as [<-|Hne].
  - do 6 wp_step. exists (c1 ++ (q, nq) :: c2), p. split_and!; [done| | |done|].
    + eapply pool_take_all; [done|lia|cbn; by rewrite Lq|done..].
    + intros x (y & HA & Hx). destruct (Hy y HA) as [Hqy _]. cbn. apply hset_ne.
      unfold apart in Hqy. simpl in Hqy. lia.
    + rewrite !total_app. simpl. lia.
  - unfold u32. rewrite Z.mod_small by lia. do 2 wp_step.
    match goal with |- wp _ _ ?t => set (s1 := t) end.
    assert (hmem s1 p = mkheader (addr_of c2 base) (np - n)) as E1 by (cbn; by rewrite hset_eq, Lp).
    do 2 wp_step. rewrite E1. cbn [hsize]. replace (p + (np - n)) with (p + np - n) by lia.
    do 6 wp_step. exists (c1 ++ (q, nq) :: (p, np - n) :: c2), (p + np - n). split_and!; [done| | |done|].
    + eapply pool_take_tail; [done|lia|..|done|done].
      * intros x ? ?. cbn. by rewrite !hset_ne.
      * rewrite <- E1. cbn -[s1]. by rewrite hset_ne by lia.
      * cbn -[s1]. by rewrite hset_eq.
    + intros x (y & HA & Hx). destruct (Hy y HA) as [_ Hpy]. cbn.
      unfold apart in Hpy. simpl in Hpy. by rewrite !hset_ne by lia.
    + rewrite !total_app. simpl. lia.
Qed.

(** A walk stands at [p], after [prevp]; [freep] is at index [f]. *)
Record at_block (s : heap) (c : list block) (i f : nat) (prevp p np : Z) : Prop := {
  ab_prev : exists m, c !! i = Some (prevp, m);
  ab_cur : c !! after (length c) i = Some (p, np);
  ab_freep : exists m, c !! f = Some (freep s, m);
}.

Lemma pool_index s c A i j a n m : pool base s c A -> c !! i = Some (a, n) -> c !! j = Some (a, m) -> i = j.
Proof.
  intros H Hi Hj. pose proof (pl_asc _ _ _ _ H) as Ha.
  destruct (asc_above _ _ (a, n) Ha); [by eapply list_elem_of_lookup_2|].
  destruct (asc_above _ _ (a, m) Ha); [by eapply list_elem_of_lookup_2|].
  destruct (decide (i < j)%nat) as [Hij|]; [|destruct (decide (j < i)%nat) as [Hij|]; [|lia]].
  - pose proof (asc_lookup _ _ _ _ _ _ Ha Hij Hi Hj). simpl in *. lia.
  - pose proof (asc_lookup _ _ _ _ _ _ Ha Hij Hj Hi). simpl in *. lia.
Qed.

Lemma at_block_next s c A i f prevp p np :
  pool base s c A -> at_block s c i f prevp p np ->
  exists p' np', hmem s p = mkheader p' np /\ at_block s c (after (length c) i) f p p' np'.
Proof.
  intros H [Hi Hj Hf]. destruct (pool_next _ _ _ _ _ _ H Hj) as (p' & np' & Hm & Hn).
  exists p', np'. split; [done|]. split; [by exists np|done|done].
Qed.

Lemma at_block_freep s c A i f prevp p np :
  pool base s c A -> at_block s c i f prevp p np -> p = freep s <-> after (length c) i = f.
Proof.
  intros H [_ Hj [m Hf]]. split; [intros ->|intros <-].
  - by eapply pool_index.
  - rewrite Hj in Hf. congruence.
Qed.

Lemma at_block_lt s c i f prevp p np :
  at_block s c i f prevp p np -> (i < length c /\ after (length c) i < length c /\ f < length c)%nat.
Proof. intros [[? ?%lookup_lt_Some] ?%lookup_lt_Some [? ?%lookup_lt_Some]]. done. Qed.

(** A block that fits is not [base], so the walk stands right behind its predecessor. *)
Lemma at_block_fit s c A i f prevp p np n :
  pool base s c A -> at_block s c i f prevp p np -> 0 < n <= np ->
  exists c1 m c2, c = c1 ++ (prevp, m) :: (p, np) :: c2.
Proof.
  intros H [[m Hi] Hj _] Hn. unfold after in Hj. destruct (Nat.eqb_spec (S i) (length c)).
  - pose proof (pl_base _ _ _ _ H) as Hb. destruct c as [|x c]; [done|]. simpl in *. exfalso.
    injection Hb as ->. injection Hj as <- <-. lia.
  - exists (take i c), m, (drop (S (S i)) c). rewrite <- (take_drop_middle c i _ Hi) at 1.
    by rewrite (drop_S _ _ _ Hj).
Qed.

(** What [malloc] does with a request for [n] units: a block of them for the
    client, taken from the free blocks or, when none is large enough, from
    fresh memory; 0 when there is none. *)
Definition malloced (s : heap) (c A : list block) (n : Z) (r : Z) (s' : heap) : Prop :=
  (r = 0 /\ s' = s /\ grants (hbrk s) (core n * HSIZE) = false /\ forall x, x ∈ c -> x.2 < n) \/
  (exists c' b g, r = b + 1 /\ pool base s' c' ((b, n) :: A) /\ kept A s s' /\
     hbrk s' = hbrk s + g /\ total c' + n = total c + g /\ (g = 0 \/ g = core n /\ forall x, x ∈ c -> x.2 < n)).

(** The search through the blocks the circle starts with: those passed are too small. *)
Definition searching (s : heap) (c : list block) (n k : Z) (st : Z * Z) (s' : heap) : Prop :=
  s' = s /\ exists i f np, at_block s c i f st.1 st.2 np /\
    k = 2 ^ 40 + dist (length c) (after (length c) i) f /\
    forall g x, c !! g = Some x -> dist (length c) (after (length c) i) f < dist (length c) g f -> x.2 < n.

(** The search after [morecore]: a block that fits comes before [freep]. *)
Definition refilled (s : heap) (c A : list block) (n k : Z) (st : Z * Z) (s' : heap) : Prop :=
  (forall x, x ∈ c -> x.2 < n) /\
  exists c' i f np g a m, pool base s' c' A /\ kept A s s' /\ hbrk s' = hbrk s + core n /\
    total c' = total c + core n /\ at_block s' c' i f st.1 st.2 np /\ c' !! g = Some (a, m) /\ n <= m /\
    dist (length c') (after (length c') i) g <= dist (length c') (after (length c') i) f /\
    k = 1 + dist (length c') (after (length c') i) g.

Section round.
Context (s : heap) (c A : list block) (n : Z).
Hypothesis HP : pool base s c A.
Hypothesis Hn : 0 < n < 2 ^ 27.

(** What a round leads to from a state with [k] rounds left. *)
Definition progress (k : Z) (r : (Z * Z) + Z) (s' : heap) : Prop :=
  match r with
  | inl st => exists k', k' < k /\ (searching s c n k' st s' \/ refilled s c A n k' st s')
  | inr a => malloced s c A n a s'
  end.

Lemma wp_round_take s1 c' i f prevp p np g k :
  pool base s1 c' A -> kept A s s1 -> hbrk s1 = hbrk s + g -> total c' = total c + g ->
  (g = 0 \/ g = core n /\ forall x, x ∈ c -> x.2 < n) ->
  at_block s1 c' i f prevp p np -> n <= np ->
  wp (r ← malloc_take n prevp p; mret (inr r)) (progress k) s1.
Proof.
  intros HP1 Hk Hb Ht Hg Hat Hle.
  destruct (at_block_fit _ _ _ _ _ _ _ _ n HP1 Hat ltac:(lia)) as (c1 & m & c2 & ->).
  wp_step. eapply wp_mono; [by apply (wp_malloc_take _ _ _ _ _ _ _ _ _ HP1); lia|].
  intros r s' (c'' & b & -> & HP' & Hk' & Hb' & Ht'). wp_step. right.
  exists c'', b, g. split_and!; [done|done|by eapply kept_trans|lia|lia|done].
Qed.

Lemma wp_round_morecore k :
  (forall x, x ∈ c -> x.2 < n) -> 2 ^ 40 <= k ->
  wp (p ← morecore grants n; if p =? 0 then mret (inr 0) else h ← getH p; mret (inl (p, hptr h))) (progress k) s.
Proof.
  intros Hall Hk40. wp_step. eapply wp_mono; [by apply (wp_morecore s c A)|]. intros r s' Hr. simpl in Hr.
  destruct (grants _ _) eqn:Hg; [|destruct Hr as [-> ->]; simpl; wp_step; by left].
  destruct Hr as (c' & f' & g & m & a & kk & HP' & Hk & Hb & Ht & Hfp & Hf' & Hg' & Hle & Hfg).
  assert (0 < r) as Hr0.
  { destruct (asc_above _ _ (r, m) (pl_asc _ _ _ _ HP')); [by eapply list_elem_of_lookup_2|].
    pose proof (pl_pos _ _ _ _ HP'). simpl in *. lia. }
  rewrite (proj2 (Z.eqb_neq r 0)) by lia.
  destruct (pool_next _ _ _ _ _ _ HP' Hf') as (q & nq & Hq & Hnx).
  do 3 wp_step. rewrite Hq. wp_step. simpl.
  pose proof (lookup_lt_Some _ _ _ Hf') as Hlt. pose proof (lookup_lt_Some _ _ _ Hg') as Hgt.
  pose proof (dist_range _ _ _ (after_lt _ _ Hlt) Hgt).
  pose proof (pool_len _ _ _ HP'). pose proof (dist_round _ _ Hlt).
  eexists. split; [|right; split; [done|]].
  2: { exists c', f', f', nq, g, a, kk. split_and!; try done; [|lia].
       split; [by exists m|done|exists m; by rewrite Hfp]. }
  lia.
Qed.

Lemma wp_round_searching k st s1 :
  searching s c n k st s1 -> wp (malloc_round grants n st) (progress k) s1.
Proof.
  destruct st as [prevp p]. intros (-> & i & f & np & Hat & -> & Hseen). simpl in Hat.
  destruct (at_block_lt _ _ _ _ _ _ _ Hat) as (Hi & Hj & Hf).
  destruct (at_block_next _ _ _ _ _ _ _ _ HP Hat) as (p' & np' & Hm & Hat').
  unfold malloc_round. do 3 wp_step. rewrite Hm. cbn [hptr hsize].
  destruct (Z.leb_spec n np).
  { eapply (wp_round_take _ _ _ _ _ _ _ 0); [done|apply kept_refl|lia|lia|by left|done|done]. }
  pose proof (ab_cur _ _ _ _ _ _ _ Hat) as Hcur. set (j := after (length c) i) in *.
  assert (forall g x, c !! g = Some x -> dist (length c) j f <= dist (length c) g f -> x.2 < n) as Hseen'.
  { intros g x Hg Hd. destruct (decide (dist (length c) j f = dist (length c) g f)) as [He|]; [|eapply Hseen; [done|lia]].
    apply dist_inj in He; [|done|by eapply lookup_lt_Some|done]. subst g. rewrite Hcur in Hg.
    by injection Hg as <-. }
  do 2 wp_step. pose proof (at_block_freep _ _ _ _ _ _ _ _ HP Hat) as Hfr.
  pose proof (dist_range _ _ _ Hj Hf). destruct (Z.eqb_spec p (freep s)) as [He|He].
  - apply Hfr in He. fold j in He. apply wp_round_morecore; [|lia].
    intros x [g Hg]%list_elem_of_lookup. eapply Hseen'; [done|]. rewrite He, dist_self.
    apply dist_range; [by eapply lookup_lt_Some|done].
  - wp_step. simpl. assert (j <> f) as Hne by (intros E; by apply He, Hfr).
    pose proof (dist_after _ _ _ Hj Hf Hne) as Hd.
    exists (2 ^ 40 + dist (length c) (after (length c) j) f). split; [lia|left].
    split; [done|]. exists j, f, np'. split_and!; [done|done|].
    intros g x Hg Hlt. eapply Hseen'; [done|]. lia.
Qed.

Lemma wp_round_refilled k st s1 :
  refilled s c A n k st s1 -> wp (malloc_round grants n st) (progress k) s1.
Proof.
  destruct st as [prevp p].
  intros (Hall & c' & i & f & np & g & a & m & HP' & Hk & Hb & Ht & Hat & Hg & Hle & Hd & ->). simpl in Hat.
  destruct (at_block_lt _ _ _ _ _ _ _ Hat) as (Hi & Hj & Hf).
  destruct (at_block_next _ _ _ _ _ _ _ _ HP' Hat) as (p' & np' & Hm & Hat').
  unfold malloc_round. do 3 wp_step. rewrite Hm. cbn [hptr hsize].
  destruct (Z.leb_spec n np).
  { by eapply (wp_round_take _ _ _ _ _ _ _ (core n)); eauto. }
  pose proof (ab_cur _ _ _ _ _ _ _ Hat) as Hcur. set (j := after (length c') i) in *. pose proof (lookup_lt_Some _ _ _ Hg) as Hgt.
  assert (j <> g) as Hjg.
  { intros E. rewrite <- E, Hcur in Hg. injection Hg as -> ->. lia. }
  pose proof (dist_range _ _ _ Hj Hgt) as Hr.
  assert (j <> f) as Hjf.
  { intros E. rewrite E in Hd at 2. rewrite dist_self in Hd.
    apply Hjg, (dist_zero _ _ _ Hj Hgt). lia. }
  do 2 wp_step. pose proof (at_block_freep _ _ _ _ _ _ _ _ HP' Hat) as Hfr.
  destruct (Z.eqb_spec p (freep s1)) as [He|He]; [exfalso; by apply Hjf, Hfr|].
  wp_step. simpl. pose proof (dist_after _ _ _ Hj Hf Hjf). pose proof (dist_after _ _ _ Hj Hgt Hjg).
  eexists. split; [|right; split; [done|]].
  2: { exists c', j, f, np', g, a, m. split_and!; try done. lia. }
  lia.
Qed.

End round.

(** The heap before the first call, or with its circle. *)
Definition heap_ok (s : heap) (c A : list block) : Prop :=
  (freep s = 0 /\ 0 < base < hbrk s /\ hbrk s < 2 ^ 32 /\ c = [(base, 0)] /\ A = []) \/ pool base s c A.

Lemma pool_first s : 0 < base < hbrk s -> hbrk s < 2 ^ 32 -> hmem s base = mkheader base 0 -> freep s = base ->
  pool base s [(base, 0)] [].
Proof.
  intros Hb Hl Hm Hf. split; simpl; [done|lia|done|lia|rewrite Hf; set_solver|set_solver|set_solver|constructor| |done].
  intros x ->%list_elem_of_singleton. simpl. lia.
Qed.

Lemma pool_malloc s c A n p0 : pool base s c A -> 0 < n < 2 ^ 27 -> hmem s (freep s) = p0 ->
  wp (loop (malloc_round grants n) (freep s, hptr p0)) (malloced s c A n) s.
Proof.
  intros HP Hn <-. destruct (pool_at _ _ _ _ HP (pl_freep _ _ _ _ HP)) as (f & m & Hf).
  destruct (pool_next _ _ _ _ _ _ HP Hf) as (q & nq & Hq & Hnx). rewrite Hq. cbn [hptr].
  pose proof (lookup_lt_Some _ _ _ Hf) as Hlt. pose proof (pool_len _ _ _ HP).
  pose proof (dist_round _ _ Hlt) as Hd.
  apply (wp_loop (fun k st s' => 0 < k /\ (searching s c n k st s' \/ refilled s c A n k st s')))
    with (n := 2 ^ 40 + dist (length c) (after (length c) f) f); [| |].
  - intros k st s' [Hk Hst]. split; [done|].
    assert (wp (malloc_round grants n st) (progress s c A n k) s') as Hw
      by (destruct Hst; [by apply wp_round_searching|by apply wp_round_refilled]).
    eapply wp_mono; [exact Hw|]. intros [st'|r] s'' Hp; [|exact Hp].
    destruct Hp as (k' & Hk' & Hst'). exists k'. split; [done|]. split; [|done].
    destruct Hst' as [(_ & i' & f' & ? & Hat & -> & _)|(_ & c' & i' & f' & ? & g & ? & ? & _ & _ & _ & _ & Hat & Hg & _ & _ & ->)];
      destruct (at_block_lt _ _ _ _ _ _ _ Hat) as (? & Hj & ?);
      [pose proof (dist_range _ _ f' Hj ltac:(done))
      |pose proof (dist_range _ _ g Hj ltac:(by eapply lookup_lt_Some))]; lia.
  - lia.
  - split; [lia|]. left. split; [done|]. exists f, f, nq. split_and!; [split; eauto|done|].
    intros g x Hg Hlt'. pose proof (dist_range _ _ f (lookup_lt_Some _ _ _ Hg) Hlt). lia.
Qed.

Lemma units_spec nbytes : 0 <= nbytes <= 2 ^ 31 - 32 ->
  0 < units nbytes < 2 ^ 27 /\ nbytes <= (units nbytes - 1) * HSIZE < nbytes + HSIZE.
Proof.
  unfold units, u32, u64, HSIZE. intros. rewrite (Z.mod_small (nbytes + 16 - 1)) by lia.
  pose proof (Z.div_mod (nbytes + 16 - 1) 16 ltac:(lia)). pose proof (Z.mod_pos_bound (nbytes + 16 - 1) 16 ltac:(lia)).
  rewrite Z.mod_small by lia. lia.
Qed.

Lemma wp_malloc s c A nbytes : heap_ok s c A -> 0 <= nbytes <= 2 ^ 31 - 32 ->
  wp (malloc base grants nbytes) (fun r s' => exists s1, pool base s1 c A /\ hbrk s1 = hbrk s /\ kept A s s1 /\
    malloced s1 c A (units nbytes) r s') s.
Proof.
  intros Hok Hn. destruct (units_spec _ Hn) as [Hu _]. unfold malloc. do 2 wp_step.
  assert (forall s1, pool base s1 c A -> hbrk s1 = hbrk s -> kept A s s1 ->
    wp (loop (malloc_round grants (units nbytes)) (freep s1, hptr (hmem s1 (freep s1)))) (fun r s' => exists s1,
      pool base s1 c A /\ hbrk s1 = hbrk s /\ kept A s s1 /\ malloced s1 c A (units nbytes) r s') s1) as Hloop.
  { intros s1 H1 Hb Hk. eapply wp_mono; [by apply (pool_malloc _ _ _ _ _ H1 Hu)|].
    intros r s' Hm. by exists s1. }
  destruct Hok as [(Hf & Hb & Hl & -> & ->)|HP].
  - rewrite Hf. simpl (0 =? 0). cbv iota. do 9 wp_step.
    match goal with |- wp _ _ ?t => set (s1 := t) end. do 2 wp_step. apply (Hloop s1); [|done|].
    + apply pool_first; [done|done| |done]. cbn. by rewrite !hset_eq.
    + clear Hloop. intros x (y & Hy & _). exfalso. inversion Hy.
  - rewrite (proj2 (Z.eqb_neq _ _)).
    + do 3 wp_step. apply Hloop; [done|done|apply kept_refl].
    + pose proof (pl_freep _ _ _ _ HP) as ([a m] & Ha & Hin)%list_elem_of_fmap. rewrite Ha.
      destruct (asc_above _ _ _ (pl_asc _ _ _ _ HP) Hin) as [Hlo _]. pose proof (pl_pos _ _ _ _ HP).
      clear Hloop. simpl in *. lia.
Qed.

(** ** The clients *)

(** A client writes inside its block. *)
Lemma pool_write s c A x h y :
  pool base s c A -> y ∈ A -> y.1 < x < y.1 + y.2 -> pool base (s <| hmem ::= fun m => hset m x h |>) c A.
Proof.
  intros H Hy Hx. split; try apply H.
  - apply (links_frame (hmem s)); [|apply H]. intros z Hz. apply hset_ne.
    pose proof (pl_free _ _ _ _ H z y Hz Hy) as Ha. unfold apart in Ha. lia.
  - intros z Hz. pose proof (pl_alloc _ _ _ _ H z Hz) as (? & ? & ?). split; [|done].
    cbn. rewrite hset_ne; [done|].
    destruct (pairs_apart _ _ _ (pl_pair _ _ _ _ H) Hz Hy) as [->|Ha]; [lia|]. unfold apart in Ha. lia.
Qed.

Lemma pool_perm s c A A' : A ≡ₚ A' -> pool base s c A -> pool base s c A'.
Proof.
  intros Hp []. split; try done.
  - intros x Hx. apply pl_alloc0. by rewrite Hp.
  - intros x y Hx Hy. apply pl_free0; [done|]. by rewrite Hp.
  - by eapply pairs_perm.
  - intros x Hx. apply pl_top0. by rewrite Hp.
Qed.

(** The runs of a program: its calls, and its writes to the blocks it holds.
    [A] holds the blocks it has not freed. *)
Inductive client (s0 : heap) : heap -> list block -> Prop :=
  | cl_start : client s0 s0 []
  | cl_malloc s A nbytes r s' :
      client s0 s A -> 0 <= nbytes <= 2 ^ 31 - 32 -> malloc base grants nbytes s = Ok r s' ->
      client s0 s' (if r =? 0 then A else (r - 1, units nbytes) :: A)
  | cl_free s A b n A' s' :
      client s0 s A -> A ≡ₚ (b, n) :: A' -> free (b + 1) s = Ok tt s' -> client s0 s' A'
  | cl_write s A x h y :
      client s0 s A -> y ∈ A -> y.1 < x < y.1 + y.2 -> client s0 (s <| hmem ::= fun m => hset m x h |>) A.

Definition fresh (s : heap) : Prop := freep s = 0 /\ 0 < base < hbrk s /\ hbrk s < 2 ^ 32.

Lemma client_ok s0 s A :
  fresh s0 -> client s0 s A -> exists c, heap_ok s c A /\ total c + total A = hbrk s - hbrk s0.
Proof.
  intros (Hf & Hb & Hl). induction 1 as [|s A nbytes r s' _ IH Hn HM|s A b n A' s' _ IH Hp HF|s A x h y _ IH Hy Hx].
  - exists [(base, 0)]. split; [by left|]. simpl. lia.
  - destruct IH as (c & Hok & Ht). pose proof (wp_ok _ _ _ _ _ (wp_malloc _ _ _ _ Hok Hn) HM) as Hw. clear HM.
    destruct Hw as (s1 & HP & Hb1 & _ & [(-> & -> & _)|(c' & b & g & -> & HP' & _ & Hb' & Ht' & _)]).
    + exists c. split; [by right|]. simpl. lia.
    + destruct (pl_alloc _ _ _ _ HP' (b, units nbytes) ltac:(set_solver)) as (_ & _ & Hbb). simpl in Hbb.
      pose proof (pl_pos _ _ _ _ HP'). rewrite (proj2 (Z.eqb_neq _ _)) by lia.
      replace (b + 1 - 1) with b by lia. exists c'. split; [by right|]. simpl. lia.
  - destruct IH as (c & [(_ & _ & _ & _ & ->)|HP] & Ht); [destruct (Permutation_nil_cons Hp)|].
    pose proof (wp_ok _ _ _ _ _ (wp_free _ _ _ _ _ (pool_perm _ _ _ _ Hp HP)) HF) as Hw. clear HF.
    destruct Hw as (c' & f & g & q & m & a & k & HP' & _ & Hb' & Ht' & _).
    exists c'. split; [by right|]. rewrite (total_perm _ _ Hp) in Ht. simpl in Ht. lia.
  - destruct IH as (c & [(_ & _ & _ & _ & ->)|HP] & Ht); [by apply elem_of_nil in Hy|].
    exists c. split; [|exact Ht]. right. exact (pool_write _ _ _ _ _ _ HP Hy Hx).
Qed.

End pool.

(** ** What the clients may rely on *)

Section contract.
Context (base : Z) (grants : Z -> Z -> bool).

(** C26: In every run of a program, a call of malloc for up to 2^31 - 32 bytes
    returns.  Either it returns a block of at least that many bytes that lies
    inside the memory obtained from sbrk and overlaps no block the program
    holds, or it returns 0 and sbrk refused to grow the heap.  No byte of a
    block the program holds is changed. *)
Theorem malloc_hands_out s0 s A nbytes :
  (forall b n, grants b n = true -> b + n / HSIZE < 2 ^ 32) -> fresh base s0 ->
  client base grants s0 s A -> 0 <= nbytes <= 2 ^ 31 - 32 ->
  exists r s', malloc base grants nbytes s = Ok r s' /\ kept A s s' /\
    ((r = 0 /\ grants (hbrk s) (core (units nbytes) * HSIZE) = false) \/
     (exists b, r = b + 1 /\ base < b /\ b + units nbytes <= hbrk s' /\ nbytes <= (units nbytes - 1) * HSIZE /\
        forall y, y ∈ A -> b + units nbytes <= y.1 \/ y.1 + y.2 <= b)).
Proof.
  intros Hl Hf HC Hn. destruct (client_ok _ _ Hl _ _ _ Hf HC) as (c & Hok & _).
  destruct (wp_inv _ _ _ (wp_malloc _ _ Hl _ _ _ _ Hok Hn)) as (r & s' & HM & s1 & HP & Hb & Hk & Hr).
  exists r, s'. split; [exact HM|]. clear HM. destruct Hr as [(-> & -> & Hg & _)|(c' & b & g & -> & HP' & Hk' & _)].
  - split; [done|]. left. by rewrite <- Hb.
  - split; [by eapply kept_trans|]. right. exists b.
    destruct (pl_alloc _ _ _ _ HP' (b, units nbytes) ltac:(set_solver)) as (_ & Hu & Hlo).
    destruct (pl_top _ _ _ _ HP' (b, units nbytes) ltac:(set_solver)) as [_ Htop]. simpl in *.
    destruct (units_spec _ Hn) as [_ [Hsz _]]. split_and!; try done.
    pose proof (pl_pair _ _ _ _ HP') as [Hp _]%pairs_cons. rewrite Forall_forall in Hp.
    intros y Hy. specialize (Hp y Hy). unfold apart in Hp. simpl in Hp. lia.
Qed.

(** Freed memory is used again: after a program frees a block, a request
    that the block could hold succeeds without growing the heap, and the
    remaining blocks keep their contents through both calls. *)
Theorem malloc_after_free s0 s b n A nbytes :
  (forall b n, grants b n = true -> b + n / HSIZE < 2 ^ 32) -> fresh base s0 ->
  client base grants s0 s ((b, n) :: A) -> 0 <= nbytes <= 2 ^ 31 - 32 -> units nbytes <= n ->
  exists s1 r s2, free (b + 1) s = Ok tt s1 /\ malloc base grants nbytes s1 = Ok r s2 /\
    r <> 0 /\ hbrk s2 = hbrk s /\ kept A s s2.
Proof.
  intros Hl Hf HC Hn Hu. destruct (client_ok _ _ Hl _ _ _ Hf HC) as (c & [(_ & _ & _ & _ & [=])|HP] & _).
  destruct (wp_inv _ _ _ (wp_free _ _ _ _ _ _ HP)) as ([] & s1 & HF & c1 & f & g & q & m & a & k & HP1 & Hk1 & Hb1 & _ & _ & _ & Hg & Hnk & _).
  assert (heap_ok base s1 c1 A) as Hok1 by (by right).
  destruct (wp_inv _ _ _ (wp_malloc _ _ Hl _ _ _ _ Hok1 Hn)) as (r & s2 & HM & s1' & HP' & Hb' & Hk' & Hr).
  exists s1, r, s2. split; [exact HF|]. split; [exact HM|]. clear HF HM.
  assert (~ forall x, x ∈ c1 -> x.2 < units nbytes) as Hbig.
  { intros Hx. specialize (Hx (a, k) ltac:(by eapply list_elem_of_lookup_2)). simpl in Hx. lia. }
  destruct Hr as [(_ & _ & _ & Hx)|(c2 & b2 & g2 & -> & HP2 & Hk2 & Hb2 & _ & [->|[_ Hx]])]; [by destruct Hbig| |by destruct Hbig].
  destruct (pl_alloc _ _ _ _ HP2 (b2, units nbytes) ltac:(set_solver)) as (_ & _ & Hlo). simpl in Hlo.
  pose proof (pl_pos _ _ _ _ HP2). split_and!; [lia|lia|]. by eapply kept_trans; [|eapply kept_trans].
Qed.

(** C27: In every run of a program the blocks it holds do not overlap, their
    headers are intact, and no memory is lost: the blocks of the free list,
    which are linked in ascending order with no two adjacent, and the blocks
    of the program add up to what sbrk gave. *)
Theorem umalloc_conserves s0 s A :
  (forall b n, grants b n = true -> b + n / HSIZE < 2 ^ 32) -> fresh base s0 ->
  client base grants s0 s A ->
  ForallOrdPairs apart A /\ (forall x, x ∈ A -> hsize (hmem s x.1) = x.2) /\
  exists c, asc (base - 1) c /\ (freep s <> 0 -> links (hmem s) c base) /\ total c + total A = hbrk s - hbrk s0.
Proof.
  intros Hl Hf HC. destruct (client_ok _ _ Hl _ _ _ Hf HC) as (c & [(Hz & Hb & Hlim & -> & ->)|HP] & Ht).
  - split_and!; [constructor|set_solver|]. exists [(base, 0)]. split_and!; [simpl; lia|done|done].
  - split_and!; [apply HP|by intros x Hx; apply HP|]. exists c. split_and!; [apply HP|intros; apply HP|done].
Qed.

End contract.

(** ** A run *)

Definition ex_grants (b n : Z) : bool := (0 <=? n) && (b + n / HSIZE <? 2 ^ 32).
Definition ex_heap : heap := mkheap (fun _ => mkheader 0 0) 0 1000.
Definition ex_heap1 : heap := match malloc 16 ex_grants 100 ex_heap with Ok _ s => s | _ => ex_heap end.

Lemma ex_grants_limit b n : ex_grants b n = true -> b + n / HSIZE < 2 ^ 32.
Proof. unfold ex_grants. lia. Qed.

Lemma ex_fresh : fresh 16 ex_heap.
Proof. by split_and!; vm_compute. Qed.

(** The first call takes 4096 units from sbrk and cuts 8 off their end. *)
Lemma ex_malloc : malloc 16 ex_grants 100 ex_heap = Ok 5089 ex_heap1.
Proof. vm_compute. reflexivity. Qed.

Lemma ex_client : client 16 ex_grants ex_heap ex_heap1 [(5088, 8)].
Proof. exact (cl_malloc 16 ex_grants ex_heap ex_heap [] 100 5089 ex_heap1 (cl_start _ _ _) ltac:(lia) ex_malloc). Qed.

(** A request near 2^32 bytes overflows the [int] argument of sbrk: no memory is
    obtained, and the pointer returned is not null. *)
Lemma malloc_int_overflow : exists s', malloc 16 ex_grants (2 ^ 32 - 16) ex_heap = Ok 1001 s' /\ hbrk s' = hbrk ex_heap.
Proof. eexists. vm_compute. split; reflexivity. Qed.

Lemma malloc_hands_out_witness :
  exists r s', malloc 16 ex_grants 1000 ex_heap1 = Ok r s' /\ kept [(5088, 8)] ex_heap1 s'.
Proof.
  destruct (malloc_hands_out 16 ex_grants ex_heap ex_heap1 [(5088, 8)] 1000 ex_grants_limit ex_fresh ex_client ltac:(lia))
    as (r & s' & H & Hk & _). exact (ex_intro _ r (ex_intro _ s' (conj H Hk))).
Defined.

Lemma malloc_after_free_witness :
  exists s1 r s2, free 5089 ex_heap1 = Ok tt s1 /\ malloc 16 ex_grants 64 s1 = Ok r s2 /\ hbrk s2 = 5096.
Proof.
  destruct (malloc_after_free 16 ex_grants ex_heap ex_heap1 5088 8 [] 64 ex_grants_limit ex_fresh ex_client ltac:(lia) ltac:(by vm_compute))
    as (s1 & r & s2 & H1 & H2 & _ & Hb & _). exists s1, r, s2. split; [exact H1|]. split; [exact H2|]. rewrite Hb. by vm_compute.
Defined.

Lemma umalloc_conserves_witness :
  exists c, total c + total [(5088, 8)] = hbrk ex_heap1 - hbrk ex_heap /\ links (hmem ex_heap1) c 16.
Proof.
  destruct (umalloc_conserves 16 ex_grants ex_heap ex_heap1 [(5088, 8)] ex_grants_limit ex_fresh ex_client)
    as (_ & _ & c & _ & Hl & Ht). exists c. split; [exact Ht|]. apply Hl. by vm_compute.
Defined.
