(* ===== verification/Sh.v ===== *)
(** * user/sh.c: the command parser of the shell

    A command line is the list of its bytes without the NUL; a pointer into it
    is an index, and the byte at the index past its end is the NUL.  The state
    of the parser is the pointer [*ps].  The parser is proved to accept exactly
    the lines of the grammar below it and to build the tree the grammar gives
    ([parsecmd_grammar]), and to end on every line ([parsecmd_total]). *)

From S2P Require Import Prelude KState.
From Stdlib Require Import Ascii.

Definition MAXARGS : Z := 10.

(** [argv[i]] and [eargv[i]], or [file] and [efile]. *)
Abbreviation span := (nat * nat)%type.

(** The parsed commands, with the source's constructors.  [argv] is cut off at
    its null pointer. *)
Inductive cmd :=
  | execcmd (argv : list span)
  | redircmd (subcmd : cmd) (file : span) (mode fd : Z)
  | pipecmd (left right : cmd)
  | listcmd (left right : cmd)
  | backcmd (subcmd : cmd).

Definition whitespace : list Z := [32; 9; 13; 10; 11].
Definition symbols : list Z := str "<|>&;()".

Definition strchr (s : list Z) (c : Z) : bool := existsb (Z.eqb c) s.

(** The number of bytes a loop [while(s < es && f( *s)) s++] passes. *)
Fixpoint scan (f : Z -> bool) (l : list Z) : nat :=
  match l with
  | c :: l' => if f c then S (scan f l') else O
  | [] => O
  end.

Definition is_space (c : Z) : bool := strchr whitespace c.
Definition is_word (c : Z) : bool := negb (strchr whitespace c) && negb (strchr symbols c).

Arguments strchr : simpl never.
Arguments is_space : simpl never.
Arguments is_word : simpl never.
Arguments chr : simpl never.
Arguments str : simpl never.

Section parser.
Context (line : list Z).

Definition char_at (s : nat) : Z := nth s line 0.
Definition skip (f : Z -> bool) (s : nat) : nat := (s + scan f (drop s line))%nat.

(** The switch of [gettoken]: the code of the token at [s] and where it ends. *)
Definition token_at (s : nat) : Z * nat :=
  let c := char_at s in
  if c =? 0 then (c, s)
  else if strchr (str "|();&<") c then (c, S s)
  else if c =? chr ">" then
    let s := S s in
    if char_at s =? chr ">" then (chr "+", S s) else (c, s)
  else (chr "a", skip is_word s).

(** The code of the token, with [q] and [eq]. *)
Definition gettoken : M nat (Z * span) :=
  q ← gets (skip is_space);
  let '(ret, s) := token_at q in
  modify (fun _ => skip is_space s);;
  mret (ret, (q, s)).

Definition peek (toks : list Z) : M nat bool :=
  modify (skip is_space);;
  c ← gets char_at;
  mret (negb (c =? 0) && strchr toks c).

(** The mode and the descriptor of a redirection. *)
Definition redir_mode (tok : Z) : option (Z * Z) :=
  if tok =? chr "<" then Some (O_RDONLY, 0)
  else if tok =? chr ">" then Some (Z.lor (Z.lor O_WRONLY O_CREATE) O_TRUNC, 1)
  else if tok =? chr "+" then Some (Z.lor O_WRONLY O_CREATE, 1)
  else None.

Fixpoint parseredirs (n : nat) (c : cmd) : M nat cmd :=
  match n with
  | O => nofuel
  | S n =>
      b ← peek (str "<>");
      if (b : bool) then
        r ← gettoken;
        let '(tok, _) := (r : Z * span) in
        r ← gettoken;
        let '(t, file) := (r : Z * span) in
        if negb (t =? chr "a") then panic "missing file for redirection"
        else
          parseredirs n
            match redir_mode tok with
            | Some (mode, fd) => redircmd c file mode fd
            | None => c
            end
      else mret c
  end.

(** [cmd->argv[argc] = q; cmd->eargv[argc] = eq], where [cmd] is the structure
    that the redirections of [ret] end in. *)
Fixpoint add_arg (ret : cmd) (a : span) : cmd :=
  match ret with
  | execcmd argv => execcmd (argv ++ [a])
  | redircmd c file mode fd => redircmd (add_arg c a) file mode fd
  | c => c
  end.

(** The loop of [parseexec]. *)
Fixpoint parseargs (n : nat) (argc : Z) (ret : cmd) : M nat cmd :=
  match n with
  | O => nofuel
  | S n =>
      b ← peek (str "|)&;");
      if negb (b : bool) then
        r ← gettoken;
        let '(tok, a) := (r : Z * span) in
        if tok =? 0 then mret ret
        else if negb (tok =? chr "a") then panic "syntax"
        else
          let ret := add_arg ret a in
          let argc := argc + 1 in
          if MAXARGS <=? argc then panic "too many args"
          else
            ret ← parseredirs n ret;
            parseargs n argc ret
      else mret ret
  end.

(** The loop of [parseline]. *)
Fixpoint parsebacks (n : nat) (c : cmd) : M nat cmd :=
  match n with
  | O => nofuel
  | S n =>
      b ← peek (str "&");
      if (b : bool) then gettoken;; parsebacks n (backcmd c) else mret c
  end.

Fixpoint parseline (n : nat) : M nat cmd :=
  match n with
  | O => nofuel
  | S n =>
      c ← parsepipe n;
      c ← parsebacks n c;
      b ← peek (str ";");
      if (b : bool) then
        gettoken;;
        r ← parseline n;
        mret (listcmd c r)
      else mret c
  end
with parsepipe (n : nat) : M nat cmd :=
  match n with
  | O => nofuel
  | S n =>
      c ← parseexec n;
      b ← peek (str "|");
      if (b : bool) then
        gettoken;;
        r ← parsepipe n;
        mret (pipecmd c r)
      else mret c
  end
with parseexec (n : nat) : M nat cmd :=
  match n with
  | O => nofuel
  | S n =>
      b ← peek (str "(");
      if (b : bool) then parseblock n
      else
        ret ← parseredirs n (execcmd []);
        parseargs n 0 ret
  end
with parseblock (n : nat) : M nat cmd :=
  match n with
  | O => nofuel
  | S n =>
      b ← peek (str "(");
      if negb (b : bool) then panic "parseblock"
      else
        gettoken;;
        c ← parseline n;
        b ← peek (str ")");
        if negb (b : bool) then panic "syntax - missing )"
        else
          gettoken;;
          parseredirs n c
  end.

End parser.

Arguments char_at : simpl never.
Arguments skip : simpl never.
Arguments token_at : simpl never.

(** [*e = 0] for the end of every word of the command. *)
Definition put_nul (l : list Z) (a : span) : list Z := <[a.2 := 0]> l.

Fixpoint nulterminate (l : list Z) (c : cmd) : list Z :=
  match c with
  | execcmd argv => foldl put_nul l argv
  | redircmd c file _ _ => put_nul (nulterminate l c) file
  | pipecmd l1 r1 => nulterminate (nulterminate l l1) r1
  | listcmd l1 r1 => nulterminate (nulterminate l l1) r1
  | backcmd c => nulterminate l c
  end.

(** The bound on the depth of the calls: four for each byte. *)
Definition depth (line : list Z) : nat := (4 * length line + 4)%nat.

(** The command and the line with its words cut off, the NUL at its end included. *)
Definition parsecmd (line : list Z) : result nat (cmd * list Z) :=
  (c ← parseline line (depth line);
   peek line [];;
   s ← gets id;
   if negb (s =? length line)%nat then panic "syntax"
   else mret (c, nulterminate (line ++ [0]) c)) O.

(** ** The grammar *)

Inductive token := TWord (w : list Z) | TApp | TSym (c : Z).

Definition starts_word (l : list Z) : bool := match l with c :: _ => is_word c | [] => false end.

(** The tokens of a line: white space separates, the symbols stand for
    themselves, [>>] is one token, and a word is as long as it can be. *)
Fixpoint lex (l : list Z) : list token :=
  match l with
  | [] => []
  | c :: l' =>
      if is_space c then lex l'
      else if c =? chr ">" then
        match l' with
        | c' :: l'' => if c' =? chr ">" then TApp :: lex l'' else TSym c :: lex l'
        | [] => [TSym c]
        end
      else if strchr symbols c then TSym c :: lex l'
      else if starts_word l' then
        match lex l' with TWord w :: ts => TWord (c :: w) :: ts | ts => TWord [c] :: ts end
      else TWord [c] :: lex l'
  end.

(** The commands, with their words. *)
Inductive tree :=
  | Exec (args : list (list Z))
  | Redir (t : tree) (file : list Z) (mode fd : Z)
  | Pipe (l r : tree)
  | List (l r : tree)
  | Back (t : tree).

Definition tok_redir (t : token) : option (Z * Z) :=
  match t with
  | TSym c => if c =? chr "<" then Some (O_RDONLY, 0)
              else if c =? chr ">" then Some (Z.lor (Z.lor O_WRONLY O_CREATE) O_TRUNC, 1) else None
  | TApp => Some (Z.lor O_WRONLY O_CREATE, 1)
  | TWord _ => None
  end.

(** The words of a simple command and its redirections, in any order. *)
Inductive elems : list token -> list (list Z) -> list (list Z * (Z * Z)) -> Prop :=
  | el_nil : elems [] [] []
  | el_word w ts ws rs : elems ts ws rs -> elems (TWord w :: ts) (w :: ws) rs
  | el_redir k m w ts ws rs :
      tok_redir k = Some m -> elems ts ws rs -> elems (k :: TWord w :: ts) ws ((w, m) :: rs).

(** The redirections of a command, the last one outermost. *)
Definition wrap : tree -> list (list Z * (Z * Z)) -> tree := foldl (fun t '(w, (mode, fd)) => Redir t w mode fd).

Inductive gline : list token -> tree -> Prop :=
  | gl_one ts n t : gpipe ts t -> gline (ts ++ replicate n (TSym (chr "&"))) (Nat.iter n Back t)
  | gl_list ts n t ts' t' :
      gpipe ts t -> gline ts' t' ->
      gline (ts ++ replicate n (TSym (chr "&")) ++ TSym (chr ";") :: ts') (List (Nat.iter n Back t) t')
with gpipe : list token -> tree -> Prop :=
  | gp_one ts t : gexec ts t -> gpipe ts t
  | gp_pipe ts t ts' t' : gexec ts t -> gpipe ts' t' -> gpipe (ts ++ TSym (chr "|") :: ts') (Pipe t t')
with gexec : list token -> tree -> Prop :=
  | ge_simple ts ws rs : elems ts ws rs -> Z.of_nat (length ws) < MAXARGS -> gexec ts (wrap (Exec ws) rs)
  | ge_block ts t ts' rs :
      gline ts t -> elems ts' [] rs -> gexec (TSym (chr "(") :: ts ++ TSym (chr ")") :: ts') (wrap t rs).

(** ** What a command stands for *)

(** The words as they stand in the line, or as strings that end at a NUL. *)
Definition word_of (line : list Z) (a : span) : list Z := take (a.2 - a.1) (drop a.1 line).

Fixpoint upto_nul (l : list Z) : list Z :=
  match l with c :: l' => if c =? 0 then [] else c :: upto_nul l' | [] => [] end.

Definition string_at (mem : list Z) (a : span) : list Z := upto_nul (drop a.1 mem).

Fixpoint tree_of (f : span -> list Z) (c : cmd) : tree :=
  match c with
  | execcmd argv => Exec (f <$> argv)
  | redircmd c file mode fd => Redir (tree_of f c) (f file) mode fd
  | pipecmd l r => Pipe (tree_of f l) (tree_of f r)
  | listcmd l r => List (tree_of f l) (tree_of f r)
  | backcmd c => Back (tree_of f c)
  end.

Fixpoint spans (c : cmd) : list span :=
  match c with
  | execcmd argv => argv
  | redircmd c file _ _ => spans c ++ [file]
  | pipecmd l r => spans l ++ spans r
  | listcmd l r => spans l ++ spans r
  | backcmd c => spans c
  end.

(** ** The lexer *)

Definition all (f : Z -> bool) (l : list Z) : Prop := Forall (fun c => f c = true) l.

Lemma scan_all f l : all f (take (scan f l) l).
Proof. induction l as [|c l IH]; simpl; [constructor|]. destruct (f c) eqn:E; simpl; constructor; done. Qed.

Lemma scan_le f l : (scan f l <= length l)%nat.
Proof. induction l as [|c l IH]; simpl; [done|]. destruct (f c); simpl; lia. Qed.

Lemma scan_stop f l c l' : drop (scan f l) l = c :: l' -> f c = false.
Proof.
  induction l as [|x l IH]; simpl; [done|]. destruct (f x) eqn:E; simpl; [done|]. by intros [= -> ->].
Qed.

Lemma lex_space l : lex (drop (scan is_space l) l) = lex l.
Proof. induction l as [|c l IH]; simpl; [done|]. destruct (is_space c) eqn:E; [done|]. simpl. by rewrite E. Qed.

Lemma is_word_not c : is_word c = true -> is_space c = false /\ strchr symbols c = false /\ (c =? chr ">") = false.
Proof.
  unfold is_word, is_space. intros [H1 H2]%andb_true_iff. apply negb_true_iff in H1, H2. split_and!; [done|done|].
  by destruct (Z.eqb_spec c (chr ">")) as [->|].
Qed.

Lemma lex_word w l : w <> [] -> all is_word w -> starts_word l = false -> lex (w ++ l) = TWord w :: lex l.
Proof.
  intros Hne Hw Hl. induction w as [|c w IH]; [done|]. apply Forall_cons in Hw as [Hc Hw].
  destruct (is_word_not c Hc) as (H1 & H2 & H3). simpl. rewrite H1, H3, H2.
  destruct w as [|c' w]; [by simpl; rewrite Hl|].
  rewrite IH by done. apply Forall_cons in Hw as [Hc' _]. simpl. by rewrite Hc'.
Qed.

Lemma lex_gt l :
  lex (chr ">" :: l) = match l with c' :: l' => if c' =? chr ">" then TApp :: lex l' else TSym (chr ">") :: lex l | [] => [TSym (chr ">")] end.
Proof. reflexivity. Qed.

Lemma lex_sym c l : is_space c = false -> c <> chr ">" -> strchr symbols c = true -> lex (c :: l) = TSym c :: lex l.
Proof. intros Hc Hg Hy. simpl. by rewrite Hc, (proj2 (Z.eqb_neq _ _) Hg), Hy. Qed.

Definition tok_code (t : token) : Z := match t with TWord _ => chr "a" | TApp => chr "+" | TSym c => c end.

(** The first byte of a symbol among [toks]. *)
Definition head_in (toks : list Z) (ts : list token) : bool :=
  match ts with TSym c :: _ => strchr toks c | TApp :: _ => strchr toks (chr ">") | _ => false end.

Lemma strchr_elem s c : strchr s c = true <-> c ∈ s.
Proof. unfold strchr. rewrite existsb_exists. setoid_rewrite Z.eqb_eq. rewrite list_elem_of_In. naive_solver. Qed.

Lemma head_in_lex toks c l : toks ⊆ symbols -> is_space c = false -> head_in toks (lex (c :: l)) = strchr toks c.
Proof.
  intros Ht Hc. simpl. rewrite Hc. destruct (Z.eqb_spec c (chr ">")) as [->|Hgt].
  { destruct l as [|c' l]; [done|]. by destruct (c' =? chr ">"). }
  destruct (strchr symbols c) eqn:E; [done|].
  assert (strchr toks c = false) as ->.
  { destruct (strchr toks c) eqn:F; [|done]. apply strchr_elem, Ht, strchr_elem in F. congruence. }
  destruct (starts_word l); [|done]. by destruct (lex l) as [|[]].
Qed.

Section lexer.
Context (line : list Z).
Hypothesis no_nul : Forall (fun c => c <> 0) line.

(** The tokens ahead of the pointer. *)
Definition ahead (s : nat) : list token := lex (drop s line).

(** A word of the line: it is not empty, and what follows it is not part of it. *)
Definition is_span (a : span) : Prop :=
  (a.1 < a.2 <= length line)%nat /\ all is_word (word_of line a) /\ starts_word (drop a.2 line) = false.

Lemma skip_bounds f s : (s <= length line)%nat -> (s <= skip line f s <= length line)%nat.
Proof. intros Hs. unfold skip. pose proof (scan_le f (drop s line)). rewrite length_drop in *. lia. Qed.

Lemma drop_skip f s : drop (skip line f s) line = drop (scan f (drop s line)) (drop s line).
Proof. unfold skip. by rewrite drop_drop. Qed.

Lemma ahead_space s : ahead (skip line is_space s) = ahead s.
Proof. unfold ahead. by rewrite drop_skip, lex_space. Qed.

Lemma char_at_drop s : char_at line s = match drop s line with c :: _ => c | [] => 0 end.
Proof. clear no_nul. unfold char_at. revert s. induction line as [|c l IH]; intros [|s]; simpl; auto. Qed.

Lemma ahead_cons s c l : drop s line = c :: l -> (s < length line)%nat /\ c <> 0 /\ drop (S s) line = l.
Proof.
  intros H. assert (s < length line)%nat as Hlt.
  { apply (f_equal length) in H. rewrite length_drop in H. simpl in H. lia. }
  split_and!; [done| |].
  - assert (Forall (fun c => c <> 0) (c :: l)) as Hf by (rewrite <- H; by apply Forall_drop). by inversion Hf.
  - replace (S s) with (s + 1)%nat by lia. by rewrite <- drop_drop, H.
Qed.

Lemma skip_nil s : (s <= length line)%nat -> ahead s = [] -> skip line is_space s = length line.
Proof.
  intros Hs He. pose proof (skip_bounds is_space s Hs). rewrite <- ahead_space in He. unfold ahead in He.
  destruct (drop (skip line is_space s) line) as [|c l] eqn:E; [|exfalso].
  - apply (f_equal length) in E. rewrite length_drop in E. simpl in E. lia.
  - rewrite drop_skip in E. apply scan_stop in E as Hc. clear -He Hc. simpl in He. rewrite Hc in He.
    repeat case_match; done.
Qed.

Lemma skip_cons s t ts : (s <= length line)%nat -> ahead s = t :: ts ->
  exists c l, drop (skip line is_space s) line = c :: l /\ is_space c = false /\ c <> 0 /\ lex (c :: l) = t :: ts /\
    (s <= skip line is_space s < length line)%nat /\ drop (S (skip line is_space s)) line = l.
Proof.
  intros Hs He. pose proof (skip_bounds is_space s Hs). rewrite <- ahead_space in He. unfold ahead in He.
  destruct (drop (skip line is_space s) line) as [|c l] eqn:E; [done|].
  destruct (ahead_cons _ _ _ E) as (Hlt & Hc & Hd). exists c, l. split_and!; try done; [|lia].
  rewrite drop_skip in E. by eapply scan_stop.
Qed.

Lemma peek_spec toks s : (s <= length line)%nat -> toks ⊆ symbols ->
  exists s1, peek line toks s = Ok (head_in toks (ahead s)) s1 /\ ahead s1 = ahead s /\
    (s <= s1 <= length line)%nat /\ (ahead s = [] -> s1 = length line).
Proof.
  intros Hs Ht. exists (skip line is_space s). split_and!; [|apply ahead_space|by apply skip_bounds..|by apply skip_nil].
  assert ((negb (char_at line (skip line is_space s) =? 0) && strchr toks (char_at line (skip line is_space s)))
    = head_in toks (ahead s)) as <-; [|done].
  rewrite char_at_drop. destruct (ahead s) as [|t ts] eqn:E.
  - rewrite (skip_nil s Hs E), drop_ge by done. done.
  - destruct (skip_cons s t ts Hs E) as (c & l & -> & Hc & Hn & <- & _). rewrite head_in_lex by done.
    by rewrite (proj2 (Z.eqb_neq c 0)).
Qed.

Lemma gettoken_eq s :
  gettoken line s = let q := skip line is_space s in let '(r, e) := token_at line q in Ok (r, (q, e)) (skip line is_space e).
Proof. unfold gettoken, mbind, M_bind, gets. simpl. by destruct (token_at _ _). Qed.

Lemma gettoken_nil s : (s <= length line)%nat -> ahead s = [] ->
  exists a, gettoken line s = Ok (0, a) (length line).
Proof.
  intros Hs He. exists (length line, length line). rewrite gettoken_eq, (skip_nil s Hs He).
  unfold token_at. rewrite char_at_drop, drop_ge by done. simpl. unfold skip. by rewrite drop_ge, Nat.add_0_r.
Qed.

(** What the tokens of a line are. *)
Definition is_token (t : token) (a : span) : Prop :=
  match t with
  | TSym c => strchr symbols c = true
  | TWord w => word_of line a = w /\ is_span a
  | TApp => True
  end.

Lemma skip_word q c l : drop q line = c :: l -> is_word c = true ->
  let e := skip line is_word q in
  (q < e <= length line)%nat /\ is_span (q, e) /\ lex (c :: l) = TWord (word_of line (q, e)) :: ahead e.
Proof.
  intros E Hw e. destruct (ahead_cons _ _ _ E) as (Hlt & _ & Hd).
  assert (e = (q + S (scan is_word l))%nat) as He by (unfold e, skip; rewrite E; simpl; by rewrite Hw).
  pose proof (skip_bounds is_word q ltac:(lia)) as Hb. fold e in Hb.
  assert (word_of line (q, e) = take (S (scan is_word l)) (c :: l)) as Hwo.
  { unfold word_of. simpl fst. rewrite E. f_equal. simpl. lia. }
  assert (all is_word (word_of line (q, e))) as Hall.
  { rewrite Hwo. simpl. constructor; [done|]. apply scan_all. }
  assert (starts_word (drop e line) = false) as Hst.
  { unfold e. rewrite drop_skip. destruct (drop _ (drop q line)) as [|c' l'] eqn:F; [done|]. by eapply scan_stop. }
  split_and!; [lia|lia|split_and!; [simpl; lia..|done|done]|].
  unfold ahead. rewrite <- (lex_word (word_of line (q, e)) (drop e line)) by (done || by rewrite Hwo).
  f_equal. rewrite Hwo, He, <- drop_drop, E. by rewrite take_drop.
Qed.

Lemma token_at_spec q c l t ts :
  drop q line = c :: l -> is_space c = false -> lex (c :: l) = t :: ts ->
  exists e, token_at line q = (tok_code t, e) /\ ahead e = ts /\ (q < e <= length line)%nat /\ is_token t (q, e).
Proof.
  intros E Hc HL. destruct (ahead_cons _ _ _ E) as (Hlt & Hn & Hd). unfold token_at. rewrite char_at_drop, E.
  rewrite (proj2 (Z.eqb_neq c 0)) by done. destruct (is_word c) eqn:Hw.
  { destruct (skip_word q c l E Hw) as (Hb & Hs & HL'). rewrite HL in HL'. injection HL' as -> ->.
    destruct (is_word_not c Hw) as (_ & Hy & ->). exists (skip line is_word q).
    replace (strchr (str "|();&<") c) with false; [split_and!; try done; lia|].
    symmetry. apply not_true_iff_false. intros F%strchr_elem. apply not_true_iff_false in Hy. apply Hy, strchr_elem.
    set_solver. }
  destruct (Z.eqb_spec c (chr ">")) as [->|Hgt].
  - rewrite lex_gt in HL. replace (strchr (str "|();&<") (chr ">")) with false by done. rewrite char_at_drop, Hd.
    destruct l as [|c' l']; [|destruct (Z.eqb_spec c' (chr ">")) as [->|Hgt]]; [injection HL as <- <-..|].
    + rewrite (proj2 (Z.eqb_neq 0 _)) by done. exists (S q). unfold ahead. rewrite Hd. split_and!; (done || lia).
    + exists (S (S q)). destruct (ahead_cons _ _ _ Hd) as (? & _ & Hd'). unfold ahead. rewrite Hd'. split_and!; (done || lia).
    + set (l := c' :: l') in *. assert (TSym (chr ">") = t /\ lex l = ts) as [<- <-] by (split; congruence).
      exists (S q). unfold ahead. rewrite Hd. split_and!; (done || lia).
  - assert (strchr symbols c = true) as Hy.
    { unfold is_word in Hw. unfold is_space in Hc. rewrite Hc in Hw. by destruct (strchr symbols c). }
    rewrite lex_sym in HL by done. injection HL as <- <-.
    replace (strchr (str "|();&<") c) with true; [exists (S q); unfold ahead; rewrite Hd; split_and!; (done || lia)|].
    symmetry. apply strchr_elem. apply strchr_elem in Hy. unfold symbols in Hy. simpl in *. set_solver.
Qed.

Lemma gettoken_cons s t ts : (s <= length line)%nat -> ahead s = t :: ts ->
  exists a s1, gettoken line s = Ok (tok_code t, a) s1 /\ ahead s1 = ts /\ (s < s1 <= length line)%nat /\ is_token t a.
Proof.
  intros Hs He. destruct (skip_cons s t ts Hs He) as (c & l & E & Hc & Hn & HL & Hb & Hl).
  destruct (token_at_spec _ _ _ _ _ E Hc HL) as (e & He' & Ha & Hq & Ht).
  exists (skip line is_space s, e), (skip line is_space e). pose proof (skip_bounds is_space e ltac:(lia)).
  split_and!; [|by rewrite ahead_space|lia|lia|done]. rewrite gettoken_eq. cbv zeta. by rewrite He'.
Qed.

End lexer.

(** ** Soundness: what the parser accepts *)

Definition errors : list string := ["missing file for redirection"; "syntax"; "too many args"; "syntax - missing )"]%string.

(** [m] returns with [Q], or reports one of the errors. *)
Definition ends {A} (m : M nat A) (Q : A -> nat -> Prop) (s : nat) : Prop :=
  match m s with Ok a s' => Q a s' | Panic msg => msg ∈ errors | _ => False end.

Lemma ends_bind {A B} (m : M nat A) (f : A -> M nat B) Q s :
  ends m (fun a s' => ends (f a) Q s') s -> ends (m ≫= f) Q s.
Proof. unfold ends, mbind, M_bind. by destruct (m s). Qed.

Lemma ends_mono {A} (m : M nat A) (P Q : A -> nat -> Prop) s :
  ends m P s -> (forall a s', P a s' -> Q a s') -> ends m Q s.
Proof. unfold ends. destruct (m s); naive_solver. Qed.

Lemma ends_wp {A} (m : M nat A) Q s : wp m Q s -> ends m Q s.
Proof. unfold wp, ends. by destruct (m s). Qed.

Lemma ends_panic {A} (msg : string) (Q : A -> nat -> Prop) s : msg ∈ errors -> ends (panic msg) Q s.
Proof. done. Qed.

Lemma ends_ret {A} (a : A) (Q : A -> nat -> Prop) s : Q a s -> ends (mret a) Q s.
Proof. done. Qed.

Lemma redir_head k ts : head_in (str "<>") (k :: ts) = true ->
  exists m, tok_redir k = Some m /\ redir_mode (tok_code k) = Some m.
Proof.
  destruct k as [w| |c]; simpl; [done|by eexists|]. intros Hc%strchr_elem. cbn in Hc.
  assert (c = chr "<" \/ c = chr ">") as [-> | ->] by set_solver; by eexists.
Qed.

(** A symbol is not taken for a word. *)
Lemma sym_not_word c : strchr symbols c = true -> (c =? chr "a") = false /\ (c =? 0) = false.
Proof. intros H. split; apply Z.eqb_neq; intros ->; by vm_compute in H. Qed.

Lemma elems_app ts1 ws1 rs1 ts2 ws2 rs2 :
  elems ts1 ws1 rs1 -> elems ts2 ws2 rs2 -> elems (ts1 ++ ts2) (ws1 ++ ws2) (rs1 ++ rs2).
Proof. induction 1; simpl; [done|by constructor; auto..]. Qed.

Lemma wrap_app t rs rs' : wrap t (rs ++ rs') = wrap (wrap t rs) rs'.
Proof. apply foldl_app. Qed.

Lemma add_arg_tree f ret a ws rs :
  tree_of f ret = wrap (Exec ws) rs -> tree_of f (add_arg ret a) = wrap (Exec (ws ++ [f a])) rs.
Proof.
  revert rs. induction ret as [argv|c IH file mode fd| | |]; intros rs; destruct rs as [|[w [m d]] rs _] using rev_ind;
    rewrite ?wrap_app; simpl; intros H; try done.
  - injection H as <-. by rewrite fmap_app.
  - injection H as H <- <- <-. by rewrite (IH _ H).
Qed.

Lemma add_arg_spans P ret a : Forall P (spans ret) -> P a -> Forall P (spans (add_arg ret a)).
Proof.
  intros H Ha. induction ret; simpl in *; try done.
  - by apply Forall_app; auto.
  - apply Forall_app in H as [? ?]. apply Forall_app; auto.
Qed.

Section sound.
Context (line : list Z).
Hypothesis no_nul : Forall (fun c => c <> 0) line.

Abbreviation rem s := (length line - s)%nat.
Abbreviation shape := (tree_of (word_of line)).
Abbreviation todo := (ahead line).

Lemma wp_peek toks Q s : (s <= length line)%nat -> forallb (strchr symbols) toks = true ->
  (forall s1, todo s1 = todo s -> (s <= s1 <= length line)%nat -> (todo s = [] -> s1 = length line) -> Q (head_in toks (todo s)) s1) ->
  wp (peek line toks) Q s.
Proof.
  intros Hs Ht HQ. assert (toks ⊆ symbols) as Ht'.
  { intros c Hc. rewrite forallb_forall in Ht. apply strchr_elem, Ht. by apply list_elem_of_In. }
  destruct (peek_spec _ no_nul toks s Hs Ht') as (s1 & Hp & Ha & Hb & Hn).
  eapply wp_run; [done|]. auto.
Qed.

Lemma wp_gettoken_cons Q s t ts : (s <= length line)%nat -> todo s = t :: ts ->
  (forall a s1, todo s1 = ts -> (s < s1 <= length line)%nat -> is_token line t a -> Q (tok_code t, a) s1) ->
  wp (gettoken line) Q s.
Proof.
  intros Hs He HQ. destruct (gettoken_cons _ no_nul s t ts Hs He) as (a & s1 & Hp & Ha & Hb & Ht).
  eapply wp_run; [done|]. auto.
Qed.

Lemma wp_gettoken_nil Q s : (s <= length line)%nat -> todo s = [] ->
  (forall a, Q (0, a) (length line)) -> wp (gettoken line) Q s.
Proof. intros Hs He HQ. destruct (gettoken_nil _ s Hs He) as [a Ha]. by eapply wp_run. Qed.

(** [c'] is [c] with the elements [ts] read between [s] and [s']. *)
Definition reads (s s' : nat) (ts : list token) (c : cmd) : Prop :=
  todo s = ts ++ todo s' /\ (s <= s' <= length line)%nat /\ Forall (is_span line) (spans c).

Lemma ends_parseredirs n c s :
  (s <= length line)%nat -> (rem s < n)%nat -> Forall (is_span line) (spans c) ->
  ends (parseredirs line n c) (fun c' s' => exists ts rs, reads s s' ts c' /\ elems ts [] rs /\ shape c' = wrap (shape c) rs) s.
Proof.
  revert c s. induction n as [|n IH]; intros c s Hs Hn Hc; [lia|]. simpl.
  apply ends_bind, ends_wp, wp_peek; [done|done|]. intros s1 Ha Hb _.
  destruct (head_in (str "<>") (todo s)) eqn:Hh.
  2: { apply ends_ret. exists [], []. split_and!; [|constructor|done]. by split_and!; [rewrite Ha|lia..|]. }
  destruct (todo s) as [|k ts1] eqn:E; [done|]. destruct (redir_head _ _ Hh) as (m & Hk1 & Hk2). apply ends_bind, ends_wp.
  eapply wp_gettoken_cons; [lia|done|]. intros a s2 Ha2 Hb2 _. apply ends_bind, ends_wp.
  destruct ts1 as [|t ts2].
  { apply wp_gettoken_nil; [lia|done|]. intros. by apply ends_panic; set_solver. }
  eapply wp_gettoken_cons; [lia|done|]. intros a' s3 Ha3 Hb3 Ht.
  destruct t as [w| |c']; [|by apply ends_panic; set_solver|].
  2: { simpl. destruct (sym_not_word c' Ht) as [-> _]. by apply ends_panic; set_solver. }
  simpl. destruct Ht as [<- Hsp]. rewrite Hk2. destruct m as [mode fd]. eapply ends_mono.
  - apply IH; [lia|lia|]. simpl. by rewrite Forall_app, Forall_singleton.
  - intros c' s' (ts & rs & (Hr & Hb' & Hsp') & Hel & Htr).
    exists (k :: TWord (word_of line a') :: ts), ((word_of line a', (mode, fd)) :: rs).
    split_and!; [|by constructor|done]. split_and!; [|lia|lia|done]. simpl. by rewrite <- Hr, Ha3.
Qed.

Lemma ends_parseargs n argc ret ws rs s :
  (s <= length line)%nat -> (rem s < n)%nat -> Forall (is_span line) (spans ret) ->
  shape ret = wrap (Exec ws) rs -> argc = Z.of_nat (length ws) -> argc < MAXARGS ->
  ends (parseargs line n argc ret) (fun c s' => exists ts ws' rs', reads s s' ts c /\ elems ts ws' rs' /\
    shape c = wrap (Exec (ws ++ ws')) (rs ++ rs') /\ Z.of_nat (length (ws ++ ws')) < MAXARGS) s.
Proof.
  revert argc ret ws rs s. induction n as [|n IH]; intros argc ret ws rs s Hs Hn Hc Ht -> Hm; [lia|]. simpl.
  apply ends_bind, ends_wp, wp_peek; [done|done|]. intros s1 Ha Hb _.
  assert (forall s', (s <= s' <= length line)%nat -> todo s' = todo s -> exists ts ws' rs', reads s s' ts ret /\ elems ts ws' rs' /\
    shape ret = wrap (Exec (ws ++ ws')) (rs ++ rs') /\ Z.of_nat (length (ws ++ ws')) < MAXARGS) as Hstop.
  { intros s' Hb' Ha'. exists [], [], []. rewrite !app_nil_r. split_and!; [|constructor|done|done]. by split_and!; [rewrite Ha'|lia..|]. }
  destruct (head_in (str "|)&;") (todo s)) eqn:Hh; simpl; [by apply ends_ret, Hstop|].
  apply ends_bind, ends_wp. destruct (todo s) as [|t ts1] eqn:E.
  { apply wp_gettoken_nil; [lia|done|]. intros a. apply ends_ret, Hstop; [lia|]. unfold ahead. by rewrite drop_ge. }
  eapply wp_gettoken_cons; [lia|done|]. intros a s2 Ha2 Hb2 Htk. destruct t as [w| |c']; simpl.
  2: { by apply ends_panic; set_solver. }
  2: { destruct (sym_not_word c' Htk) as [-> ->]. by apply ends_panic; set_solver. }
  destruct Htk as [<- Hsp]. destruct (Z.leb_spec MAXARGS (Z.of_nat (length ws) + 1)); [by apply ends_panic; set_solver|].
  apply ends_bind. eapply ends_mono; [apply ends_parseredirs; [lia|lia|by apply add_arg_spans]|].
  intros c1 s3 (ts2 & rs2 & (Hr & Hb3 & Hsp3) & Hel & Htr).
  rewrite (add_arg_tree _ _ _ _ _ Ht), <- wrap_app in Htr.
  eapply ends_mono; [eapply IH; [lia|lia|exact Hsp3|exact Htr|rewrite length_app; simpl; lia|lia]|].
  intros c s' (ts3 & ws' & rs' & (Hr' & Hb' & Hsp') & Hel' & Htr' & Hlen).
  rewrite <- !(assoc_L (++)) in Htr', Hlen.
  exists (TWord (word_of line a) :: ts2 ++ ts3), (word_of line a :: ws'), (rs2 ++ rs').
  split_and!; [|apply el_word, (elems_app _ [] _ _ _ _ Hel Hel')|by rewrite (assoc_L (++))|done].
  split_and!; [|lia|lia|done]. simpl. by rewrite <- (assoc_L (++)), <- Hr', <- Hr, Ha2.
Qed.

Lemma ends_parsebacks n c s :
  (s <= length line)%nat -> (rem s < n)%nat -> Forall (is_span line) (spans c) ->
  ends (parsebacks line n c) (fun c' s' => exists k, reads s s' (replicate k (TSym (chr "&"))) c' /\ shape c' = Nat.iter k Back (shape c)) s.
Proof.
  revert c s. induction n as [|n IH]; intros c s Hs Hn Hc; [lia|]. simpl.
  apply ends_bind, ends_wp, wp_peek; [done|done|]. intros s1 Ha Hb _.
  destruct (head_in (str "&") (todo s)) eqn:Hh.
  2: { apply ends_ret. exists O. split; [|done]. by split_and!; [rewrite Ha|lia..|]. }
  destruct (todo s) as [|k ts1] eqn:E; [done|]. apply ends_bind, ends_wp.
  eapply wp_gettoken_cons; [lia|done|]. intros a s2 Ha2 Hb2 _.
  eapply ends_mono; [apply IH; [lia|lia|done]|].
  intros c' s' (j & (Hr & Hb' & Hsp) & Htr). exists (S j). split.
  - assert (k = TSym (chr "&")) as ->.
    { destruct k as [w| |c0]; simpl in Hh; [done|by vm_compute in Hh|]. apply strchr_elem in Hh. f_equal. cbn in Hh. set_solver. }
    split_and!; [|lia|lia|done]. simpl. by rewrite <- Hr, Ha2.
  - by rewrite Htr, Nat.iter_succ_r.
Qed.

(** A command read from [s] on, of the kind [G]. *)
Definition parsed (G : list token -> tree -> Prop) (s : nat) (c : cmd) (s' : nat) : Prop :=
  exists ts, reads s s' ts c /\ G ts (shape c).

Lemma head_sym c ts : strchr symbols c = true -> c <> chr ">" -> head_in [c] ts = true -> exists ts', ts = TSym c :: ts'.
Proof.
  destruct ts as [|[w| |c'] ts']; simpl; try done.
  - intros _ Hc Hh%strchr_elem. set_solver.
  - intros _ _ Hh%strchr_elem. assert (c' = c) as -> by set_solver. by eexists.
Qed.

Definition sound_line (n : nat) : Prop :=
  forall s, (s <= length line)%nat -> (4 * rem s + 4 <= n)%nat -> ends (parseline line n) (parsed gline s) s.
Definition sound_pipe (n : nat) : Prop :=
  forall s, (s <= length line)%nat -> (4 * rem s + 3 <= n)%nat -> ends (parsepipe line n) (parsed gpipe s) s.
Definition sound_exec (n : nat) : Prop :=
  forall s, (s <= length line)%nat -> (4 * rem s + 2 <= n)%nat -> ends (parseexec line n) (parsed gexec s) s.
Definition sound_block (n : nat) : Prop :=
  forall s ts, (s <= length line)%nat -> (4 * rem s + 1 <= n)%nat -> todo s = TSym (chr "(") :: ts ->
    ends (parseblock line n) (parsed gexec s) s.

Lemma sound_line_S n : sound_pipe n -> sound_line n -> sound_line (S n).
Proof.
  intros IHp IHl.
  intros s Hs Hn. simpl. apply ends_bind. eapply ends_mono; [apply IHp; lia|].
  intros c1 s1 (ts1 & (Hr1 & Hb1 & Hsp1) & HG1). apply ends_bind.
  eapply ends_mono; [apply ends_parsebacks; [lia|lia|done]|]. intros c2 s2 (k & (Hr2 & Hb2 & Hsp2) & Ht2).
  apply ends_bind, ends_wp, wp_peek; [lia|done|]. intros s3 Ha3 Hb3 _.
  destruct (head_in (str ";") (todo s2)) eqn:Hh.
  - destruct (head_sym (chr ";") _ eq_refl ltac:(done) Hh) as [ts' E].
    apply ends_bind, ends_wp. eapply wp_gettoken_cons; [lia|by rewrite Ha3|]. intros a s4 Ha4 Hb4 _.
    apply ends_bind. eapply ends_mono; [apply IHl; lia|]. intros c5 s5 (ts5 & (Hr5 & Hb5 & Hsp5) & HG5).
    apply ends_ret. eexists. split; [|simpl; rewrite Ht2; by apply gl_list].
    split_and!; [|lia|lia|simpl; by apply Forall_app].
    by rewrite Hr1, Hr2, E, <- !(assoc_L (++)), <- Ha4, Hr5.
  - apply ends_ret. eexists. split; [|rewrite Ht2; by apply gl_one].
    split_and!; [|lia|lia|done]. by rewrite Hr1, Hr2, Ha3, (assoc_L (++)).
Qed.

Lemma sound_pipe_S n : sound_exec n -> sound_pipe n -> sound_pipe (S n).
Proof.
  intros IHe IHp.
  intros s Hs Hn. simpl. apply ends_bind. eapply ends_mono; [apply IHe; lia|].
  intros c1 s1 (ts1 & (Hr1 & Hb1 & Hsp1) & HG1).
  apply ends_bind, ends_wp, wp_peek; [lia|done|]. intros s3 Ha3 Hb3 _.
  destruct (head_in (str "|") (todo s1)) eqn:Hh.
  - destruct (head_sym (chr "|") _ eq_refl ltac:(done) Hh) as [ts' E].
    apply ends_bind, ends_wp. eapply wp_gettoken_cons; [lia|by rewrite Ha3|]. intros a s4 Ha4 Hb4 _.
    apply ends_bind. eapply ends_mono; [apply IHp; lia|]. intros c5 s5 (ts5 & (Hr5 & Hb5 & Hsp5) & HG5).
    apply ends_ret. eexists. split; [|by apply gp_pipe].
    split_and!; [|lia|lia|simpl; by apply Forall_app].
    by rewrite Hr1, E, <- (assoc_L (++)), <- Ha4, Hr5.
  - apply ends_ret. eexists. split; [|by apply gp_one]. split_and!; [|lia|lia|done]. by rewrite Hr1, Ha3.
Qed.

Lemma sound_exec_S n : sound_block n -> sound_exec (S n).
Proof.
  intros IHb.
  intros s Hs Hn. simpl. apply ends_bind, ends_wp, wp_peek; [lia|done|]. intros s1 Ha1 Hb1 _.
  destruct (head_in (str "(") (todo s)) eqn:Hh.
  - destruct (head_sym (chr "(") _ eq_refl ltac:(done) Hh) as [ts' E].
    eapply ends_mono; [eapply IHb; [lia|lia|by rewrite Ha1]|].
    intros c s' (ts & (Hr & Hb & Hsp) & HG). exists ts. split; [|done]. split_and!; [by rewrite <- Ha1|lia|lia|done].
  - apply ends_bind. eapply ends_mono; [apply ends_parseredirs; [lia|lia|constructor]|].
    intros c2 s2 (ts2 & rs2 & (Hr2 & Hb2 & Hsp2) & Hel2 & Ht2).
    eapply ends_mono; [eapply (ends_parseargs _ _ _ [] rs2); [lia|lia|done|done|done|done]|].
    intros c3 s3 (ts3 & ws & rs3 & (Hr3 & Hb3 & Hsp3) & Hel3 & Ht3 & Hlen). exists (ts2 ++ ts3). split.
    + split_and!; [by rewrite <- Ha1, Hr2, Hr3, (assoc_L (++))|lia|lia|done].
    + rewrite Ht3. apply ge_simple; [|done]. by apply (elems_app _ [] _ _ _ _ Hel2 Hel3).
Qed.

Lemma sound_block_S n : sound_line n -> sound_block (S n).
Proof.
  intros IHl.
  intros s ts Hs Hn E. simpl. apply ends_bind, ends_wp, wp_peek; [lia|done|]. intros s1 Ha1 Hb1 _.
  rewrite E. simpl. apply ends_bind, ends_wp. eapply wp_gettoken_cons; [lia|by rewrite Ha1|]. intros a s2 Ha2 Hb2 _.
  apply ends_bind. eapply ends_mono; [apply IHl; lia|]. intros c3 s3 (ts3 & (Hr3 & Hb3 & Hsp3) & HG3).
  apply ends_bind, ends_wp, wp_peek; [lia|done|]. intros s4 Ha4 Hb4 _.
  destruct (head_in (str ")") (todo s3)) eqn:Hh; [|by apply ends_panic; set_solver]. simpl.
  destruct (head_sym (chr ")") _ eq_refl ltac:(done) Hh) as [ts' E'].
  apply ends_bind, ends_wp. eapply wp_gettoken_cons; [lia|by rewrite Ha4|]. intros a' s5 Ha5 Hb5 _.
  eapply ends_mono; [apply ends_parseredirs; [lia|lia|done]|].
  intros c6 s6 (ts6 & rs6 & (Hr6 & Hb6 & Hsp6) & Hel6 & Ht6). eexists. split; [|rewrite Ht6; by apply ge_block].
  split_and!; [|lia|lia|done]. rewrite E. simpl. by rewrite <- Ha2, Hr3, E', <- (assoc_L (++)), <- Ha5, Hr6.
Qed.

Lemma parse_sound n : sound_line n /\ sound_pipe n /\ sound_exec n /\ sound_block n.
Proof.
  induction n as [|n (IHl & IHp & IHe & IHb)].
  - split_and!; intros ?; intros; lia.
  - split_and!; auto using sound_line_S, sound_pipe_S, sound_exec_S, sound_block_S.
Qed.

End sound.

(** ** Completeness: every line of the grammar is accepted *)

Definition follow (toks : list Z) (ts : list token) : Prop := ts = [] \/ head_in toks ts = true.

Lemma follow_not toks toks' ts :
  forallb (fun c => negb (strchr toks' c)) toks = true -> follow toks ts -> head_in toks' ts = false.
Proof.
  rewrite forallb_forall. intros Hd [-> |Hh]; [done|].
  destruct ts as [|[w| |c] ts]; simpl in *; try done;
    apply negb_true_iff, Hd, list_elem_of_In, strchr_elem; done.
Qed.

(** The redirections in front of the first word. *)
Lemma elems_split ts ws rs :
  elems ts ws rs -> exists ts1 rs1 ts2 rs2, ts = ts1 ++ ts2 /\ rs = rs1 ++ rs2 /\ elems ts1 [] rs1 /\ elems ts2 ws rs2 /\
    (ts2 = [] \/ exists w ts3, ts2 = TWord w :: ts3).
Proof.
  induction 1 as [|w ts ws rs H IH|k m w ts ws rs Hk H IH].
  - exists [], [], [], []. split_and!; auto; constructor.
  - exists [], [], (TWord w :: ts), rs. split_and!; eauto; by constructor.
  - destruct IH as (ts1 & rs1 & ts2 & rs2 & -> & -> & H1 & H2 & H3).
    exists (k :: TWord w :: ts1), ((w, m) :: rs1), ts2, rs2. split_and!; auto. by constructor.
Qed.

Lemma tok_redir_head k m ts : tok_redir k = Some m ->
  head_in (str "<>") (k :: ts) = true /\ redir_mode (tok_code k) = Some m.
Proof.
  destruct k as [w| |c]; simpl; [done|done|].
  destruct (Z.eqb_spec c (chr "<")) as [->|_]; [done|].
  by destruct (Z.eqb_spec c (chr ">")) as [->|_].
Qed.

Section complete.
Context (line : list Z).
Hypothesis no_nul : Forall (fun c => c <> 0) line.

Abbreviation rem s := (length line - s)%nat.
Abbreviation shape := (tree_of (word_of line)).
Abbreviation todo := (ahead line).

(** A command read up to [rest]. *)
Definition gives (s : nat) (rest : list token) (t : tree) (c : cmd) (s' : nat) : Prop :=
  todo s' = rest /\ (s <= s' <= length line)%nat /\ shape c = t.

Lemma wp_parseredirs n c s ts rs rest :
  (s <= length line)%nat -> (rem s < n)%nat -> elems ts [] rs -> todo s = ts ++ rest -> head_in (str "<>") rest = false ->
  wp (parseredirs line n c) (gives s rest (wrap (shape c) rs)) s.
Proof.
  revert c s ts rs. induction n as [|n IH]; intros c s ts rs Hs Hn He Ht Hf; [lia|]. simpl.
  wp_step. apply (wp_peek _ no_nul); [done|done|]. intros s1 Ha Hb _. rewrite Ht.
  inversion He as [| |k m w ts' ws' rs' Hk He']; subst; simpl app in *.
  - rewrite Hf. wp_step. split_and!; [by rewrite Ha|lia..|done].
  - destruct (tok_redir_head k m (TWord w :: ts' ++ rest) Hk) as [-> Hk2]. wp_step.
    eapply (wp_gettoken_cons _ no_nul); [lia|by rewrite Ha|]. intros a s2 Ha2 Hb2 _. wp_step.
    eapply (wp_gettoken_cons _ no_nul); [lia|done|]. intros a' s3 Ha3 Hb3 [Hw _]. simpl. rewrite Hk2. destruct m as [mode fd].
    eapply wp_mono; [by eapply IH; [lia|lia|..]|]. intros c' s' (H1 & H2 & H3). split_and!; [done|lia|lia|].
    simpl in H3. by rewrite H3, Hw.
Qed.

Lemma wp_parseargs n argc ret ws rs s ts ws' rs' rest :
  (s <= length line)%nat -> (rem s < n)%nat -> elems ts ws' rs' -> (ts = [] \/ exists w ts3, ts = TWord w :: ts3) ->
  todo s = ts ++ rest -> follow (str "|)&;") rest ->
  shape ret = wrap (Exec ws) rs -> argc = Z.of_nat (length ws) -> Z.of_nat (length (ws ++ ws')) < MAXARGS ->
  wp (parseargs line n argc ret) (gives s rest (wrap (Exec (ws ++ ws')) (rs ++ rs'))) s.
Proof.
  revert argc ret ws rs s ts ws' rs'. induction n as [|n IH]; intros argc ret ws rs s ts ws' rs' Hs Hn He Hts Ht Hf Hr -> Hm; [lia|]. simpl.
  wp_step. apply (wp_peek _ no_nul); [done|done|]. intros s1 Ha Hb _. rewrite Ht.
  destruct Hts as [-> |(w & ts3 & ->)]; simpl app in *.
  - inversion He; subst ws' rs'. rewrite !app_nil_r. destruct Hf as [-> |Hf].
    + simpl. wp_step. apply wp_gettoken_nil; [lia|by rewrite Ha, Ht|]. intros a. simpl. wp_step.
      split_and!; [unfold ahead; by rewrite drop_ge|lia..|done].
    + rewrite Hf. simpl. wp_step. split_and!; [by rewrite Ha|lia..|done].
  - simpl. wp_step. eapply (wp_gettoken_cons _ no_nul); [lia|by rewrite Ha|]. intros a s2 Ha2 Hb2 [Hw _]. simpl.
    inversion He as [|w' ts' ws0 rs0 He'|k m w' ts' ws0 rs0 Hk]; subst; [|done].
    assert (Z.of_nat (length (ws ++ word_of line a :: ws0)) = Z.of_nat (length ws) + 1 + Z.of_nat (length ws0)) as Hlen
      by (rewrite length_app; simpl; lia).
    destruct (Z.leb_spec MAXARGS (Z.of_nat (length ws) + 1)); [lia|].
    destruct (elems_split _ _ _ He') as (ts1 & rs1 & ts2 & rs2 & -> & -> & H1 & H2 & H3).
    wp_step. eapply wp_mono; [eapply wp_parseredirs; [lia|lia|done|by rewrite (assoc_L (++))|]|].
    { destruct H3 as [-> |(w2 & ts4 & ->)]; [|done]. by apply (follow_not (str "|)&;")). }
    intros c1 s3 (Hd1 & Hb3 & Ht3). rewrite (add_arg_tree _ _ _ _ _ Hr), <- wrap_app in Ht3.
    eapply wp_mono; [eapply IH; [lia|lia|exact H2|exact H3|exact Hd1|exact Hf|exact Ht3|rewrite length_app; simpl; lia|]|].
    { rewrite <- (assoc_L (++)). simpl. lia. }
    intros c s' (Q1 & Q2 & Q3). split_and!; [done|lia|lia|]. by rewrite Q3, <- !(assoc_L (++)).
Qed.

Lemma wp_parsebacks n c s k rest :
  (s <= length line)%nat -> (rem s < n)%nat -> todo s = replicate k (TSym (chr "&")) ++ rest -> head_in (str "&") rest = false ->
  wp (parsebacks line n c) (gives s rest (Nat.iter k Back (shape c))) s.
Proof.
  revert c s k. induction n as [|n IH]; intros c s k Hs Hn Ht Hf; [lia|]. simpl.
  wp_step. apply (wp_peek _ no_nul); [done|done|]. intros s1 Ha Hb _. rewrite Ht. destruct k as [|k]; simpl app in *.
  - rewrite Hf. wp_step. split_and!; [by rewrite Ha|lia..|done].
  - simpl. wp_step. eapply (wp_gettoken_cons _ no_nul); [lia|by rewrite Ha|]. intros a s2 Ha2 Hb2 _.
    eapply wp_mono; [eapply (IH _ _ k); [lia|lia|done|done]|]. intros c' s' (H1 & H2 & H3).
    split_and!; [done|lia|lia|]. rewrite H3. simpl shape. by rewrite <- Nat.iter_succ_r.
Qed.

Definition complete_line (n : nat) : Prop := forall s ts t rest,
  (s <= length line)%nat -> (4 * rem s + 4 <= n)%nat -> gline ts t -> todo s = ts ++ rest -> follow (str ")") rest ->
  wp (parseline line n) (gives s rest t) s.
Definition complete_pipe (n : nat) : Prop := forall s ts t rest,
  (s <= length line)%nat -> (4 * rem s + 3 <= n)%nat -> gpipe ts t -> todo s = ts ++ rest -> follow (str ")&;") rest ->
  wp (parsepipe line n) (gives s rest t) s.
Definition complete_exec (n : nat) : Prop := forall s ts t rest,
  (s <= length line)%nat -> (4 * rem s + 2 <= n)%nat -> gexec ts t -> todo s = ts ++ rest -> follow (str "|)&;") rest ->
  wp (parseexec line n) (gives s rest t) s.
Definition complete_block (n : nat) : Prop := forall s ts t ts' rs rest,
  (s <= length line)%nat -> (4 * rem s + 1 <= n)%nat -> gline ts t -> elems ts' [] rs ->
  todo s = TSym (chr "(") :: ts ++ TSym (chr ")") :: ts' ++ rest -> follow (str "|)&;") rest ->
  wp (parseblock line n) (gives s rest (wrap t rs)) s.

Lemma follow_mono toks toks' ts : toks ⊆ toks' -> follow toks ts -> follow toks' ts.
Proof.
  intros Hs [-> |Hh]; [by left|right]. destruct ts as [|[w| |c] ts]; simpl in *; try done;
    apply strchr_elem, Hs, strchr_elem; done.
Qed.

Lemma complete_pipe_S n : complete_exec n -> complete_pipe n -> complete_pipe (S n).
Proof.
  intros IHe IHp s ts t rest Hs Hn HG Ht Hf. simpl. wp_step. inversion HG as [ts1 t1 HE|ts1 t1 ts2 t2 HE HP]; subst.
  - eapply wp_mono; [eapply IHe; [lia|lia|done|done|]|]; [eapply follow_mono; [|done]; cbn; set_solver|].
    intros c1 s1 (H1 & H2 & H3). wp_step. apply (wp_peek _ no_nul); [lia|done|]. intros s2 Ha Hb _.
    rewrite H1, (follow_not (str ")&;")) by done. wp_step. split_and!; [by rewrite Ha|lia|lia|done].
  - rewrite <- (assoc_L (++)) in Ht. eapply wp_mono; [eapply IHe; [lia|lia|done|done|by right]|].
    intros c1 s1 (H1 & H2 & H3). wp_step. apply (wp_peek _ no_nul); [lia|done|]. intros s2 Ha Hb _. rewrite H1.
    simpl. wp_step. eapply (wp_gettoken_cons _ no_nul); [lia|by rewrite Ha|]. intros a s3 Ha3 Hb3 _. wp_step.
    eapply wp_mono; [eapply IHp; [lia|lia|done|done|done]|]. intros c4 s4 (H5 & H6 & H7). wp_step.
    split_and!; [done|lia|lia|]. simpl. by rewrite H3, H7.
Qed.

Lemma complete_line_S n : complete_pipe n -> complete_line n -> complete_line (S n).
Proof.
  intros IHp IHl s ts t rest Hs Hn HG Ht Hf. simpl. wp_step.
  assert (exists ts1 k t1 rest1, gpipe ts1 t1 /\ todo s = ts1 ++ replicate k (TSym (chr "&")) ++ rest1 /\
    head_in (str "&") rest1 = false /\ follow (str ");") rest1 /\
    ((head_in (str ";") rest1 = false /\ rest1 = rest /\ t = Nat.iter k Back t1) \/
     exists ts2 t2, rest1 = TSym (chr ";") :: ts2 ++ rest /\ gline ts2 t2 /\ t = List (Nat.iter k Back t1) t2))
    as (ts1 & k & t1 & rest1 & HP & Ht1 & Hf1 & Hf2 & Hcase).
  { inversion HG as [ts1 k t1 HP|ts1 k t1 ts2 t2 HP HL]; subst; rewrite <- ?(assoc_L (++)) in Ht.
    - exists ts1, k, t1, rest. split_and!; [done|done|by apply (follow_not (str ")"))|eapply follow_mono; [|done]; cbn; set_solver|].
      left. split_and!; [by apply (follow_not (str ")"))|done|done].
    - exists ts1, k, t1, (TSym (chr ";") :: ts2 ++ rest). split_and!; [done|done|done|by right|]. right. by exists ts2, t2. }
  eapply wp_mono; [eapply IHp; [lia|lia|done|done|]|].
  { destruct k; [simpl app; eapply follow_mono; [|done]; cbn; set_solver|by right]. }
  intros c1 s1 (H1 & H2 & H3). wp_step. eapply wp_mono; [eapply wp_parsebacks; [lia|lia|done|done]|].
  intros c2 s2 (H4 & H5 & H6). wp_step. apply (wp_peek _ no_nul); [lia|done|]. intros s3 Ha Hb _. rewrite H4.
  destruct Hcase as [(-> & -> & ->)|(ts2 & t2 & -> & HL & ->)].
  - wp_step. split_and!; [by rewrite Ha|lia|lia|]. by rewrite H6, H3.
  - simpl. wp_step. eapply (wp_gettoken_cons _ no_nul); [lia|by rewrite Ha|]. intros a s4 Ha4 Hb4 _. wp_step.
    eapply wp_mono; [eapply IHl; [lia|lia|done|done|done]|]. intros c5 s5 (H7 & H8 & H9). wp_step.
    split_and!; [done|lia|lia|]. simpl. by rewrite H6, H9, H3.
Qed.

Lemma complete_block_S n : complete_line n -> complete_block (S n).
Proof.
  intros IHl s ts t ts' rs rest Hs Hn HL HE Ht Hf. simpl. wp_step. apply (wp_peek _ no_nul); [lia|done|]. intros s1 Ha1 Hb1 _.
  rewrite Ht. simpl. wp_step. eapply (wp_gettoken_cons _ no_nul); [lia|by rewrite Ha1|]. intros a s2 Ha2 Hb2 _. wp_step.
  eapply wp_mono; [eapply IHl; [lia|lia|done|done|by right]|]. intros c3 s3 (H1 & H2 & H3). wp_step.
  apply (wp_peek _ no_nul); [lia|done|]. intros s4 Ha4 Hb4 _. rewrite H1. simpl. wp_step.
  eapply (wp_gettoken_cons _ no_nul); [lia|by rewrite Ha4|]. intros a' s5 Ha5 Hb5 _.
  eapply wp_mono; [eapply wp_parseredirs; [lia|lia|done|done|by apply (follow_not (str "|)&;"))]|].
  intros c6 s6 (H4 & H5 & H6). split_and!; [done|lia|lia|]. by rewrite H6, H3.
Qed.

Lemma complete_exec_S n : complete_block n -> complete_exec (S n).
Proof.
  intros IHb s ts t rest Hs Hn HG Ht Hf. simpl. wp_step. apply (wp_peek _ no_nul); [lia|done|]. intros s1 Ha1 Hb1 _.
  inversion HG as [ts1 ws rs HE Hm|ts1 t1 ts2 rs HL HE]; subst.
  - destruct (elems_split _ _ _ HE) as (ts1 & rs1 & ts2 & rs2 & -> & -> & H1 & H2 & H3). rewrite <- (assoc_L (++)) in Ht.
    assert (head_in (str "<>") (ts2 ++ rest) = false /\ head_in (str "(") (ts2 ++ rest) = false) as [Hx Hy].
    { destruct H3 as [-> |(w & ts3 & ->)]; [|done]. split; by apply (follow_not (str "|)&;")). }
    assert (head_in (str "(") (ts1 ++ ts2 ++ rest) = false) as Hz.
    { inversion H1 as [| |k m w ts' ws' rs' Hk]; subst; [done|]. destruct k as [| |c]; simpl in *; try done.
      destruct (Z.eqb_spec c (chr "<")) as [-> |]; [done|]. by destruct (Z.eqb_spec c (chr ">")) as [-> |]. }
    rewrite Ht, Hz. wp_step. eapply wp_mono; [eapply wp_parseredirs; [lia|lia|done|by rewrite Ha1|done]|].
    intros c2 s2 (H4 & H5 & H6).
    eapply wp_mono; [eapply (wp_parseargs _ _ _ [] rs1); [lia|lia|exact H2|exact H3|exact H4|exact Hf|exact H6|done|done]|].
    intros c3 s3 (H7 & H8 & H9). split_and!; [done|lia|lia|done].
  - simpl in Ht. rewrite <- (assoc_L (++)) in Ht. rewrite Ht. simpl.
    eapply wp_mono; [eapply IHb; [lia|lia|done|done|by rewrite Ha1|done]|].
    intros c3 s3 (H7 & H8 & H9). split_and!; [done|lia|lia|done].
Qed.

Lemma parse_complete n : complete_line n /\ complete_pipe n /\ complete_exec n /\ complete_block n.
Proof.
  induction n as [|n (IHl & IHp & IHe & IHb)].
  - split_and!; intros ?; intros; lia.
  - split_and!; auto using complete_line_S, complete_pipe_S, complete_exec_S, complete_block_S.
Qed.

End complete.

(** ** The words, cut off in the line *)

Lemma nulterminate_spans l c : nulterminate l c = foldl put_nul l (spans c).
Proof.
  revert l. induction c as [|c IH|c1 IH1 c2 IH2|c1 IH1 c2 IH2|c IH]; intros l; simpl; rewrite ?foldl_app; [done| | | |done].
  - by rewrite IH.
  - by rewrite IH1, IH2.
  - by rewrite IH1, IH2.
Qed.

Lemma put_nuls_length l spans : length (foldl put_nul l spans) = length l.
Proof. revert l. induction spans as [|a r IH]; intros l; simpl; [done|]. rewrite IH. apply length_insert. Qed.

Lemma put_nuls_lookup l spans i : (i < length l)%nat ->
  foldl put_nul l spans !! i = if decide (i ∈ spans.*2) then Some 0 else l !! i.
Proof.
  revert l. induction spans as [|a r IH]; intros l Hi; cbn [foldl fmap list_fmap].
  - by rewrite decide_False by set_solver.
  - rewrite IH by (unfold put_nul; by rewrite length_insert). unfold put_nul.
    destruct (decide (i ∈ r.*2)); [by rewrite decide_True by set_solver|].
    destruct (decide (i = a.2)) as [-> |Hne].
    + rewrite decide_True by set_solver. by apply list_lookup_insert_eq.
    + rewrite decide_False by set_solver. by apply list_lookup_insert_ne.
Qed.

Lemma upto_nul_app w r : Forall (fun c => c <> 0) w -> upto_nul (w ++ 0 :: r) = w.
Proof. induction 1 as [|c w Hc _ IH]; simpl; [done|]. by rewrite (proj2 (Z.eqb_neq _ _) Hc), IH. Qed.

(** The end of a word does not lie inside another one. *)
Lemma span_ends_apart line a b i : is_span line a -> is_span line b -> (a.1 <= i < a.2)%nat -> i <> b.2.
Proof.
  intros (Ha & Hw & _) (Hb & _ & Hs) Hi ->. unfold all, word_of in Hw. rewrite Forall_lookup in Hw.
  destruct (lookup_lt_is_Some_2 line b.2) as [c Hc]; [lia|].
  assert (is_word c = true) as H.
  { apply (Hw (b.2 - a.1)%nat). rewrite lookup_take_lt, lookup_drop by lia. by replace (a.1 + (b.2 - a.1))%nat with b.2 by lia. }
  rewrite (drop_S _ _ _ Hc) in Hs. simpl in Hs. congruence.
Qed.

Lemma string_at_put_nuls line spans a :
  Forall (fun c => c <> 0) line -> Forall (is_span line) spans -> a ∈ spans ->
  string_at (foldl put_nul (line ++ [0]) spans) a = word_of line a.
Proof.
  intros Hz Hs Ha. rewrite Forall_forall in Hs. pose proof (Hs a Ha) as (Hb & _ & _).
  set (l := foldl put_nul (line ++ [0]) spans).
  assert (length l = S (length line)) as Hl by (unfold l; rewrite put_nuls_length, length_app; simpl; lia).
  assert (l !! a.2 = Some 0) as H0.
  { unfold l. rewrite put_nuls_lookup by (rewrite length_app; simpl; lia). rewrite decide_True; [done|].
    apply list_elem_of_fmap. eauto. }
  assert (take (a.2 - a.1) (drop a.1 l) = word_of line a) as Ht.
  { apply list_eq. intros i. unfold word_of. destruct (decide (i < a.2 - a.1)%nat).
    - rewrite !lookup_take_lt, !lookup_drop by lia. unfold l. rewrite put_nuls_lookup by (rewrite length_app; simpl; lia).
      rewrite decide_False; [rewrite lookup_app_l by lia; done|].
      intros (b & Hi & Hbs)%list_elem_of_fmap. by apply (span_ends_apart line a b (a.1 + i)%nat); auto; lia.
    - rewrite !lookup_take_ge by lia. done. }
  unfold string_at. rewrite <- (take_drop (a.2 - a.1) (drop a.1 l)), Ht, drop_drop.
  replace (a.1 + (a.2 - a.1))%nat with a.2 by lia. rewrite (drop_S _ _ _ H0). apply upto_nul_app.
  unfold word_of. by apply Forall_take, Forall_drop.
Qed.

Lemma tree_of_ext f g c : (forall a, a ∈ spans c -> f a = g a) -> tree_of f c = tree_of g c.
Proof.
  induction c as [argv|c IH file mode fd|c1 IH1 c2 IH2|c1 IH1 c2 IH2|c IH]; simpl; intros H.
  - f_equal. apply list_fmap_ext. intros i a Hi. apply H. by eapply list_elem_of_lookup_2.
  - rewrite IH, (H file) by set_solver. done.
  - rewrite IH1, IH2 by set_solver. done.
  - rewrite IH1, IH2 by set_solver. done.
  - by rewrite IH.
Qed.

(** ** The parser *)

(** What [parsecmd] returns: a command and the line with its words cut off. *)
Definition parse_ok (line : list Z) (r : cmd * list Z) : Prop :=
  gline (lex line) (tree_of (word_of line) r.1) /\ tree_of (string_at r.2) r.1 = tree_of (word_of line) r.1 /\
  Forall (is_span line) (spans r.1).

Lemma ends_parsecmd line : Forall (fun c => c <> 0) line ->
  match parsecmd line with Ok r _ => parse_ok line r | Panic msg => msg ∈ errors | _ => False end.
Proof.
  intros Hz. unfold parsecmd. match goal with |- match ?m O with _ => _ end => change (ends m (fun r _ => parse_ok line r) O) end.
  apply ends_bind. eapply ends_mono; [by apply (parse_sound _ Hz (depth line)); [lia|unfold depth; lia]|].
  intros c s (ts & (Hr & Hb & Hsp) & HG). apply ends_bind, ends_wp, (wp_peek _ Hz); [lia|done|].
  intros s1 Ha Hb1 Hn. apply ends_bind, ends_wp, wp_gets. unfold id.
  destruct (Nat.eqb_spec s1 (length line)) as [-> |Hne]; simpl; [|by apply ends_panic; set_solver].
  apply ends_ret. unfold parse_ok. simpl.
  assert (ahead line s = []) as Hnil by (rewrite <- Ha; unfold ahead; by rewrite drop_ge).
  rewrite Hnil, app_nil_r in Hr. unfold ahead in Hr. rewrite drop_0 in Hr. rewrite Hr. split_and!; [done| |done].
  apply tree_of_ext. intros a Has. rewrite nulterminate_spans. by apply string_at_put_nuls.
Qed.

Lemma wp_parsecmd line t : Forall (fun c => c <> 0) line -> gline (lex line) t ->
  exists c mem s, parsecmd line = Ok (c, mem) s /\ tree_of (word_of line) c = t.
Proof.
  intros Hz HG.
  assert (wp (c ← parseline line (depth line); peek line [];; s ← gets id;
    if negb (s =? length line)%nat then panic "syntax" else mret (c, nulterminate (line ++ [0]) c))
    (fun r _ => tree_of (word_of line) r.1 = t) O) as Hw.
  { wp_step. eapply wp_mono.
    { eapply (parse_complete _ Hz (depth line)); [lia|unfold depth; lia|done| |by left].
      unfold ahead. by rewrite drop_0, app_nil_r. }
    intros c s (H1 & H2 & H3). wp_step. apply (wp_peek _ Hz); [lia|done|]. intros s1 _ _ Hn. do 2 wp_step.
    unfold id. rewrite (Hn H1), Nat.eqb_refl. simpl. by wp_step. }
  destruct (wp_inv _ _ _ Hw) as ([c mem] & s & E & Ht). by exists c, mem, s.
Qed.

(** ** The shape of a command *)

Scheme gline_mut := Minimality for gline Sort Prop
  with gpipe_mut := Minimality for gpipe Sort Prop
  with gexec_mut := Minimality for gexec Sort Prop.

(** The modes and descriptors of the three redirections. *)
Definition redirs : list (Z * Z) :=
  [(O_RDONLY, 0); (Z.lor (Z.lor O_WRONLY O_CREATE) O_TRUNC, 1); (Z.lor O_WRONLY O_CREATE, 1)].

Fixpoint tree_ok (t : tree) : Prop :=
  match t with
  | Exec args => Z.of_nat (length args) < MAXARGS
  | Redir t _ mode fd => tree_ok t /\ (mode, fd) ∈ redirs
  | Pipe l r | List l r => tree_ok l /\ tree_ok r
  | Back t => tree_ok t
  end.

(** A command whose words are words of the line, whose arrays are within
    bounds, and whose redirections are those of the language. *)
Fixpoint cmd_ok (line : list Z) (c : cmd) : Prop :=
  match c with
  | execcmd argv => Z.of_nat (length argv) < MAXARGS /\ Forall (is_span line) argv
  | redircmd c file mode fd => cmd_ok line c /\ is_span line file /\ (mode, fd) ∈ redirs
  | pipecmd l r | listcmd l r => cmd_ok line l /\ cmd_ok line r
  | backcmd c => cmd_ok line c
  end.

Lemma elems_redirs ts ws rs : elems ts ws rs -> Forall (fun r => r.2 ∈ redirs) rs.
Proof.
  induction 1 as [|w ts ws rs _ IH|k m w ts ws rs Hk _ IH]; [constructor|done|]. constructor; [|done]. simpl.
  destruct k as [|c|]; simpl in Hk; [done|by injection Hk as <-; set_solver|].
  repeat case_match; simplify_eq; set_solver.
Qed.

Lemma wrap_tree_ok t rs : tree_ok t -> Forall (fun r => r.2 ∈ redirs) rs -> tree_ok (wrap t rs).
Proof.
  intros Ht HF. revert t Ht. induction HF as [|[w [mode fd]] rs Hr _ IH]; intros t Ht; [done|]. by apply IH.
Qed.

Lemma iter_tree_ok n t : tree_ok t -> tree_ok (Nat.iter n Back t).
Proof. intros Ht. by induction n. Qed.

Lemma gline_tree_ok ts t : gline ts t -> tree_ok t.
Proof.
  apply (gline_mut (fun _ t => tree_ok t) (fun _ t => tree_ok t) (fun _ t => tree_ok t)); simpl; intros.
  - by apply iter_tree_ok.
  - split; [by apply iter_tree_ok|done].
  - done.
  - done.
  - apply wrap_tree_ok; [done|by eapply elems_redirs].
  - apply wrap_tree_ok; [done|by eapply elems_redirs].
Qed.

Lemma tree_cmd_ok line f c : tree_ok (tree_of f c) -> Forall (is_span line) (spans c) -> cmd_ok line c.
Proof.
  induction c as [argv|c IH file mode fd|c1 IH1 c2 IH2|c1 IH1 c2 IH2|c IH]; simpl; rewrite ?Forall_app, ?Forall_singleton.
  - rewrite length_fmap. done.
  - intros [? ?] [? ?]. auto.
  - intros [? ?] [? ?]. auto.
  - intros [? ?] [? ?]. auto.
  - auto.
Qed.

(** The parser only builds well-formed commands: every argument and every
    file name is a non-empty word inside the line, at most nine arguments are
    stored, so the last pointer of [argv] stays null, and a redirection has one of the three
    modes with its descriptor. *)
Theorem parsecmd_typed line c mem s : Forall (fun c => c <> 0) line -> parsecmd line = Ok (c, mem) s -> cmd_ok line c.
Proof.
  intros Hz E. pose proof (ends_parsecmd line Hz) as He. rewrite E in He. destruct He as (HG & _ & Hs).
  eapply tree_cmd_ok; [by eapply gline_tree_ok|done].
Qed.

(** C22: The shell accepts exactly the command lines of its grammar, and builds
    the tree the grammar gives.  The strings of the tree, cut off by NULs in
    the line itself, are the words of the line.  A simple command has at most
    nine words, a redirection may stand anywhere among them, and the operators
    bind in the order of the grammar. *)
Theorem parsecmd_grammar line t : Forall (fun c => c <> 0) line ->
  (exists c mem s, parsecmd line = Ok (c, mem) s /\ tree_of (string_at mem) c = t) <-> gline (lex line) t.
Proof.
  intros Hz. pose proof (ends_parsecmd line Hz) as He. split.
  - intros (c & mem & s & E & <-). rewrite E in He. destruct He as (HG & Ht & _). simpl in HG, Ht. by rewrite Ht.
  - intros HG. destruct (wp_parsecmd line t Hz HG) as (c & mem & s & E & Ht). exists c, mem, s. split; [done|].
    rewrite E in He. destruct He as (_ & He & _). simpl in He. by rewrite He.
Qed.

(** C40: The parser ends on every line, within four calls for each byte: it
    returns a command, or it reports a missing file, a missing parenthesis, a
    syntax error or too many arguments. *)
Theorem parsecmd_total line : Forall (fun c => c <> 0) line ->
  (exists c mem s, parsecmd line = Ok (c, mem) s) \/ (exists msg, parsecmd line = Panic msg /\ msg ∈ errors).
Proof.
  intros Hz. pose proof (ends_parsecmd line Hz) as He.
  destruct (parsecmd line) as [[c mem] s|msg| |]; [left; eauto|right; eauto|done|done].
Qed.

Lemma parsecmd_grammar_witness :
  gline (lex (str "ls -l|wc >out &"))
    (Back (Pipe (Exec [str "ls"; str "-l"]) (Redir (Exec [str "wc"]) (str "out") 0x601 1))).
Proof.
  apply (parsecmd_grammar (str "ls -l|wc >out &")); [by repeat constructor|].
  eexists _, _, _. split; vm_compute; reflexivity.
Defined.

Lemma parsecmd_total_witness :
  (exists c mem s, parsecmd (str "(ls;wc") = Ok (c, mem) s) \/
  (exists msg, parsecmd (str "(ls;wc") = Panic msg /\ msg ∈ errors).
Proof. apply parsecmd_total. by repeat constructor. Defined.

Lemma parsecmd_typed_witness :
  exists c mem s, parsecmd (str "cat <in | wc") = Ok (c, mem) s /\ cmd_ok (str "cat <in | wc") c.
Proof.
  eexists _, _, _. split; [vm_compute; reflexivity|]. eapply parsecmd_typed; [by repeat constructor|vm_compute; reflexivity].
Defined.
