(* ===== verification/ShRun.v ===== *)
(** * user/sh.c: running the commands

    A process of the shell is its table of open files; [fork] copies it and
    [exec] hands it to the program, so what the shell decides is which program
    gets which files.  The calls are those of the kernel: [open], [dup] and
    [pipe] take the lowest free descriptors, and each call may fail.  What a
    child does to its own table is not seen by its parent, so the children are
    run where they are forked; [wait] has no effect on the files.  The
    programs are proved to get the files that the command describes
    ([runcmd_wires]). *)

From S2P Require Import Prelude KState Sh.
From Stdlib Require Import Ascii.

(** What a descriptor refers to. *)
Inductive obj :=
  | inherited (n : nat)
  | opened (file : list Z) (mode : Z)
  | pipe_read (k : nat)
  | pipe_write (k : nat).

Abbreviation fdtable := (list (option obj)).

(** The programs started so far, each with its arguments and its files, and the
    numbers of [fork] and [pipe] calls made. *)
Record world := mkworld { jobs : list (list (list Z) * fdtable); nforks : nat; npipes : nat }.

#[export] Instance eta_world : Eta world := fun x => mkworld (jobs x) (nforks x) (npipes x).

(** The lowest free descriptor at or above [i], and [None] when there is none. *)
Fixpoint lowest (t : fdtable) : option nat :=
  match t with
  | [] => None
  | None :: _ => Some O
  | Some _ :: t' => S <$> lowest t'
  end.

Definition fd_alloc (t : fdtable) (o : obj) : option (nat * fdtable) :=
  i ← lowest t; mret (i, <[i := Some o]> t).

Definition close (t : fdtable) (fd : nat) : fdtable := <[fd := None]> t.

Definition dup (t : fdtable) (fd : nat) : fdtable :=
  match t !! fd with
  | Some (Some o) => match fd_alloc t o with Some (_, t') => t' | None => t end
  | _ => t
  end.

Section run.
(** Whether the [n]th [fork] succeeds, and whether a file can be opened. *)
Context (forks : nat -> bool) (opens : list Z -> Z -> bool).

(** [open] with its result: the table, or [None] for -1. *)
Definition open (t : fdtable) (file : list Z) (mode : Z) : option fdtable :=
  if opens file mode then snd <$> fd_alloc t (opened file mode) else None.

(** [pipe(p)]: the two descriptors. *)
Definition make_pipe (k : nat) (t : fdtable) : option (nat * nat * fdtable) :=
  '(p0, t) ← fd_alloc t (pipe_read k);
  '(p1, t) ← fd_alloc t (pipe_write k);
  mret (p0, p1, t).

(** [fork1]: whether there is a child; the parent ends when there is none. *)
Definition fork1 : M world bool :=
  n ← gets nforks;
  modify (fun w => w <| nforks := S n |>);;
  mret (forks n).

(** [runcmd(cmd)] in a process with the files [t]; [f] gives the strings.  It
    returns where the source calls [exit]. *)
Fixpoint runcmd (f : span -> list Z) (c : cmd) (t : fdtable) : M world unit :=
  match c with
  | execcmd argv =>
      match argv with
      | [] => mret tt
      | _ => modify (fun w => w <| jobs ::= fun j => j ++ [(f <$> argv, t)] |>)
      end
  | redircmd c file mode fd =>
      let t := close t (Z.to_nat fd) in
      match open t (f file) mode with
      | None => mret tt
      | Some t => runcmd f c t
      end
  | listcmd l r =>
      b ← fork1;
      if negb (b : bool) then mret tt
      else
        runcmd f l t;;
        runcmd f r t
  | pipecmd l r =>
      k ← gets npipes;
      match make_pipe k t with
      | None => mret tt
      | Some (p0, p1, t) =>
          modify (fun w => w <| npipes := S k |>);;
          b ← fork1;
          if negb (b : bool) then mret tt
          else
            (let t := close t 1 in
             let t := dup t p1 in
             let t := close t p0 in
             let t := close t p1 in
             runcmd f l t);;
            b ← fork1;
            if negb (b : bool) then mret tt
            else
              (let t := close t 0 in
               let t := dup t p0 in
               let t := close t p0 in
               let t := close t p1 in
               runcmd f r t)
      end
  | backcmd c =>
      b ← fork1;
      if negb (b : bool) then mret tt else runcmd f c t
  end.

End run.

(** The body of the loop of [main]: what is done with a line.  The directory is
    changed by the shell itself, all else by a child. *)
Inductive action := skip_line | chdir (path : list Z) | run_child (line : list Z).

Definition main_line (buf : list Z) : action :=
  let cmd := drop (scan (fun c => (c =? 32) || (c =? 9)) buf) buf in
  match cmd with
  | c0 :: cmd1 =>
      if c0 =? 10 then skip_line
      else
        match cmd1 with
        | c1 :: c2 :: path =>
            if (c0 =? chr "c") && (c1 =? chr "d") && (c2 =? 32) then chdir (removelast path) else run_child cmd
        | _ => run_child cmd
        end
  | [] => run_child cmd
  end.

(** ** What a command means for the files *)

(** The programs of a command, with their files, when the numbers of pipes made
    is [k]; and the number of pipes made after it. *)
Fixpoint wires (opens : list Z -> Z -> bool) (c : tree) (t : fdtable) (k : nat) : list (list (list Z) * fdtable) * nat :=
  match c with
  | Exec [] => ([], k)
  | Exec args => ([(args, t)], k)
  | Redir c file mode fd =>
      if opens file mode then wires opens c (<[Z.to_nat fd := Some (opened file mode)]> t) k else ([], k)
  | List l r =>
      let '(j1, k) := wires opens l t k in
      let '(j2, k) := wires opens r t k in
      (j1 ++ j2, k)
  | Pipe l r =>
      let '(j1, k') := wires opens l (<[1%nat := Some (pipe_write k)]> t) (S k) in
      let '(j2, k') := wires opens r (<[0%nat := Some (pipe_read k)]> t) k' in
      (j1 ++ j2, k')
  | Back c => wires opens c t k
  end.

(** ** The table of open files *)

Definition is_open (t : fdtable) (fd : nat) : Prop := exists o, t !! fd = Some (Some o).
Definition is_free (t : fdtable) (fd : nat) : Prop := t !! fd = Some None.

(** Standard input and output are open, and a pipe can be made. *)
Record ready (t : fdtable) : Prop := {
  rd_in : is_open t 0;
  rd_out : is_open t 1;
  rd_free : exists i j, (i < j)%nat /\ is_free t i /\ is_free t j;
}.

Lemma lowest_some t i : is_free t i ->
  exists p, lowest t = Some p /\ (p <= i)%nat /\ is_free t p /\ forall j, (j < p)%nat -> is_open t j.
Proof.
  unfold is_free, is_open. revert i. induction t as [|[o|] t IH]; intros i Hi; [done| |].
  - destruct i as [|i]; [done|]. destruct (IH i Hi) as (p & Hp & Hle & Hf & Ho). exists (S p). simpl. rewrite Hp.
    split_and!; [done|lia|done|]. intros [|j] Hj; [by exists o|]. apply Ho. lia.
  - exists O. simpl. split_and!; [done|lia|done|lia].
Qed.

(** The lowest free descriptor is found at [p]. *)
Lemma lowest_at t p : is_free t p -> (forall j, (j < p)%nat -> is_open t j) -> lowest t = Some p.
Proof.
  intros Hf Ho. destruct (lowest_some t p Hf) as (q & Hq & Hle & Hfq & _). rewrite Hq. f_equal.
  destruct (decide (q = p)) as [|Hne]; [done|]. destruct (Ho q ltac:(lia)) as [o Hoq]. unfold is_free in *. congruence.
Qed.

Lemma fd_alloc_at t p o : is_free t p -> (forall j, (j < p)%nat -> is_open t j) -> fd_alloc t o = Some (p, <[p := Some o]> t).
Proof. intros Hf Ho. unfold fd_alloc. by rewrite (lowest_at t p Hf Ho). Qed.

Lemma is_free_lt t i : is_free t i -> (i < length t)%nat.
Proof. apply lookup_lt_Some. Qed.

Lemma is_open_lt t i : is_open t i -> (i < length t)%nat.
Proof. intros [o H]. by eapply lookup_lt_Some. Qed.

Lemma is_open_insert t i o j : is_open t j -> is_open (<[i := Some o]> t) j.
Proof.
  intros Hj. pose proof (is_open_lt _ _ Hj). unfold is_open. destruct (decide (i = j)) as [->|Hne].
  - rewrite list_lookup_insert_eq by done. by eexists.
  - by rewrite list_lookup_insert_ne.
Qed.

Lemma is_free_insert t i x j : i <> j -> is_free t j -> is_free (<[i := x]> t) j.
Proof. unfold is_free. intros Hne Hj. by rewrite list_lookup_insert_ne. Qed.

Lemma ready_insert t fd o : ready t -> is_open t fd -> ready (<[fd := Some o]> t).
Proof.
  intros [Hi Ho (i & j & Hij & Hfi & Hfj)] Hfd. split; [by apply is_open_insert..|].
  exists i, j. split_and!; [done|apply is_free_insert; [|done]..]; intros ->; destruct Hfd as [x Hx]; unfold is_free in *; congruence.
Qed.

(** [close(fd)] followed by an allocation replaces what [fd] refers to, when the
    descriptors below it are open. *)
Lemma fd_alloc_closed t fd o :
  is_open t fd -> (forall j, (j < fd)%nat -> is_open t j) -> fd_alloc (close t fd) o = Some (fd, <[fd := Some o]> t).
Proof.
  intros Hfd Hlow. pose proof (is_open_lt _ _ Hfd). rewrite (fd_alloc_at _ fd).
  - unfold close. by rewrite list_insert_insert_eq.
  - unfold is_free, close. by rewrite list_lookup_insert_eq.
  - intros j Hj. unfold is_open, close. rewrite list_lookup_insert_ne by lia. by apply Hlow.
Qed.

(** [pipe] takes two descriptors above the standard ones. *)
Lemma pipe_ready t k : ready t -> exists p0 p1,
  make_pipe k t = Some (p0, p1, <[p1 := Some (pipe_write k)]> (<[p0 := Some (pipe_read k)]> t)) /\
  (1 < p0)%nat /\ (1 < p1)%nat /\ p0 <> p1 /\ is_free t p0 /\ is_free t p1.
Proof.
  intros [Hi Ho (i & j & Hij & Hfi & Hfj)].
  assert (forall p, is_free t p -> (1 < p)%nat) as Hgt.
  { intros [|[|p]] Hp; [destruct Hi as [x Hx]|destruct Ho as [x Hx]|lia]; unfold is_free in *; congruence. }
  destruct (lowest_some t i Hfi) as (p0 & H0 & Hle0 & Hf0 & Ho0). pose proof (is_free_lt _ _ Hf0).
  destruct (lowest_some (<[p0 := Some (pipe_read k)]> t) j) as (p1 & H1 & Hle1 & Hf1 & Ho1); [apply is_free_insert; [lia|done]|].
  assert (p0 <> p1) as Hne. { intros <-. unfold is_free in Hf1. by rewrite list_lookup_insert_eq in Hf1. }
  assert (is_free t p1) as Hf1' by (unfold is_free in *; by rewrite list_lookup_insert_ne in Hf1).
  exists p0, p1. split_and!; auto. unfold make_pipe, fd_alloc. rewrite H0. simpl. rewrite H1. done.
Qed.

(** The child that gets an end of the pipe as its descriptor [fd]. *)
Lemma child_table t p0 p1 o0 o1 fd o p :
  is_free t p0 -> is_free t p1 -> p0 <> p1 -> (fd < p0)%nat -> (fd < p1)%nat ->
  (forall j, (j <= fd)%nat -> is_open t j) -> (p = p0 /\ o = o0 \/ p = p1 /\ o = o1) ->
  close (close (dup (close (<[p1 := Some o1]> (<[p0 := Some o0]> t)) fd) p) p0) p1 = <[fd := Some o]> t.
Proof.
  intros Hf0 Hf1 Hne Hl0 Hl1 Hlow Hp. pose proof (is_free_lt _ _ Hf0). pose proof (is_free_lt _ _ Hf1).
  set (t2 := <[p1 := Some o1]> (<[p0 := Some o0]> t)).
  assert (forall j, (j <= fd)%nat -> is_open t2 j) as Hlow2 by (intros; unfold t2; auto using is_open_insert).
  assert (close t2 fd !! p = Some (Some o)) as Hlk.
  { unfold close, t2. destruct Hp as [[-> ->]|[-> ->]]; rewrite list_lookup_insert_ne by lia.
    - rewrite list_lookup_insert_ne by done. by rewrite list_lookup_insert_eq.
    - rewrite list_lookup_insert_eq; [done|]. by rewrite length_insert. }
  unfold dup. rewrite Hlk, (fd_alloc_closed t2 fd o); [|apply Hlow2; lia|intros; apply Hlow2; lia].
  apply list_eq. intros i. unfold close, t2. unfold is_free in Hf0, Hf1.
  destruct (decide (i = p1)) as [->|]; [rewrite list_lookup_insert_eq by (rewrite !length_insert; done); by rewrite list_lookup_insert_ne by lia|].
  rewrite list_lookup_insert_ne by done.
  destruct (decide (i = p0)) as [->|]; [rewrite list_lookup_insert_eq by (rewrite !length_insert; done); by rewrite list_lookup_insert_ne by lia|].
  rewrite list_lookup_insert_ne by done. destruct (decide (i = fd)) as [->|].
  - rewrite !list_lookup_insert_eq by (rewrite ?length_insert; lia). done.
  - by rewrite !list_lookup_insert_ne by done.
Qed.

(** ** Running a command *)

(** Redirections are of standard input and output. *)
Fixpoint std_redirs (t : tree) : Prop :=
  match t with
  | Exec _ => True
  | Redir t _ _ fd => 0 <= fd <= 1 /\ std_redirs t
  | Pipe l r | List l r => std_redirs l /\ std_redirs r
  | Back t => std_redirs t
  end.

Lemma tree_ok_std t : tree_ok t -> std_redirs t.
Proof.
  induction t as [args|t IH file mode fd|l IHl r IHr|l IHl r IHr|t IH]; simpl; [done| |naive_solver|naive_solver|done].
  intros [Ht Hr]. split; [|auto]. unfold redirs in Hr. rewrite !elem_of_cons, elem_of_nil in Hr.
  destruct Hr as [[= _ ->]|[[= _ ->]|[[= _ ->]|[]]]]; lia.
Qed.

Lemma gline_std ts t : gline ts t -> std_redirs t.
Proof. intros H%gline_tree_ok. by apply tree_ok_std. Qed.

Section wires.
Context (forks : nat -> bool) (opens : list Z -> Z -> bool).
Hypothesis forks_ok : forall n, forks n = true.

Lemma wp_fork1 (Q : bool -> world -> Prop) w :
  (forall w', jobs w' = jobs w -> npipes w' = npipes w -> Q true w') -> wp (fork1 forks) Q w.
Proof. intros HQ. unfold fork1. do 5 wp_step. rewrite forks_ok. by apply HQ. Qed.

(** [m] starts the programs of [c]. *)
Definition starts (m : M world unit) (c : tree) (t : fdtable) : Prop :=
  forall w, wp m (fun _ w' => jobs w' = jobs w ++ (wires opens c t (npipes w)).1 /\ npipes w' = (wires opens c t (npipes w)).2) w.

Lemma starts_pipe f l r t :
  ready t ->
  (forall t, ready t -> starts (runcmd forks opens f l t) (tree_of f l) t) ->
  (forall t, ready t -> starts (runcmd forks opens f r t) (tree_of f r) t) ->
  starts (runcmd forks opens f (pipecmd l r) t) (Pipe (tree_of f l) (tree_of f r)) t.
Proof.
  intros Hr IHl IHr w. cbn [runcmd]. do 2 wp_step.
  pose proof (rd_in t Hr) as Hi. pose proof (rd_out t Hr) as Ho.
  destruct (pipe_ready t (npipes w) Hr) as (p0 & p1 & -> & H0 & H1 & Hne & Hf0 & Hf1).
  rewrite (child_table t p0 p1 _ _ 1 (pipe_write (npipes w)) p1);
    [|done|done|done|lia|lia|by intros [|[|]] ?; [..|lia]|by right].
  rewrite (child_table t p0 p1 _ _ 0 (pipe_read (npipes w)) p0);
    [|done|done|done|lia|lia|by intros [|] ?; [|lia]|by left].
  do 3 wp_step. apply wp_fork1. intros w1 Hj1 Hk1. cbn [negb]. wp_step.
  eapply wp_mono; [by apply IHl, ready_insert|]. intros [] w2 [Hj2 Hk2]. wp_step. apply wp_fork1. intros w3 Hj3 Hk3. cbn [negb].
  eapply wp_mono; [by apply IHr, ready_insert|]. intros [] w4 [Hj4 Hk4]. cbn in Hj1, Hk1. cbn [wires].
  rewrite Hk1 in Hj2, Hk2. destruct (wires opens (tree_of f l) _ (S (npipes w))) as [j1 k1]. simpl in Hj2, Hk2.
  rewrite Hk3, Hk2 in Hj4, Hk4. destruct (wires opens (tree_of f r) _ k1) as [j2 k2]. simpl in *.
  split; [|done]. by rewrite Hj4, Hj3, Hj2, Hj1, (assoc_L (++)).
Qed.

Lemma starts_list f l r t :
  starts (runcmd forks opens f l t) (tree_of f l) t -> starts (runcmd forks opens f r t) (tree_of f r) t ->
  starts (runcmd forks opens f (listcmd l r) t) (List (tree_of f l) (tree_of f r)) t.
Proof.
  intros IHl IHr w. cbn [runcmd]. wp_step. apply wp_fork1. intros w1 Hj1 Hk1. cbn [negb]. wp_step.
  eapply wp_mono; [apply IHl|]. intros [] w2 [Hj2 Hk2].
  eapply wp_mono; [apply IHr|]. intros [] w4 [Hj4 Hk4]. cbn [wires].
  rewrite Hk1 in Hj2, Hk2. destruct (wires opens (tree_of f l) t (npipes w)) as [j1 k1]. simpl in Hj2, Hk2.
  rewrite Hk2 in Hj4, Hk4. destruct (wires opens (tree_of f r) t k1) as [j2 k2]. simpl in *.
  split; [|done]. by rewrite Hj4, Hj2, Hj1, (assoc_L (++)).
Qed.

Lemma runcmd_starts f c t : ready t -> std_redirs (tree_of f c) -> starts (runcmd forks opens f c t) (tree_of f c) t.
Proof.
  revert t. induction c as [argv|c IH file mode fd|l IHl r IHr|l IHl r IHr|c IH]; intros t Hr Hs; simpl in Hs.
  - intros w. cbn [runcmd]. destruct argv as [|a argv]; wp_step; simpl; [|done]. by rewrite app_nil_r.
  - destruct Hs as [Hfd Hs]. intros w. cbn [runcmd]. cbv zeta. unfold open.
    assert (is_open t (Z.to_nat fd)) as Ho.
    { assert (fd = 0 \/ fd = 1) as [-> | ->] by lia; apply Hr. }
    cbn [tree_of wires]. destruct (opens (f file) mode); simpl; [|wp_step; by rewrite app_nil_r].
    rewrite fd_alloc_closed; [simpl; apply IH; [by apply ready_insert|done]|done|].
    intros j Hj. replace j with 0%nat by lia. apply Hr.
  - destruct Hs. apply starts_pipe; auto.
  - destruct Hs. apply starts_list; auto.
  - intros w. cbn [runcmd]. wp_step. apply wp_fork1. intros w1 Hj1 Hk1. cbn [negb].
    eapply wp_mono; [by apply IH|]. intros [] w2. cbn [tree_of wires]. by rewrite Hj1, Hk1.
Qed.

End wires.

(** The other descriptors of a program are those of the shell. *)
Lemma wires_rest opens c t k : std_redirs c -> Forall (fun j => forall fd, (1 < fd)%nat -> j.2 !! fd = t !! fd) (wires opens c t k).1.
Proof.
  revert t k. induction c as [args|c IH file mode fd|l IHl r IHr|l IHl r IHr|c IH]; intros t k Hs; simpl in *.
  - destruct args; repeat constructor; done.
  - destruct (opens file mode); [|constructor]. destruct Hs as [Hfd Hs].
    eapply Forall_impl; [by apply IH|]. intros j Hj i Hi. rewrite Hj by done. apply list_lookup_insert_ne. lia.
  - destruct Hs as [Hl Hr]. specialize (IHl (<[1%nat := Some (pipe_write k)]> t) (S k) Hl).
    destruct (wires opens l _ _) as [j1 k1]. specialize (IHr (<[0%nat := Some (pipe_read k)]> t) k1 Hr).
    destruct (wires opens r _ _) as [j2 k2]. simpl in *. apply Forall_app. split.
    + eapply Forall_impl; [done|]. intros j Hj i Hi. rewrite Hj by done. apply list_lookup_insert_ne. lia.
    + eapply Forall_impl; [done|]. intros j Hj i Hi. rewrite Hj by done. apply list_lookup_insert_ne. lia.
  - destruct Hs as [Hl Hr]. specialize (IHl t k Hl). destruct (wires opens l _ _) as [j1 k1].
    specialize (IHr t k1 Hr). destruct (wires opens r _ _) as [j2 k2]. simpl in *. by apply Forall_app.
  - by apply IH.
Qed.


Definition ex_fds : fdtable := (Some <$> [inherited 0; inherited 1; inherited 2]) ++ replicate 13 None.

Lemma ex_gline : gline (lex (str "ls|wc>out")) (Pipe (Exec [str "ls"]) (Redir (Exec [str "wc"]) (str "out") 0x601 1)).
Proof.
  apply (gl_one [TWord (str "ls"); TSym (chr "|"); TWord (str "wc"); TSym (chr ">"); TWord (str "out")] 0).
  apply (gp_pipe [TWord (str "ls")] _ [TWord (str "wc"); TSym (chr ">"); TWord (str "out")]).
  - apply (ge_simple _ [str "ls"] []); [repeat constructor|done].
  - apply gp_one, (ge_simple _ [str "wc"] [(str "out", (0x601, 1))]); [|done].
    apply el_word, (el_redir (TSym (chr ">"))); [done|constructor].
Qed.


(** The last byte of a line is taken for its newline: at the end of the input,
    and in a line of more than 98 bytes, [cd] drops a byte of the name. *)
Lemma cd_without_newline : main_line (str "cd /dir") = chdir (str "/di").
Proof. reflexivity. Qed.
