(* ===== verification/Mkfs.v ===== *)
(** * mkfs/mkfs.c: the initial file system image

    The image is a function from block numbers to blocks.  The host's files are
    given as the blocks of bytes that [read] returns; an [assert] that fails and
    a read beyond the end of the image end the program.  [xint] and [xshort] convert to the byte order
    of the disk, in which all numbers of the image are kept, so they do not
    appear.  The image is proved to satisfy what the kernel relies on, and to
    hold the files ([mkfs_image]). *)

From S2P Require Import Prelude CMem Riscv Kalloc Vm KState Sched Printf Bio BioSpec Log LogSpec Fs FsSpec InodeSpec.
From Stdlib Require Import Ascii.

Definition NINODES : Z := 200.
Definition nbitmap : Z := FSSIZE / BPB + 1.
Definition ninodeblocks : Z := NINODES / IPB + 1.
Definition nlog : Z := LOGBLOCKS + 1.
Definition nmeta : Z := 2 + nlog + ninodeblocks + nbitmap.
Definition nblocks : Z := FSSIZE - nmeta.

Definition mksb : superblock :=
  mksuperblock FSMAGIC FSSIZE nblocks NINODES nlog 2 (2 + nlog) (2 + nlog + ninodeblocks).

Record mkst := mkmkst { img : Z -> list Z; freeinode : Z; freeblock : Z }.

#[export] Instance eta_mkst : Eta mkst := fun x => mkmkst (img x) (freeinode x) (freeblock x).

(** [struct dinode]. *)
Record dinode := mkdinode { din_type : Z; din_major : Z; din_minor : Z; din_nlink : Z; din_size : Z; din_addrs : list Z }.

#[export] Instance eta_dinode : Eta dinode :=
  fun x => mkdinode (din_type x) (din_major x) (din_minor x) (din_nlink x) (din_size x) (din_addrs x).

(** The image file has [FSSIZE] blocks; reading beyond them is an error. *)
Definition rsect (sec : Z) : M mkst (list Z) :=
  if negb (sec <? FSSIZE) then panic "read" else gets (fun s => img s sec).

Definition wsect (sec : Z) (buf : list Z) : M mkst unit := modify (fun s => s <| img ::= fun V => vset V sec buf |>).

#[export] Hint Unfold wsect : wp_prim.

(** The fields of [struct dinode], which [struct inode] shares. *)
Definition to_inode (d : dinode) : inode :=
  mkinode 0 0 0 (mksleeplock false 0) false (din_type d) (din_major d) (din_minor d) (din_nlink d) (din_size d) (din_addrs d).

Definition get_dinode (data : list Z) (o : Z) : dinode :=
  mkdinode (dip_type data o) (i16 (rd 2 data (o + 2))) (i16 (rd 2 data (o + 4))) (dip_nlink data o) (rd 4 data (o + 8))
    (dip_addrs data o).

Definition winode (inum : Z) (ip : dinode) : M mkst unit :=
  let bn := IBLOCK inum mksb in
  buf ← rsect bn;
  wsect bn (put_dinode (to_inode ip) (dip_off inum) buf).

Definition rinode (inum : Z) : M mkst dinode :=
  let bn := IBLOCK inum mksb in
  buf ← rsect bn;
  mret (get_dinode buf (dip_off inum)).

(** [freeblock++]. *)
Definition take_block : M mkst Z :=
  b ← gets freeblock;
  modify (fun s => s <| freeblock := u32 (b + 1) |>);;
  mret b.

Definition mk_ialloc (type : Z) : M mkst Z :=
  inum ← gets freeinode;
  modify (fun s => s <| freeinode := u32 (inum + 1) |>);;
  winode inum (mkdinode type 0 0 1 0 (replicate 13 0));;
  mret inum.

(** [for(i = 0; i < used; i++) buf[i/8] = buf[i/8] | (0x1 << (i%8))]. *)
Fixpoint set_bits (used : nat) (buf : list Z) : list Z :=
  match used with
  | O => buf
  | S i =>
      let buf := set_bits i buf in
      let k := Z.to_nat (Z.of_nat i / 8) in
      <[k := u8 (Z.lor (nth k buf 0) (Z.shiftl 1 (Z.of_nat i `mod` 8)))]> buf
  end.

Definition mk_balloc (used : Z) : M mkst unit :=
  if negb (used <? BPB) then panic "assert"
  else wsect (sb_bmapstart mksb) (set_bits (Z.to_nat used) zero_block).

(** The block [x] of a round of [iappend], and the inode with it. *)
Definition iappend_block (fbn : Z) (din : dinode) : M mkst (Z * dinode) :=
  if fbn <? NDIRECT then
    (if nth (Z.to_nat fbn) (din_addrs din) 0 =? 0 then
       b ← take_block;
       mret (b, din <| din_addrs ::= fun a => <[Z.to_nat fbn := b]> a |>)
     else mret (nth (Z.to_nat fbn) (din_addrs din) 0, din))
  else
    (din ←
       (if nth (Z.to_nat NDIRECT) (din_addrs din) 0 =? 0 then
          b ← take_block;
          mret (din <| din_addrs ::= fun a => <[Z.to_nat NDIRECT := b]> a |>)
        else mret din);
     let ib := nth (Z.to_nat NDIRECT) (din_addrs din) 0 in
     indirect ← rsect ib;
     if rd 4 indirect (4 * (fbn - NDIRECT)) =? 0 then
       b ← take_block;
       wsect ib (wr 4 indirect (4 * (fbn - NDIRECT)) b);;
       mret (b, din)
     else mret (rd 4 indirect (4 * (fbn - NDIRECT)), din)).

Definition iappend_round : list Z * Z * dinode -> M mkst (list Z * Z * dinode + Z * dinode) := fun '(p, off, din) =>
  let n := Z.of_nat (length p) in
  if 0 <? n then
    let fbn := off / BSIZE in
    if negb (fbn <? MAXFILE) then panic "assert"
    else
      r ← iappend_block fbn din;
      let '(x, din) := (r : Z * dinode) in
      let n1 := Z.min n ((fbn + 1) * BSIZE - off) in
      buf ← rsect x;
      wsect x (list_inserts (Z.to_nat (off - fbn * BSIZE)) (take (Z.to_nat n1) p) buf);;
      mret (inl (drop (Z.to_nat n1) p, off + n1, din))
  else mret (inr (off, din)).

(** [iappend(inum, xp, n)] for the bytes [xp] of length [n]. *)
Definition iappend (inum : Z) (xp : list Z) : M mkst unit :=
  din ← rinode inum;
  r ← loop iappend_round (xp, din_size din, din);
  let '(off, din) := (r : Z * dinode) in
  winode inum (din <| din_size := off |>).

(** A directory entry. *)
Definition dirent (inum : Z) (name : list Z) : list Z := le_encode 2 inum ++ dirent_name name.

Fixpoint iappends (inum : Z) (bufs : list (list Z)) : M mkst unit :=
  match bufs with
  | [] => mret tt
  | buf :: bufs' => iappend inum buf;; iappends inum bufs'
  end.

Definition has_prefix (pre l : list Z) : bool := bool_decide (take (length pre) l = pre).

(** The name in the image of a file named on the command line. *)
Definition shortname (arg : list Z) : list Z :=
  let s := if has_prefix (str "user/") arg then drop 5 arg else arg in
  if has_prefix (str "_") s then drop 1 s else s.

(** The round of [main] for one file: its name, and the blocks read from it. *)
Definition add_file (rootino : Z) (file : list Z * list (list Z)) : M mkst unit :=
  let s := if has_prefix (str "user/") file.1 then drop 5 file.1 else file.1 in
  if bool_decide (chr "/" ∈ s) then panic "assert"
  else if negb (Z.of_nat (length (shortname file.1)) <=? DIRSIZ) then panic "assert"
  else
    inum ← mk_ialloc T_FILE;
    iappend rootino (dirent inum (shortname file.1));;
    iappends inum file.2.

Fixpoint add_files (rootino : Z) (files : list (list Z * list (list Z))) : M mkst unit :=
  match files with
  | [] => mret tt
  | f :: files' => add_file rootino f;; add_files rootino files'
  end.

(** The superblock as [memmove(buf, &sb, sizeof(sb))] lays it out. *)
Definition sb_block (b : superblock) : list Z :=
  fold_left (fun d '(o, v) => wr 4 d o v)
    [(0, sb_magic b); (4, sb_size b); (8, sb_nblocks b); (12, sb_ninodes b);
     (16, sb_nlog b); (20, sb_logstart b); (24, sb_inodestart b); (28, sb_bmapstart b)] zero_block.

(** The end of [main]: the size of the root directory, and the bitmap. *)
Definition mk_finish (rootino : Z) : M mkst unit :=
  din ← rinode rootino;
  let off := din_size din in
  let off := (off / BSIZE + 1) * BSIZE in
  winode rootino (din <| din_size := off |>);;
  used ← gets freeblock;
  mk_balloc used.

(** [main] on an empty image file: its blocks are zeroed first. *)
Definition mk_main (files : list (list Z * list (list Z))) : M mkst unit :=
  modify (fun s => s <| img := fun _ => zero_block |> <| freeinode := 1 |> <| freeblock := nmeta |>);;
  wsect 1 (sb_block mksb);;
  rootino ← mk_ialloc T_DIR;
  if negb (rootino =? ROOTINO) then panic "assert"
  else
    iappend rootino (dirent rootino (str "."));;
    iappend rootino (dirent rootino (str ".."));;
    add_files rootino files;;
    mk_finish rootino.

(** ** The blocks of a file *)

(** The addresses [a] stand for the blocks [bl], with the indirect block [ib] or 0. *)
Record shape (V : Z -> list Z) (a bl : list Z) (ib : Z) : Prop := {
  sh_len : length a = 13%nat;
  sh_dir : forall k, (k < 12)%nat -> nth k a 0 = nth k bl 0;
  sh_ib : nth 12 a 0 = ib;
  sh_small : (length bl <= 12)%nat -> ib = 0;
  sh_large : (12 < length bl)%nat -> ib <> 0 /\ forall k, (12 <= k < 268)%nat -> rd 4 (V ib) (4 * (Z.of_nat k - 12)) = nth k bl 0;
  sh_max : (length bl <= 268)%nat;
  sh_pos : forall b, b ∈ bl -> 0 < b < 2 ^ 32;
  sh_ibr : 0 <= ib < 2 ^ 32;
}.

Definition own (bl : list Z) (ib : Z) : list Z := bl ++ if ib =? 0 then [] else [ib].

Lemma elem_own b bl ib : b ∈ own bl ib <-> b ∈ bl \/ (b = ib /\ ib <> 0).
Proof. unfold own. rewrite elem_of_app. destruct (Z.eqb_spec ib 0); set_solver. Qed.

Lemma shape_frame V V' a bl ib : (ib <> 0 -> V' ib = V ib) -> shape V a bl ib -> shape V' a bl ib.
Proof. intros Hf []. split; try done. intros Hl. destruct (sh_large0 Hl) as [Hi Hr]. split; [done|]. by rewrite Hf. Qed.

Lemma nth_app_new (bl : list Z) x k : nth k (bl ++ [x]) 0 = if decide (k = length bl) then x else nth k bl 0.
Proof.
  destruct (decide (k = length bl)) as [->|Hne].
  - rewrite nth_lookup, list_lookup_middle by done. done.
  - destruct (decide (k < length bl)%nat); [by rewrite app_nth1|]. rewrite !nth_overflow; [done|lia|rewrite length_app; simpl; lia].
Qed.

Lemma nth_insert (l : list Z) i x k : (i < length l)%nat -> nth k (<[i := x]> l) 0 = if decide (k = i) then x else nth k l 0.
Proof.
  intros Hi. rewrite !nth_lookup. destruct (decide (k = i)) as [->|Hne].
  - by rewrite list_lookup_insert_eq.
  - by rewrite list_lookup_insert_ne.
Qed.

(** A direct block is added. *)
Lemma shape_direct V a bl x :
  shape V a bl 0 -> (length bl < 12)%nat -> 0 < x < 2 ^ 32 -> shape V (<[length bl := x]> a) (bl ++ [x]) 0.
Proof.
  intros [] Hl Hx. split; try done.
  - by rewrite length_insert.
  - intros k Hk. rewrite nth_insert, nth_app_new by lia. destruct (decide (k = length bl)); [done|by apply sh_dir0].
  - rewrite nth_insert by lia. by rewrite decide_False by lia.
  - rewrite length_app. simpl. lia.
  - rewrite length_app. simpl. lia.
  - intros b [?|Hb]%elem_of_app; [auto|]. apply list_elem_of_singleton in Hb as ->. done.
Qed.

(** The indirect block is added, still empty. *)
Definition shape_empty (V : Z -> list Z) (a bl : list Z) (ib : Z) : Prop :=
  length a = 13%nat /\ (forall k, (k < 12)%nat -> nth k a 0 = nth k bl 0) /\ nth 12 a 0 = ib /\ 0 < ib < 2 ^ 32 /\
  (12 <= length bl)%nat /\ (length bl <= 268)%nat /\ (forall b, b ∈ bl -> 0 < b < 2 ^ 32) /\
  forall k, (12 <= k < 268)%nat -> rd 4 (V ib) (4 * (Z.of_nat k - 12)) = nth k bl 0.

(** An entry of the indirect block is set. *)
Lemma shape_entry V a bl ib x :
  shape_empty V a bl ib -> (length bl < 268)%nat -> length (V ib) = Z.to_nat BSIZE -> 0 < x < 2 ^ 32 ->
  shape (vset V ib (wr 4 (V ib) (4 * (Z.of_nat (length bl) - NDIRECT)) x)) a (bl ++ [x]) ib.
Proof.
  intros (H1 & H2 & H3 & H4 & H5 & H6 & H7 & H8) Hl HV Hx. change NDIRECT with 12. change (Z.to_nat BSIZE) with 1024%nat in HV.
  split; try done; try lia.
  - intros k Hk. rewrite nth_app_new, decide_False by lia. by apply H2.
  - rewrite length_app. simpl. lia.
  - intros _. split; [lia|]. intros k Hk. unfold vset. rewrite decide_True by done. rewrite nth_app_new.
    destruct (decide (k = length bl)) as [->|Hne].
    + rewrite rd_wr by lia. apply Z.mod_small. simpl. lia.
    + rewrite rd_wr_ne by lia. by apply H8.
  - rewrite length_app. simpl. lia.
  - intros b [?|Hb]%elem_of_app; [auto|]. apply list_elem_of_singleton in Hb as ->. done.
Qed.

(** ** iappend *)

Record room (s : mkst) : Prop := {
  rm_len : forall b, length (img s b) = Z.to_nat BSIZE;
  rm_zero : forall b, freeblock s <= b -> img s b = zero_block;
  rm_free : nmeta <= freeblock s <= FSSIZE;
}.

(** The blocks that a file takes when its block [k] is added to [n] blocks. *)
Definition new_blocks (k n : nat) : Z := if decide (k < n)%nat then 0 else if decide (k = 12)%nat then 2 else 1.

(** The block [k] of the file is there: [x]. *)
Record grown (s : mkst) (bl : list Z) (ib : Z) (k : nat) (s' : mkst) (a' bl' : list Z) (ib' x : Z) : Prop := {
  gr_shape : shape (img s') a' bl' ib';
  gr_room : room s';
  gr_block : bl' = if decide (k < length bl)%nat then bl else bl ++ [x];
  gr_at : nth k bl' 0 = x;
  gr_keep : forall b, (ib' <> 0 -> b <> ib') -> img s' b = img s b;
  gr_free : freeblock s' = freeblock s + new_blocks k (length bl);
  gr_inode : freeinode s' = freeinode s;
  gr_ib : ib' = ib \/ (ib = 0 /\ ib' = freeblock s);
  gr_x : ((k < length bl)%nat /\ x ∈ bl) \/ (k = length bl /\ freeblock s <= x < freeblock s' /\ x <> ib');
}.

Lemma wp_rsect sec (Q : list Z -> mkst -> Prop) s : sec < FSSIZE -> Q (img s sec) s -> wp (rsect sec) Q s.
Proof. intros Hs HQ. unfold rsect. rewrite (proj2 (Z.ltb_lt _ _) Hs). simpl. by wp_step. Qed.

Lemma wp_take_block (Q : Z -> mkst -> Prop) s :
  0 <= freeblock s < FSSIZE -> Q (freeblock s) (s <| freeblock := freeblock s + 1 |>) -> wp take_block Q s.
Proof.
  intros Hf HQ. unfold take_block. do 5 wp_step. unfold u32. rewrite Z.mod_small; [done|]. change FSSIZE with 2000 in Hf. lia.
Qed.

Lemma room_take s : room s -> freeblock s < FSSIZE -> room (s <| freeblock := freeblock s + 1 |>).
Proof. intros [] Hf. split; cbn; [done|intros; apply rm_zero0; lia|lia]. Qed.

Lemma length_vset V b d c : length (V c) = Z.to_nat BSIZE -> length d = Z.to_nat BSIZE -> length (vset V b d c) = Z.to_nat BSIZE.
Proof. intros H1 H2. unfold vset. by case_decide. Qed.

Lemma room_write s b d : room s -> b < freeblock s -> length d = Z.to_nat BSIZE -> room (s <| img ::= fun V => vset V b d |>).
Proof.
  intros [] Hb Hd. split; cbn; [intros; by apply length_vset| |done].
  intros c Hc. unfold vset. rewrite decide_False by lia. by apply rm_zero0.
Qed.

Record block_pre (s : mkst) (d : dinode) (bl : list Z) (ib : Z) (k : nat) : Prop := {
  bp_shape : shape (img s) (din_addrs d) bl ib;
  bp_room : room s;
  bp_le : (k <= length bl)%nat;
  bp_max : (k < 268)%nat;
  bp_free : freeblock s + new_blocks k (length bl) <= FSSIZE;
  bp_own : forall b, b ∈ own bl ib -> nmeta <= b < freeblock s;
}.

Definition block_post (s : mkst) (d : dinode) (bl : list Z) (ib : Z) (k : nat) (r : Z * dinode) (s' : mkst) : Prop :=
  exists a' bl' ib', r.2 = d <| din_addrs := a' |> /\ grown s bl ib k s' a' bl' ib' r.1.

(** The block is there already. *)
Lemma grown_old s a bl ib k x :
  shape (img s) a bl ib -> room s -> (k < length bl)%nat -> nth k bl 0 = x -> grown s bl ib k s a bl ib x.
Proof.
  intros HS HR Hlt Hx. split; try done.
  - by rewrite decide_True.
  - unfold new_blocks. rewrite decide_True by done. lia.
  - by left.
  - left. split; [done|]. rewrite <- Hx. by apply nth_elem_of.
Qed.

Lemma free_pos s : room s -> 0 < freeblock s < 2 ^ 32.
Proof. intros HR. pose proof (rm_free _ HR). change nmeta with 47 in *. change FSSIZE with 2000 in *. lia. Qed.

Lemma nth_own s d bl ib k j : block_pre s d bl ib k -> (j < length bl)%nat -> 0 < nth j bl 0 < freeblock s.
Proof.
  intros HB Hj. assert (nth j bl 0 ∈ own bl ib) as Hin by (apply elem_own; left; by apply nth_elem_of).
  pose proof (bp_own _ _ _ _ _ HB _ Hin). change nmeta with 47 in *. lia.
Qed.

Lemma wp_block_direct s d bl ib k :
  block_pre s d bl ib k -> (k < 12)%nat -> wp (iappend_block (Z.of_nat k) d) (block_post s d bl ib k) s.
Proof.
  intros HB Hd. destruct (HB) as [HS HR Hk Hk2 Hf _]. pose proof (free_pos s HR) as Hpos. unfold iappend_block. change NDIRECT with 12. rewrite (proj2 (Z.ltb_lt _ _)), Nat2Z.id by lia.
  rewrite (sh_dir _ _ _ _ HS) by done. destruct (decide (k < length bl)%nat) as [Hlt|Hge].
  - pose proof (nth_own _ _ _ _ _ k HB Hlt). rewrite (proj2 (Z.eqb_neq _ _)) by lia. wp_step.
    exists (din_addrs d), bl, ib. split; [by destruct d|]. by apply grown_old.
  - assert (k = length bl) as -> by lia. rewrite nth_overflow by lia. simpl. unfold new_blocks in Hf.
    rewrite decide_False, decide_False in Hf by lia.
    wp_step. apply wp_take_block; [lia|]. wp_step.
    assert (ib = 0) as -> by (apply (sh_small _ _ _ _ HS); lia).
    exists (<[length bl := freeblock s]> (din_addrs d)), (bl ++ [freeblock s]), 0. split; [done|]. cbn [fst].
    split; try done; cbn.
    + apply shape_direct; [done|done|done].
    + apply room_take; [done|lia].
    + by rewrite decide_False by lia.
    + by rewrite nth_app_new, decide_True.
    + unfold new_blocks. rewrite !decide_False by lia. done.
    + by left.
    + right. split; [done|]. lia.
Qed.

(** The entry of the indirect block, which is [i] by now. *)
Lemma wp_block_entry s d bl ib k s1 d1 i :
  block_pre s d bl ib k ->
  shape_empty (img s1) (din_addrs d1) bl i -> (k = length bl -> freeblock s1 < FSSIZE) -> i < freeblock s1 ->
  (12 <= k)%nat -> room s1 -> freeblock s <= freeblock s1 -> img s1 = img s -> freeinode s1 = freeinode s ->
  freeblock s1 = freeblock s + (if decide (i = ib) then 0 else 1) -> (i = ib \/ ib = 0 /\ i = freeblock s /\ k = 12%nat) ->
  (k < length bl -> i = ib)%nat -> (length bl = 12%nat -> ib = 0) ->
  d1 = d <| din_addrs := din_addrs d1 |> ->
  wp (let ib := nth (Z.to_nat NDIRECT) (din_addrs d1) 0 in
     indirect ← rsect ib;
     if rd 4 indirect (4 * (Z.of_nat k - NDIRECT)) =? 0 then
       b ← take_block;
       wsect ib (wr 4 indirect (4 * (Z.of_nat k - NDIRECT)) b);;
       mret (b, d1)
     else mret (rd 4 indirect (4 * (Z.of_nat k - NDIRECT)), d1)) (block_post s d bl ib k) s1.
Proof.
  intros HB HE Hfr Hi Hk12 HR1 Hle Himg Hfi Hfb Hcase Hold Hz Hd1. pose proof HE as (H1 & H2 & H3 & H4 & H5 & H6 & H7 & H8).
  pose proof (rm_free _ HR1). pose proof (free_pos _ HR1) as Hx. destruct (HB) as [HS HR Hk Hk2 Hf _].
  change (Z.to_nat NDIRECT) with 12%nat. cbv zeta. rewrite H3. wp_step. apply wp_rsect; [lia|].
  change NDIRECT with 12. rewrite H8 by lia. destruct (decide (k < length bl)%nat) as [Hlt|Hge].
  - pose proof (nth_own _ _ _ _ _ k HB Hlt). rewrite (proj2 (Z.eqb_neq _ _)) by lia. wp_step.
    exists (din_addrs d1), bl, ib. split; [done|]. specialize (Hold Hlt). subst i. rewrite decide_True in Hfb by done. split; try done; cbn.
    + split; try done; [intros; lia|intros _; split; [lia|done]|lia].
    + by rewrite decide_True.
    + intros b _. by rewrite Himg.
    + unfold new_blocks. rewrite decide_True by done. lia.
    + by left.
    + left. split; [done|]. by apply nth_elem_of.
  - assert (k = length bl) as Ek by lia. rewrite nth_overflow by lia. simpl.
    wp_step. apply wp_take_block; [lia|]. do 4 wp_step. set (x := freeblock s1) in *.
    exists (din_addrs d1), (bl ++ [x]), i. split; [done|]. cbn [fst].
    assert (i <> ib -> ib = 0 /\ i = freeblock s /\ k = 12%nat) as Hne by (intros; destruct Hcase; [done|done]).
    split; cbn.
    + rewrite Ek. apply shape_entry; [done|lia|apply HR1|done].
    + apply (room_write (s1 <| freeblock := x + 1 |>)); [apply room_take; [done|by apply Hfr]|cbn; lia|].
      transitivity (length (wr 4 (img s1 i) (4 * (Z.of_nat k - 12)) x)); [done|]. rewrite length_wr. apply HR1.
    + by rewrite decide_False by lia.
    + by rewrite nth_app_new, decide_True.
    + intros b Hb. unfold vset. rewrite decide_False by (apply Hb; lia). by rewrite Himg.
    + unfold new_blocks. rewrite decide_False by lia. rewrite Hfb. destruct (decide (i = ib)) as [Ei|Ei].
      * destruct (decide (k = 12)%nat); [|lia]. exfalso. lia.
      * destruct (Hne Ei) as (_ & _ & ->). rewrite decide_True by done. lia.
    + done.
    + destruct Hcase as [->|(? & ? & _)]; auto.
    + right. split; [done|]. lia.
Qed.


Lemma wp_iappend_block s d bl ib k :
  block_pre s d bl ib k -> wp (iappend_block (Z.of_nat k) d) (block_post s d bl ib k) s.
Proof.
  intros HB. destruct (decide (k < 12)%nat) as [Hd|Hd]; [by apply wp_block_direct|].
  destruct (HB) as [HS HR Hk Hk2 Hf Ho]. pose proof (free_pos s HR) as Hpos. pose proof (rm_free _ HR) as Hfr.
  unfold iappend_block. change (Z.of_nat k <? NDIRECT) with (Z.of_nat k <? 12). rewrite (proj2 (Z.ltb_ge _ _)) by lia.
  change (Z.to_nat NDIRECT) with 12%nat. rewrite (sh_ib _ _ _ _ HS). wp_step.
  assert (ib <> 0 -> (12 < length bl)%nat) as Hlarge.
  { intros Hi. destruct (decide (12 < length bl)%nat); [done|]. destruct Hi. apply (sh_small _ _ _ _ HS). lia. }
  destruct (Z.eqb_spec ib 0) as [E|E].
  - assert (length bl = 12%nat) as El.
    { destruct (decide (12 < length bl)%nat) as [Hl|]; [|lia]. by destruct (sh_large _ _ _ _ HS Hl). }
    assert (k = 12%nat) as Ek by lia. unfold new_blocks in Hf. rewrite decide_False, decide_True in Hf by lia.
    wp_step. apply wp_take_block; [lia|]. wp_step.
    apply (wp_block_entry s d bl ib k _ _ (freeblock s)); try done; cbn; try lia.
    + split_and!; try lia.
      * rewrite length_insert. apply HS.
      * intros j Hj. rewrite nth_insert by (rewrite (sh_len _ _ _ _ HS); lia). rewrite decide_False by lia. by apply HS.
      * rewrite nth_insert by (rewrite (sh_len _ _ _ _ HS); lia). by rewrite decide_True.
      * apply HS.
      * intros j Hj. rewrite (rm_zero _ HR) by lia. rewrite rd_zero_block, nth_overflow by lia. done.
    + apply room_take; [done|lia].
    + rewrite decide_False by lia. lia.
  - wp_step. specialize (Hlarge E). destruct (sh_large _ _ _ _ HS Hlarge) as [_ Hr].
    assert (ib < freeblock s) by (apply Ho, elem_own; by right).
    apply (wp_block_entry s d bl ib k _ _ ib); try done; try lia.
    + pose proof (sh_ibr _ _ _ _ HS). split_and!; try lia; try apply HS; done.
    + intros Ek. unfold new_blocks in Hf. rewrite decide_False, decide_False in Hf by lia. lia.
    + rewrite decide_True by done. lia.
    + by destruct d.
Qed.

(** ** The contents of a file *)

Definition nblk (n : nat) : nat := ((n + 1023) / 1024)%nat.

(** The blocks [bl] hold the bytes [data], and zeros behind them. *)
Definition holds (V : Z -> list Z) (bl data : list Z) : Prop :=
  length bl = nblk (length data) /\ concat (V <$> bl) = data ++ replicate (1024 * length bl - length data) 0.

Lemma length_blocks (V : Z -> list Z) (bl : list Z) : (forall b, length (V b) = Z.to_nat BSIZE) -> length (concat (V <$> bl)) = (1024 * length bl)%nat.
Proof.
  intros HV. induction bl as [|b bl IH]; [done|]. cbn [fmap list_fmap concat length].
  rewrite length_app, HV, IH. change (Z.to_nat BSIZE) with 1024%nat. lia.
Qed.

(** A piece written over the zeros behind [l]. *)
Lemma splice_zeros (l piece : list Z) (n : nat) : (length piece <= n)%nat ->
  list_inserts (length l) piece (l ++ replicate n 0) = l ++ piece ++ replicate (n - length piece) 0.
Proof.
  intros Hn. replace (replicate n 0) with (replicate (length piece) 0 ++ replicate (n - length piece) 0)
    by (rewrite <- replicate_add; f_equal; lia).
  rewrite <- (Nat.add_0_r (length l)), list_inserts_app_r. f_equal. by rewrite list_inserts_0_r by (by rewrite length_replicate).
Qed.

Lemma fmap_vset V x buf (bi : list Z) : x ∉ bi -> vset V x buf <$> bi = V <$> bi.
Proof.
  intros Hx. apply list_fmap_ext. intros i b Hb. unfold vset. rewrite decide_False; [done|].
  intros ->. apply Hx. by eapply list_elem_of_lookup_2.
Qed.

(** A piece is written behind [data], into the last block of [bi ++ [x]]. *)
Lemma holds_append (V : Z -> list Z) (bi : list Z) x (data piece : list Z) :
  (forall b, length (V b) = Z.to_nat BSIZE) -> x ∉ bi -> (1024 * length bi <= length data)%nat ->
  (length data + length piece <= 1024 * length bi + 1024)%nat -> (0 < length piece)%nat ->
  concat (V <$> bi ++ [x]) = data ++ replicate (1024 * length (bi ++ [x]) - length data) 0 ->
  let m := (length data - 1024 * length bi)%nat in
  holds (vset V x (list_inserts m piece (V x))) (bi ++ [x]) (data ++ piece).
Proof.
  intros HV Hx Hlo Hhi Hp Hd m. split.
  - unfold nblk. rewrite !length_app. change (length [x]) with 1%nat.
    apply (Nat.div_unique _ 1024 _ (length data + length piece + 1023 - 1024 * (length bi + 1))); lia.
  - rewrite fmap_app, fmap_vset by done. rewrite fmap_app in Hd. cbn [fmap list_fmap] in *.
    rewrite concat_app in *. cbn [concat] in *. rewrite app_nil_r in *.
    unfold vset at 1. rewrite decide_True by done.
    pose proof (length_blocks V bi HV) as Hj. set (J := concat (V <$> bi)) in *.
    rewrite !length_app in *. cbn [length] in *. set (n := (1024 * (length bi + 1) - length data)%nat) in *.
    replace (1024 * (length bi + 1) - (length data + length piece))%nat with (n - length piece)%nat by lia.
    pose proof (f_equal (take (length J)) Hd) as Ht. rewrite take_app_length, take_app_le in Ht by lia.
    pose proof (f_equal (drop (length J)) Hd) as Hr. rewrite drop_app_length, drop_app_le in Hr by lia.
    rewrite Hr. replace m with (length (drop (length J) data)) by (rewrite length_drop; lia).
    rewrite splice_zeros by lia. rewrite Ht at 1. rewrite (assoc_L (++)), take_drop, (assoc_L (++)). done.
Qed.

(** The blocks that a file of [n] bytes takes. *)
Definition need (n : nat) : Z := Z.of_nat (nblk n) + if decide (12 < nblk n)%nat then 1 else 0.

Lemma nblk_bounds n : (1024 * nblk n < n + 1024)%nat /\ (n <= 1024 * nblk n)%nat.
Proof. unfold nblk. pose proof (Nat.div_mod_eq (n + 1023) 1024). pose proof (Nat.mod_upper_bound (n + 1023) 1024). lia. Qed.

Lemma nblk_full k : nblk (1024 * k) = k.
Proof. pose proof (nblk_bounds (1024 * k)). lia. Qed.

Lemma nblk_mono n m : (n <= m)%nat -> (nblk n <= nblk m)%nat.
Proof. intros H. pose proof (nblk_bounds n). pose proof (nblk_bounds m). lia. Qed.

Lemma need_mono n m : (n <= m)%nat -> need n <= need m.
Proof. intros H%nblk_mono. unfold need. repeat case_decide; lia. Qed.

(** What [grown] says of the blocks: the new ones are fresh. *)
Lemma grown_own s d bl ib k s' a' bl' ib' x :
  block_pre s d bl ib k -> NoDup (own bl ib) -> grown s bl ib k s' a' bl' ib' x ->
  NoDup (own bl' ib') /\ x <> ib' /\ x ∈ bl' /\
  (forall b, b ∈ own bl' ib' -> b ∈ own bl ib \/ freeblock s <= b < freeblock s') /\ (forall b, b ∈ own bl ib -> b ∈ own bl' ib').
Proof.
  intros HB HN HG. destruct HG as [G1 G2 G3 G4 G5 G6 G7 G8 G9]. pose proof (bp_own _ _ _ _ _ HB) as Ho.
  pose proof (free_pos _ (bp_room _ _ _ _ _ HB)) as Hpos. pose proof (bp_free _ _ _ _ _ HB) as Hf.
  assert (forall b, b ∈ bl -> b <> ib') as Hib.
  { intros b Hb ->. assert (ib' ∈ own bl ib) as Hin by (apply elem_own; by left). destruct G8 as [->|[_ ->]].
    - assert (ib <> 0) as Hi by (pose proof (sh_pos _ _ _ _ (bp_shape _ _ _ _ _ HB) ib Hb); lia).
      unfold own in HN. rewrite (proj2 (Z.eqb_neq _ _) Hi) in HN. apply NoDup_app in HN as (_ & HN & _). apply (HN ib Hb). set_solver.
    - specialize (Ho _ Hin). lia. }
  assert (ib' <> ib -> freeblock s <= ib' < freeblock s') as Hnew.
  { intros Hne. destruct G8 as [|[E ->]]; [done|]. rewrite G6. unfold new_blocks. repeat case_decide; try lia.
    exfalso. apply Hne. rewrite E. destruct (decide (12 < length bl)%nat) as [Hl|Hl].
    - by destruct (sh_large _ _ _ _ (bp_shape _ _ _ _ _ HB) Hl).
    - apply (sh_small _ _ _ _ G1). rewrite G3. lia. }
  assert (NoDup bl) as HNb by (by apply NoDup_app in HN as [HN _]).
  assert (NoDup bl' /\ x <> ib' /\ x ∈ bl' /\ (forall b, b ∈ bl' -> b <> ib' /\ (b ∈ bl \/ freeblock s <= b < freeblock s')) /\ bl ⊆ bl')
    as (Q1 & Q2 & Q3 & Q4 & Q5).
  { destruct G9 as [[Hlt Hx]|(Hge & Hx & Hxi)].
    - rewrite decide_True in G3 by done. rewrite G3. split_and!; [done|by apply Hib|done| |done]. auto.
    - rewrite decide_False in G3 by lia. rewrite G3. split_and!; [|done|set_solver| |set_solver].
      + apply NoDup_app. split_and!; [done| |apply NoDup_singleton]. intros b Hb Hin. apply list_elem_of_singleton in Hin as ->.
        assert (x ∈ own bl ib) as Hxo by (apply elem_own; by left). specialize (Ho _ Hxo). lia.
      + intros b Hb. apply elem_of_app in Hb as [Hb|Hb]; [by auto|]. apply list_elem_of_singleton in Hb as ->. auto. }
  split_and!; [|done|done| |].
  - unfold own. destruct (Z.eqb_spec ib' 0); [by rewrite app_nil_r|]. apply NoDup_app. split_and!; [done| |apply NoDup_singleton].
    intros b Hb Hin. apply list_elem_of_singleton in Hin as ->. by destruct (Q4 _ Hb).
  - intros b Hb. apply elem_own in Hb as [Hb|[-> Hi]].
    + destruct (Q4 b Hb) as [_ [Hb'|Hb']]; [left; apply elem_own; by left|by right].
    + destruct (decide (ib' = ib)) as [->|Hne]; [left; apply elem_own; by right|right; auto].
  - intros b Hb. apply elem_own in Hb as [Hb|[-> Hi]]; apply elem_own; [left; by apply Q5|right].
    destruct G8 as [->|[]]; done.
Qed.

(** The block that is written is the last one. *)
Lemma grown_last s d bl ib data s' a' bl' ib' x :
  block_pre s d bl ib (length data / 1024) -> NoDup (own bl ib) -> holds (img s) bl data ->
  grown s bl ib (length data / 1024) s' a' bl' ib' x ->
  exists bi, bl' = bi ++ [x] /\ length bi = (length data / 1024)%nat /\ x ∉ bi /\
    concat (img s' <$> bi ++ [x]) = data ++ replicate (1024 * length (bi ++ [x]) - length data) 0.
Proof.
  intros HB HN [Hl Hd] HG. destruct (grown_own _ _ _ _ _ _ _ _ _ _ HB HN HG) as (HN' & Hxi & _ & _ & Hsub).
  set (k := (length data / 1024)%nat) in *. pose proof (nblk_bounds (length data)) as Hnb.
  pose proof (Nat.div_mod_eq (length data) 1024) as Hdm. pose proof (Nat.mod_upper_bound (length data) 1024 ltac:(lia)). fold k in Hdm.
  destruct HG as [G1 G2 G3 G4 G5 G6 G7 G8 G9].
  assert (img s' <$> bl = img s <$> bl) as Hsame.
  { apply list_fmap_ext. intros i b Hb. apply G5. intros _ ->.
    assert (ib' ∈ bl') as Hin.
    { rewrite G3. apply list_elem_of_lookup_2 in Hb. case_decide; [done|]. apply elem_of_app. by left. }
    assert (ib' <> 0) as Hz by (pose proof (sh_pos _ _ _ _ G1 ib' Hin); lia).
    unfold own in HN'. rewrite (proj2 (Z.eqb_neq _ _) Hz) in HN'. apply NoDup_app in HN' as (_ & HN' & _). apply (HN' ib' Hin). by apply list_elem_of_singleton. }
  assert (exists bi, bl' = bi ++ [x] /\ length bi = k /\ (bl = bl' \/ bl = bi)) as (bi & Eb & Hbi & Hcase).
  { destruct (decide (k < length bl)%nat) as [Hlt|Hge].
    - exists (take k bl). rewrite length_take. split_and!; [|lia|by left]. rewrite G3 in G4 |- *.
      rewrite <- (take_drop k bl) at 1. f_equal. assert (is_Some (bl !! k)) as [y Hy] by (apply lookup_lt_is_Some_2; lia).
      rewrite (drop_S _ _ _ Hy), drop_ge by lia. f_equal. rewrite nth_lookup, Hy in G4. done.
    - exists bl. pose proof (bp_le _ _ _ _ _ HB). split_and!; [done|lia|by right]. }
  exists bi. split_and!; [done|done| |].
  - rewrite Eb in HN'. apply NoDup_app in HN' as (HN' & _ & _). apply NoDup_app in HN' as (_ & HN' & _).
    intros Hin. apply (HN' x Hin). by apply list_elem_of_singleton.
  - rewrite <- Eb. destruct Hcase as [Ec|Ec].
    + by rewrite <- Ec, Hsame.
    + subst bi. assert (img s' x = replicate 1024 0) as Ex.
      { destruct G9 as [[? _]|(_ & Hx & _)]; [lia|]. rewrite G5 by (intros _; done). rewrite (rm_zero _ (bp_room _ _ _ _ _ HB)) by lia. done. }
      rewrite Eb, fmap_app, concat_app, Hsame, Hd. cbn [fmap list_fmap concat]. rewrite Ex, app_nil_r, <- (assoc_L (++)), <- replicate_add.
      do 2 f_equal. rewrite length_app. cbn [length]. lia.
Qed.

(** The loop of [iappend] that started with the bytes [data0] and [p0] behind
    them, on a file of the blocks [bl0]. *)
Record appending (s0 : mkst) (d0 : dinode) (bl0 : list Z) (ib0 : Z) (data0 p0 : list Z)
    (p : list Z) (d : dinode) (bl : list Z) (ib : Z) (data : list Z) (s : mkst) : Prop := {
  ap_din : d = d0 <| din_addrs := din_addrs d |>;
  ap_rest : data ++ p = data0 ++ p0;
  ap_shape : shape (img s) (din_addrs d) bl ib;
  ap_room : room s;
  ap_holds : holds (img s) bl data;
  ap_nodup : NoDup (own bl ib);
  ap_own : forall b, b ∈ own bl ib -> b ∈ own bl0 ib0 \/ freeblock s0 <= b < freeblock s;
  ap_own0 : forall b, b ∈ own bl0 ib0 -> b ∈ own bl ib;
  ap_free : freeblock s = freeblock s0 + need (length data) - need (length data0);
  ap_le : (length data0 <= length data)%nat;
  ap_inode : freeinode s = freeinode s0;
  ap_keep : forall b, b ∉ own bl ib -> img s b = img s0 b;
}.

Section append.
Context (s0 : mkst) (d0 : dinode) (bl0 : list Z) (ib0 : Z) (data0 p0 : list Z).
Hypothesis Hown0 : forall b, b ∈ own bl0 ib0 -> nmeta <= b < freeblock s0.
Hypothesis Hfree : freeblock s0 + need (length (data0 ++ p0)) - need (length data0) <= FSSIZE.
Hypothesis Hmax : (length (data0 ++ p0) <= 268 * 1024)%nat.
Hypothesis Hnm : nmeta <= freeblock s0.

Abbreviation app := (appending s0 d0 bl0 ib0 data0 p0).

Lemma need_step off n1 : (0 < n1)%nat -> (off + n1 <= 1024 * (off / 1024) + 1024)%nat ->
  need (off + n1) = need off + new_blocks (off / 1024) (nblk off) /\ (off / 1024 <= nblk off)%nat.
Proof.
  clear. intros Hn Hle. pose proof (nblk_bounds off). pose proof (nblk_bounds (off + n1)).
  pose proof (Nat.div_mod_eq off 1024). pose proof (Nat.mod_upper_bound off 1024).
  set (q := (off / 1024)%nat) in *.
  assert (nblk (off + n1) = S q /\ (nblk off = q \/ nblk off = S q)) as [E1 E2] by lia.
  unfold need, new_blocks. rewrite E1. clearbody q. clear -E2. destruct E2 as [-> | ->]; repeat case_decide; lia.
Qed.

Lemma ap_pre p d bl ib data s : app p d bl ib data s -> (0 < length p)%nat ->
  block_pre s d bl ib (length data / 1024).
Proof.
  intros HA Hp. destruct HA. pose proof (f_equal length ap_rest0) as Hr. rewrite !length_app in Hr.
  pose proof (nblk_bounds (length data)) as Hnb.
  pose proof (Nat.div_mod_eq (length data) 1024). pose proof (Nat.mod_upper_bound (length data) 1024 ltac:(lia)).
  rewrite length_app in Hmax. destruct ap_holds0 as [Hl _].
  assert (need (length data) + new_blocks (length data / 1024) (nblk (length data)) <= need (length (data0 ++ p0))) as Hneed.
  { destruct (need_step (length data) 1) as [<- _]; [lia|lia|]. apply need_mono. rewrite length_app. lia. }
  split; try done.
  - rewrite Hl. lia.
  - lia.
  - rewrite Hl. lia.
  - intros b Hb. destruct (ap_own1 b Hb) as [H1|H1]; [|change nmeta with 47 in *; lia]. specialize (Hown0 b H1).
    pose proof (need_mono _ _ ap_le0). lia.
Qed.

Lemma wp_iappend_round p d bl ib data s :
  app p d bl ib data s -> (0 < length p)%nat ->
  wp (iappend_round (p, Z.of_nat (length data), d)) (fun r s' => exists p' d' bl' ib' data',
    r = inl (p', Z.of_nat (length data'), d') /\ (length p' < length p)%nat /\ app p' d' bl' ib' data' s') s.
Proof.
  intros HA Hp. pose proof (ap_pre _ _ _ _ _ _ HA Hp) as HB. unfold iappend_round. cbv zeta.
  rewrite (proj2 (Z.ltb_lt 0 _)) by lia. set (k := (length data / 1024)%nat).
  pose proof (Nat.div_mod_eq (length data) 1024) as Hdm. pose proof (Nat.mod_upper_bound (length data) 1024 ltac:(lia)) as Hm. fold k in Hdm.
  assert (Z.of_nat (length data) / BSIZE = Z.of_nat k) as -> by (change BSIZE with 1024; unfold k; by rewrite Nat2Z.inj_div).
  change MAXFILE with 268. rewrite (proj2 (Z.ltb_lt _ 268)) by (pose proof (bp_max _ _ _ _ _ HB); lia). cbn [negb].
  wp_step. eapply wp_mono; [by apply wp_iappend_block|]. intros [x d1] s1 (a' & bl' & ib' & E1 & HG). cbn [fst snd] in *. subst d1.
  destruct (grown_own _ _ _ _ _ _ _ _ _ _ HB (ap_nodup _ _ _ _ _ _ _ _ _ _ _ _ HA) HG) as (HN' & Hxi & Hxb & Hsub & Hsup).
  destruct (grown_last _ _ _ _ _ _ _ _ _ _ HB (ap_nodup _ _ _ _ _ _ _ _ _ _ _ _ HA) (ap_holds _ _ _ _ _ _ _ _ _ _ _ _ HA) HG)
    as (bi & Eb & Hbi & Hxbi & Hd). fold k in Hbi.
  destruct HG as [G1 G2 G3 G4 G5 G6 G7 G8 G9]. pose proof (rm_free _ G2) as Hfr.
  assert (x < freeblock s1) as Hx1.
  { destruct (Hsub x) as [H1|H1]; [apply elem_own; by left| |lia].
    pose proof (bp_own _ _ _ _ _ HB x H1). unfold new_blocks in G6. repeat case_decide; lia. }
  set (n1 := Nat.min (length p) (1024 - length data `mod` 1024)).
  assert (Z.min (Z.of_nat (length p)) ((Z.of_nat k + 1) * BSIZE - Z.of_nat (length data)) = Z.of_nat n1) as -> by (change BSIZE with 1024; lia).
  replace (Z.to_nat (Z.of_nat (length data) - Z.of_nat k * BSIZE)) with (length data - 1024 * length bi)%nat by (change BSIZE with 1024; lia).
  rewrite Nat2Z.id. wp_step. apply wp_rsect; [lia|]. do 3 wp_step.
  set (piece := take n1 p). assert (length piece = n1) as Hpl by (unfold piece; rewrite length_take; lia).
  exists (drop n1 p), (d <| din_addrs := a' |>), bl', ib', (data ++ piece). split_and!.
  - do 3 f_equal. rewrite length_app. lia.
  - rewrite length_drop. lia.
  - destruct (need_step (length data) n1) as [Hneed _]; [lia|lia|]. destruct HA as [A1 A2 A3 A4 [A5 A5'] A6 A7 A8 A9 A10 A11 A12].
    rewrite Eb in *. rewrite A5 in G6. fold k in Hneed. split; cbn.
    + by rewrite A1.
    + rewrite <- (assoc_L (++)). unfold piece. by rewrite take_drop.
    + eapply shape_frame; [|exact G1]. intros Hi. unfold vset. by rewrite decide_False.
    + apply room_write; [done|done|]. rewrite length_inserts. apply G2.
    + apply holds_append; try done; try lia. apply G2.
    + done.
    + intros b Hb. destruct (Hsub b Hb) as [H1|H1]; [destruct (A7 b H1) as [H2|H2]; [by left|right]|right].
      * unfold new_blocks in G6. repeat case_decide; lia.
      * pose proof (need_mono _ _ A10). lia.
    + auto.
    + rewrite length_app, Hpl, Hneed. lia.
    + rewrite length_app. lia.
    + congruence.
    + intros b Hb. unfold vset. rewrite decide_False.
      * rewrite G5; [apply A12; by auto|]. intros Hi ->. apply Hb, elem_own. by right.
      * intros ->. apply Hb, elem_own. by left.
Qed.

(** The loop appends all of [p0]. *)
Lemma wp_iappend_loop p d bl ib data s (Q : Z * dinode -> mkst -> Prop) :
  app p d bl ib data s ->
  (forall d' bl' ib' s', app [] d' bl' ib' (data0 ++ p0) s' -> Q (Z.of_nat (length (data0 ++ p0)), d') s') ->
  wp (loop iappend_round (p, Z.of_nat (length data), d)) Q s.
Proof.
  intros HA HQ.
  apply (wp_loop (fun n '(p, off, d) s => exists bl ib data, n = Z.of_nat (length p) + 1 /\ off = Z.of_nat (length data) /\ app p d bl ib data s)
    iappend_round Q (Z.of_nat (length p) + 1)).
  - intros n [[p1 off] d1] s1 (bl1 & ib1 & data1 & -> & -> & HA1). split; [lia|]. destruct p1 as [|c p1].
    + unfold iappend_round. cbn [length]. cbv zeta. simpl (0 <? _). cbv iota. wp_step.
      pose proof (ap_rest _ _ _ _ _ _ _ _ _ _ _ _ HA1) as Hr. rewrite app_nil_r in Hr. subst data1. eapply HQ. exact HA1.
    + eapply wp_mono; [apply (wp_iappend_round _ _ _ _ _ _ HA1); simpl; lia|].
      intros r s2 (p' & d' & bl' & ib' & data' & -> & Hl & HA2). exists (Z.of_nat (length p') + 1). split; [lia|].
      by exists bl', ib', data'.
  - pose proof (f_equal length (ap_rest _ _ _ _ _ _ _ _ _ _ _ _ HA)) as Hr. rewrite length_app in Hr. lia.
  - by exists bl, ib, data.
Qed.

End append.

(** ** The image *)

Record frep := mkfrep { r_type : Z; r_bl : list Z; r_ib : Z; r_data : list Z }.

Definition r_own (r : frep) : list Z := own (r_bl r) (r_ib r).

Definition dinode_at (V : Z -> list Z) (j : Z) : dinode := get_dinode (V (IBLOCK j mksb)) (dip_off j).

Record file_at (V : Z -> list Z) (r : frep) (d : dinode) : Prop := {
  fa_din : d = mkdinode (r_type r) 0 0 1 (Z.of_nat (length (r_data r))) (din_addrs d);
  fa_type : 0 <= r_type r < 2 ^ 15;
  fa_shape : shape V (din_addrs d) (r_bl r) (r_ib r);
  fa_holds : holds V (r_bl r) (r_data r);
  fa_nodup : NoDup (r_own r);
}.

(** The inode blocks. *)
Definition iblocks (b : Z) : Prop := 33 <= b < 46.

Record mk_inv (s : mkst) (R : list frep) : Prop := {
  mi_room : room s;
  mi_inode : freeinode s = Z.of_nat (length R) + 1;
  mi_max : (length R < 200)%nat;
  mi_file : forall i r, R !! i = Some r -> file_at (img s) r (dinode_at (img s) (Z.of_nat i + 1));
  mi_own : forall i r b, R !! i = Some r -> b ∈ r_own r -> nmeta <= b < freeblock s;
  mi_apart : forall i i' r r' b, R !! i = Some r -> R !! i' = Some r' -> b ∈ r_own r -> b ∈ r_own r' -> i = i';
  mi_meta : forall b, 0 <= b < nmeta -> ~ iblocks b -> img s b = if decide (b = 1) then sb_block mksb else zero_block;
  mi_unused : forall j, Z.of_nat (length R) < j < 200 -> din_type (dinode_at (img s) j) = 0;
}.

Lemma rd_ext n d d' o : 0 <= o -> (forall k, (Z.to_nat o <= k < Z.to_nat o + n)%nat -> d !! k = d' !! k) -> rd n d o = rd n d' o.
Proof.
  intros Ho Hk. unfold rd. f_equal. apply list_eq. intros i. destruct (decide (i < n)%nat).
  - rewrite !lookup_take_lt, !lookup_drop by done. apply Hk. lia.
  - by rewrite !lookup_take_ge by lia.
Qed.

Lemma get_dinode_ext d d' o : 0 <= o -> (forall k, (Z.to_nat o <= k < Z.to_nat o + 64)%nat -> d !! k = d' !! k) ->
  get_dinode d o = get_dinode d' o.
Proof.
  intros Ho Hk. unfold get_dinode, dip_type, dip_nlink, dip_addrs.
  rewrite !(rd_ext _ d d') by (lia || (intros; apply Hk; lia)). f_equal.
  apply list_fmap_ext. intros i k [-> Hi]%lookup_seq. apply rd_ext; [lia|]. intros. apply Hk. lia.
Qed.

Lemma iblock_range j : 1 <= j <= 200 -> iblocks (IBLOCK j mksb) /\ IBLOCK j mksb = j / 16 + 33.
Proof.
  intros Hj. unfold IBLOCK, iblocks. change IPB with 16. change (sb_inodestart mksb) with 33. unfold u32.
  rewrite Z.mod_small; Z.div_mod_to_equations; lia.
Qed.

(** Writing one inode leaves the others. *)
Lemma dinode_at_other V j j' d :
  (forall b, length (V b) = Z.to_nat BSIZE) -> inode_fits (to_inode d) -> 1 <= j <= 200 -> 1 <= j' <= 200 -> j <> j' ->
  dinode_at (vset V (IBLOCK j mksb) (put_dinode (to_inode d) (dip_off j) (V (IBLOCK j mksb)))) j' = dinode_at V j'.
Proof.
  intros HV Hfit Hj Hj' Hne. unfold dinode_at, vset. case_decide as E; [|done]. rewrite E.
  destruct (iblock_range j Hj) as [_ E1]. destruct (iblock_range j' Hj') as [_ E2].
  destruct (dip_off_range j) as [H1 H2]. destruct (dip_off_range j') as [H3 H4].
  destruct (put_dinode_spec (to_inode d) (dip_off j) (V (IBLOCK j mksb)) Hfit H1) as (_ & _ & Hout); [by rewrite HV|].
  apply get_dinode_ext; [done|]. intros k Hk. apply Hout. change DINODE_SIZE with 64 in *.
  unfold dip_off in *. change IPB with 16 in *. change DINODE_SIZE with 64 in *.
  assert (j `mod` 16 <> j' `mod` 16) by (Z.div_mod_to_equations; lia). lia.
Qed.

Lemma dinode_at_same V j d :
  (forall b, length (V b) = Z.to_nat BSIZE) -> inode_fits (to_inode d) ->
  dinode_at (vset V (IBLOCK j mksb) (put_dinode (to_inode d) (dip_off j) (V (IBLOCK j mksb)))) j = d.
Proof.
  intros HV Hfit. unfold dinode_at, vset. rewrite decide_True by done. destruct (dip_off_range j) as [H1 H2].
  destruct (put_dinode_spec (to_inode d) (dip_off j) (V (IBLOCK j mksb)) Hfit H1) as ((E1 & E2 & E3 & E4 & E5 & E6) & _ & _); [by rewrite HV|].
  unfold get_dinode. rewrite E1, E2, E3, E4, E5, E6. by destruct d.
Qed.

Lemma file_at_frame V V' r d :
  (forall b, b ∈ r_own r -> V' b = V b) -> file_at V r d -> file_at V' r d.
Proof.
  intros Hf []. split; try done.
  - eapply shape_frame; [|done]. intros Hi. apply Hf, elem_own. by right.
  - destruct fa_holds0 as [H1 H2]. split; [done|]. rewrite <- H2. f_equal. apply list_fmap_ext. intros i b Hb.
    apply Hf, elem_own. left. by eapply list_elem_of_lookup_2.
Qed.

(** An inode that fits its fields. *)
Lemma file_inode_fits V r d : file_at V r d -> inode_fits (to_inode d).
Proof.
  intros [E Ht HS [Hl _] _]. pose proof (sh_max _ _ _ _ HS). pose proof (nblk_bounds (length (r_data r))).
  rewrite E. split; cbn; try lia.
  - apply HS.
  - intros k Hk. destruct (decide (k = 12)%nat) as [->|Hne].
    + rewrite (sh_ib _ _ _ _ HS). apply HS.
    + rewrite (sh_dir _ _ _ _ HS) by lia. destruct (decide (k < length (r_bl r))%nat) as [Hk'|Hk'].
      * pose proof (sh_pos _ _ _ _ HS (nth k (r_bl r) 0) ltac:(by apply nth_elem_of)). lia.
      * rewrite nth_overflow by lia. lia.
Qed.

(** Everything is in place but for the inode [i]. *)
Record but_inode (s : mkst) (R : list frep) (i : nat) (r : frep) (d : dinode) : Prop := {
  bi_room : room s;
  bi_inode : freeinode s = Z.of_nat (length R) + 1;
  bi_max : (length R < 200)%nat;
  bi_at : R !! i = Some r;
  bi_file : file_at (img s) r d;
  bi_other : forall i' r', i' <> i -> R !! i' = Some r' -> file_at (img s) r' (dinode_at (img s) (Z.of_nat i' + 1));
  bi_own : forall i r b, R !! i = Some r -> b ∈ r_own r -> nmeta <= b < freeblock s;
  bi_apart : forall i i' r r' b, R !! i = Some r -> R !! i' = Some r' -> b ∈ r_own r -> b ∈ r_own r' -> i = i';
  bi_meta : forall b, 0 <= b < nmeta -> ~ iblocks b -> img s b = if decide (b = 1) then sb_block mksb else zero_block;
  bi_unused : forall j, Z.of_nat (length R) < j < 200 -> din_type (dinode_at (img s) j) = 0;
}.

Lemma wp_winode s R i r d (Q : unit -> mkst -> Prop) :
  but_inode s R i r d -> (forall s', mk_inv s' R -> freeblock s' = freeblock s -> Q tt s') -> wp (winode (Z.of_nat i + 1) d) Q s.
Proof.
  intros HB HQ. destruct HB. pose proof (lookup_lt_Some _ _ _ bi_at0) as Hi.
  pose proof (file_inode_fits _ _ _ bi_file0) as Hfit. destruct (iblock_range (Z.of_nat i + 1)) as [Hib _]; [lia|].
  pose proof (rm_free _ bi_room0). change nmeta with 47 in *. change FSSIZE with 2000 in *. unfold iblocks in Hib.
  unfold winode. cbv zeta. wp_step. apply wp_rsect; [change FSSIZE with 2000; lia|]. wp_step. apply HQ; [|done].
  destruct (put_dinode_spec (to_inode d) (dip_off (Z.of_nat i + 1)) (img s (IBLOCK (Z.of_nat i + 1) mksb))) as (_ & Hlen & _);
    [done|apply dip_off_range|rewrite (rm_len _ bi_room0); apply dip_off_range|].
  assert (forall r' i' d', R !! i' = Some r' -> file_at (img s) r' d' ->
    file_at (vset (img s) (IBLOCK (Z.of_nat i + 1) mksb) (put_dinode (to_inode d) (dip_off (Z.of_nat i + 1)) (img s (IBLOCK (Z.of_nat i + 1) mksb)))) r' d') as Hfr.
  { intros r' i' d' Hr' Hf'. eapply file_at_frame; [|exact Hf']. intros b Hb. unfold vset. rewrite decide_False; [done|].
    intros ->. pose proof (bi_own0 _ _ _ Hr' Hb). lia. }
  split; simpl img; simpl freeinode; simpl freeblock; try done.
  - apply room_write; [done|lia|]. etransitivity; [exact Hlen|apply bi_room0].
  - intros i' r' Hr'. destruct (decide (i' = i)) as [->|Hne].
    + rewrite bi_at0 in Hr'. injection Hr' as <-. rewrite dinode_at_same by (done || apply bi_room0). by eapply Hfr.
    + pose proof (lookup_lt_Some _ _ _ Hr'). rewrite dinode_at_other by (done || lia || apply bi_room0). eapply Hfr; eauto.
  - intros b Hb Hni. unfold vset. rewrite decide_False; [by apply bi_meta0|]. intros ->. by apply Hni.
  - intros j Hj. rewrite dinode_at_other by (done || lia || apply bi_room0). by apply bi_unused0.
Qed.

Lemma wp_rinode s i (Q : dinode -> mkst -> Prop) : (i < 200)%nat ->
  Q (dinode_at (img s) (Z.of_nat i + 1)) s -> wp (rinode (Z.of_nat i + 1)) Q s.
Proof.
  intros Hi HQ. destruct (iblock_range (Z.of_nat i + 1)) as [Hib _]; [lia|]. unfold iblocks in Hib.
  unfold rinode. cbv zeta. wp_step. apply wp_rsect; [change FSSIZE with 2000; lia|]. by wp_step.
Qed.

(** A new file owns nothing. *)
Lemma lookup_new (R : list frep) r i r' : (R ++ [r]) !! i = Some r' -> R !! i = Some r' \/ (i = length R /\ r' = r).
Proof.
  intros H. apply lookup_app_Some in H as [H|[Hi H]]; [by left|]. apply list_lookup_singleton_Some in H as [H ->].
  right. split; [lia|done].
Qed.

Lemma wp_mk_ialloc s R type (Q : Z -> mkst -> Prop) :
  mk_inv s R -> (length R < 199)%nat -> 0 <= type < 2 ^ 15 ->
  (forall s', mk_inv s' (R ++ [mkfrep type [] 0 []]) -> freeblock s' = freeblock s -> Q (Z.of_nat (length R) + 1) s') ->
  wp (mk_ialloc type) Q s.
Proof.
  intros HI HR Ht HQ. destruct HI. unfold mk_ialloc. do 4 wp_step. rewrite mi_inode0.
  wp_step. apply (wp_winode _ (R ++ [mkfrep type [] 0 []]) (length R) (mkfrep type [] 0 [])).
  - split; simpl img; simpl freeinode; simpl freeblock; try done.
    + destruct mi_room0. by split.
    + unfold u32. rewrite length_app, Z.mod_small by lia. simpl. lia.
    + rewrite length_app. simpl. lia.
    + by rewrite list_lookup_middle.
    + split; try done; [|constructor]. split; cbn; try done; try lia; [|set_solver].
      intros k _. by do 14 (destruct k as [|k]; [done|]).
    + intros i' r' Hne [Hr'|[? _]]%lookup_new; [by apply mi_file0|lia].
    + intros i r b [Hr|[_ ->]]%lookup_new Hb; [by eapply mi_own0|]. by apply not_elem_of_nil in Hb.
    + intros i i' r r' b [Hr|[_ ->]]%lookup_new [Hr'|[_ ->]]%lookup_new Hb Hb'; try by apply not_elem_of_nil in Hb.
      * by eapply mi_apart0.
      * by apply not_elem_of_nil in Hb'.
    + intros j. rewrite length_app. simpl. intros Hj. apply mi_unused0. lia.
  - intros s' HI' Hfb. cbn in Hfb. wp_step. by apply HQ.
Qed.

(** The file [i] after the loop of [iappend], before its inode is written. *)
Lemma appended_but_inode s R i r p d' bl ib s' :
  mk_inv s R -> R !! i = Some r -> (length (r_data r ++ p) <= 268 * 1024)%nat ->
  let d := dinode_at (img s) (Z.of_nat i + 1) in
  appending s d (r_bl r) (r_ib r) (r_data r) p [] d' bl ib (r_data r ++ p) s' ->
  let r' := mkfrep (r_type r) bl ib (r_data r ++ p) in
  but_inode s' (<[i := r']> R) i r' (d' <| din_size := Z.of_nat (length (r_data r ++ p)) |>).
Proof.
  intros HI Hr Hmax d HA r'. pose proof (lookup_lt_Some _ _ _ Hr) as Hi.
  pose proof (mi_file _ _ HI _ _ Hr) as [F1 F2 F3 F4 F5]. fold d in F1, F3.
  destruct HA as [A1 A2 A3 A4 A5 A6 A7 A8 A9 A10 A11 A12]. pose proof (need_mono _ _ A10) as Hn.
  pose proof (rm_free _ (mi_room _ _ HI)) as Hfr.
  assert (forall i' r1 b, i' <> i -> R !! i' = Some r1 -> b ∈ r_own r1 -> b ∉ own bl ib) as Hdis.
  { intros i' r1 b Hne H1 Hb Hin. destruct (A7 b Hin) as [Ho|Ho].
    - apply Hne. by eapply (mi_apart _ _ HI i' i).
    - pose proof (mi_own _ _ HI _ _ _ H1 Hb). lia. }
  assert (forall b, b < nmeta -> img s' b = img s b) as Hmeta.
  { intros b Hb. apply A12. intros Hin. destruct (A7 b Hin) as [Ho|Ho]; [|lia]. pose proof (mi_own _ _ HI _ _ _ Hr Ho). lia. }
  split.
  - done.
  - rewrite A11, length_insert. apply HI.
  - rewrite length_insert. apply HI.
  - by apply list_lookup_insert_eq.
  - split; try done. cbn. rewrite A1, F1. done.
  - intros i' r1 Hne H1. rewrite list_lookup_insert_ne in H1 by done. pose proof (lookup_lt_Some _ _ _ H1) as Hi1.
    pose proof (mi_max _ _ HI) as HR. destruct (iblock_range (Z.of_nat i' + 1)) as [Hib _]; [lia|]. unfold iblocks in Hib.
    unfold dinode_at. rewrite (Hmeta (IBLOCK _ _)) by (change nmeta with 47; lia).
    eapply file_at_frame; [|by apply (mi_file _ _ HI)]. intros b Hb. apply A12. by eapply Hdis.
  - intros i' r1 b [(<- & <- & _)|[Hne H1]]%list_lookup_insert_Some Hb.
    + destruct (A7 b Hb) as [Ho|Ho]; [pose proof (mi_own _ _ HI _ _ _ Hr Ho)|]; lia.
    + pose proof (mi_own _ _ HI _ _ _ H1 Hb). lia.
  - intros i1 i2 r1 r2 b [(<- & <- & _)|[Hne1 H1]]%list_lookup_insert_Some [(<- & <- & _)|[Hne2 H2]]%list_lookup_insert_Some Hb1 Hb2.
    + done.
    + by destruct (Hdis i2 r2 b (not_eq_sym Hne2) H2 Hb2).
    + by destruct (Hdis i1 r1 b (not_eq_sym Hne1) H1 Hb1).
    + by eapply (mi_apart _ _ HI).
  - intros b Hb Hni. rewrite Hmeta by lia. by apply HI.
  - intros j Hj. rewrite length_insert in Hj. destruct (iblock_range j) as [Hib _]; [lia|]. unfold iblocks in Hib.
    unfold dinode_at. rewrite (Hmeta (IBLOCK _ _)) by (change nmeta with 47; lia). by apply (mi_unused _ _ HI).
Qed.

(** The file [i] grows by [p]. *)
Lemma wp_iappend s R i r p (Q : unit -> mkst -> Prop) :
  mk_inv s R -> R !! i = Some r -> (length (r_data r ++ p) <= 268 * 1024)%nat ->
  freeblock s + need (length (r_data r ++ p)) - need (length (r_data r)) <= FSSIZE ->
  (forall s' bl ib, mk_inv s' (<[i := mkfrep (r_type r) bl ib (r_data r ++ p)]> R) ->
    freeblock s' = freeblock s + need (length (r_data r ++ p)) - need (length (r_data r)) -> Q tt s') ->
  wp (iappend (Z.of_nat i + 1) p) Q s.
Proof.
  intros HI Hr Hmax Hfree HQ. pose proof (lookup_lt_Some _ _ _ Hr) as Hi. pose proof (mi_max _ _ HI) as HR.
  pose proof (mi_file _ _ HI _ _ Hr) as [F1 F2 F3 F4 F5]. set (d := dinode_at (img s) (Z.of_nat i + 1)) in *.
  unfold iappend. wp_step. apply wp_rinode; [lia|]. fold d. wp_step.
  replace (din_size d) with (Z.of_nat (length (r_data r))) by (by rewrite F1).
  apply (wp_iappend_loop s d (r_bl r) (r_ib r) (r_data r) p) with (bl := r_bl r) (ib := r_ib r).
  - intros b Hb. by apply (mi_own _ _ HI _ _ _ Hr).
  - done.
  - done.
  - apply (mi_room _ _ HI).
  - split; try done; [apply HI|auto|lia].
  - intros d' bl' ib' s' HA. cbv beta. set (r' := mkfrep (r_type r) bl' ib' (r_data r ++ p)).
    apply (wp_winode _ (<[i := r']> R) i r'); [|intros s2 HI2 Hfb; eapply HQ; [exact HI2|rewrite Hfb; apply HA]].
    by apply (appended_but_inode s R i r p d' bl' ib' s').
Qed.

Lemma wp_iappends bufs : forall s R i r (Q : unit -> mkst -> Prop),
  mk_inv s R -> R !! i = Some r -> (length (r_data r ++ concat bufs) <= 268 * 1024)%nat ->
  freeblock s + need (length (r_data r ++ concat bufs)) - need (length (r_data r)) <= FSSIZE ->
  (forall s' bl ib, mk_inv s' (<[i := mkfrep (r_type r) bl ib (r_data r ++ concat bufs)]> R) ->
    freeblock s' = freeblock s + need (length (r_data r ++ concat bufs)) - need (length (r_data r)) -> Q tt s') ->
  wp (iappends (Z.of_nat i + 1) bufs) Q s.
Proof.
  induction bufs as [|b bufs IH]; intros s R i r Q HI Hr Hmax Hfree HQ; cbn [iappends].
  - wp_step. apply (HQ s (r_bl r) (r_ib r)); cbn [concat]; rewrite app_nil_r; [|lia].
    rewrite list_insert_id; [done|]. by destruct r.
  - cbn [concat] in *. rewrite (assoc_L (++)) in *. rewrite length_app in Hmax.
    assert (need (length (r_data r ++ b)) <= need (length ((r_data r ++ b) ++ concat bufs))) by (apply need_mono; rewrite (length_app (r_data r ++ b)); lia).
    wp_step. apply (wp_iappend s R i r b); [done|done|lia|lia|]. intros s1 bl ib HI1 Hf1.
    eapply (IH _ _ _ (mkfrep (r_type r) bl ib (r_data r ++ b))); [exact HI1| | | |].
    + apply list_lookup_insert_eq. by eapply lookup_lt_Some.
    + cbn [r_data r_type]. rewrite (length_app (_ ++ _)). lia.
    + cbn [r_data r_type]. lia.
    + cbn [r_data r_type]. intros s2 bl2 ib2 HI2 Hf2. rewrite list_insert_insert_eq in HI2. eapply HQ; [exact HI2|]. lia.
Qed.

(** ** The files *)

Abbreviation hostfile := (list Z * list (list Z))%type.

Definition good_name (arg : list Z) : Prop :=
  chr "/" ∉ (if has_prefix (str "user/") arg then drop 5 arg else arg) /\ Z.of_nat (length (shortname arg)) <= DIRSIZ.

(** The entries of the root directory. *)
Definition root_bytes (files : list hostfile) : list Z :=
  dirent 1 (str ".") ++ dirent 1 (str "..") ++ concat (imap (fun k f => dirent (Z.of_nat k + 2) (shortname f.1)) files).

Lemma length_dirent inum name : length (dirent inum name) = 16%nat.
Proof.
  unfold dirent, dirent_name. rewrite length_app, le_encode_length, length_take, length_app, length_replicate.
  change (Z.to_nat DIRSIZ) with 14%nat. lia.
Qed.

Lemma root_bytes_snoc files f :
  root_bytes (files ++ [f]) = root_bytes files ++ dirent (Z.of_nat (length files) + 2) (shortname f.1).
Proof.
  unfold root_bytes. rewrite imap_app, concat_app, <- !(assoc_L (++)). do 3 f_equal. cbn [imap concat].
  rewrite app_nil_r. do 2 f_equal. lia.
Qed.

Lemma length_root_bytes files : length (root_bytes files) = (16 * (2 + length files))%nat.
Proof.
  induction files as [|f files IH] using rev_ind; [done|]. rewrite root_bytes_snoc, length_app, length_dirent, IH, length_app. simpl. lia.
Qed.

(** The blocks taken by the files. *)
Fixpoint file_blocks (files : list hostfile) : Z :=
  match files with [] => 0 | f :: files' => need (length (concat f.2)) + file_blocks files' end.

Definition all_blocks (files : list hostfile) : Z := need (16 * (2 + length files)) + file_blocks files.

Lemma need_nonneg n : 0 <= need n.
Proof. unfold need. case_decide; lia. Qed.

Lemma file_blocks_app l1 l2 : file_blocks (l1 ++ l2) = file_blocks l1 + file_blocks l2.
Proof. induction l1 as [|f l1 IH]; cbn [app file_blocks]; lia. Qed.

Lemma file_blocks_nonneg l : 0 <= file_blocks l.
Proof. induction l as [|f l IH]; cbn [file_blocks]; [lia|]. pose proof (need_nonneg (length (concat f.2))). lia. Qed.

Lemma all_blocks_app l1 l2 : all_blocks l1 <= all_blocks (l1 ++ l2).
Proof.
  unfold all_blocks. rewrite file_blocks_app. pose proof (file_blocks_nonneg l2).
  pose proof (need_mono (16 * (2 + length l1)) (16 * (2 + length (l1 ++ l2)))). rewrite length_app in *. lia.
Qed.

Definition file_rep (r : frep) (f : hostfile) : Prop := r_type r = T_FILE /\ r_data r = concat f.2.

(** The root directory and the files are in the image. *)
Definition built (s : mkst) (files : list hostfile) : Prop :=
  exists bl ib rs, mk_inv s (mkfrep T_DIR bl ib (root_bytes files) :: rs) /\ Forall2 file_rep rs files /\
    freeblock s = nmeta + all_blocks files.

Definition file_good (f : hostfile) : Prop := good_name f.1 /\ (length (concat f.2) <= 268 * 1024)%nat.

Lemma wp_add_file s files f :
  built s files -> file_good f -> (length files < 198)%nat -> nmeta + all_blocks (files ++ [f]) <= FSSIZE ->
  wp (add_file 1 f) (fun _ s' => built s' (files ++ [f])) s.
Proof.
  intros (bl & ib & rs & HI & HF & Hfree) [[Hn1 Hn2] Hsz] Hlen Hsp. pose proof (Forall2_length _ _ _ HF) as Hl.
  assert (all_blocks (files ++ [f]) = need (16 * (3 + length files)) + file_blocks files + need (length (concat f.2))) as Hall.
  { unfold all_blocks. rewrite file_blocks_app, length_app. cbn [file_blocks length].
    replace (2 + (length files + 1))%nat with (3 + length files)%nat by lia. lia. }
  unfold all_blocks in Hfree. pose proof (length_root_bytes files) as Hlr. pose proof (need_nonneg (length (concat f.2))).
  unfold add_file. cbv zeta. rewrite bool_decide_eq_false_2 by done. rewrite (proj2 (Z.leb_le _ _) Hn2). cbn [negb].
  wp_step. eapply wp_mk_ialloc; [exact HI|cbn [length]; lia|done|]. intros s1 HI1 Hf1. cbn [length app] in *.
  replace (Z.of_nat (S (length rs)) + 1) with (Z.of_nat (length files) + 2) by lia.
  pose proof (length_root_bytes (files ++ [f])) as Hlr'. rewrite root_bytes_snoc, !length_app in Hlr'. cbn [length] in Hlr'.
  wp_step. change 1 with (Z.of_nat 0 + 1) at 1. eapply wp_iappend; [exact HI1|done| | |]; cbn [r_data r_type].
  - rewrite length_app. lia.
  - rewrite length_app, Hlr', Hlr, Hf1. replace (16 * (2 + (length files + 1)))%nat with (16 * (3 + length files))%nat by lia. lia.
  - intros s2 bl2 ib2 HI2 Hf2. cbn [list_insert insert] in HI2.
    replace (Z.of_nat (length files) + 2) with (Z.of_nat (S (length rs)) + 1) by lia.
    eapply wp_iappends; [exact HI2| | | |].
    + exact (list_lookup_middle rs [] (mkfrep T_FILE [] 0 []) (length rs) eq_refl).
    + cbn [r_data app]. done.
    + cbn [r_data app length]. change (need 0) with 0. rewrite length_app, Hlr', Hlr in Hf2.
      replace (16 * (2 + (length files + 1)))%nat with (16 * (3 + length files))%nat in Hf2 by lia. lia.
    + intros s3 bl3 ib3 HI3 Hf3. cbn [r_data r_type app length] in *. change (need 0) with 0 in Hf3.
      exists bl2, ib2, (rs ++ [mkfrep T_FILE bl3 ib3 (concat f.2)]). split_and!.
      * rewrite root_bytes_snoc. eapply (eq_rect _ (mk_inv s3)); [exact HI3|]. cbn [insert list_insert]. f_equal.
        rewrite <- (Nat.add_0_r (length rs)). apply (insert_app_r rs).
      * apply Forall2_app; [done|]. by constructor.
      * rewrite length_app, Hlr', Hlr in Hf2.
        replace (16 * (2 + (length files + 1)))%nat with (16 * (3 + length files))%nat in Hf2 by lia. lia.
Qed.

Lemma wp_add_files rest : forall s files,
  built s files -> Forall file_good rest -> (length (files ++ rest) <= 198)%nat -> nmeta + all_blocks (files ++ rest) <= FSSIZE ->
  wp (add_files 1 rest) (fun _ s' => built s' (files ++ rest)) s.
Proof.
  induction rest as [|f rest IH]; intros s files HB HG Hlen Hsp; cbn [add_files].
  - wp_step. by rewrite app_nil_r.
  - apply Forall_cons in HG as [Hg HG]. rewrite (cons_middle f) in *. rewrite !(assoc_L (++)) in *.
    wp_step. eapply wp_mono.
    + apply (wp_add_file s files f); [done|done| |].
      * rewrite !length_app in Hlen. cbn [length] in Hlen. lia.
      * pose proof (all_blocks_app (files ++ [f]) rest). lia.
    + intros ? s1 HB1. by apply IH.
Qed.

(** ** The bitmap *)

Lemma length_set_bits n buf : length (set_bits n buf) = length buf.
Proof. induction n as [|n IH]; cbn [set_bits]; [done|]. by rewrite length_insert. Qed.

(** The bits of the blocks below [used] are set. *)
Lemma set_bits_spec n b : (n <= 8 * 1024)%nat -> (b < 8 * 1024)%nat ->
  Z.testbit (nth (b / 8) (set_bits n zero_block) 0) (Z.of_nat (b `mod` 8)) = bool_decide (b < n)%nat.
Proof.
  intros Hn Hb. induction n as [|n IH].
  - cbn [set_bits]. rewrite bool_decide_eq_false_2 by lia. rewrite nth_lookup.
    destruct (zero_block !! (b / 8)%nat) eqn:E; [apply lookup_replicate in E as [-> _]|]; apply Z.bits_0.
  - cbn [set_bits]. change 8 with (Z.of_nat 8) at 1 2 3. rewrite <- !(Nat2Z.inj_div n 8), Nat2Z.id, <- (Nat2Z.inj_mod n 8).
    pose proof (Nat.div_mod_eq n 8). pose proof (Nat.mod_upper_bound n 8 ltac:(lia)).
    pose proof (Nat.div_mod_eq b 8). pose proof (Nat.mod_upper_bound b 8 ltac:(lia)).
    rewrite nth_insert by (rewrite length_set_bits; change (length zero_block) with 1024%nat; lia).
    destruct (decide (b / 8 = n / 8)%nat) as [Eq|Eq].
    + unfold u8. rewrite Z.mod_pow2_bits_low by lia. rewrite Z.lor_spec, <- Eq, IH by lia.
      rewrite Z.shiftl_1_l, Z.pow2_bits_eqb by lia. destruct (Z.eqb_spec (Z.of_nat (n `mod` 8)) (Z.of_nat (b `mod` 8))) as [Em|Em].
      * rewrite orb_true_r, bool_decide_eq_true_2 by lia. done.
      * rewrite orb_false_r. apply bool_decide_ext. lia.
    + rewrite IH by lia. apply bool_decide_ext. split; [lia|]. intros. assert (b <> n) by congruence. lia.
Qed.

Lemma bitmap_bits V n b : (n <= 8 * 1024)%nat -> 0 <= b < FSSIZE ->
  bit_at (vset V (sb_bmapstart mksb) (set_bits n zero_block)) mksb b = bool_decide (b < Z.of_nat n).
Proof.
  intros Hn Hb. change FSSIZE with 2000 in Hb. unfold bit_at. unfold BBLOCK. change BPB with 8192. change (sb_bmapstart mksb) with 46.
  rewrite (Z.div_small b 8192) by lia. change (u32 (0 + 46)) with 46. unfold vset. rewrite decide_True by done. rewrite (Z.mod_small b 8192) by lia.
  pose proof (set_bits_spec n (Z.to_nat b) Hn ltac:(lia)) as H. rewrite Nat2Z.inj_mod, Z2Nat.id in H by lia.
  replace (Z.to_nat (b / 8)) with (Z.to_nat b / 8)%nat by (rewrite Z2Nat.inj_div by lia; done).
  etransitivity; [exact H|]. apply bool_decide_ext. lia.
Qed.

(** ** What the kernel finds in the image *)

Lemma shape_fblock V a bl ib k : shape V a bl ib -> 0 <= k < MAXFILE -> fblock V a k = nth (Z.to_nat k) bl 0.
Proof.
  intros HS Hk. change MAXFILE with 268 in Hk. unfold fblock, ind. change NDIRECT with 12. change (Z.to_nat 12) with 12%nat.
  rewrite (sh_ib _ _ _ _ HS). destruct (Z.ltb_spec k 12); [apply HS; lia|].
  destruct (decide (12 < length bl)%nat) as [Hl|Hl].
  - destruct (sh_large _ _ _ _ HS Hl) as [Hi Hr]. rewrite (proj2 (Z.eqb_neq _ _) Hi). rewrite <- Hr by lia. by rewrite Z2Nat.id by lia.
  - rewrite (sh_small _ _ _ _ HS) by lia. by rewrite nth_overflow by lia.
Qed.

Lemma nth_blocks (V : Z -> list Z) bl o : (forall b, length (V b) = Z.to_nat BSIZE) -> (o < 1024 * length bl)%nat ->
  nth o (concat (V <$> bl)) 0 = nth (o `mod` 1024) (V (nth (o / 1024) bl 0)) 0.
Proof.
  intros HV. revert o. induction bl as [|b bl IH]; intros o Ho; [simpl in Ho; lia|]. cbn [fmap list_fmap concat length] in *.
  assert (length (V b) = 1024%nat) as Hb by apply HV. destruct (decide (o < 1024)%nat) as [Hlt|Hge].
  - rewrite app_nth1 by lia. by rewrite Nat.mod_small, Nat.div_small by done.
  - rewrite app_nth2, Hb by lia. rewrite IH by lia. replace o with ((o - 1024) + 1 * 1024)%nat at 3 4 by lia.
    rewrite Nat.Div0.mod_add, Nat.div_add, Nat.add_1_r by lia. done.
Qed.

Section image.
Context (V : Z -> list Z) (fb : Z).
Hypothesis HV : forall b, length (V b) = Z.to_nat BSIZE.
Hypothesis Hfb : fb <= FSSIZE.
Hypothesis Hbits : forall b, 0 <= b < FSSIZE -> bit_at V mksb b = bool_decide (b < fb).

Lemma own_used b : nmeta <= b < fb -> used mksb V b.
Proof.
  intros Hb. unfold used, is_data. change (data_start mksb) with nmeta. change (sb_size mksb) with FSSIZE. split; [lia|].
  change nmeta with 47 in Hb. rewrite Hbits by lia. apply bool_decide_eq_true_2. lia.
Qed.

Lemma fblock_own r d k : file_at V r d -> 0 <= k < MAXFILE -> fblock V (din_addrs d) k <> 0 ->
  r_bl r !! Z.to_nat k = Some (fblock V (din_addrs d) k).
Proof.
  intros HF Hk. rewrite (shape_fblock _ _ _ _ _ (fa_shape _ _ _ HF) Hk), nth_lookup. by destruct (r_bl r !! Z.to_nat k).
Qed.

Lemma image_file_ok r d : file_at V r d -> (forall b, b ∈ r_own r -> nmeta <= b < fb) -> file_ok mksb V (din_addrs d).
Proof.
  intros HF Ho. pose proof HF as [F1 F2 F3 F4 F5].
  assert (forall k, 0 <= k < MAXFILE -> fblock V (din_addrs d) k <> 0 -> fblock V (din_addrs d) k ∈ r_bl r) as Hin
    by (intros k Hk Hn; eapply list_elem_of_lookup_2; by apply fblock_own).
  split.
  - apply F3.
  - intros k Hk Hn. apply own_used, Ho, elem_own. left. auto.
  - unfold ind. change (Z.to_nat NDIRECT) with 12%nat. rewrite (sh_ib _ _ _ _ F3). intros Hi. apply own_used, Ho, elem_own. by right.
  - intros k k' Hk Hk' Hn E. pose proof (fblock_own _ _ _ HF Hk Hn) as H1.
    pose proof (fblock_own _ _ _ HF Hk' ltac:(congruence)) as H2. rewrite <- E in H2. apply NoDup_app in F5 as [F5 _].
    pose proof (NoDup_lookup _ _ _ _ F5 H1 H2). lia.
  - intros k Hk Hn. unfold ind. change (Z.to_nat NDIRECT) with 12%nat. rewrite (sh_ib _ _ _ _ F3). intros E. specialize (Hin k Hk Hn).
    rewrite E in Hin, Hn. unfold r_own, own in F5. rewrite (proj2 (Z.eqb_neq _ _) Hn) in F5. apply NoDup_app in F5 as (_ & F5 & _).
    apply (F5 _ Hin). by apply list_elem_of_singleton.
Qed.

Lemma image_bytes r d : file_at V r d -> let n := length (r_data r) in
  mapped_file V (din_addrs d) (Z.of_nat n) /\ fbytes V (din_addrs d) 0 n = r_data r.
Proof.
  intros [F1 F2 F3 [Hl Hc] F5] n. pose proof (nblk_bounds n) as Hnb. fold n in Hl. pose proof (sh_max _ _ _ _ F3) as Hm.
  assert (forall k, 0 <= k -> k * 1024 < Z.of_nat n -> (Z.to_nat k < length (r_bl r))%nat) as Hk by lia. split; [split|].
  - change (MAXFILE * BSIZE) with (268 * 1024). lia.
  - change BSIZE with 1024. intros k Hk0 Hk1. rewrite (shape_fblock _ _ _ _ _ F3) by (change MAXFILE with 268; lia).
    assert (nth (Z.to_nat k) (r_bl r) 0 ∈ r_bl r) as Hin by (apply nth_elem_of, Hk; lia). pose proof (sh_pos _ _ _ _ F3 _ Hin). lia.
  - apply list_eq. intros i. unfold fbytes. rewrite list_lookup_fmap. destruct (decide (i < n)%nat) as [Hi|Hi].
    + rewrite lookup_seq_lt by done. cbn [fmap option_fmap option_map]. unfold fbyte. change BSIZE with 1024. rewrite !Z.add_0_l, !Nat.add_0_l.
      rewrite (shape_fblock _ _ _ _ _ F3) by (change MAXFILE with 268; Z.div_mod_to_equations; lia).
      change 1024 with (Z.of_nat 1024). rewrite <- Nat2Z.inj_mod, <- Nat2Z.inj_div, !Nat2Z.id, <- nth_blocks by (done || lia).
      rewrite Hc, app_nth1 by done. rewrite nth_lookup. destruct (r_data r !! i) eqn:E; [done|]. apply lookup_ge_None in E. lia.
    + rewrite lookup_seq_ge, lookup_ge_None_2 by lia. done.
Qed.

Lemma image_foreign r d b : file_at V r d -> b ∉ r_own r -> 0 < b -> foreign V (din_addrs d) b.
Proof.
  intros HF Hb Hpos. pose proof (fa_shape _ _ _ HF) as F3. split.
  - unfold ind. change (Z.to_nat NDIRECT) with 12%nat. rewrite (sh_ib _ _ _ _ F3). intros ->. apply Hb, elem_own. right. split; [done|lia].
  - intros k Hk <-. apply Hb, elem_own. left. eapply list_elem_of_lookup_2. apply (fblock_own _ _ _ HF Hk). lia.
Qed.

Lemma image_disjoint r d r' d' :
  file_at V r d -> file_at V r' d' -> (forall b, b ∈ r_own r -> b ∉ r_own r') ->
  (forall b, b ∈ r_own r' -> nmeta <= b < fb) -> disjoint_file mksb V (din_addrs d) (din_addrs d') (din_size d').
Proof.
  intros HF HF' Hdis Ho. destruct (image_bytes r' d' HF') as [Hm _].
  replace (din_size d') with (Z.of_nat (length (r_data r'))) by (by rewrite (fa_din _ _ _ HF')).
  assert (forall b, b ∈ r_own r' -> used mksb V b /\ foreign V (din_addrs d) b) as Hb.
  { intros b Hb. split; [by apply own_used, Ho|]. eapply image_foreign; [done| |].
    - intros Hin. by apply (Hdis b).
    - specialize (Ho b Hb). change nmeta with 47 in Ho. lia. }
  split_and!; [done| |].
  - intros Hi. apply Hb, elem_own. right. split; [|revert Hi]; unfold ind; change (Z.to_nat NDIRECT) with 12%nat;
      rewrite (sh_ib _ _ _ _ (fa_shape _ _ _ HF')); done.
  - intros k Hk0 Hk1. apply Hb, elem_own. left. eapply list_elem_of_lookup_2. apply (fblock_own _ _ _ HF'); [|by apply Hm].
    destruct Hm as [[_ Hm] _]. change (MAXFILE * BSIZE) with (268 * 1024) in Hm. change BSIZE with 1024 in Hk1. change MAXFILE with 268. lia.
Qed.
End image.

(** ** main *)

Definition mk_empty (s : mkst) : mkst :=
  s <| img := vset (fun _ => zero_block) 1 (sb_block mksb) |> <| freeinode := 1 |> <| freeblock := nmeta |>.

Lemma empty_inv s : mk_inv (mk_empty s) [].
Proof.
  assert (forall b, b <> 1 -> img (mk_empty s) b = zero_block) as Hz by (intros b Hb; cbn; unfold vset; by rewrite decide_False).
  split; try done.
  - split; [|intros b Hb; apply Hz; cbn in Hb; change nmeta with 47 in Hb; lia|done].
    intros b. destruct (decide (b = 1)) as [->|Hb]; [by vm_compute|by rewrite Hz].
  - cbn [length]. lia.
  - intros j Hj. cbn [length] in Hj. destruct (iblock_range j) as [Hib _]; [lia|]. unfold iblocks in Hib.
    unfold dinode_at. rewrite Hz by lia. cbn. unfold dip_type. rewrite rd_zero_block. done.
Qed.

Record fits (files : list hostfile) : Prop := {
  ft_good : Forall file_good files;
  ft_inodes : (length files <= 198)%nat;
  ft_blocks : nmeta + all_blocks files <= FSSIZE;
}.

Lemma wp_main_files files s (Q : unit -> mkst -> Prop) :
  fits files -> (forall s', built s' files -> wp (mk_finish 1) Q s') -> wp (mk_main files) Q s.
Proof.
  intros [HG Hn Hb] HQ. unfold mk_main. do 5 wp_step.
  match goal with |- wp ?m Q _ => change (wp m Q (mk_empty s)) end.
  wp_step. apply (wp_mk_ialloc _ [] T_DIR); [apply empty_inv|simpl; lia|done|]. intros s1 HI1 Hf1.
  change (Z.of_nat (length (@nil frep)) + 1) with (Z.of_nat 0 + 1). change (Z.of_nat 0 + 1 =? ROOTINO) with true. cbn [negb app] in *.
  wp_step. eapply wp_iappend; [exact HI1|done| | |]; cbn [r_data r_type app].
  - rewrite length_dirent. lia.
  - rewrite length_dirent, Hf1. vm_compute. discriminate.
  - intros s2 bl ib HI2 Hf2. rewrite length_dirent, Hf1 in Hf2. cbn [list_insert insert] in HI2.
    wp_step. eapply wp_iappend; [exact HI2|done| | |]; cbn [r_data r_type app].
    + rewrite length_app, !length_dirent. lia.
    + rewrite length_app, !length_dirent, Hf2. vm_compute. discriminate.
    + intros s3 bl3 ib3 HI3 Hf3. rewrite length_app, !length_dirent, Hf2 in Hf3. cbn [list_insert insert] in HI3.
      wp_step. eapply wp_mono; [|intros ? s4; exact (HQ s4)]. apply (wp_add_files files s3 []); [|done|done|done].
      exists bl3, ib3, []. split_and!; [|done|by rewrite Hf3].
      unfold root_bytes. cbn [imap concat]. by rewrite app_nil_r.
Qed.

(** The root directory's size is rounded up to whole blocks. *)
Definition root_size (files : list hostfile) : nat := ((16 * (2 + length files)) / 1024 + 1) * 1024.

Definition root_image (files : list hostfile) : list Z :=
  root_bytes files ++ replicate (root_size files - 16 * (2 + length files)) 0.

(** The inode [j] is a file of type [t] with the contents [data]. *)
Record inode_has (V : Z -> list Z) (j t : Z) (data : list Z) : Prop := {
  ih_inode : dinode_at V j = mkdinode t 0 0 1 (Z.of_nat (length data)) (din_addrs (dinode_at V j));
  ih_ok : file_ok mksb V (din_addrs (dinode_at V j));
  ih_mapped : mapped_file V (din_addrs (dinode_at V j)) (Z.of_nat (length data));
  ih_data : fbytes V (din_addrs (dinode_at V j)) 0 (length data) = data;
}.

(** A file system with the files [files] in its root directory, and [fb] blocks in use. *)
Record image_ok (V : Z -> list Z) (fb : Z) (files : list hostfile) : Prop := {
  im_sb : parse_sb (V 1) = mksb;
  im_log : forall b, 2 <= b < 2 + nlog -> V b = zero_block;
  im_bitmap : bitmap_ok mksb V;
  im_bits : forall b, 0 <= b < FSSIZE -> bit_at V mksb b = bool_decide (b < fb);
  im_blocks : fb = nmeta + all_blocks files;
  im_root : inode_has V ROOTINO T_DIR (root_image files);
  im_files : forall k f, files !! k = Some f -> inode_has V (Z.of_nat k + 2) T_FILE (concat f.2);
  im_apart : forall j j', 1 <= j < 2 + Z.of_nat (length files) -> 1 <= j' < 2 + Z.of_nat (length files) -> j <> j' ->
    disjoint_file mksb V (din_addrs (dinode_at V j)) (din_addrs (dinode_at V j')) (din_size (dinode_at V j'));
  im_unused : forall j, 2 + Z.of_nat (length files) <= j < NINODES -> din_type (dinode_at V j) = 0;
}.

Lemma root_room files : ((2 + length files) `mod` 64 <> 0)%nat ->
  (16 * (2 + length files) < root_size files)%nat /\ root_size files = (1024 * nblk (16 * (2 + length files)))%nat.
Proof.
  intros Hm. set (n := (2 + length files)%nat) in *. unfold root_size. fold n.
  pose proof (nblk_bounds (16 * n)). pose proof (Nat.div_mod_eq (16 * n) 1024). pose proof (Nat.mod_upper_bound (16 * n) 1024 ltac:(lia)).
  assert ((16 * n) `mod` 1024 <> 0)%nat.
  { replace 1024%nat with (16 * 64)%nat by done. rewrite Nat.Div0.mul_mod_distr_l. lia. }
  lia.
Qed.

(** The root directory with its rounded size, before its inode is written. *)
Lemma root_but_inode s files bl ib rs :
  let r := mkfrep T_DIR bl ib (root_bytes files) in let d := dinode_at (img s) 1 in
  mk_inv s (r :: rs) -> ((2 + length files) `mod` 64 <> 0)%nat ->
  but_inode s (mkfrep T_DIR bl ib (root_image files) :: rs) 0 (mkfrep T_DIR bl ib (root_image files))
    (d <| din_size := (din_size d / BSIZE + 1) * BSIZE |>).
Proof.
  intros r d HI Hm. destruct (root_room files Hm) as [Hlt Hsz]. pose proof (length_root_bytes files) as Hlr.
  assert (forall i r', (mkfrep T_DIR bl ib (root_image files) :: rs) !! i = Some r' -> exists r0, (r :: rs) !! i = Some r0 /\ r_own r0 = r_own r' /\ (i <> 0%nat -> r0 = r')) as Hold.
  { intros [|i] r' Hr'; [injection Hr' as <-; by exists r|by exists r']. }
  pose proof (mi_file _ _ HI 0%nat r eq_refl) as [F1 F2 F3 [F4 F4'] F5]. change (Z.of_nat 0 + 1) with 1 in *. fold d in F1, F3.
  cbn [r_type r_bl r_ib r_data r] in *. assert (length (root_image files) = root_size files) as Hli.
  { unfold root_image. rewrite length_app, length_replicate. lia. }
  assert ((din_size d / BSIZE + 1) * BSIZE = Z.of_nat (root_size files)) as Hs.
  { apply (f_equal din_size) in F1. cbn [din_size] in F1. rewrite F1, Hlr. unfold root_size. change BSIZE with 1024.
    generalize (16 * (2 + length files))%nat. intros m. by rewrite Nat2Z.inj_mul, Nat2Z.inj_add, Nat2Z.inj_div. }
  split; try exact (mi_room _ _ HI); try exact (mi_inode _ _ HI); try exact (mi_max _ _ HI); try exact (mi_meta _ _ HI); try exact (mi_unused _ _ HI); [done| | | |].
  - split; cbn [r_type r_bl r_ib r_data]; [|done|done| |done].
    + rewrite Hs, Hli. clearbody d. clear -F1. destruct d as [t ma mi nl sz a]. cbn [din_addrs] in *. by injection F1 as -> -> -> -> ->.
    + split.
      * by rewrite Hli, F4, Hlr, Hsz, nblk_full.
      * rewrite F4', Hli. unfold root_image. rewrite F4, Hlr, <- Hsz, Nat.sub_diag. cbn [replicate]. by rewrite app_nil_r.
  - intros [|i'] r' Hne Hr'; [done|]. by apply (mi_file _ _ HI (S i')).
  - intros i r' b Hr' Hb. destruct (Hold i r' Hr') as (r0 & H0 & E & _). rewrite <- E in Hb. by eapply (mi_own _ _ HI).
  - intros i i' r1 r2 b H1 H2 Hb1 Hb2. destruct (Hold _ _ H1) as (r3 & H3 & E3 & _). destruct (Hold _ _ H2) as (r4 & H4 & E4 & _).
    rewrite <- E3 in Hb1. rewrite <- E4 in Hb2. by eapply (mi_apart _ _ HI).
Qed.

Lemma dinode_at_bitmap V d j : 1 <= j <= 200 -> dinode_at (vset V (sb_bmapstart mksb) d) j = dinode_at V j.
Proof.
  intros Hj. destruct (iblock_range j Hj) as [Hib _]. unfold iblocks in Hib. unfold dinode_at, vset.
  rewrite decide_False by (change (sb_bmapstart mksb) with 46; lia). done.
Qed.

(** The image of the invariant, with the bitmap. *)
Lemma inv_image s files bl ib rs :
  mk_inv s (mkfrep T_DIR bl ib (root_image files) :: rs) -> Forall2 file_rep rs files -> freeblock s = nmeta + all_blocks files ->
  image_ok (vset (img s) (sb_bmapstart mksb) (set_bits (Z.to_nat (freeblock s)) zero_block)) (freeblock s) files.
Proof.
  intros HI HF Hfb. set (R := mkfrep T_DIR bl ib (root_image files) :: rs) in *. set (W := set_bits _ _). set (V := vset _ _ W).
  pose proof (rm_free _ (mi_room _ _ HI)) as Hfr. pose proof (Forall2_length _ _ _ HF) as Hl.
  assert (length R = S (length files)) as HlR by (cbn; by rewrite Hl). pose proof (mi_max _ _ HI) as Hmax.
  change nmeta with 47 in Hfr. change FSSIZE with 2000 in Hfr.
  assert (forall b, 0 <= b < FSSIZE -> bit_at V mksb b = bool_decide (b < freeblock s)) as Hbits.
  { intros b Hb. unfold V, W. rewrite bitmap_bits by lia. by rewrite Z2Nat.id by lia. }
  assert (forall b, length (V b) = Z.to_nat BSIZE) as HV.
  { intros b. apply length_vset; [apply HI|]. unfold W. by rewrite length_set_bits. }
  assert (forall i r, R !! i = Some r -> file_at V r (dinode_at V (Z.of_nat i + 1))) as Hfile.
  { intros i r Hr. pose proof (lookup_lt_Some _ _ _ Hr). unfold V. rewrite dinode_at_bitmap by lia.
    eapply file_at_frame; [|by apply HI]. intros b Hb. unfold vset. rewrite decide_False; [done|]. intros ->.
    pose proof (mi_own _ _ HI _ _ _ Hr Hb) as [Hlo _]. change nmeta with 47 in Hlo. change (sb_bmapstart mksb) with 46 in Hlo. lia. }
  assert (forall i r, R !! i = Some r -> inode_has V (Z.of_nat i + 1) (r_type r) (r_data r)) as Hhas.
  { intros i r Hr. pose proof (Hfile i r Hr) as Hf. destruct (image_bytes V HV r _ Hf) as [Hm Hd]. split; [apply Hf| |done|done].
    eapply image_file_ok; [|exact Hbits|exact Hf|intros b Hb; by eapply (mi_own _ _ HI)]. change FSSIZE with 2000. lia. }
  assert (forall b, 0 <= b < 46 -> ~ iblocks b -> V b = if decide (b = 1) then sb_block mksb else zero_block) as Hmeta.
  { intros b Hb Hni. unfold V, vset. rewrite decide_False by (change (sb_bmapstart mksb) with 46; lia).
    apply (mi_meta _ _ HI); [change nmeta with 47; lia|done]. }
  split.
  - rewrite Hmeta by (unfold iblocks; lia). by vm_compute.
  - change (2 + nlog) with 33. intros b Hb. rewrite Hmeta by (unfold iblocks; lia). by rewrite decide_False by lia.
  - split; [done|done|]. change (data_start mksb) with 47. intros b Hb. rewrite Hbits by (change FSSIZE with 2000; lia).
    apply bool_decide_eq_true_2. lia.
  - done.
  - done.
  - apply (Hhas 0%nat _ eq_refl).
  - intros k f Hk. destruct (Forall2_lookup_r _ _ _ _ _ HF Hk) as (r & Hr & Ht & Hd).
    pose proof (Hhas (S k) r Hr) as Hh. rewrite Ht, Hd in Hh. by replace (Z.of_nat k + 2) with (Z.of_nat (S k) + 1) by lia.
  - intros j j' Hj Hj' Hne. destruct (lookup_lt_is_Some_2 R (Z.to_nat (j - 1))) as [r Hr]; [lia|].
    destruct (lookup_lt_is_Some_2 R (Z.to_nat (j' - 1))) as [r' Hr']; [lia|].
    pose proof (Hfile _ _ Hr) as Hf. pose proof (Hfile _ _ Hr') as Hf'. rewrite Z2Nat.id in Hf, Hf' by lia.
    rewrite Z.sub_add in Hf, Hf'. eapply (image_disjoint V (freeblock s) HV); [change FSSIZE with 2000; lia|done|exact Hf|exact Hf'| |].
    + intros b Hb Hb'. pose proof (mi_apart _ _ HI _ _ _ _ _ Hr Hr' Hb Hb'). lia.
    + intros b Hb. by eapply (mi_own _ _ HI).
  - intros j Hj. change NINODES with 200 in Hj. unfold V. rewrite dinode_at_bitmap by lia. apply (mi_unused _ _ HI). lia.
Qed.

Lemma wp_finish s files : built s files -> ((2 + length files) `mod` 64 <> 0)%nat ->
  wp (mk_finish 1) (fun _ s' => image_ok (img s') (freeblock s') files) s.
Proof.
  intros (bl & ib & rs & HI & HF & Hfb) Hm. unfold mk_finish. wp_step. change 1 with (Z.of_nat 0 + 1) at 1.
  apply wp_rinode; [lia|]. change (Z.of_nat 0 + 1) with 1. cbv zeta. wp_step.
  change 1 with (Z.of_nat 0 + 1) at 1. eapply wp_winode; [by apply root_but_inode|]. intros s2 HI2 Hf2. do 2 wp_step.
  pose proof (rm_free _ (mi_room _ _ HI2)) as Hfr. change nmeta with 47 in Hfr. change FSSIZE with 2000 in Hfr.
  unfold mk_balloc. change BPB with 8192. rewrite (proj2 (Z.ltb_lt _ _)) by lia. cbn [negb]. wp_step.
  pose proof (inv_image s2 files bl ib rs HI2 HF (eq_trans Hf2 Hfb)) as HV. cbv beta. simpl img. simpl freeblock. exact HV.
Qed.


Definition cat_file : hostfile := (str "user/_cat", [[7; 8; 9]; [10]]).


(** When the directory's entries fill its blocks, its size is rounded to one
    block more, which has no address: reading it has the kernel allocate one. *)
Lemma mkfs_root_gap files s :
  fits files -> ((2 + length files) `mod` 64 = 0)%nat ->
  wp (mk_main files) (fun _ s' => let d := dinode_at (img s') 1 in let n := Z.of_nat (2 + length files) in
    din_size d = 16 * n + BSIZE /\ fblock (img s') (din_addrs d) (16 * n / BSIZE) = 0) s.
Proof.
  intros HF Hm. pose proof (ft_inodes _ HF) as Hn. apply wp_main_files; [done|]. clear HF s. intros s (bl & ib & rs & HI & _ & _).
  pose proof (mi_file _ _ HI 0%nat _ eq_refl) as [F1 F2 F3 [F4 _] F5]. change (Z.of_nat 0 + 1) with 1 in *. cbn [r_type r_bl r_ib r_data] in *.
  set (d := dinode_at (img s) 1) in *. pose proof (length_root_bytes files) as Hlr. set (n := (2 + length files)%nat) in *.
  assert (exists q, n = 64 * q)%nat as [q Hq] by (exists (n / 64)%nat; pose proof (Nat.div_mod_eq n 64); lia).
  assert (length bl = q) as Hb by (rewrite F4, Hlr, Hq; replace (16 * (64 * q))%nat with (1024 * q)%nat by lia; apply nblk_full).
  assert (din_size d = Z.of_nat (1024 * q)) as Hs by (apply (f_equal din_size) in F1; cbn [din_size] in F1; rewrite F1, Hlr; lia).
  pose proof (file_inode_fits _ _ _ (mi_file _ _ HI 0%nat _ eq_refl)) as Hfit. change (Z.of_nat 0 + 1) with 1 in Hfit. fold d in Hfit.
  set (d' := d <| din_size := (din_size d / BSIZE + 1) * BSIZE |>).
  assert (din_size d' = 16 * Z.of_nat n + BSIZE) as Hs'.
  { change (din_size d') with ((din_size d / BSIZE + 1) * BSIZE). rewrite Hs. change BSIZE with 1024. Z.div_mod_to_equations. lia. }
  assert (inode_fits (to_inode d')) as Hfit'.
  { destruct Hfit. split; try done. change (i_size (to_inode d')) with (din_size d'). rewrite Hs'. change BSIZE with 1024. lia. }
  unfold mk_finish. wp_step. change 1 with (Z.of_nat 0 + 1) at 1. apply wp_rinode; [lia|]. change (Z.of_nat 0 + 1) with 1. fold d. cbv zeta. fold d'.
  pose proof (rm_free _ (mi_room _ _ HI)) as Hfr. change nmeta with 47 in Hfr. change FSSIZE with 2000 in Hfr.
  unfold winode. cbv zeta. do 2 wp_step. apply wp_rsect; [by vm_compute|]. do 4 wp_step.
  unfold mk_balloc. change BPB with 8192. simpl freeblock. rewrite (proj2 (Z.ltb_lt _ _)) by lia. cbn [negb]. wp_step.
  match goal with |- context [set_bits ?n ?z] => set (W := set_bits n z) end.
  set (V2 := vset (vset (img s) (IBLOCK 1 mksb) (put_dinode (to_inode d') (dip_off 1) (img s (IBLOCK 1 mksb)))) (sb_bmapstart mksb) W).
  assert (din_size (dinode_at V2 1) = 16 * Z.of_nat n + BSIZE /\ fblock V2 (din_addrs (dinode_at V2 1)) (16 * Z.of_nat n / BSIZE) = 0); [|done].
  unfold V2. rewrite dinode_at_bitmap, dinode_at_same by (done || lia || apply HI). split; [done|].
  change (din_addrs d') with (din_addrs d). replace (16 * Z.of_nat n / BSIZE) with (Z.of_nat q) by (change BSIZE with 1024; Z.div_mod_to_equations; lia).
  rewrite (shape_fblock _ _ bl ib); [by rewrite Nat2Z.id, nth_overflow by lia| |change MAXFILE with 268; lia].
  eapply shape_frame; [|exact F3]. intros Hi. assert (nmeta <= ib) as Ho by (apply (mi_own _ _ HI 0%nat _ ib eq_refl), elem_own; by right).
  change nmeta with 47 in Ho. unfold vset. change (sb_bmapstart mksb) with 46. change (IBLOCK 1 mksb) with 33. by rewrite !decide_False by lia.
Qed.
