(* ===== verification/Uprintf.v ===== *)
(** * user/printf.c: the formatted output of the user programs

    The state is the sequence of bytes written, each with its descriptor.  The
    buffer of [printint] has the twenty bytes of the source: a store outside
    it and a read of a byte that was never stored end the run, as does a
    conversion without a fitting argument.  The numbers are proved to fit the
    buffer ([uprintint_bounds]), and the state machine of [vprintf] to print
    what the items of the format stand for ([vprintf_renders]). *)

From S2P Require Import Prelude CMem Riscv Kalloc Vm KState Sched Printf.
From Stdlib Require Import Ascii.

Abbreviation output := (list (Z * Z)).

Definition udigits : list Z := str "0123456789ABCDEF".

(** [write(fd, &c, 1)]; the result is ignored. *)
Definition putc (fd c : Z) : M output unit := modify (fun o => o ++ [(fd, u8 c)]).

(** ** printint *)

(** [buf[i] = c] for [char buf[20]]. *)
Definition buf_put (buf : list (option Z)) (i c : Z) : M output (list (option Z)) :=
  if (0 <=? i) && (i <? Z.of_nat (length buf)) then mret (<[Z.to_nat i := Some c]> buf) else panic "printint: buf".

Definition buf_get (buf : list (option Z)) (i : Z) : M output Z :=
  match buf !! Z.to_nat i with Some (Some c) => mret c | _ => panic "printint: buf" end.

(** One round of the do-while loop. *)
Definition digit_round (base : Z) : list (option Z) * Z * Z -> M output (list (option Z) * Z * Z + list (option Z) * Z) :=
  fun '(buf, i, x) =>
    buf ← buf_put buf i (nth (Z.to_nat (x `mod` base)) udigits 0);
    let x := x / base in
    if negb (x =? 0) then mret (inl (buf, i + 1, x)) else mret (inr (buf, i + 1)).

(** [while(--i >= 0) putc(fd, buf[i]);] *)
Definition put_round (fd : Z) (buf : list (option Z)) (i : Z) : M output (Z + unit) :=
  let i := i - 1 in
  if 0 <=? i then c ← buf_get buf i; putc fd c;; mret (inl i) else mret (inr tt).

Definition uprintint (fd xx base : Z) (sgn : bool) : M output unit :=
  let neg := sgn && (xx <? 0) in
  let x := if neg then u64 (- xx) else u64 xx in
  r ← loop (digit_round base) (replicate 20 None, 0, x);
  let '(buf, i) := (r : list (option Z) * Z) in
  r ← (if neg then buf ← buf_put buf i (chr "-"); mret (buf, i + 1) else mret (buf, i));
  let '(buf, i) := (r : list (option Z) * Z) in
  loop (put_round fd buf) i.

(** [for(i = 0; i < 16; i++, x <<= 4) putc(fd, digits[x >> 60]);] *)
Fixpoint uptr_loop (n : nat) (fd x : Z) : M output unit :=
  match n with
  | O => mret tt
  | S n' => putc fd (nth (Z.to_nat (x / 2 ^ 60)) udigits 0);; uptr_loop n' fd (u64 (x * 2 ^ 4))
  end.

Definition uprintptr (fd x : Z) : M output unit :=
  putc fd (chr "0");; putc fd (chr "x");; uptr_loop 16 fd x.

(** ** vprintf *)

(** [va_arg(ap, ...)]: the next argument, and the rest. *)
Definition va_num (ap : list arg) : M output (Z * list arg) :=
  match ap with Anum x :: ap' => mret (x, ap') | _ => panic "va_arg" end.

Definition va_str (ap : list arg) : M output (list Z * list arg) :=
  match ap with
  | Astr s :: ap' => mret (s, ap')
  | Anull :: ap' => mret (str "(null)", ap')
  | _ => panic "va_arg"
  end.

Fixpoint puts (fd : Z) (s : list Z) : M output unit :=
  match s with [] => mret tt | c :: s' => putc fd c;; puts fd s' end.

(** A conversion: how many characters it uses beyond the first, and the arguments that are left. *)
Definition vconv (fd c0 c1 c2 : Z) (ap : list arg) : M output (Z * list arg) :=
  let int (conv : Z -> Z) base sgn k :=
    r ← va_num ap; uprintint fd (conv r.1) base sgn;; mret (k, r.2) in
  if c0 =? chr "d" then int i32 10 true 0
  else if (c0 =? chr "l") && (c1 =? chr "d") then int i64 10 true 1
  else if (c0 =? chr "l") && (c1 =? chr "l") && (c2 =? chr "d") then int i64 10 true 2
  else if c0 =? chr "u" then int u32 10 false 0
  else if (c0 =? chr "l") && (c1 =? chr "u") then int i64 10 false 1
  else if (c0 =? chr "l") && (c1 =? chr "l") && (c2 =? chr "u") then int i64 10 false 2
  else if c0 =? chr "x" then int u32 16 false 0
  else if (c0 =? chr "l") && (c1 =? chr "x") then int i64 16 false 1
  else if (c0 =? chr "l") && (c1 =? chr "l") && (c2 =? chr "x") then int i64 16 false 2
  else if c0 =? chr "p" then r ← va_num ap; uprintptr fd (u64 r.1);; mret (0, r.2)
  else if c0 =? chr "c" then r ← va_num ap; putc fd (u32 r.1);; mret (0, r.2)
  else if c0 =? chr "s" then r ← va_str ap; puts fd r.1;; mret (0, r.2)
  else if c0 =? chr "%" then putc fd (chr "%");; mret (0, ap)
  else putc fd (chr "%");; putc fd c0;; mret (0, ap).

Definition fmt_at (fmt : list Z) (i : Z) : Z := nth (Z.to_nat i) fmt 0.

(** One round of the loop over the format, with [state]. *)
Definition vprintf_round (fd : Z) (fmt : list Z) : Z * Z * list arg -> M output (Z * Z * list arg + unit) :=
  fun '(i, state, ap) =>
    let c0 := fmt_at fmt i in
    if c0 =? 0 then mret (inr tt)
    else if state =? 0 then
      if c0 =? chr "%" then mret (inl (i + 1, chr "%", ap))
      else putc fd c0;; mret (inl (i + 1, state, ap))
    else
      let c1 := fmt_at fmt (i + 1) in
      let c2 := if c1 =? 0 then 0 else fmt_at fmt (i + 2) in
      r ← vconv fd c0 c1 c2 ap;
      mret (inl (i + r.1 + 1, 0, r.2)).

Definition vprintf (fd : Z) (fmt : list Z) (ap : list arg) : M output unit := loop (vprintf_round fd fmt) (0, 0, ap).

Definition ufprintf (fd : Z) (fmt : list Z) (ap : list arg) : M output unit := vprintf fd fmt ap.
Definition uprintf (fmt : list Z) (ap : list arg) : M output unit := vprintf 1 fmt ap.

(** ** What is printed *)

(** The digits of a number, the most significant one first. *)
Definition numeral (base x : Z) : list Z := reverse ((fun d => nth (Z.to_nat d) udigits 0) <$> int_digits 64 x base).

Definition num_text (base xx : Z) : list Z :=
  if xx <? 0 then chr "-" :: numeral base (- xx) else numeral base xx.

Definition put_text (fd : Z) (cs : list Z) : output := (fun c => (fd, u8 c)) <$> cs.

(** ** printint stays within its buffer *)

(** The buffer after [ds] was stored. *)
Definition buf_of (ds : list Z) : list (option Z) := (Some <$> ds) ++ replicate (20 - length ds) None.

Lemma wp_buf_put (Q : list (option Z) -> output -> Prop) ds c o :
  (length ds < 20)%nat -> Q (buf_of (ds ++ [c])) o -> wp (buf_put (buf_of ds) (Z.of_nat (length ds)) c) Q o.
Proof.
  intros Hl HQ. assert (length (buf_of ds) = 20%nat) as Hb by (unfold buf_of; rewrite length_app, length_fmap, length_replicate; lia).
  unfold buf_put. rewrite Hb, (proj2 (Z.leb_le _ _)), (proj2 (Z.ltb_lt _ _)) by lia. cbn [andb]. wp_step.
  rewrite Nat2Z.id. replace (<[length ds := Some c]> (buf_of ds)) with (buf_of (ds ++ [c])); [done|].
  pose proof (insert_app_r (Some <$> ds) (replicate (20 - length ds) None) 0 (Some c)) as E.
  rewrite length_fmap, Nat.add_0_r in E. unfold buf_of. rewrite E, fmap_app, <- (assoc_L (++)), length_app. f_equal. cbn [length].
  replace (20 - length ds)%nat with (S (20 - (length ds + 1)))%nat by lia. done.
Qed.

Lemma wp_digits base ds x f all o (Q : list (option Z) * Z -> output -> Prop) :
  2 <= base -> 0 <= x < 2 ^ Z.of_nat f -> (0 < f <= 64)%nat ->
  ds ++ ((fun d => nth (Z.to_nat d) udigits 0) <$> int_digits f x base) = all ->
  (length all <= 20)%nat -> Q (buf_of all, Z.of_nat (length all)) o ->
  wp (loop (digit_round base) (buf_of ds, Z.of_nat (length ds), x)) Q o.
Proof.
  intros Hb Hx Hf Ha Hl HQ.
  apply (wp_loop (fun n '(buf, i, x) s => exists ds f, n = Z.of_nat f /\ (0 < f)%nat /\ buf = buf_of ds /\ i = Z.of_nat (length ds) /\
    0 <= x < 2 ^ Z.of_nat f /\ ds ++ ((fun d => nth (Z.to_nat d) udigits 0) <$> int_digits f x base) = all /\ s = o)
    (digit_round base) Q (Z.of_nat f)).
  - clear ds x f Hx Hf Ha. intros n [[buf i] x] s (ds & f & -> & Hf & -> & -> & Hx & Ha & ->). split; [lia|].
    destruct f as [|f]; [lia|]. cbn [int_digits fmap list_fmap] in Ha. unfold digit_round.
    set (c := nth (Z.to_nat (x `mod` base)) udigits 0) in *. pose proof (f_equal length Ha) as Hla. rewrite length_app in Hla. cbn [length] in Hla.
    wp_step. apply wp_buf_put; [lia|]. destruct (Z.eqb_spec (x / base) 0) as [E|E]; cbn [negb].
    + wp_step. cbn [fmap list_fmap] in Ha. rewrite Ha. replace (Z.of_nat (length ds) + 1) with (Z.of_nat (length all)); [done|].
      rewrite <- Ha, length_app. cbn [length]. lia.
    + wp_step. exists (Z.of_nat f). split; [lia|]. exists (ds ++ [c]), f.
      assert (0 <= x / base < 2 ^ Z.of_nat f) as Hx'.
      { split; [apply Z.div_pos; lia|]. apply Z.div_lt_upper_bound; [lia|]. rewrite Nat2Z.inj_succ, Z.pow_succ_r in Hx by lia. nia. }
      split_and!; try done; try apply Hx'.
      * destruct f; [simpl in Hx'; lia|lia].
      * rewrite length_app. cbn [length]. lia.
      * rewrite <- (assoc_L (++)). exact Ha.
  - lia.
  - exists ds, f. split_and!; try done; lia.
Qed.

Lemma wp_put_back fd ds o (Q : unit -> output -> Prop) :
  (length ds <= 20)%nat -> Q tt (o ++ put_text fd (reverse ds)) -> wp (loop (put_round fd (buf_of ds)) (Z.of_nat (length ds))) Q o.
Proof.
  intros Hl HQ.
  apply (wp_loop (fun n i s => exists k, n = Z.of_nat k + 1 /\ i = Z.of_nat k /\ (k <= length ds)%nat /\
    s = o ++ put_text fd (reverse (drop k ds))) (put_round fd (buf_of ds)) Q (Z.of_nat (length ds) + 1)).
  - intros n i s (k & -> & -> & Hk & ->). split; [lia|]. unfold put_round. cbv zeta. destruct k as [|k].
    + change (0 <=? Z.of_nat 0 - 1) with false. cbv iota. wp_step. by rewrite drop_0.
    + rewrite (proj2 (Z.leb_le _ _)) by lia. destruct (lookup_lt_is_Some_2 ds k) as [c Hc]; [lia|].
      wp_step. unfold buf_get. replace (Z.to_nat (Z.of_nat (S k) - 1)) with k by lia.
      unfold buf_of. rewrite lookup_app_l by (rewrite length_fmap; lia). rewrite list_lookup_fmap, Hc. cbn [fmap option_fmap option_map].
      wp_step. unfold putc. do 3 wp_step. exists (Z.of_nat k + 1). split; [lia|]. exists k. split_and!; [done|lia|lia|].
      rewrite (drop_S _ _ _ Hc), reverse_cons. unfold put_text. by rewrite fmap_app, (assoc_L (++)).
  - lia.
  - exists (length ds). rewrite drop_all. unfold put_text. cbn. rewrite app_nil_r. split_and!; done.
Qed.

(** A number below [base ^ k] has at most [k] digits. *)
Lemma int_digits_length f x base k :
  2 <= base -> 0 <= x < base ^ Z.of_nat (S k) -> (length (int_digits f x base) <= S k)%nat.
Proof.
  intros Hb. revert x k. induction f as [|f IH]; intros x k Hx; cbn [int_digits length]; [lia|].
  destruct (Z.eqb_spec (x / base) 0) as [E|E]; cbn [length]; [lia|]. rewrite Nat2Z.inj_succ, Z.pow_succ_r in Hx by lia.
  assert (0 <= x / base < base ^ Z.of_nat k) as Hx' by (split; [apply Z.div_pos|apply Z.div_lt_upper_bound]; lia).
  destruct k as [|k]; [simpl in Hx'; lia|]. specialize (IH _ k Hx'). lia.
Qed.

(** The number that is printed. *)
Definition num_of (xx : Z) (sgn : bool) : Z := if sgn then xx else u64 xx.

Lemma wp_uprintint fd xx base sgn o (Q : unit -> output -> Prop) :
  2 <= base -> - 2 ^ 63 <= xx < 2 ^ 63 -> (length (num_text base (num_of xx sgn)) <= 20)%nat ->
  Q tt (o ++ put_text fd (num_text base (num_of xx sgn))) -> wp (uprintint fd xx base sgn) Q o.
Proof.
  intros Hb Hx Hl HQ. unfold uprintint. cbv zeta.
  set (neg := sgn && (xx <? 0)). set (x := if neg then u64 (- xx) else u64 xx).
  assert (0 <= x < 2 ^ 64) as Hx64 by (unfold x, u64; destruct neg; apply Z.mod_pos_bound; lia).
  set (ds := (fun d => nth (Z.to_nat d) udigits 0) <$> int_digits 64 x base).
  assert (num_text base (num_of xx sgn) = reverse (ds ++ if neg then [chr "-"] else [])) as Et.
  { unfold num_text, num_of, numeral, ds, x, neg. destruct sgn; cbn [andb].
    - destruct (Z.ltb_spec xx 0) as [Hn|Hn].
      + rewrite reverse_snoc. unfold u64. by rewrite Z.mod_small by lia.
      + rewrite app_nil_r. unfold u64. by rewrite Z.mod_small by lia.
    - rewrite app_nil_r. assert (0 <= u64 xx) by (unfold u64; apply Z.mod_pos_bound; lia).
      by rewrite (proj2 (Z.ltb_ge _ _)) by done. }
  rewrite Et in *. rewrite length_reverse, length_app in Hl.
  wp_step. apply (wp_digits base [] x 64 ds); [done|done|lia|done|lia|].
  wp_step. destruct neg.
  - cbn [length] in Hl. wp_step. apply wp_buf_put; [lia|]. wp_step.
    replace (Z.of_nat (length ds) + 1) with (Z.of_nat (length (ds ++ [chr "-"]))) by (rewrite length_app; cbn [length]; lia).
    apply wp_put_back; [rewrite length_app; cbn [length]; lia|done].
  - wp_step. apply wp_put_back; [lia|]. by rewrite app_nil_r in HQ.
Qed.

(** The numeral denotes the number. *)
Definition udigit_val (c : Z) : Z := if c <=? 57 then c - 48 else c - 55.

Definition uparse (base : Z) (cs : list Z) : Z :=
  match cs with
  | c :: cs' => if c =? chr "-" then - digits_value base (udigit_val <$> reverse cs')
                else digits_value base (udigit_val <$> reverse cs)
  | [] => 0
  end.

Lemma udigit_spec d : 0 <= d < 16 ->
  udigit_val (nth (Z.to_nat d) udigits 0) = d /\ nth (Z.to_nat d) udigits 0 <> chr "-".
Proof.
  intros Hd. assert (Forall (fun d => udigit_val (nth (Z.to_nat d) udigits 0) = d /\ nth (Z.to_nat d) udigits 0 <> chr "-") (seqZ 0 16)) as HF.
  { apply (bool_decide_unpack _). vm_compute. exact I. }
  rewrite Forall_forall in HF. apply HF, elem_of_seqZ. lia.
Qed.

Lemma numeral_spec base x : 2 <= base <= 16 -> 0 <= x < 2 ^ 64 ->
  digits_value base (udigit_val <$> reverse (numeral base x)) = x /\ Forall (fun c => c <> chr "-") (numeral base x) /\ numeral base x <> [].
Proof.
  intros Hb Hx. unfold numeral. rewrite reverse_involutive. destruct (int_digits_value 64 x base) as [Hv HF]; [lia|done|].
  split_and!.
  - rewrite <- list_fmap_compose. rewrite <- Hv at 2. f_equal. rewrite <- (list_fmap_id (int_digits 64 x base)) at 2.
    apply list_fmap_ext. intros i d Hd. rewrite Forall_lookup in HF. specialize (HF _ _ Hd). exact (proj1 (udigit_spec d ltac:(lia))).
  - apply Forall_forall. intros c Hc. rewrite elem_of_reverse in Hc. apply list_elem_of_fmap in Hc as (d & -> & Hd).
    rewrite Forall_forall in HF. specialize (HF _ Hd). apply udigit_spec. lia.
  - intros E%(f_equal length). rewrite length_reverse, length_fmap in E. cbn [int_digits length] in E. lia.
Qed.

Lemma uparse_num base xx : 2 <= base <= 16 -> - 2 ^ 63 <= xx < 2 ^ 64 -> uparse base (num_text base xx) = xx.
Proof.
  intros Hb Hx. unfold num_text. destruct (Z.ltb_spec xx 0).
  - destruct (numeral_spec base (- xx)) as (Hv & _ & _); [done|lia|]. unfold uparse. rewrite Z.eqb_refl. lia.
  - destruct (numeral_spec base xx) as (Hv & HF & Hne); [done|lia|]. unfold uparse. destruct (numeral base xx) as [|c cs]; [done|].
    apply Forall_cons in HF as [Hc _]. by rewrite (proj2 (Z.eqb_neq _ _) Hc).
Qed.

Lemma num_text_length base xx : base = 10 \/ base = 16 -> - 2 ^ 63 <= xx < 2 ^ 64 -> (length (num_text base xx) <= 20)%nat.
Proof.
  intros Hb Hx. assert (10 <= base) as Hb2 by lia. unfold num_text, numeral.
  destruct (Z.ltb_spec xx 0); cbn [length]; rewrite length_reverse, length_fmap.
  - pose proof (int_digits_length 64 (- xx) base 18 ltac:(lia)). destruct Hb as [-> | ->]; lia.
  - pose proof (int_digits_length 64 xx base 19 ltac:(lia)). destruct Hb as [-> | ->]; lia.
Qed.

(** C29: [printint] never leaves its buffer of twenty bytes: for every 64-bit
    number, signed or unsigned, in the two bases that are used, it stores only
    inside the buffer, reads only what it stored, and prints a text of at most
    twenty characters that denotes the number.  The bound is reached, by the
    smallest signed and by the largest unsigned number. *)
Theorem uprintint_bounds fd xx base sgn o :
  base = 10 \/ base = 16 -> - 2 ^ 63 <= xx < 2 ^ 63 ->
  wp (uprintint fd xx base sgn) (fun _ o' => exists cs, o' = o ++ put_text fd cs /\ (length cs <= 20)%nat /\
    uparse base cs = num_of xx sgn) o.
Proof.
  intros Hb Hx. assert (- 2 ^ 63 <= num_of xx sgn < 2 ^ 64) as Hn.
  { unfold num_of. destruct sgn; [lia|]. pose proof (Z.mod_pos_bound xx (2 ^ 64) ltac:(lia)). unfold u64. lia. }
  apply wp_uprintint; [lia|done|by apply num_text_length|].
  exists (num_text base (num_of xx sgn)). split_and!; [done|by apply num_text_length|]. apply uparse_num; [lia|done].
Qed.

Lemma uprintint_bounds_witness :
  wp (uprintint 1 (- 2 ^ 63) 10 true) (fun _ o' => exists cs, o' = [] ++ put_text 1 cs /\ (length cs <= 20)%nat /\
    uparse 10 cs = num_of (- 2 ^ 63) true) [].
Proof. apply uprintint_bounds; [by left|split; [discriminate|reflexivity]]. Defined.

Lemma uprintint_bound_reached :
  length (num_text 10 (- 2 ^ 63)) = 20%nat /\ length (num_text 10 (2 ^ 64 - 1)) = 20%nat.
Proof. by vm_compute. Qed.

(** In base eight it would not fit. *)
Lemma uprintint_octal : uprintint 1 (-1) 8 false [] = Panic "printint: buf".
Proof. by vm_compute. Qed.

(** ** The language of formats *)

(** A conversion with its value; [l] counts the letters l. *)
Inductive conv :=
  | Vint (l : nat) (x : Z)
  | Vuint (l : nat) (x : Z)
  | Vhex (l : nat) (x : Z)
  | Vptr (x : Z)
  | Vchr (c : Z)
  | Vstr (s : option (list Z))
  | Vpct
  | Vunknown (c : Z).

Inductive item := Lit (c : Z) | Conv (v : conv).

(** What the conversion looks like behind the percent sign, the arguments it
    takes, and the text it stands for. *)
Definition conv_fmt (v : conv) : list Z :=
  match v with
  | Vint l _ => replicate l (chr "l") ++ [chr "d"]
  | Vuint l _ => replicate l (chr "l") ++ [chr "u"]
  | Vhex l _ => replicate l (chr "l") ++ [chr "x"]
  | Vptr _ => [chr "p"]
  | Vchr _ => [chr "c"]
  | Vstr _ => [chr "s"]
  | Vpct => [chr "%"]
  | Vunknown c => [c]
  end.

Definition conv_args (v : conv) : list arg :=
  match v with
  | Vint _ x | Vuint _ x | Vhex _ x | Vptr x | Vchr x => [Anum x]
  | Vstr (Some s) => [Astr s]
  | Vstr None => [Anull]
  | Vpct | Vunknown _ => []
  end.

Definition ptr_text (x : Z) : list Z :=
  [chr "0"; chr "x"] ++ ((fun i : nat => nth (Z.to_nat ((x / 2 ^ (60 - 4 * Z.of_nat i)) `mod` 16)) udigits 0) <$> seq 0 16).

Definition conv_text (v : conv) : list Z :=
  match v with
  | Vint _ x | Vuint _ x => num_text 10 x
  | Vhex _ x => num_text 16 x
  | Vptr x => ptr_text x
  | Vchr c => [c]
  | Vstr s => default (str "(null)") s
  | Vpct => [chr "%"]
  | Vunknown c => [chr "%"; c]
  end.

(** The values fit the types of the conversions, and the letters are told apart. *)
Definition conv_ok (v : conv) : Prop :=
  match v with
  | Vint l x => (l <= 2)%nat /\ if decide (l = 0%nat) then - 2 ^ 31 <= x < 2 ^ 31 else - 2 ^ 63 <= x < 2 ^ 63
  | Vuint l x | Vhex l x => (l <= 2)%nat /\ 0 <= x < if decide (l = 0%nat) then 2 ^ 32 else 2 ^ 64
  | Vptr x => 0 <= x < 2 ^ 64
  | Vchr c => 0 <= c < 2 ^ 8
  | Vunknown c => c <> 0 /\ c ∉ str "dluxpcs%"
  | Vstr _ | Vpct => True
  end.

Definition item_fmt (it : item) : list Z := match it with Lit c => [c] | Conv v => chr "%" :: conv_fmt v end.
Definition item_args (it : item) : list arg := match it with Lit _ => [] | Conv v => conv_args v end.
Definition item_text (it : item) : list Z := match it with Lit c => [c] | Conv v => conv_text v end.
Definition item_ok (it : item) : Prop := match it with Lit c => c <> 0 /\ c <> chr "%" | Conv v => conv_ok v end.

Lemma wp_putc fd c (Q : unit -> output -> Prop) o : Q tt (o ++ put_text fd [c]) -> wp (putc fd c) Q o.
Proof. intros HQ. unfold putc. by wp_step. Qed.

Lemma put_text_app fd a b : put_text fd (a ++ b) = put_text fd a ++ put_text fd b.
Proof. apply fmap_app. Qed.

Lemma wp_puts fd s (Q : unit -> output -> Prop) o : Q tt (o ++ put_text fd s) -> wp (puts fd s) Q o.
Proof.
  revert o. induction s as [|c s IH]; intros o HQ; cbn [puts].
  - wp_step. by rewrite app_nil_r in HQ.
  - wp_step. apply wp_putc, IH. by rewrite <- (assoc_L (++)), <- put_text_app.
Qed.

Lemma wp_uptr_loop n fd x k (Q : unit -> output -> Prop) o :
  0 <= x < 2 ^ 64 -> (k + n = 16)%nat ->
  Q tt (o ++ put_text fd ((fun i : nat => nth (Z.to_nat ((x / 2 ^ (60 - 4 * Z.of_nat i)) `mod` 16)) udigits 0) <$> seq k n)) ->
  wp (uptr_loop n fd (u64 (x * 2 ^ (4 * Z.of_nat k)))) Q o.
Proof.
  intros Hx. revert k o. induction n as [|n IH]; intros k o Hk HQ; cbn [uptr_loop seq fmap list_fmap] in *.
  - wp_step. by rewrite app_nil_r in HQ.
  - assert (u64 (x * 2 ^ (4 * Z.of_nat k)) / 2 ^ 60 = (x / 2 ^ (60 - 4 * Z.of_nat k)) `mod` 16) as Ed.
    { unfold u64. replace (2 ^ 64) with (2 ^ (64 - 4 * Z.of_nat k) * 2 ^ (4 * Z.of_nat k)) by (rewrite <- Z.pow_add_r by lia; f_equal; lia).
      rewrite Z.mul_mod_distr_r by lia.
      replace (2 ^ 60) with (2 ^ (60 - 4 * Z.of_nat k) * 2 ^ (4 * Z.of_nat k)) by (rewrite <- Z.pow_add_r by lia; f_equal; lia).
      rewrite Z.div_mul_cancel_r by lia.
      replace (64 - 4 * Z.of_nat k) with ((60 - 4 * Z.of_nat k) + 4) by lia. rewrite Z.pow_add_r by lia.
      rewrite Z.rem_mul_r, (Z.mul_comm (2 ^ _) (_ `mod` _)), Z.div_add by lia. rewrite (Z.div_small (_ `mod` _)) by (apply Z.mod_pos_bound; lia). done. }
    wp_step. rewrite Ed. apply wp_putc.
    replace (u64 (u64 (x * 2 ^ (4 * Z.of_nat k)) * 2 ^ 4)) with (u64 (x * 2 ^ (4 * Z.of_nat (S k)))).
    + apply IH; [lia|]. rewrite <- (assoc_L (++)), <- put_text_app. exact HQ.
    + unfold u64. rewrite Zmult_mod_idemp_l. f_equal. rewrite <- Z.mul_assoc, <- Z.pow_add_r by lia. do 2 f_equal. lia.
Qed.

Lemma fit_i32 x : - 2 ^ 31 <= x < 2 ^ 31 -> i32 x = x.
Proof. intros H. unfold i32. rewrite Z.mod_small; lia. Qed.

Lemma fit_i64 x : - 2 ^ 63 <= x < 2 ^ 63 -> i64 x = x.
Proof. intros H. unfold i64. rewrite Z.mod_small; lia. Qed.

Lemma i64_bounds x : - 2 ^ 63 <= i64 x < 2 ^ 63.
Proof. unfold i64. pose proof (Z.mod_pos_bound (x + 2 ^ 63) (2 ^ 64) ltac:(lia)). lia. Qed.

Lemma u64_i64 x : 0 <= x < 2 ^ 64 -> u64 (i64 x) = x.
Proof.
  intros Hx. unfold u64, i64. rewrite Zminus_mod_idemp_l. replace (x + 2 ^ 63 - 2 ^ 63) with x by lia. by apply Z.mod_small.
Qed.

Lemma fit_u32 x : 0 <= x < 2 ^ 32 -> u32 x = x.
Proof. apply Z.mod_small. Qed.

Lemma fit_u32_u64 x : 0 <= x < 2 ^ 32 -> num_of (u32 x) false = x.
Proof. intros H. unfold num_of, u64. rewrite fit_u32 by done. apply Z.mod_small. lia. Qed.

(** A number in the notation of one of the nine conversions. *)
Lemma wp_int fd (f : Z -> Z) x base sgn k ap o v (Q : Z * list arg -> output -> Prop) :
  base = 10 \/ base = 16 -> - 2 ^ 63 <= f x < 2 ^ 63 -> num_of (f x) sgn = v -> Q (k, ap) (o ++ put_text fd (num_text base v)) ->
  wp (r ← va_num (Anum x :: ap); uprintint fd (f r.1) base sgn;; mret (k, r.2)) Q o.
Proof.
  intros Hb Hf Hv HQ. cbn [va_num]. apply wp_bind, wp_ret. cbn [fst snd]. apply wp_bind, wp_uprintint; [lia|exact Hf| |].
  - apply num_text_length; [done|]. unfold num_of. destruct sgn; [lia|]. pose proof (Z.mod_pos_bound (f x) (2 ^ 64) ltac:(lia)). unfold u64. lia.
  - apply wp_ret. rewrite Hv. exact HQ.
Qed.

(** The first characters of a conversion decide it. *)
Lemma wp_vconv fd v rest ap o (Q : Z * list arg -> output -> Prop) :
  conv_ok v -> let f := conv_fmt v ++ rest in
  Q (Z.of_nat (length (conv_fmt v)) - 1, ap) (o ++ put_text fd (conv_text v)) ->
  wp (vconv fd (nth 0 f 0) (nth 1 f 0) (nth 2 f 0) (conv_args v ++ ap)) Q o.
Proof.
  intros Hok f HQ. unfold f. destruct v as [l x|l x|l x|x|c|s| |c]; cbn [conv_ok] in Hok.
  - destruct Hok as [Hl Hx]. destruct l as [|[|[|l]]]; [| | |lia]; simpl in Hx.
    + apply (wp_int fd i32 x 10 true 0 ap o x); [by left|rewrite fit_i32; lia|by apply fit_i32|exact HQ].
    + apply (wp_int fd i64 x 10 true 1 ap o x); [by left|apply i64_bounds|by apply fit_i64|exact HQ].
    + apply (wp_int fd i64 x 10 true 2 ap o x); [by left|apply i64_bounds|by apply fit_i64|exact HQ].
  - destruct Hok as [Hl Hx]. destruct l as [|[|[|l]]]; [| | |lia]; simpl in Hx.
    + apply (wp_int fd u32 x 10 false 0 ap o x); [by left|rewrite fit_u32; lia|by apply fit_u32_u64|exact HQ].
    + apply (wp_int fd i64 x 10 false 1 ap o x); [by left|apply i64_bounds|by apply u64_i64|exact HQ].
    + apply (wp_int fd i64 x 10 false 2 ap o x); [by left|apply i64_bounds|by apply u64_i64|exact HQ].
  - destruct Hok as [Hl Hx]. destruct l as [|[|[|l]]]; [| | |lia]; simpl in Hx.
    + apply (wp_int fd u32 x 16 false 0 ap o x); [by right|rewrite fit_u32; lia|by apply fit_u32_u64|exact HQ].
    + apply (wp_int fd i64 x 16 false 1 ap o x); [by right|apply i64_bounds|by apply u64_i64|exact HQ].
    + apply (wp_int fd i64 x 16 false 2 ap o x); [by right|apply i64_bounds|by apply u64_i64|exact HQ].
  - change (wp (r ← va_num (Anum x :: ap); uprintptr fd (u64 r.1);; mret (0, r.2)) Q o). cbn [va_num].
    apply wp_bind, wp_ret. cbn [fst snd]. apply wp_bind. unfold uprintptr. apply wp_bind, wp_putc, wp_bind, wp_putc.
    replace (u64 x) with (u64 (x * 2 ^ (4 * Z.of_nat 0))) by (by rewrite Z.mul_1_r). apply wp_uptr_loop; [done|done|].
    apply wp_ret. rewrite <- !(assoc_L (++)), <- !put_text_app. exact HQ.
  - change (wp (r ← va_num (Anum c :: ap); putc fd (u32 r.1);; mret (0, r.2)) Q o). cbn [va_num].
    apply wp_bind, wp_ret. cbn [fst snd]. apply wp_bind, wp_putc, wp_ret. rewrite fit_u32 by lia. exact HQ.
  - destruct s as [s|].
    + change (wp (r ← va_str (Astr s :: ap); puts fd r.1;; mret (0, r.2)) Q o). cbn [va_str].
      apply wp_bind, wp_ret. cbn [fst snd]. apply wp_bind, wp_puts, wp_ret. exact HQ.
    + change (wp (r ← va_str (Anull :: ap); puts fd r.1;; mret (0, r.2)) Q o). cbn [va_str].
      apply wp_bind, wp_ret. cbn [fst snd]. apply wp_bind, wp_puts, wp_ret. exact HQ.
  - change (wp (putc fd (chr "%");; mret (0, ap)) Q o). apply wp_bind, wp_putc, wp_ret. exact HQ.
  - destruct Hok as [Hz Hc]. cbn [conv_fmt app nth conv_args]. unfold vconv.
    assert (forall d, d ∈ str "dluxpcs%" -> (c =? d) = false) as Hd by (intros d Hd; apply Z.eqb_neq; intros ->; done).
    rewrite !(Hd (chr _)) by (apply (bool_decide_unpack _); vm_compute; exact I). cbn [andb].
    apply wp_bind, wp_putc, wp_bind, wp_putc, wp_ret. rewrite <- (assoc_L (++)), <- put_text_app. exact HQ.
Qed.

Lemma fmt_at_drop fmt (i k : nat) : fmt_at fmt (Z.of_nat i + Z.of_nat k) = nth k (drop i fmt) 0.
Proof. unfold fmt_at. rewrite !nth_lookup, lookup_drop. do 2 f_equal. lia. Qed.

Lemma fmt_at_here fmt (i : nat) : fmt_at fmt (Z.of_nat i) = nth 0 (drop i fmt) 0.
Proof. rewrite <- fmt_at_drop. f_equal. lia. Qed.

Lemma conv_fmt_chars v : conv_ok v -> Forall (fun c => c <> 0) (conv_fmt v) /\ conv_fmt v <> [].
Proof.
  intros Hok. destruct v as [l x|l x|l x|x|c|s| |c]; cbn [conv_fmt conv_ok] in *; try (split; [by repeat constructor|done]).
  1-3: split; [apply Forall_app; split; [by apply Forall_replicate|by repeat constructor]|by destruct l].
  split; [|done]. constructor; [apply Hok|constructor].
Qed.

Lemma items_chars its : Forall item_ok its -> Forall (fun c => c <> 0) (concat (item_fmt <$> its)).
Proof.
  induction 1 as [|it its Hit _ IH]; cbn [fmap list_fmap concat]; [constructor|]. apply Forall_app. split; [|done].
  destruct it as [c|v]; cbn [item_ok item_fmt] in *; [constructor; [apply Hit|constructor]|]. constructor; [done|by apply conv_fmt_chars].
Qed.

Lemma nth_no_nul (f : list Z) : Forall (fun c => c <> 0) f -> (if nth 1 f 0 =? 0 then 0 else nth 2 f 0) = nth 2 f 0.
Proof.
  intros HF. destruct f as [|a [|b f]]; [done|done|]. cbn [nth]. apply Forall_cons in HF as [_ HF]. apply Forall_cons in HF as [Hb _].
  by rewrite (proj2 (Z.eqb_neq _ _) Hb).
Qed.

(** The loop before the characters of [its]; in the state behind a percent
    sign its first item is a conversion, whose percent sign was passed. *)
Definition vinv (fd : Z) (fmt : list Z) (final : output) (n : Z) (st : Z * Z * list arg) (o : output) : Prop :=
  exists (i : nat) its, n = Z.of_nat (length fmt - i) + 1 /\ Forall item_ok its /\ o ++ put_text fd (concat (item_text <$> its)) = final /\
    ((st = (Z.of_nat i, 0, concat (item_args <$> its)) /\ drop i fmt = concat (item_fmt <$> its)) \/
     (st = (Z.of_nat i, chr "%", concat (item_args <$> its)) /\ exists v its', its = Conv v :: its' /\
      drop i fmt = conv_fmt v ++ concat (item_fmt <$> its'))).

Lemma drop_length_lt (fmt : list Z) i (a b : list Z) : drop i fmt = a ++ b -> a <> [] -> (i + length a <= length fmt)%nat.
Proof. intros E Ha. apply (f_equal length) in E. rewrite length_drop, length_app in E. destruct a; [done|]. simpl in *. lia. Qed.

Lemma vround_lit fd fmt final i its o :
  Forall item_ok its -> o ++ put_text fd (concat (item_text <$> its)) = final -> drop i fmt = concat (item_fmt <$> its) ->
  wp (vprintf_round fd fmt (Z.of_nat i, 0, concat (item_args <$> its)))
    (fun r o' => match r with
      | inl st' => exists n', n' < Z.of_nat (length fmt - i) + 1 /\ vinv fd fmt final n' st' o'
      | inr _ => o' = final end) o.
Proof.
  intros Hok Ho Hd. unfold vprintf_round. cbv zeta. rewrite fmt_at_here, Hd.
  destruct its as [|[c|v] its]; cbn [fmap list_fmap concat item_fmt item_args item_text nth app].
  - apply wp_ret. by rewrite app_nil_r in Ho.
  - apply Forall_cons in Hok as [[Hz Hp] Hok]. rewrite (proj2 (Z.eqb_neq _ _) Hz), (proj2 (Z.eqb_neq _ _) Hp). cbn [Z.eqb].
    pose proof (drop_length_lt fmt i [c] _ Hd ltac:(done)) as Hl. cbn [length] in Hl.
    apply wp_bind, wp_putc, wp_ret. exists (Z.of_nat (length fmt - S i) + 1). split; [lia|]. exists (S i), its.
    split_and!; [done|done| |left].
    + rewrite <- (assoc_L (++)), <- put_text_app. exact Ho.
    + split; [do 2 f_equal; lia|]. apply (f_equal (drop 1)) in Hd. rewrite drop_drop in Hd. replace (S i) with (i + 1)%nat by lia. exact Hd.
  - pose proof (drop_length_lt fmt i [chr "%"] _ Hd ltac:(done)) as Hl. cbn [length] in Hl.
    change (chr "%" =? 0) with false. change (0 =? 0) with true. change (chr "%" =? chr "%") with true. cbv iota.
    apply wp_ret. exists (Z.of_nat (length fmt - S i) + 1). split; [lia|]. exists (S i), (Conv v :: its).
    split_and!; [done|done|done|right]. split; [do 2 f_equal; lia|]. exists v, its. split; [done|].
    apply (f_equal (drop 1)) in Hd. rewrite drop_drop in Hd. replace (S i) with (i + 1)%nat by lia. exact Hd.
Qed.

Lemma vround_conv fd fmt final i v its o :
  Forall item_ok (Conv v :: its) -> o ++ put_text fd (concat (item_text <$> Conv v :: its)) = final ->
  drop i fmt = conv_fmt v ++ concat (item_fmt <$> its) ->
  wp (vprintf_round fd fmt (Z.of_nat i, chr "%", concat (item_args <$> Conv v :: its)))
    (fun r o' => match r with
      | inl st' => exists n', n' < Z.of_nat (length fmt - i) + 1 /\ vinv fd fmt final n' st' o'
      | inr _ => o' = final end) o.
Proof.
  intros [Hv Hok]%Forall_cons Ho Hd. cbn [item_ok] in Hv. destruct (conv_fmt_chars v Hv) as [Hc Hne].
  unfold vprintf_round. cbv zeta. change (Z.of_nat i + 1) with (Z.of_nat i + Z.of_nat 1). change (Z.of_nat i + 2) with (Z.of_nat i + Z.of_nat 2).
  rewrite fmt_at_here, !fmt_at_drop, Hd, nth_no_nul by (apply Forall_app; split; [done|by apply items_chars]).
  assert (nth 0 (conv_fmt v ++ concat (item_fmt <$> its)) 0 <> 0) as H0 by (destruct Hc; done).
  rewrite (proj2 (Z.eqb_neq _ _) H0). change (chr "%" =? 0) with false. cbv iota. pose proof (drop_length_lt fmt i _ _ Hd Hne) as Hl.
  assert (0 < length (conv_fmt v))%nat as Hpos by (destruct (conv_fmt v); [done|simpl; lia]).
  apply wp_bind. cbn [fmap list_fmap concat item_args item_text] in *. apply wp_vconv; [done|]. apply wp_ret. cbn [fst snd].
  set (j := (i + length (conv_fmt v))%nat) in *. exists (Z.of_nat (length fmt - j) + 1). split; [lia|]. exists j, its.
  split_and!; [done|done| |left].
  - rewrite <- (assoc_L (++)), <- put_text_app. exact Ho.
  - split; [do 2 f_equal; lia|]. apply (f_equal (drop (length (conv_fmt v)))) in Hd. rewrite drop_drop, drop_app_length in Hd. exact Hd.
Qed.

Lemma wp_vprintf fd its o :
  Forall item_ok its -> Z.of_nat (length (concat (item_fmt <$> its))) < 2 ^ 31 ->
  wp (vprintf fd (concat (item_fmt <$> its)) (concat (item_args <$> its)))
    (fun _ o' => o' = o ++ put_text fd (concat (item_text <$> its))) o.
Proof.
  intros Hok Hlen. set (fmt := concat (item_fmt <$> its)) in *. set (final := o ++ put_text fd (concat (item_text <$> its))).
  unfold vprintf. apply (wp_loop (vinv fd fmt final) (vprintf_round fd fmt) _ (Z.of_nat (length fmt) + 1)).
  - intros n st o' (i & its' & -> & Hok' & Ho & [[-> Hd]|[-> (v & its2 & -> & Hd)]]); (split; [lia|]).
    + exact (vround_lit fd fmt final i its' o' Hok' Ho Hd).
    + exact (vround_conv fd fmt final i v its2 o' Hok' Ho Hd).
  - lia.
  - exists 0%nat, its. split_and!; [lia|exact Hok|reflexivity|left; split; reflexivity].
Qed.


Definition ex_items : list item := [Lit (chr "n"); Lit (chr "="); Conv (Vint 0 (-42)); Lit 32; Conv (Vhex 1 48879); Conv Vpct].

