(* ===== verification/Ulib.v ===== *)
(** * user/ulib.c: the library of the user programs

    The functions are translated loop for loop over the memory of the process,
    a map from addresses to bytes as for kernel/string.c.  The standard input
    is the list of the bytes that [read] still delivers; at its end [read]
    returns less than one.  [char] is unsigned on RISC-V. *)

From S2P Require Import Prelude CMem Riscv Kalloc Vm KState Sched Printf Uprintf.
From Stdlib Require Import Ascii.

Record ust := mkust { umem : memory; stdin : list Z }.

#[export] Instance eta_ust : Eta ust := fun x => mkust (umem x) (stdin x).

Definition getb (a : Z) : M ust Z := gets (fun s => ldb (umem s) a).
Definition setb (a v : Z) : M ust unit := modify (fun s => s <| umem ::= fun m => stb m a v |>).

#[export] Hint Unfold getb setb : wp_prim.

(** [while(( *s++ = *t++) != 0);] *)
Definition strcpy_round : Z * Z -> M ust (Z * Z + unit) := fun '(s, t) =>
  c ← getb t;
  setb s c;;
  if negb (c =? 0) then mret (inl (s + 1, t + 1)) else mret (inr tt).

Definition strcpy (s t : Z) : M ust Z := loop strcpy_round (s, t);; mret s.

Definition strcmp_round : Z * Z -> M ust (Z * Z + Z) := fun '(p, q) =>
  a ← getb p;
  b ← getb q;
  if negb (a =? 0) && (a =? b) then mret (inl (p + 1, q + 1)) else mret (inr (a - b)).

Definition strcmp (p q : Z) : M ust Z := loop strcmp_round (p, q).

Definition ustrlen_round (s n : Z) : M ust (Z + Z) :=
  c ← getb (s + n);
  if negb (c =? 0) then mret (inl (n + 1)) else mret (inr n).

Definition ustrlen (s : Z) : M ust Z := loop (ustrlen_round s) 0.

(** The count [n] is unsigned, and the index runs from 0 to [n]. *)
Definition umemset (dst c n : Z) : M ust Z :=
  modify (fun s => s <| umem ::= fun m => memset_loop (Z.to_nat n) m dst c |>);; mret dst.

Definition ustrchr_round (c s : Z) : M ust (Z + Z) :=
  x ← getb s;
  if x =? 0 then mret (inr 0) else if x =? c then mret (inr s) else mret (inl (s + 1)).

Definition ustrchr (s c : Z) : M ust Z := loop (ustrchr_round c) s.

(** [read(0, &c, 1)]. *)
Definition read1 : M ust (option Z) :=
  l ← gets stdin;
  match l with
  | [] => mret None
  | c :: l' => modify (fun s => s <| stdin := l' |>);; mret (Some (u8 c))
  end.

Definition gets_round (buf max i : Z) : M ust (Z + Z) :=
  if negb (i + 1 <? max) then mret (inr i)
  else
    cc ← read1;
    match cc with
    | None => mret (inr i)
    | Some c =>
        setb (buf + i) c;;
        if (c =? 10) || (c =? 13) then mret (inr (i + 1)) else mret (inl (i + 1))
    end.

Definition ugets (buf max : Z) : M ust Z :=
  i ← loop (gets_round buf max) 0;
  setb (buf + i) 0;;
  mret buf.

(** [n] is an [int]. *)
Definition atoi_round : Z * Z -> M ust (Z * Z + Z) := fun '(s, n) =>
  c ← getb s;
  if (chr "0" <=? c) && (c <=? chr "9") then mret (inl (s + 1, i32 (n * 10 + c - chr "0"))) else mret (inr n).

Definition atoi (s : Z) : M ust Z := loop atoi_round (s, 0).

Definition umemmove (vdst vsrc n : Z) : M ust Z :=
  (if vdst <? vsrc then modify (fun s => s <| umem ::= fun m => memmove_up (Z.to_nat n) m vdst vsrc |>)
   else modify (fun s => s <| umem ::= fun m => memmove_down (Z.to_nat n) m (vdst + n) (vsrc + n) |>));;
  mret vdst.

Definition umemcmp (s1 s2 n : Z) : M ust Z := gets (fun s => memcmp_loop (Z.to_nat n) (umem s) s1 s2).

Definition umemcpy (dst src n : Z) : M ust Z := umemmove dst src n.

(** ** Strings *)

(** The string at [p] is [s]. *)
Definition cstring_at (m : memory) (p : Z) (s : list Z) : Prop :=
  Forall (fun c => 0 < c < 2 ^ 8) s /\ forall i, (i <= length s)%nat -> ldb m (p + Z.of_nat i) = nth i s 0.

Lemma string_byte m p s (i : nat) : cstring_at m p s -> (i < length s)%nat -> ldb m (p + Z.of_nat i) = nth i s 0 /\ 0 < nth i s 0 < 2 ^ 8.
Proof.
  intros [HF Hb] Hi. split; [apply Hb; lia|]. rewrite Forall_lookup in HF. destruct (lookup_lt_is_Some_2 s i Hi) as [c Hc].
  rewrite nth_lookup, Hc. by apply (HF i).
Qed.

Lemma string_end m p s : cstring_at m p s -> ldb m (p + Z.of_nat (length s)) = 0.
Proof. intros [_ Hb]. rewrite Hb by lia. by apply nth_overflow. Qed.

Lemma wp_ustrlen p s (Q : Z -> ust -> Prop) st :
  cstring_at (umem st) p s -> Z.of_nat (length s) < 2 ^ 31 -> Q (Z.of_nat (length s)) st -> wp (ustrlen p) Q st.
Proof.
  intros Hs Hl HQ. unfold ustrlen.
  apply (wp_loop (fun n i st' => exists k, i = Z.of_nat k /\ (k <= length s)%nat /\ n = Z.of_nat (length s - k) + 1 /\ st' = st)
    (ustrlen_round p) Q (Z.of_nat (length s) + 1)).
  - intros n i st' (k & -> & Hk & -> & ->). split; [lia|]. unfold ustrlen_round. do 3 wp_step.
    destruct (decide (k = length s)) as [->|Hne].
    + rewrite (string_end _ _ _ Hs), Z.eqb_refl. cbn [negb]. wp_step. exact HQ.
    + destruct (string_byte _ _ _ k Hs) as [-> Hc]; [lia|]. rewrite (proj2 (Z.eqb_neq _ _)) by lia. cbn [negb]. wp_step.
      exists (Z.of_nat (length s - S k) + 1). split; [lia|]. exists (S k). split_and!; [lia|lia|lia|done].
  - lia.
  - exists 0%nat. split_and!; [done|lia|lia|done].
Qed.

(** The difference of the first bytes in which two strings differ. *)
Fixpoint str_diff (s t : list Z) : Z :=
  match s, t with
  | a :: s', b :: t' => if a =? b then str_diff s' t' else a - b
  | a :: _, [] => a
  | [], b :: _ => - b
  | [], [] => 0
  end.

Lemma str_diff_zero s t : Forall (fun c => 0 < c < 2 ^ 8) s -> Forall (fun c => 0 < c < 2 ^ 8) t -> str_diff s t = 0 <-> s = t.
Proof.
  intros Hs. revert t. induction Hs as [|a s Ha Hs IH]; intros t Ht; destruct Ht as [|b t Hb Ht]; simpl.
  - done.
  - split; [lia|done].
  - split; [lia|done].
  - destruct (Z.eqb_spec a b) as [->|Hne]; [rewrite IH by done|split; [lia|congruence]]. split; congruence.
Qed.

Lemma drop_nth (s : list Z) k : Forall (fun c => 0 < c < 2 ^ 8) s ->
  drop k s = if nth k s 0 =? 0 then [] else nth k s 0 :: drop (S k) s.
Proof.
  intros HF. rewrite nth_lookup. destruct (s !! k) as [a|] eqn:E; simpl.
  - rewrite Forall_lookup in HF. specialize (HF _ _ E). simpl in HF. rewrite (proj2 (Z.eqb_neq a 0)) by lia. by apply drop_S.
  - apply drop_ge. by apply lookup_ge_None.
Qed.

(** A round of [strcmp]. *)
Lemma str_diff_step s t k :
  Forall (fun c => 0 < c < 2 ^ 8) s -> Forall (fun c => 0 < c < 2 ^ 8) t ->
  let a := nth k s 0 in let b := nth k t 0 in
  str_diff (drop k s) (drop k t) = if negb (a =? 0) && (a =? b) then str_diff (drop (S k) s) (drop (S k) t) else a - b.
Proof.
  intros Hs Ht a b. rewrite (drop_nth s k Hs), (drop_nth t k Ht). fold a b.
  destruct (Z.eqb_spec a 0) as [Ea|Ea]; destruct (Z.eqb_spec b 0) as [Eb|Eb]; cbn [negb andb].
  - simpl. lia.
  - rewrite Ea. done.
  - rewrite Eb, (proj2 (Z.eqb_neq a 0) Ea). simpl. lia.
  - simpl. by destruct (a =? b).
Qed.

Lemma nth_nonzero (s : list Z) k : nth k s 0 <> 0 -> (k < length s)%nat.
Proof. intros H. destruct (decide (k < length s)%nat); [done|]. by rewrite nth_overflow in H by lia. Qed.

Lemma wp_strcmp p q s t (Q : Z -> ust -> Prop) st :
  cstring_at (umem st) p s -> cstring_at (umem st) q t -> Z.of_nat (length s) < 2 ^ 31 -> Q (str_diff s t) st -> wp (strcmp p q) Q st.
Proof.
  intros [Fs Hs] [Ft Ht] Hl HQ. unfold strcmp.
  apply (wp_loop (fun n pq st' => exists k, pq = (p + Z.of_nat k, q + Z.of_nat k) /\ (k <= length s)%nat /\ (k <= length t)%nat /\
    n = Z.of_nat (length s - k) + 1 /\ st' = st /\ str_diff (drop k s) (drop k t) = str_diff s t)
    strcmp_round Q (Z.of_nat (length s) + 1)).
  - intros n pq st' (k & -> & Hk & Hk' & -> & -> & Hd). split; [lia|]. unfold strcmp_round. do 5 wp_step.
    rewrite (Hs k Hk), (Ht k Hk'). rewrite (str_diff_step s t k Fs Ft) in Hd. cbv zeta in Hd.
    destruct (negb (nth k s 0 =? 0) && (nth k s 0 =? nth k t 0)) eqn:E; wp_step; [|by rewrite Hd].
    apply andb_prop in E as [E1%negb_true_iff%Z.eqb_neq E2%Z.eqb_eq]. pose proof (nth_nonzero s k E1). rewrite E2 in E1.
    pose proof (nth_nonzero t k E1). exists (Z.of_nat (length s - S k) + 1). split; [lia|]. exists (S k). split_and!; [f_equal; lia|lia|lia|done|done|done].
  - lia.
  - exists 0%nat. rewrite !Z.add_0_r. split_and!; try done; lia.
Qed.

(** [strcpy] into a place that does not overlap the string. *)
Lemma wp_strcpy d p s (Q : Z -> ust -> Prop) st :
  cstring_at (umem st) p s -> Z.of_nat (length s) < 2 ^ 31 -> d + Z.of_nat (length s) < p \/ p + Z.of_nat (length s) < d ->
  (forall st', cstring_at (umem st') d s -> stdin st' = stdin st -> agree (fun a => ~ (d <= a <= d + Z.of_nat (length s))) (umem st) (umem st') -> Q d st') ->
  wp (strcpy d p) Q st.
Proof.
  intros [Fs Hs] Hl Hd HQ. unfold strcpy. wp_step.
  apply (wp_loop (fun n dp st' => exists k, dp = (d + Z.of_nat k, p + Z.of_nat k) /\ (k <= length s)%nat /\ n = Z.of_nat (length s - k) + 1 /\
    stdin st' = stdin st /\ (forall i, (i < k)%nat -> ldb (umem st') (d + Z.of_nat i) = nth i s 0) /\
    agree (fun a => ~ (d <= a < d + Z.of_nat k)) (umem st) (umem st')) strcpy_round _ (Z.of_nat (length s) + 1)).
  - intros n dp st' (k & -> & Hk & -> & Hi & Hc & Ha). split; [lia|]. unfold strcpy_round. do 5 wp_step.
    rewrite (Ha (p + Z.of_nat k)), (Hs k Hk) by lia.
    assert (forall i, (i < S k)%nat -> ldb (stb (umem st') (d + Z.of_nat k) (nth k s 0)) (d + Z.of_nat i) = nth i s 0) as Hc'.
    { intros i Hik. rewrite ldb_stb. case_decide as E; [|by apply Hc; lia]. replace i with k by lia. apply Z.mod_small.
      destruct (decide (nth k s 0 = 0)) as [->|Hne]; [lia|]. pose proof (nth_nonzero s k Hne) as Hlt.
      destruct (string_byte _ _ _ k (conj Fs Hs) Hlt). lia. }
    assert (agree (fun a => ~ (d <= a < d + Z.of_nat (S k))) (umem st) (stb (umem st') (d + Z.of_nat k) (nth k s 0))) as Ha'.
    { intros a Hna. rewrite ldb_stb_ne by lia. apply Ha. lia. }
    destruct (Z.eqb_spec (nth k s 0) 0) as [E|E]; cbn [negb]; wp_step.
    + assert (k = length s) as ->.
      { destruct (decide (k = length s)); [done|]. destruct (string_byte _ _ _ k (conj Fs Hs)); lia. }
      wp_step. apply HQ; [|done|eapply agree_sub; [exact Ha'|]; intros a; cbv beta; lia]. split; [done|]. intros i Hik. apply Hc'. lia.
    + pose proof (nth_nonzero s k E). exists (Z.of_nat (length s - S k) + 1). split; [lia|]. exists (S k).
      split_and!; [f_equal; lia|lia|lia|done|done|done].
  - lia.
  - exists 0%nat. rewrite !Z.add_0_r. split_and!; try done; lia.
Qed.

(** ** gets *)

Definition is_nl (c : Z) : bool := (c =? 10) || (c =? 13).

(** The first line of the input, with its end, cut at [max] bytes. *)
Fixpoint first_line (max : nat) (l : list Z) : list Z :=
  match max, l with
  | O, _ | _, [] => []
  | S n, c :: l' => c :: if is_nl c then [] else first_line n l'
  end.

Lemma first_line_prefix max l : exists l', l = first_line max l ++ l' /\ (length (first_line max l) <= max)%nat.
Proof.
  revert l. induction max as [|n IH]; intros [|c l]; simpl; try (eexists; split; [done|simpl; lia]).
  destruct (is_nl c); [exists l; split; [done|simpl; lia]|]. destruct (IH l) as (l' & E & Hl). exists l'. split; [by f_equal|simpl; lia].
Qed.

Definition bytes_at (m : memory) (p : Z) (l : list Z) : Prop := forall i, (i < length l)%nat -> ldb m (p + Z.of_nat i) = nth i l 0.

Lemma bytes_at_snoc m p l c : bytes_at m p l -> is_byte c -> bytes_at (stb m (p + Z.of_nat (length l)) c) p (l ++ [c]).
Proof.
  intros Hb Hc i Hi. rewrite length_app in Hi. cbn [length] in Hi. destruct (decide (i = length l)) as [->|Hne].
  - rewrite ldb_stb_eq, nth_lookup, list_lookup_middle by done. by apply Z.mod_small.
  - rewrite ldb_stb_ne by lia. rewrite Hb by lia. by rewrite app_nth1 by lia.
Qed.

(** [gets] writes inside its buffer only, and leaves the first line of the
    input there as a string; the rest of the input is still to be read. *)
Lemma wp_ugets buf max (Q : Z -> ust -> Prop) st :
  0 < max < 2 ^ 31 -> Forall is_byte (stdin st) ->
  let line := first_line (Z.to_nat (max - 1)) (stdin st) in
  (forall st', stdin st = line ++ stdin st' -> bytes_at (umem st') buf line -> ldb (umem st') (buf + Z.of_nat (length line)) = 0 ->
    agree (fun a => ~ (buf <= a < buf + max)) (umem st) (umem st') -> Q buf st') ->
  wp (ugets buf max) Q st.
Proof.
  intros Hmax HF line HQ. unfold ugets. wp_step.
  apply (wp_loop (fun n i st' => exists l, i = Z.of_nat (length l) /\ i < max /\ n = max - i /\
    line = l ++ first_line (Z.to_nat (max - 1 - i)) (stdin st') /\ stdin st = l ++ stdin st' /\
    bytes_at (umem st') buf l /\ agree (fun a => ~ (buf <= a < buf + i)) (umem st) (umem st'))
    (gets_round buf max) _ max).
  - assert (forall l st', Z.of_nat (length l) < max -> line = l -> stdin st = l ++ stdin st' -> bytes_at (umem st') buf l ->
      agree (fun a => ~ (buf <= a < buf + Z.of_nat (length l))) (umem st) (umem st') ->
      wp (setb (buf + Z.of_nat (length l)) 0;; mret buf) Q st') as Hend.
    { intros l st' Hlt El Ei Hb Ha. do 4 wp_step. apply HQ; rewrite ?El; cbn.
      - done.
      - intros i Hi. rewrite ldb_stb_ne by lia. by apply Hb.
      - by rewrite ldb_stb_eq.
      - intros a Hna. rewrite ldb_stb_ne by lia. apply Ha. lia. }
    intros n i st' (l & -> & Hlt & -> & El & Ei & Hb & Ha). split; [lia|]. unfold gets_round.
    destruct (Z.ltb_spec (Z.of_nat (length l) + 1) max) as [Hroom|Hfull]; cbn [negb].
    + replace (Z.to_nat (max - 1 - Z.of_nat (length l))) with (S (Z.to_nat (max - 2 - Z.of_nat (length l)))) in El by lia.
      wp_step. unfold read1. do 2 wp_step. destruct (stdin st') as [|c rest] eqn:Es; cbn [first_line] in El.
      * do 2 wp_step. rewrite app_nil_r in El. apply Hend; try done. by rewrite Es.
      * assert (is_byte c) as Hc by (rewrite Ei in HF; by apply Forall_app in HF as [_ HF%Forall_inv]).
        assert (u8 c = c) as Eu by (by apply Z.mod_small).
        do 3 wp_step. rewrite Eu. do 3 wp_step. change ((c =? 10) || (c =? 13)) with (is_nl c).
        assert (Z.of_nat (length (l ++ [c])) = Z.of_nat (length l) + 1) as Hlen by (rewrite length_app; simpl; lia).
        assert (stdin st = (l ++ [c]) ++ rest) as Ei' by (by rewrite <- (assoc_L (++))).
        assert (agree (fun a => ~ (buf <= a < buf + Z.of_nat (length (l ++ [c])))) (umem st) (stb (umem st') (buf + Z.of_nat (length l)) c)) as Ha'
          by (intros a Hna; rewrite ldb_stb_ne by lia; apply Ha; lia).
        destruct (is_nl c) eqn:En; wp_step.
        -- rewrite <- Hlen. apply Hend; try done; [lia|by apply bytes_at_snoc].
        -- exists (max - (Z.of_nat (length l) + 1)). split; [lia|]. exists (l ++ [c]). rewrite <- Hlen. split_and!; try done; [lia| |by apply bytes_at_snoc].
           rewrite El, <- (assoc_L (++)). cbn [app]. do 4 f_equal. lia.
    + wp_step. replace (Z.to_nat (max - 1 - Z.of_nat (length l))) with O in El by lia. cbn [first_line] in El. rewrite app_nil_r in El.
      by apply Hend.
  - lia.
  - exists []. split_and!; try done; [lia|lia|by rewrite Z.sub_0_r|intros i Hi; simpl in Hi; lia].
Qed.

(** ** atoi *)

Definition dec_step (n c : Z) : Z := n * 10 + c - chr "0".
Definition dec_value (l : list Z) : Z := foldl dec_step 0 l.
Definition is_digit (c : Z) : bool := (chr "0" <=? c) && (c <=? chr "9").

Lemma dec_value_snoc l c : dec_value (l ++ [c]) = dec_step (dec_value l) c.
Proof. unfold dec_value. by rewrite foldl_app. Qed.

Lemma dec_value_prefix l l' : Forall (fun c => is_digit c = true) (l ++ l') -> 0 <= dec_value l <= dec_value (l ++ l').
Proof.
  intros HF. assert (forall l', Forall (fun c => is_digit c = true) l' -> 0 <= dec_value l -> dec_value l <= dec_value (l ++ l')) as H.
  { clear HF l'. intros l'. induction l' as [|c l' IH] using rev_ind; intros HF H0; [by rewrite app_nil_r|].
    apply Forall_app in HF as [HF Hc%Forall_inv]. apply andb_prop in Hc as [H1%Z.leb_le _]. rewrite (assoc_L (++)), dec_value_snoc.
    specialize (IH HF H0). unfold dec_step. lia. }
  assert (0 <= dec_value l) as H0.
  { apply Forall_app in HF as [HF _]. clear H. induction l as [|c l IH] using rev_ind; [done|].
    apply Forall_app in HF as [HF Hc%Forall_inv]. apply andb_prop in Hc as [H1%Z.leb_le _]. rewrite dec_value_snoc. specialize (IH HF). unfold dec_step. lia. }
  apply Forall_app in HF as [_ HF]. auto.
Qed.

(** Digits up to a byte that is none. *)
Lemma wp_atoi p l c0 (Q : Z -> ust -> Prop) st :
  Forall (fun c => is_digit c = true) l -> is_digit c0 = false -> bytes_at (umem st) p (l ++ [c0]) ->
  dec_value l < 2 ^ 31 -> Z.of_nat (length l) < 2 ^ 31 -> Q (dec_value l) st -> wp (atoi p) Q st.
Proof.
  intros HF H0 Hb Hv Hl HQ. unfold atoi.
  apply (wp_loop (fun n sn st' => exists k, sn = (p + Z.of_nat k, dec_value (take k l)) /\ (k <= length l)%nat /\
    n = Z.of_nat (length l - k) + 1 /\ st' = st) atoi_round Q (Z.of_nat (length l) + 1)).
  - intros n sn st' (k & -> & Hk & -> & ->). split; [lia|]. unfold atoi_round. do 3 wp_step.
    pose proof (Hb k ltac:(rewrite length_app; simpl; lia)) as E. set (x := ldb (umem st) (p + Z.of_nat k)) in *. clearbody x. subst x.
    destruct (decide (k = length l)) as [->|Hne].
    + rewrite nth_lookup, list_lookup_middle by done. change (is_digit c0) with ((chr "0" <=? c0) && (c0 <=? chr "9")) in H0. simpl default. rewrite H0.
      wp_step. by rewrite take_ge by done.
    + destruct (lookup_lt_is_Some_2 l k) as [c Hc]; [lia|]. rewrite nth_lookup, lookup_app_l, Hc by lia. simpl default.
      assert (is_digit c = true) as Hd by (rewrite Forall_lookup in HF; by apply (HF k)).
      change (is_digit c) with ((chr "0" <=? c) && (c <=? chr "9")) in Hd. rewrite Hd. wp_step.
      exists (Z.of_nat (length l - S k) + 1). split; [lia|]. exists (S k). split_and!; [|lia|done|done].
      f_equal; [lia|]. rewrite (take_S_r _ _ _ Hc), dec_value_snoc. apply fit_i32.
      change (- 2 ^ 31 <= dec_step (dec_value (take k l)) c < 2 ^ 31). rewrite <- dec_value_snoc, <- (take_S_r _ _ _ Hc).
      pose proof (dec_value_prefix (take (S k) l) (drop (S k) l)) as Hp. rewrite take_drop in Hp. specialize (Hp HF). lia.
  - lia.
  - exists 0%nat. rewrite Z.add_0_r. split_and!; try done; lia.
Qed.

Lemma dec_value_digits l : Forall (fun c => is_digit c = true) l -> dec_value l = digits_value 10 (udigit_val <$> reverse l).
Proof.
  induction l as [|c l IH] using rev_ind; intros HF; [done|]. apply Forall_app in HF as [HF Hc%Forall_inv].
  apply andb_prop in Hc as [_ H%Z.leb_le]. rewrite dec_value_snoc, reverse_snoc. cbn [fmap list_fmap digits_value]. rewrite <- IH by done.
  unfold dec_step, udigit_val. rewrite (proj2 (Z.leb_le _ _)) by exact H. change (chr "0") with 48. lia.
Qed.

Lemma numeral_length x : 0 <= x < 2 ^ 64 -> (length (numeral 10 x) <= 20)%nat.
Proof.
  intros Hx. pose proof (num_text_length 10 x (or_introl eq_refl) ltac:(lia)) as Hl. unfold num_text in Hl.
  by rewrite (proj2 (Z.ltb_ge _ _)) in Hl by lia.
Qed.

Lemma numeral_digits x : 0 <= x < 2 ^ 64 -> Forall (fun c => is_digit c = true) (numeral 10 x) /\ dec_value (numeral 10 x) = x.
Proof.
  intros Hx. assert (Forall (fun c => is_digit c = true) (numeral 10 x)) as HF.
  { unfold numeral. destruct (int_digits_value 64 x 10) as [_ HF]; [lia|done|]. apply Forall_forall. intros c Hc. rewrite elem_of_reverse in Hc.
    apply list_elem_of_fmap in Hc as (d & -> & Hd). rewrite Forall_forall in HF. specialize (HF _ Hd).
    assert (Forall (fun d => is_digit (nth (Z.to_nat d) udigits 0) = true) (seqZ 0 10)) as HA by (apply (bool_decide_unpack _); vm_compute; exact I).
    rewrite Forall_forall in HA. apply HA, elem_of_seqZ. lia. }
  split; [done|]. rewrite dec_value_digits by done. by apply numeral_spec.
Qed.

(** [atoi] reads back what [printint] prints: the text of any non-negative
    [int], followed by a byte that is not a digit, gives the number again. *)
Theorem atoi_printint fd n o :
  0 <= n < 2 ^ 31 ->
  wp (uprintint fd n 10 true) (fun _ o' => exists cs, o' = o ++ put_text fd cs /\
    forall st p c0, bytes_at (umem st) p (cs ++ [c0]) -> is_digit c0 = false -> wp (atoi p) (fun r st' => r = n /\ st' = st) st) o.
Proof.
  intros Hn. apply wp_uprintint; [lia|lia|apply num_text_length; [by left|simpl; lia]|].
  exists (num_text 10 n). split; [done|]. intros st p c0 Hb Hc. unfold num_text in Hb. rewrite (proj2 (Z.ltb_ge _ _)) in Hb by lia.
  destruct (numeral_digits n) as [HF Hv]; [lia|].
  pose proof (numeral_length n ltac:(lia)) as Hl.
  eapply wp_atoi; [exact HF|exact Hc|exact Hb|lia|lia|]. split; [exact Hv|reflexivity].
Qed.

Lemma atoi_printint_witness :
  wp (uprintint 1 2026 10 true) (fun _ o' => exists cs, o' = [] ++ put_text 1 cs /\
    forall st p c0, bytes_at (umem st) p (cs ++ [c0]) -> is_digit c0 = false -> wp (atoi p) (fun r st' => r = 2026 /\ st' = st) st) [].
Proof. apply atoi_printint. lia. Defined.

(** There is no sign: a minus ends the number before it starts. *)
Lemma atoi_minus : atoi 100 (mkust (st_bytes ∅ 100 (str "-5")) []) = Ok 0 (mkust (st_bytes ∅ 100 (str "-5")) []).
Proof. by vm_compute. Qed.

(** ** Memory *)

(** [memmove] copies also when the regions overlap; the test of the source
    differs from the kernel's. *)
Lemma wp_umemmove dst src n (Q : Z -> ust -> Prop) st :
  (forall st', stdin st' = stdin st ->
    (forall a, ldb (umem st') a = if decide (dst <= a < dst + n) then ldb (umem st) (src + (a - dst)) else ldb (umem st) a) -> Q dst st') ->
  wp (umemmove dst src n) Q st.
Proof.
  intros HQ. unfold umemmove. wp_step. destruct (Z.ltb_spec dst src); do 2 wp_step; apply HQ; try done; cbn; intros a.
  - rewrite memmove_up_spec by lia. repeat case_decide; try lia; done.
  - destruct (decide (0 <= n)).
    + rewrite memmove_down_spec by lia. rewrite Z2Nat.id by lia. repeat case_decide; try lia; f_equal; lia.
    + replace (Z.to_nat n) with O by lia. cbn [memmove_down]. by rewrite decide_False by lia.
Qed.

Lemma wp_umemset dst c n (Q : Z -> ust -> Prop) st :
  0 <= n ->
  (forall st', stdin st' = stdin st ->
    (forall a, ldb (umem st') a = if decide (dst <= a < dst + n) then u8 c else ldb (umem st) a) -> Q dst st') ->
  wp (umemset dst c n) Q st.
Proof.
  intros Hn HQ. unfold umemset. do 3 wp_step. apply HQ; [done|]. cbn. intros a. rewrite memset_loop_spec. by rewrite Z2Nat.id.
Qed.
