(* ===== verification/Uprog.v ===== *)
(** * Programs of the user directory: cat, leer, wc, echo, calc

    A program is a computation over what it has written, the reads that its
    open files still deliver, and the number of its writes.  What the files
    hold, how the system cuts it into reads, where a read fails ([files]) and
    how much of a write arrives ([wlen]) are parameters; the programs are
    proved to compute from the contents alone, however they are cut. *)

From S2P Require Import Prelude CMem Riscv Kalloc Vm KState Sched Printf Uprintf Ulib.
From Stdlib Require Import Ascii.

(** A read that delivers bytes, or fails; after the last one [read] returns 0. *)
Abbreviation reads := (list (option (list Z))).

Record pio := mkpio { pout : output; pfds : list (option reads); nwrites : nat }.

#[export] Instance eta_pio : Eta pio := fun x => mkpio (pout x) (pfds x) (nwrites x).

#[export, program] Instance lens_out : Lens pio output := {
  lget := pout;
  lset := fun o s => s <| pout := o |>
}.
Solve Obligations with by intros; repeat match goal with x : pio |- _ => destruct x end.

(** ** Output *)

Section output.
Context {S : Type} `{!Lens S output}.

Definition fprintf (fd : Z) (fmt : list Z) (ap : list arg) : M S unit := zoom (vprintf fd fmt ap).

Definition emit_out (o : output) (s : S) : S := lset (lget s ++ o) s.

Lemma emit_out_app fd a b s : emit_out (put_text fd b) (emit_out (put_text fd a) s) = emit_out (put_text fd (a ++ b)) s.
Proof. unfold emit_out. by rewrite lget_lset, lset_lset, put_text_app, (assoc_L (++)). Qed.

Lemma emit_out_nil s : emit_out [] s = s.
Proof. unfold emit_out. by rewrite app_nil_r, lset_lget. Qed.

Lemma wp_fprintf fd its fmt ap text (Q : unit -> S -> Prop) s :
  concat (item_fmt <$> its) = fmt -> concat (item_args <$> its) = ap -> concat (item_text <$> its) = text ->
  Forall item_ok its -> Z.of_nat (length fmt) < 2 ^ 31 ->
  Q tt (emit_out (put_text fd text) s) -> wp (fprintf fd fmt ap) Q s.
Proof.
  intros <- <- <- Hok Hl HQ. unfold fprintf. apply wp_zoom. eapply wp_mono; [exact (wp_vprintf fd its (lget s) Hok Hl)|].
  cbv beta. intros [] o' ->. exact HQ.
Qed.

(** A text without a percent sign. *)
Definition plain (t : list Z) : Prop := Forall (fun c => c <> 0 /\ c <> chr "%") t /\ Z.of_nat (length t) < 2 ^ 29.

Lemma lits_fmt t : concat (item_fmt <$> (Lit <$> t)) = t /\ concat (item_args <$> (Lit <$> t)) = [] /\ concat (item_text <$> (Lit <$> t)) = t.
Proof. induction t as [|c t (IH1 & IH2 & IH3)]; [done|]. cbn [fmap list_fmap concat item_fmt item_args item_text app]. by rewrite IH1, IH2, IH3. Qed.

Lemma wp_fprintf_plain fd t (Q : unit -> S -> Prop) s : plain t -> Q tt (emit_out (put_text fd t) s) -> wp (fprintf fd t []) Q s.
Proof.
  intros [Hp Hl] HQ. destruct (lits_fmt t) as (E1 & E2 & E3).
  apply (wp_fprintf fd (Lit <$> t) t [] t); [done..| |lia|done].
  apply Forall_fmap. eapply Forall_impl; [exact Hp|]. done.
Qed.

(** A text with one string in it. *)
Lemma wp_fprintf_str fd t a u (Q : unit -> S -> Prop) s :
  plain t -> plain u -> Q tt (emit_out (put_text fd (t ++ a ++ u)) s) ->
  wp (fprintf fd (t ++ str "%s" ++ u) [Astr a]) Q s.
Proof.
  intros [Ht Htl] [Hu Hul] HQ. destruct (lits_fmt t) as (T1 & T2 & T3). destruct (lits_fmt u) as (U1 & U2 & U3).
  apply (wp_fprintf fd ((Lit <$> t) ++ Conv (Vstr (Some a)) :: (Lit <$> u)) _ _ (t ++ a ++ u)); [..|done].
  - rewrite fmap_app, concat_app, T1. cbn [fmap list_fmap concat item_fmt conv_fmt]. by rewrite U1.
  - rewrite fmap_app, concat_app, T2. cbn [fmap list_fmap concat item_args conv_args app]. by rewrite U2.
  - rewrite fmap_app, concat_app, T3. cbn [fmap list_fmap concat item_text conv_text default]. by rewrite U3.
  - apply Forall_app. split; [|constructor; [exact I|]]; apply Forall_fmap; (eapply Forall_impl; [eassumption|done]).
  - rewrite !length_app. change (length (str "%s")) with 2%nat. lia.
Qed.
End output.

Section programs.
Context (files : list Z -> option reads) (wlen : nat -> Z -> Z).

(** The lowest free descriptor. *)
Definition low_fd (l : list (option reads)) : nat :=
  match list_find (fun o => o = None) l with Some (i, _) => i | None => length l end.

Definition p_open (path : list Z) : M pio (option nat) :=
  match files path with
  | None => mret None
  | Some rs =>
      n ← gets (fun s => low_fd (pfds s));
      modify (fun s => s <| pfds ::= fun l => take n l ++ Some rs :: drop (S n) l |>);;
      mret (Some n)
  end.

Definition p_close (fd : nat) : M pio unit := modify (fun s => s <| pfds ::= <[fd := None]> |>).

(** [Some []] at the end of the file, [None] for an error. *)
Definition p_read (fd : nat) : M pio (option (list Z)) :=
  l ← gets (fun s => pfds s !! fd);
  match l with
  | Some (Some (r :: rs)) => modify (fun s => s <| pfds ::= <[fd := Some rs]> |>);; mret r
  | Some (Some []) => mret (Some [])
  | _ => mret None
  end.

(** The answer of the k-th write of [n] bytes is [wlen k n]: that many arrive,
    none when it is negative. *)
Definition p_write (fd : Z) (bs : list Z) : M pio Z :=
  k ← gets nwrites;
  let r := wlen k (Z.of_nat (length bs)) in
  modify (fun s => s <| nwrites := S k |> <| pout ::= fun o => o ++ put_text fd (take (Z.to_nat r) bs) |>);;
  mret r.

(** ** cat and leer *)

(** [None]: the function returned; [Some c]: the program exited with [c]. *)
Definition cat_round (fd : nat) : unit -> M pio (unit + option Z) := fun _ =>
  n ← p_read fd;
  match n with
  | None => fprintf 2 (str "cat: read error" ++ [10]) [];; mret (inr (Some 1))
  | Some [] => mret (inr None)
  | Some buf =>
      w ← p_write 1 buf;
      if negb (w =? Z.of_nat (length buf)) then fprintf 2 (str "cat: write error" ++ [10]) [];; mret (inr (Some 1))
      else mret (inl tt)
  end.

Definition cat (fd : nat) : M pio (option Z) := loop (cat_round fd) tt.

Fixpoint cat_files (argv : list (list Z)) : M pio Z :=
  match argv with
  | [] => mret 0
  | a :: argv' =>
      fd ← p_open a;
      match fd with
      | None => fprintf 2 (str "cat: cannot open %s" ++ [10]) [Astr a];; mret 1
      | Some fd =>
          r ← cat fd;
          match r with
          | Some c => mret c
          | None => p_close fd;; cat_files argv'
          end
      end
  end.

(** [argv] without the name of the program; descriptor 0 is the standard input. *)
Definition cat_main (argv : list (list Z)) : M pio Z :=
  match argv with
  | [] => r ← cat 0; mret (default 0 r)
  | _ => cat_files argv
  end.

Definition leer_round (fd : nat) : unit -> M pio (unit + unit) := fun _ =>
  n ← p_read fd;
  match n with
  | None | Some [] => mret (inr tt)
  | Some buf => p_write 1 buf;; mret (inl tt)
  end.

Definition leer_main (argv : list (list Z)) : M pio Z :=
  match argv with
  | [] => fprintf 1 (str "Uso: leer <archivo>" ++ [10]) [];; mret 1
  | a :: _ =>
      fd ← p_open a;
      match fd with
      | None => fprintf 1 (str "No se pudo abrir el archivo" ++ [10]) [];; mret 1
      | Some fd => loop (leer_round fd) tt;; p_close fd;; mret 0
      end
  end.

(** ** wc *)

Definition wc_blank (c : Z) : bool := bool_decide (c ∈ [32; 13; 9; 10; 11]).

(** The counters l, w, c and the flag inword, one byte on. *)
Definition wc_byte (st : Z * Z * Z * bool) (b : Z) : Z * Z * Z * bool :=
  let '(l, w, c, inword) := st in
  let c := c + 1 in
  let l := if b =? 10 then l + 1 else l in
  if wc_blank b then (l, w, c, false)
  else if negb inword then (l, w + 1, c, true)
  else (l, w, c, inword).

Definition wc_round (fd : nat) : Z * Z * Z * bool -> M pio (Z * Z * Z * bool + option (Z * Z * Z)) := fun st =>
  n ← p_read fd;
  match n with
  | None => mret (inr None)
  | Some [] => let '(l, w, c, _) := st in mret (inr (Some (l, w, c)))
  | Some buf => mret (inl (foldl wc_byte st buf))
  end.

Definition wc (fd : nat) (name : list Z) : M pio (option Z) :=
  r ← loop (wc_round fd) (0, 0, 0, false);
  match r with
  | None => fprintf 1 (str "wc: read error" ++ [10]) [];; mret (Some 1)
  | Some (l, w, c) => fprintf 1 (str "%d %d %d %s" ++ [10]) [Anum l; Anum w; Anum c; Astr name];; mret None
  end.

Fixpoint wc_files (argv : list (list Z)) : M pio Z :=
  match argv with
  | [] => mret 0
  | a :: argv' =>
      fd ← p_open a;
      match fd with
      | None => fprintf 1 (str "wc: cannot open %s" ++ [10]) [Astr a];; mret 1
      | Some fd =>
          r ← wc fd a;
          match r with
          | Some c => mret c
          | None => p_close fd;; wc_files argv'
          end
      end
  end.

Definition wc_main (argv : list (list Z)) : M pio Z :=
  match argv with
  | [] => r ← wc 0 []; mret (default 0 r)
  | _ => wc_files argv
  end.

(** ** echo *)

Fixpoint echo_args (argv : list (list Z)) : M pio unit :=
  match argv with
  | [] => mret tt
  | a :: argv' =>
      p_write 1 a;;
      match argv' with
      | [] => p_write 1 [10];; mret tt
      | _ => p_write 1 [32];; echo_args argv'
      end
  end.

Definition echo_main (argv : list (list Z)) : M pio Z := echo_args argv;; mret 0.

(** ** Reading a file to its end *)

(** What the reads deliver, and whether the file ends without an error. *)
Fixpoint contents (rs : reads) : list Z * bool :=
  match rs with
  | [] => ([], true)
  | None :: _ => ([], false)
  | Some [] :: _ => ([], true)
  | Some bs :: rs' => let '(t, ok) := contents rs' in (bs ++ t, ok)
  end.

Lemma wp_p_read fd rs (Q : option (list Z) -> pio -> Prop) s :
  pfds s !! fd = Some (Some rs) ->
  (match rs with
   | [] => Q (Some []) s
   | r :: rs' => Q r (s <| pfds ::= <[fd := Some rs']> |>)
   end) -> wp (p_read fd) Q s.
Proof. intros Hf HQ. unfold p_read. do 2 wp_step. rewrite Hf. destruct rs as [|r rs']; by repeat wp_step. Qed.

(** A loop that reads a file to its end.  The invariant [I t st s] speaks of
    the text [t] read so far. *)
Lemma wp_read_loop {St R} fd (body : St -> M pio (St + R)) (I : list Z -> St -> pio -> Prop) (Q : R -> pio -> Prop) rs0 st0 s0 :
  (forall t bs rs st s, bs <> [] -> I t st s -> pfds s !! fd = Some (Some (Some bs :: rs)) ->
    wp (body st) (fun r s' => exists st', r = inl st' /\ I (t ++ bs) st' s' /\ pfds s' !! fd = Some (Some rs)) s) ->
  (forall t ok rs st s, contents rs = ([], ok) -> contents rs0 = (t, ok) -> I t st s -> pfds s !! fd = Some (Some rs) ->
    wp (body st) (fun r s' => exists a, r = inr a /\ Q a s') s) ->
  I [] st0 s0 -> pfds s0 !! fd = Some (Some rs0) -> Z.of_nat (length rs0) < 2 ^ 64 ->
  wp (loop body st0) Q s0.
Proof.
  intros Hc He H0 Hf Hl.
  apply (wp_loop (fun n st s => exists t rs, n = Z.of_nat (length rs) + 1 /\ I t st s /\ pfds s !! fd = Some (Some rs) /\
    contents rs0 = (t ++ (contents rs).1, (contents rs).2)) body Q (Z.of_nat (length rs0) + 1)); [|lia|].
  - intros n st s (t & rs & -> & HI & Hr & Ht). split; [lia|].
    assert (forall ok, contents rs = ([], ok) ->
      wp (body st) (fun r s' => match r with inl st' => exists n', n' < Z.of_nat (length rs) + 1 /\ exists t rs, n' = Z.of_nat (length rs) + 1 /\
        I t st' s' /\ pfds s' !! fd = Some (Some rs) /\ contents rs0 = (t ++ (contents rs).1, (contents rs).2) | inr a => Q a s' end) s) as Hend.
    { intros ok E. rewrite E in Ht. cbn [fst snd] in Ht. rewrite app_nil_r in Ht.
      eapply wp_mono; [by apply (He t ok rs)|]. by intros r s' (a & -> & HQ). }
    destruct rs as [|[[|b bs]|] rs]; try by eapply Hend.
    eapply wp_mono; [by apply (Hc t (b :: bs) rs)|]. intros r s' (st' & -> & HI' & Hr').
    exists (Z.of_nat (length rs) + 1). split; [cbn [length]; lia|]. exists (t ++ b :: bs), rs. split_and!; [done..|].
    rewrite Ht. cbn [contents]. destruct (contents rs) as [t' ok]. cbn [fst snd]. by rewrite <- (assoc_L (++)).
  - exists [], rs0. by destruct (contents rs0).
Qed.

Lemma low_fd_le l : (low_fd l <= length l)%nat.
Proof.
  unfold low_fd. destruct (list_find _ l) as [[i x]|] eqn:E; [|done].
  apply list_find_Some in E as (E & _ & _). apply lookup_lt_Some in E. lia.
Qed.

(** An open file is at a descriptor of its own. *)
Lemma wp_p_open path rs (Q : option nat -> pio -> Prop) s :
  files path = Some rs ->
  (forall fd s', pfds s' !! fd = Some (Some rs) -> pout s' = pout s -> Q (Some fd) s') -> wp (p_open path) Q s.
Proof.
  intros Hf HQ. unfold p_open. rewrite Hf. repeat wp_step. apply HQ; [|done].
  unfold upd. cbn. pose proof (low_fd_le (pfds s)).
  rewrite lookup_app_r; rewrite length_take_le by done; [by rewrite Nat.sub_diag|done].
Qed.

(** ** cat and leer copy the contents *)

(** A write that does not arrive whole ends [cat] with code 1; what arrived stays. *)
Lemma cat_write_error fd bs rs s :
  bs <> [] -> pfds s !! fd = Some (Some (Some bs :: rs)) -> wlen (nwrites s) (Z.of_nat (length bs)) <> Z.of_nat (length bs) ->
  wp (cat fd) (fun r s' => r = Some 1 /\
    pout s' = pout s ++ put_text 1 (take (Z.to_nat (wlen (nwrites s) (Z.of_nat (length bs)))) bs) ++ put_text 2 (str "cat: write error" ++ [10])) s.
Proof.
  intros Hb Hf Hw. unfold cat.
  apply (wp_loop (fun n _ s' => n = 1 /\ s' = s) _ _ 1); [|done..].
  intros n [] s' [-> ->]. split; [done|]. unfold cat_round. apply wp_bind. eapply wp_p_read; [exact Hf|]. cbv beta iota.
  destruct bs as [|b bs]; [done|]. apply wp_bind. unfold p_write. do 2 wp_step. cbv zeta. apply wp_bind, wp_modify, wp_ret.
  change (nwrites (s <| pfds ::= <[fd := Some rs]> |>)) with (nwrites s). rewrite (proj2 (Z.eqb_neq _ _) Hw). cbv beta iota delta [negb].
  apply wp_bind, wp_fprintf_plain; [by split; [repeat constructor|]|]. apply wp_ret. split; [done|].
  unfold emit_out, upd. cbn. by rewrite <- (assoc_L (++)).
Qed.

Section copying.
(** The writes arrive whole. *)
Hypothesis Hw : forall k n, wlen k n = n.

Lemma wp_p_write fd bs (Q : Z -> pio -> Prop) s :
  (forall s', pfds s' = pfds s -> pout s' = pout s ++ put_text fd bs -> Q (Z.of_nat (length bs)) s') -> wp (p_write fd bs) Q s.
Proof.
  intros HQ. unfold p_write. do 2 wp_step. cbv zeta. rewrite Hw, Nat2Z.id, firstn_all. repeat wp_step. by apply HQ.
Qed.

(** What [cat] writes for a file, and its exit code when it does not return. *)
Definition cat_text (rs : reads) : output * option Z :=
  let '(t, ok) := contents rs in
  if ok then (put_text 1 t, None) else (put_text 1 t ++ put_text 2 (str "cat: read error" ++ [10]), Some 1).

Lemma wp_cat fd rs (Q : option Z -> pio -> Prop) s :
  pfds s !! fd = Some (Some rs) -> Z.of_nat (length rs) < 2 ^ 64 ->
  (forall s', pout s' = pout s ++ (cat_text rs).1 -> Q (cat_text rs).2 s') ->
  wp (cat fd) Q s.
Proof.
  intros Hf Hl HQ. unfold cat.
  apply (wp_read_loop fd _ (fun t _ s' => pout s' = pout s ++ put_text 1 t) Q rs); [| |by rewrite app_nil_r|done..].
  - intros t bs rs' [] s' Hb Ho Hr. unfold cat_round. apply wp_bind. eapply wp_p_read; [exact Hr|]. cbv beta iota.
    destruct bs as [|b bs]; [done|]. apply wp_bind, wp_p_write. intros s1 E1 E2. rewrite Z.eqb_refl. cbv beta iota delta [negb].
    apply wp_ret. exists tt. split; [done|]. split.
    + rewrite E2. cbn [pout]. unfold upd. cbn. rewrite Ho, put_text_app. by rewrite (assoc_L (++)).
    + rewrite E1. unfold upd. cbn. apply list_lookup_insert_eq. by eapply lookup_lt_Some.
  - intros t ok rs' [] s' E0 Et Ho Hr. unfold cat_round. apply wp_bind. eapply wp_p_read; [exact Hr|]. unfold cat_text in HQ. rewrite Et in HQ.
    destruct rs' as [|[[|b bs]|] rs']; simplify_eq/=.
    + apply wp_ret. eexists. split; [done|]. by apply HQ.
    + apply wp_ret. eexists. split; [done|]. by apply HQ.
    + destruct (contents rs'); simplify_eq/=.
    + apply wp_bind, wp_fprintf_plain; [split; [by repeat constructor|done]|]. apply wp_ret. eexists. split; [done|].
      apply HQ. unfold emit_out, upd. cbn. rewrite Ho. by rewrite <- (assoc_L (++)).
Qed.

Definition open_msg (prog name : list Z) : list Z := prog ++ name ++ [10].

(** The whole program: the output and the exit code. *)
Fixpoint cat_spec (argv : list (list Z)) : output * Z :=
  match argv with
  | [] => ([], 0)
  | a :: argv' =>
      match files a with
      | None => (put_text 2 (open_msg (str "cat: cannot open ") a), 1)
      | Some rs =>
          match cat_text rs with
          | (o, Some c) => (o, c)
          | (o, None) => let '(o', c) := cat_spec argv' in (o ++ o', c)
          end
      end
  end.

Hypothesis Hlen : forall a rs, files a = Some rs -> Z.of_nat (length rs) < 2 ^ 64.

Lemma wp_cat_files argv (Q : Z -> pio -> Prop) s :
  (forall s', pout s' = pout s ++ (cat_spec argv).1 -> Q (cat_spec argv).2 s') -> wp (cat_files argv) Q s.
Proof.
  revert Q s. induction argv as [|a argv IH]; intros Q s HQ; cbn [cat_files cat_spec] in *.
  { apply wp_ret, HQ. by rewrite app_nil_r. }
  apply wp_bind. destruct (files a) as [rs|] eqn:Hf.
  - eapply wp_p_open; [exact Hf|]. intros fd s1 Hr E1. apply wp_bind. eapply wp_cat; [exact Hr|by eapply Hlen|]. intros s2 E2.
    destruct (cat_text rs) as [o [c|]]; cbn [fst snd] in *.
    + apply wp_ret, HQ. by rewrite E2, E1.
    + apply wp_bind. unfold p_close. apply wp_modify, IH. intros s3 E3. destruct (cat_spec argv) as [o' c]. cbn [fst snd] in *.
      apply HQ. rewrite E3. unfold upd. cbn. rewrite E2, E1. by rewrite <- (assoc_L (++)).
  - unfold p_open. rewrite Hf. apply wp_ret. apply wp_bind.
    apply (wp_fprintf_str 2 (str "cat: cannot open ") a [10]); [by split; [by repeat constructor|]..|].
    apply wp_ret, HQ. done.
Qed.

(** [cat] writes the contents of its files in order, however the system cuts
    them into reads, and stops with code 1 at the first file it cannot open or
    read. *)
Theorem cat_copies argv s :
  argv <> [] ->
  wp (cat_main argv) (fun c s' => pout s' = pout s ++ (cat_spec argv).1 /\ c = (cat_spec argv).2) s.
Proof. intros Ha. destruct argv as [|a argv]; [by contradiction Ha|]. unfold cat_main. apply wp_cat_files. intros s' E. exact (conj E eq_refl). Qed.

(** [leer] copies one file, and takes a read error for its end. *)
Theorem leer_copies a argv rs s :
  files a = Some rs ->
  wp (leer_main (a :: argv)) (fun c s' => pout s' = pout s ++ put_text 1 (contents rs).1 /\ c = 0) s.
Proof.
  intros Hf. unfold leer_main. apply wp_bind. eapply wp_p_open; [exact Hf|]. intros fd s1 Hr E1. apply wp_bind.
  apply (wp_read_loop fd _ (fun t _ s' => pout s' = pout s ++ put_text 1 t) _ rs); [| |by rewrite app_nil_r|done|by eapply Hlen].
  - intros t bs rs' [] s' Hb Ho Hr'. unfold leer_round. apply wp_bind. eapply wp_p_read; [exact Hr'|]. cbv beta iota.
    destruct bs as [|b bs]; [done|]. apply wp_bind, wp_p_write. intros s2 E2 E3.
    apply wp_ret. exists tt. split; [done|]. split.
    + rewrite E3. unfold upd. cbn. rewrite Ho, put_text_app. by rewrite (assoc_L (++)).
    + rewrite E2. unfold upd. cbn. apply list_lookup_insert_eq. by eapply lookup_lt_Some.
  - intros t ok rs' [] s' E0 Et Ho Hr'. unfold leer_round. apply wp_bind. eapply wp_p_read; [exact Hr'|]. rewrite Et. cbn [fst].
    destruct rs' as [|[[|b bs]|] rs']; cbn [contents] in E0; cbv beta iota; try (destruct (contents rs'); by simplify_eq/=);
      apply wp_ret; eexists; (split; [done|]); unfold p_close; apply wp_bind, wp_modify, wp_ret; by rewrite <- Ho.
Qed.

(** [echo] writes its arguments, a blank between two of them and a newline at the end. *)
Fixpoint echo_text (argv : list (list Z)) : list Z :=
  match argv with
  | [] => []
  | [a] => a ++ [10]
  | a :: argv' => a ++ [32] ++ echo_text argv'
  end.

Theorem echo_writes argv s :
  wp (echo_main argv) (fun c s' => pout s' = pout s ++ put_text 1 (echo_text argv) /\ c = 0) s.
Proof.
  unfold echo_main. apply wp_bind. revert s. induction argv as [|a argv IH]; intros s; cbn [echo_args].
  { do 2 apply wp_ret. by rewrite app_nil_r. }
  apply wp_bind, wp_p_write. intros s1 _ E1. destruct argv as [|b argv]; apply wp_bind, wp_p_write; intros s2 _ E2.
  - do 2 apply wp_ret. rewrite E2, E1. cbn [echo_text]. by rewrite put_text_app, (assoc_L (++)).
  - eapply wp_mono; [apply IH|]. cbv beta. intros [] s3 H. eapply wp_mono; [exact H|]. cbv beta. intros c s4 [E4 ->]. split; [|done].
    rewrite E4, E2, E1. change (echo_text (a :: b :: argv)) with (a ++ [32] ++ echo_text (b :: argv)).
    by rewrite !put_text_app, !(assoc_L (++)).
Qed.

(** ** wc counts *)

(** A word starts at a byte that is not blank and has none before it that is not. *)
Definition word_start (t : list Z) (i : nat) : bool :=
  match t !! i with
  | Some b => negb (wc_blank b) && match i with O => true | S j => match t !! j with Some a => wc_blank a | None => true end end
  | None => false
  end.

Definition count_words (t : list Z) : nat := length (filter (fun i => Is_true (word_start t i)) (seq 0 (length t))).
Definition count_lines (t : list Z) : nat := length (filter (fun b => b = 10) t).

Definition in_word (t : list Z) : bool := match last t with Some b => negb (wc_blank b) | None => false end.

Lemma word_start_app t u i : (i < length t)%nat -> word_start (t ++ u) i = word_start t i.
Proof.
  intros Hi. unfold word_start. rewrite (lookup_app_l _ _ _ Hi). destruct i as [|j]; [done|].
  by rewrite (lookup_app_l t u j) by lia.
Qed.

Lemma word_start_last t b : word_start (t ++ [b]) (length t) = negb (wc_blank b) && negb (in_word t).
Proof.
  unfold word_start, in_word. rewrite list_lookup_middle by done. f_equal.
  destruct (length t) as [|j] eqn:El; [by apply nil_length_inv in El as ->|].
  rewrite lookup_app_l, last_lookup, El by lia. cbn [Nat.pred].
  destruct (t !! j) as [a|] eqn:E; [by rewrite negb_involutive|]. apply lookup_ge_None in E. lia.
Qed.

Lemma filter_seq_ext (f g : nat -> bool) j n :
  (forall i, (i < j + n)%nat -> f i = g i) -> filter (fun i => Is_true (f i)) (seq j n) = filter (fun i => Is_true (g i)) (seq j n).
Proof.
  revert j. induction n as [|n IH]; intros j H; [done|]. cbn [seq]. rewrite !filter_cons, (IH (S j)) by (intros; apply H; lia).
  by rewrite (H j) by lia.
Qed.

Lemma count_words_snoc t b :
  count_words (t ++ [b]) = (count_words t + if negb (wc_blank b) && negb (in_word t) then 1 else 0)%nat.
Proof.
  unfold count_words. rewrite length_app, Nat.add_comm. cbn [length Nat.add]. rewrite seq_S, filter_app, length_app. f_equal.
  - f_equal. apply filter_seq_ext. intros i Hi. apply word_start_app. lia.
  - cbn [Nat.add]. rewrite filter_cons, word_start_last. by destruct (negb (wc_blank b) && negb (in_word t)).
Qed.

Lemma count_lines_snoc t b : count_lines (t ++ [b]) = (count_lines t + if (b =? 10)%Z then 1 else 0)%nat.
Proof.
  unfold count_lines. rewrite filter_app, length_app, filter_cons. f_equal.
  destruct (Z.eqb_spec b 10), (decide (b = 10)); done.
Qed.

(** The counters after the text [t]. *)
Definition wc_counts_of (t : list Z) : Z * Z * Z * bool :=
  (Z.of_nat (count_lines t), Z.of_nat (count_words t), Z.of_nat (length t), in_word t).

Lemma wc_bytes t u : foldl wc_byte (wc_counts_of t) u = wc_counts_of (t ++ u).
Proof.
  revert t. induction u as [|b u IH]; intros t; [by rewrite app_nil_r|].
  cbn [foldl]. replace (t ++ b :: u) with ((t ++ [b]) ++ u) by by rewrite <- (assoc_L (++)).
  rewrite <- IH. f_equal. unfold wc_byte, wc_counts_of. rewrite count_words_snoc, count_lines_snoc, length_app.
  unfold in_word at 4. rewrite last_snoc.
  destruct (wc_blank b), (in_word t), (b =? 10); cbn [negb andb length]; repeat f_equal; lia.
Qed.

(** What [wc] writes for a file, and its exit code when it does not return. *)
Definition wc_line (name t : list Z) : list Z :=
  num_text 10 (Z.of_nat (count_lines t)) ++ [32] ++ num_text 10 (Z.of_nat (count_words t)) ++ [32] ++
  num_text 10 (Z.of_nat (length t)) ++ [32] ++ name ++ [10].

Definition wc_text (name : list Z) (rs : reads) : output * option Z :=
  let '(t, ok) := contents rs in
  if ok then (put_text 1 (wc_line name t), None) else (put_text 1 (str "wc: read error" ++ [10]), Some 1).

Lemma count_lines_le t : (count_lines t <= length t)%nat.
Proof. apply length_filter. Qed.

Lemma count_words_le t : (count_words t <= length t)%nat.
Proof. unfold count_words. etrans; [apply length_filter|]. by rewrite length_seq. Qed.

Lemma wp_wc_line name t (Q : unit -> pio -> Prop) s :
  Z.of_nat (length t) < 2 ^ 31 ->
  Q tt (emit_out (put_text 1 (wc_line name t)) s) ->
  wp (fprintf 1 (str "%d %d %d %s" ++ [10]) [Anum (Z.of_nat (count_lines t)); Anum (Z.of_nat (count_words t)); Anum (Z.of_nat (length t)); Astr name]) Q s.
Proof.
  intros Hl HQ. pose proof (count_lines_le t). pose proof (count_words_le t).
  eapply (wp_fprintf 1 [Conv (Vint 0 (Z.of_nat (count_lines t))); Lit 32; Conv (Vint 0 (Z.of_nat (count_words t))); Lit 32;
    Conv (Vint 0 (Z.of_nat (length t))); Lit 32; Conv (Vstr (Some name)); Lit 10]); [reflexivity..| | |exact HQ]; [|done].
  repeat (apply Forall_cons_2; [first [exact I | by split | split; [lia|]; rewrite decide_True by done; lia]|]). by apply Forall_nil_2.
Qed.

Lemma wp_wc fd name rs (Q : option Z -> pio -> Prop) s :
  pfds s !! fd = Some (Some rs) -> Z.of_nat (length rs) < 2 ^ 64 -> Z.of_nat (length (contents rs).1) < 2 ^ 31 ->
  (forall s', pout s' = pout s ++ (wc_text name rs).1 -> Q (wc_text name rs).2 s') ->
  wp (wc fd name) Q s.
Proof.
  intros Hf Hl Ht HQ. unfold wc. apply wp_bind.
  apply (wp_read_loop fd _ (fun t st s' => st = wc_counts_of t /\ pout s' = pout s) _ rs); [| |done..].
  - intros t bs rs' st s' Hb [-> Ho] Hr. unfold wc_round. apply wp_bind. eapply wp_p_read; [exact Hr|]. cbv beta iota.
    destruct bs as [|b bs]; [done|]. apply wp_ret. eexists. split; [done|]. split; [split; [apply wc_bytes|done]|].
    unfold upd. cbn. apply list_lookup_insert_eq. by eapply lookup_lt_Some.
  - intros t ok rs' st s' E0 Et [-> Ho] Hr. unfold wc_round. apply wp_bind. eapply wp_p_read; [exact Hr|]. unfold wc_text in HQ. rewrite Et in HQ, Ht.
    cbn [fst] in Ht.
    destruct rs' as [|[[|b bs]|] rs']; cbn [contents] in E0; try (destruct (contents rs'); by simplify_eq/=);
      injection E0 as <-; apply wp_ret; eexists; (split; [done|]); apply wp_bind;
      [apply wp_wc_line; [done|]..|apply wp_fprintf_plain; [by split; [repeat constructor|]|]];
      apply wp_ret, HQ; unfold emit_out, upd; cbn [pout]; by rewrite <- Ho.
Qed.

Fixpoint wc_spec (argv : list (list Z)) : output * Z :=
  match argv with
  | [] => ([], 0)
  | a :: argv' =>
      match files a with
      | None => (put_text 1 (open_msg (str "wc: cannot open ") a), 1)
      | Some rs =>
          match wc_text a rs with
          | (o, Some c) => (o, c)
          | (o, None) => let '(o', c) := wc_spec argv' in (o ++ o', c)
          end
      end
  end.

Hypothesis Htext : forall a rs, files a = Some rs -> Z.of_nat (length (contents rs).1) < 2 ^ 31.

Lemma wp_wc_files argv (Q : Z -> pio -> Prop) s :
  (forall s', pout s' = pout s ++ (wc_spec argv).1 -> Q (wc_spec argv).2 s') -> wp (wc_files argv) Q s.
Proof.
  revert Q s. induction argv as [|a argv IH]; intros Q s HQ; cbn [wc_files wc_spec] in *.
  { apply wp_ret, HQ. by rewrite app_nil_r. }
  apply wp_bind. destruct (files a) as [rs|] eqn:Hf.
  - eapply wp_p_open; [exact Hf|]. intros fd s1 Hr E1. apply wp_bind.
    eapply wp_wc; [exact Hr|by eapply Hlen|by eapply Htext|]. intros s2 E2.
    destruct (wc_text a rs) as [o [c|]]; cbn [fst snd] in *.
    + apply wp_ret, HQ. by rewrite E2, E1.
    + apply wp_bind. unfold p_close. apply wp_modify, IH. intros s3 E3. destruct (wc_spec argv) as [o' c]. cbn [fst snd] in *.
      apply HQ. rewrite E3. unfold upd. cbn. rewrite E2, E1. by rewrite <- (assoc_L (++)).
  - unfold p_open. rewrite Hf. apply wp_ret. apply wp_bind.
    apply (wp_fprintf_str 1 (str "wc: cannot open ") a [10]); [by split; [by repeat constructor|]..|].
    apply wp_ret, HQ. done.
Qed.

(** [wc] counts lines, words and bytes of the contents of each file, wherever
    the reads cut them (a word that two reads share is one word), and stops
    with code 1 at the first file it cannot open or read. *)
Theorem wc_counts argv s :
  argv <> [] ->
  wp (wc_main argv) (fun c s' => pout s' = pout s ++ (wc_spec argv).1 /\ c = (wc_spec argv).2) s.
Proof. intros Ha. destruct argv as [|a argv]; [by contradiction Ha|]. unfold wc_main. apply wp_wc_files. intros s' E. exact (conj E eq_refl). Qed.
End copying.
End programs.

(** ** calc *)

(** The memory with the arguments, and the output. *)
Record calcst := mkcalcst { cu : ust; cout : output }.

#[export] Instance eta_calcst : Eta calcst := fun x => mkcalcst (cu x) (cout x).

#[export, program] Instance lens_cu : Lens calcst ust := { lget := cu; lset := fun u s => s <| cu := u |> }.
Solve Obligations with by intros; repeat match goal with x : calcst |- _ => destruct x end.

#[export, program] Instance lens_cout : Lens calcst output := { lget := cout; lset := fun o s => s <| cout := o |> }.
Solve Obligations with by intros; repeat match goal with x : calcst |- _ => destruct x end.

Lemma str_diff_0 s t : Forall (fun c => 0 < c < 2 ^ 8) s -> Forall (fun c => 0 < c < 2 ^ 8) t -> str_diff s t = 0 <-> s = t.
Proof.
  revert t. induction s as [|a s IH]; intros [|b t] Hs Ht; cbn [str_diff]; [done|inversion_clear Ht; split; [lia|done]|inversion_clear Hs; split; [lia|done]|].
  inversion_clear Hs; inversion_clear Ht. destruct (Z.eqb_spec a b) as [->|Hne]; [|split; [lia|intros [= ]; lia]].
  rewrite IH by done. naive_solver.
Qed.

Section calc.
(** The address of a string literal of the program. *)
Context (lit : list Z -> Z).

Definition is_op (p : Z) (op : string) : M calcst bool := r ← zoom (strcmp p (lit (str op))); mret (r =? 0).

(** [None]: the program wrote a message and exited with 1.  The results are
    those of 32-bit registers. *)
Definition calc_eval (p num1 num2 : Z) : M calcst (option Z) :=
  plus ← is_op p "+";
  if plus : bool then mret (Some (i32 (num1 + num2))) else
  minus ← is_op p "-";
  if minus : bool then mret (Some (i32 (num1 - num2))) else
  times ← is_op p "*";
  if times : bool then mret (Some (i32 (num1 * num2))) else
  div ← is_op p "/";
  if div : bool then
    if num2 =? 0 then fprintf 1 (str "Error: division por cero" ++ [10]) [];; mret None
    else mret (Some (i32 (Z.quot num1 num2)))
  else fprintf 1 (str "Operador no valido" ++ [10]) [];; mret None.

(** [argv] with the name of the program first. *)
Definition calc_main (argv : list Z) : M calcst Z :=
  match argv with
  | [_; a1; a2; a3] =>
      num1 ← zoom (atoi a1);
      num2 ← zoom (atoi a3);
      r ← calc_eval a2 num1 num2;
      match r with
      | None => mret 1
      | Some resultado => fprintf 1 (str "Resultado: %d" ++ [10]) [Anum resultado];; mret 0
      end
  | _ => fprintf 1 (str "Uso: calc <num1> <operador> <num2>" ++ [10]) [];; mret 1
  end.

(** What calc computes, with the message of a failure. *)
Definition calc_value (op : list Z) (m n : Z) : Z + list Z :=
  if decide (op = str "+") then inl (i32 (m + n))
  else if decide (op = str "-") then inl (m - n)
  else if decide (op = str "*") then inl (i32 (m * n))
  else if decide (op = str "/") then if decide (n = 0) then inr (str "Error: division por cero") else inl (m `div` n)
  else inr (str "Operador no valido").

Definition calc_text (r : Z + list Z) : list Z :=
  match r with inl v => str "Resultado: " ++ num_text 10 v ++ [10] | inr msg => msg ++ [10] end.
Definition calc_code (r : Z + list Z) : Z := match r with inl _ => 0 | inr _ => 1 end.

(** The literals are in memory, the program does not write to them. *)
Definition lits_in (m : memory) : Prop := forall op, op ∈ ["+"%string; "-"%string; "*"%string; "/"%string] -> cstring_at m (lit (str op)) (str op).

Lemma wp_is_op p op os (Q : bool -> calcst -> Prop) s :
  cstring_at (umem (cu s)) p os -> Z.of_nat (length os) < 2 ^ 31 -> cstring_at (umem (cu s)) (lit (str op)) (str op) ->
  Q (bool_decide (os = str op)) s -> wp (is_op p op) Q s.
Proof.
  intros Hp Hl Hop HQ. unfold is_op. apply wp_bind, wp_zoom. eapply wp_strcmp; [exact Hp|exact Hop|done|]. apply wp_ret.
  replace (str_diff os (str op) =? 0) with (bool_decide (os = str op)); [by destruct s|].
  pose proof (str_diff_0 os (str op) (proj1 Hp) (proj1 Hop)) as E. destruct (Z.eqb_spec (str_diff os (str op)) 0).
  - by apply bool_decide_eq_true_2, E.
  - apply bool_decide_eq_false_2. by rewrite <- E.
Qed.


Section calc_spec.
Context (s : calcst) (a2 m n : Z) (os : list Z).
Hypothesis Hlits : lits_in (umem (cu s)).
Hypothesis Hop : cstring_at (umem (cu s)) a2 os.
Hypothesis Hol : Z.of_nat (length os) < 2 ^ 31.
Hypothesis Hm : 0 <= m < 2 ^ 31.
Hypothesis Hn : 0 <= n < 2 ^ 31.

Definition calc_out (r : Z + list Z) : calcst := match r with inl _ => s | inr msg => emit_out (put_text 1 (msg ++ [10])) s end.

Lemma wp_calc_eval (Q : option Z -> calcst -> Prop) :
  (let r := calc_value os m n in Q (match r with inl v => Some v | inr _ => None end) (calc_out r)) -> wp (calc_eval a2 m n) Q s.
Proof.
  intros HQ. unfold calc_eval, calc_value in *. cbv zeta in HQ.
  assert (forall op, op ∈ ["+"%string; "-"%string; "*"%string; "/"%string] -> forall Q' : bool -> calcst -> Prop,
    Q' (bool_decide (os = str op)) s -> wp (is_op a2 op) Q' s) as Hi.
  { intros op Ho Q' HQ'. eapply wp_is_op; [exact Hop|done|by apply Hlits|done]. }
  apply wp_bind, Hi; [by apply (bool_decide_unpack _); vm_compute|]. case_bool_decide as N1.
  { rewrite decide_True in HQ by exact N1. apply wp_ret. exact HQ. }
  rewrite decide_False in HQ by exact N1. apply wp_bind, Hi; [by apply (bool_decide_unpack _); vm_compute|]. case_bool_decide as N2.
  { rewrite decide_True in HQ by exact N2. apply wp_ret. rewrite i32_id by lia. exact HQ. }
  rewrite decide_False in HQ by exact N2. apply wp_bind, Hi; [by apply (bool_decide_unpack _); vm_compute|]. case_bool_decide as N3.
  { rewrite decide_True in HQ by exact N3. apply wp_ret. exact HQ. }
  rewrite decide_False in HQ by exact N3. apply wp_bind, Hi; [by apply (bool_decide_unpack _); vm_compute|]. case_bool_decide as N4.
  - rewrite decide_True in HQ by exact N4. destruct (Z.eqb_spec n 0) as [E|E].
    + rewrite decide_True in HQ by exact E. apply wp_bind, wp_fprintf_plain; [by split; [repeat constructor|]|]. apply wp_ret. exact HQ.
    + rewrite decide_False in HQ by exact E. apply wp_ret. rewrite Z.quot_div_nonneg, i32_id; [exact HQ| |lia..].
      pose proof (Z.div_pos m n). pose proof (Z.div_le_upper_bound m n m). nia.
  - rewrite decide_False in HQ by exact N4. apply wp_bind, wp_fprintf_plain; [by split; [repeat constructor|]|]. apply wp_ret. exact HQ.
Qed.
End calc_spec.

Lemma calc_value_int op m n v : 0 <= m < 2 ^ 31 -> 0 <= n < 2 ^ 31 -> calc_value op m n = inl v -> - 2 ^ 31 <= v < 2 ^ 31.
Proof.
  intros Hm Hn E. unfold calc_value in E. repeat case_decide; simplify_eq; try apply i32_range; [lia|].
  pose proof (Z.div_pos m n). pose proof (Z.div_le_upper_bound m n m). nia.
Qed.

(** A decimal argument is read as its value. *)
Lemma wp_atoi_arg p d (Q : Z -> calcst -> Prop) s :
  0 <= d < 2 ^ 31 -> cstring_at (umem (cu s)) p (numeral 10 d) -> Q d s -> wp (zoom (atoi p)) Q s.
Proof.
  intros Hd [_ Hp] HQ. destruct (numeral_digits d) as [HF Hv]; [lia|]. apply wp_zoom.
  apply (wp_atoi p (numeral 10 d) 0); [done|done| |lia| |by rewrite Hv; destruct s].
  - intros i Hi. rewrite length_app in Hi. cbn [length] in Hi. cbn [lget lens_cu]. rewrite Hp by lia.
    destruct (decide (i < length (numeral 10 d))%nat) as [Hlt|Hge]; [by rewrite app_nth1|].
    rewrite app_nth2, nth_overflow by lia. by replace (i - length (numeral 10 d))%nat with 0%nat by lia.
  - pose proof (numeral_length d ltac:(lia)). lia.
Qed.

(** calc on two decimal numbers writes the sum, difference, product (wrapped
    to 32 bits) or quotient, or the message of the division by zero or of the
    unknown operator, and exits with the matching code. *)
Theorem calc_computes name a1 a2 a3 m n os s :
  lits_in (umem (cu s)) -> 0 <= m < 2 ^ 31 -> 0 <= n < 2 ^ 31 ->
  cstring_at (umem (cu s)) a1 (numeral 10 m) -> cstring_at (umem (cu s)) a3 (numeral 10 n) ->
  cstring_at (umem (cu s)) a2 os -> Z.of_nat (length os) < 2 ^ 31 ->
  wp (calc_main [name; a1; a2; a3]) (fun c s' =>
    s' = emit_out (put_text 1 (calc_text (calc_value os m n))) s /\ c = calc_code (calc_value os m n)) s.
Proof.
  intros Hlits Hm Hn H1 H3 H2 Hol. unfold calc_main.
  apply wp_bind, (wp_atoi_arg _ m); [done..|]. apply wp_bind, (wp_atoi_arg _ n); [done..|].
  apply wp_bind, (wp_calc_eval s a2 m n os); [done..|]. cbv zeta.
  pose proof (calc_value_int os m n) as Hv. destruct (calc_value os m n) as [v|msg]; [|apply wp_ret; by split].
  apply wp_bind. cbn [calc_out].
  eapply (wp_fprintf 1 ((Lit <$> str "Resultado: ") ++ [Conv (Vint 0 v); Lit 10])); [reflexivity..| |done|].
  - apply Forall_app. split; [by apply Forall_fmap; repeat constructor|].
    apply Forall_cons_2; [split; [lia|]; rewrite decide_True by done; by apply Hv|by repeat constructor].
  - apply wp_ret. by split.
Qed.
End calc.
