(* ===== verification/Utools.v ===== *)
(** * Tools of the user directory: trace, mkdir, rm, ln, kill, listar, ls,
    and the main of grep

    These programs make system calls and report how they went.  A run is the
    list of the calls with their arguments and the output; what the kernel
    answers to a call, given the calls before it, is a parameter ([sys]).
    Strings are lists of bytes without their NUL. *)

From S2P Require Import Prelude CMem Riscv Kalloc Vm KState Sched Printf Fs DirSpec Syscall Grep Uprintf Ulib Uprog.
From Stdlib Require Import Ascii.

Inductive call :=
  | Cmkdir (path : list Z) | Cunlink (path : list Z) | Clink (old new : list Z) | Ckill (pid : Z)
  | Ctrace (mask : Z) | Cexec (path : list Z) (argv : list (list Z)).

Record tio := mktio { tout : output; calls : list call }.

#[export] Instance eta_tio : Eta tio := fun x => mktio (tout x) (calls x).

#[export, program] Instance lens_tout : Lens tio output := { lget := tout; lset := fun o s => s <| tout := o |> }.
Solve Obligations with by intros; repeat match goal with x : tio |- _ => destruct x end.

(** [atoi] of a string, run on a memory that holds it. *)
Definition atoi_str (l : list Z) : Z :=
  match atoi 0 (mkust (st_bytes ∅ 0 (l ++ [0])) []) with Ok v _ => v | _ => 0 end.

(** What [strcmp] compares to: 0 for equal strings. *)
Definition str_eq (s t : list Z) : bool := str_diff s t =? 0.

Section tools.
Context (sys : list call -> call -> Z).

Definition syscall_ (c : call) : M tio Z :=
  l ← gets calls;
  modify (fun s => s <| calls := l ++ [c] |>);;
  mret (sys l c).

(** ** mkdir, rm, ln, kill *)

(** The loop of mkdir and rm: up to the first call that fails. *)
Fixpoint each_path (mk : list Z -> call) (before after : list Z) (argv : list (list Z)) : M tio unit :=
  match argv with
  | [] => mret tt
  | a :: argv' =>
      r ← syscall_ (mk a);
      if r <? 0 then fprintf 2 (before ++ str "%s" ++ after) [Astr a] else each_path mk before after argv'
  end.

(** [argv] without the name of the program. *)
Definition mkdir_main (argv : list (list Z)) : M tio Z :=
  match argv with
  | [] => fprintf 2 (str "Usage: mkdir files..." ++ [10]) [];; mret 1
  | _ => each_path Cmkdir (str "mkdir: ") (str " failed to create" ++ [10]) argv;; mret 0
  end.

Definition rm_main (argv : list (list Z)) : M tio Z :=
  match argv with
  | [] => fprintf 2 (str "Usage: rm files..." ++ [10]) [];; mret 1
  | _ => each_path Cunlink (str "rm: ") (str " failed to delete" ++ [10]) argv;; mret 0
  end.

Definition ln_main (argv : list (list Z)) : M tio Z :=
  match argv with
  | [old; new] =>
      r ← syscall_ (Clink old new);
      (if r <? 0 then fprintf 2 (str "link %s %s: failed" ++ [10]) [Astr old; Astr new] else mret tt);;
      mret 0
  | _ => fprintf 2 (str "Usage: ln old new" ++ [10]) [];; mret 1
  end.

Fixpoint kill_each (argv : list (list Z)) : M tio unit :=
  match argv with
  | [] => mret tt
  | a :: argv' => syscall_ (Ckill (atoi_str a));; kill_each argv'
  end.

Definition kill_main (argv : list (list Z)) : M tio Z :=
  match argv with
  | [] => fprintf 2 (str "usage: kill pid..." ++ [10]) [];; mret 1
  | _ => kill_each argv;; mret 0
  end.

(** ** trace *)

Definition syscall_lookup : list (string * Z) :=
  [("fork", SYS_fork); ("exit", SYS_exit); ("wait", SYS_wait); ("pipe", SYS_pipe); ("read", SYS_read); ("kill", SYS_kill);
   ("exec", SYS_exec); ("fstat", SYS_fstat); ("chdir", SYS_chdir); ("dup", SYS_dup); ("getpid", SYS_getpid); ("sbrk", SYS_sbrk);
   ("pause", SYS_pause); ("uptime", SYS_uptime); ("open", SYS_open); ("write", SYS_write); ("mknod", SYS_mknod);
   ("unlink", SYS_unlink); ("link", SYS_link); ("mkdir", SYS_mkdir); ("close", SYS_close); ("hello", SYS_hello);
   ("trace", SYS_trace); ("dumpvm", SYS_dumpvm); ("map_ro", SYS_map_ro)]%string.

Fixpoint mask_in (table : list (string * Z)) (name : list Z) : Z :=
  match table with
  | [] => -1
  | (n, num) :: table' => if str_eq name (str n) then i32 (Z.shiftl 1 num) else mask_in table' name
  end.

Definition name_to_mask (name : list Z) : Z := mask_in syscall_lookup name.

Definition trace_usage : M tio unit :=
  fprintf 1 (str "Uso: trace <syscall> <comando> [args...]" ++ [10]) [];;
  fprintf 1 (str "  syscall puede ser un nombre o un numero de mascara" ++ [10]) [];;
  fprintf 1 (str "  Ejemplos:" ++ [10]) [];;
  fprintf 1 (str "    trace hello hello" ++ [10]) [];;
  fprintf 1 (str "    trace write echo hola" ++ [10]) [];;
  fprintf 1 (str "    trace read cat README.md" ++ [10]) [].

(** An [exec] that succeeds does not return: the program goes on as the
    command, and the run ends here with [None]. *)
Definition trace_main (argv : list (list Z)) : M tio (option Z) :=
  match argv with
  | name :: cmd :: args =>
      let mask := name_to_mask name in
      let mask' := if mask <? 0 then atoi_str name else mask in
      if (mask <? 0) && (mask' =? 0) then
        fprintf 1 (str "trace: syscall '" ++ str "%s" ++ str "' no reconocida" ++ [10]) [Astr name];; mret (Some 1)
      else
        syscall_ (Ctrace mask');;
        r ← syscall_ (Cexec cmd (cmd :: args));
        if r <? 0 then fprintf 1 (str "trace: exec " ++ str "%s" ++ str " failed" ++ [10]) [Astr cmd];; mret (Some 1)
        else mret None
  | _ => trace_usage;; mret (Some 1)
  end.
End tools.

(** ** What the tools do *)

Lemma str_eq_spec s t : Forall (fun c => 0 < c < 2 ^ 8) s -> Forall (fun c => 0 < c < 2 ^ 8) t -> str_eq s t = bool_decide (s = t).
Proof.
  intros Hs Ht. unfold str_eq. destruct (str_diff_0 s t Hs Ht) as [H1 H2]. destruct (Z.eqb_spec (str_diff s t) 0) as [E|E].
  - by rewrite bool_decide_eq_true_2 by auto.
  - by rewrite bool_decide_eq_false_2 by auto.
Qed.

(** The names that the kernel traces: [trace NAME cmd] sets the bit of that
    system call and of no other. *)
Theorem name_to_mask_bits name num n :
  (name, num) ∈ syscall_lookup -> 0 < n < 32 ->
  negb (Z.land (name_to_mask (str name)) (Z.shiftl 1 n) =? 0) = bool_decide (n = num).
Proof.
  intros Hin Hn.
  assert (Forall (fun '(name, num) => Forall (fun n => negb (Z.land (name_to_mask (str name)) (Z.shiftl 1 n) =? 0) = bool_decide (n = num))
    (Z.of_nat <$> seq 1 31)) syscall_lookup) as HF by (apply (bool_decide_unpack _); vm_compute; exact I).
  rewrite Forall_forall in HF. specialize (HF _ Hin). cbv beta iota in HF. rewrite Forall_forall in HF. apply HF.
  apply list_elem_of_fmap. exists (Z.to_nat n). split; [lia|]. apply elem_of_seq. lia.
Qed.

Section runs.
Context (sys : list call -> call -> Z).

Lemma wp_syscall_ c (Q : Z -> tio -> Prop) s : Q (sys (calls s) c) (s <| calls ::= fun l => l ++ [c] |>) -> wp (syscall_ sys c) Q s.
Proof. intros HQ. unfold syscall_. apply wp_bind, wp_gets. apply wp_bind, wp_modify. by apply wp_ret. Qed.

(** The paths up to the first failure, and the one that failed. *)
Fixpoint tried (mk : list Z -> call) (l : list call) (argv : list (list Z)) : list (list Z) * option (list Z) :=
  match argv with
  | [] => ([], None)
  | a :: argv' =>
      if sys l (mk a) <? 0 then ([a], Some a)
      else let '(ps, bad) := tried mk (l ++ [mk a]) argv' in (a :: ps, bad)
  end.

(** mkdir and rm make their call for each path in order, stop at the first
    that fails, and name it on the standard error. *)
Lemma wp_each_path mk before after argv (Q : unit -> tio -> Prop) s :
  plain before -> plain after ->
  (let '(ps, bad) := tried mk (calls s) argv in
   Q tt (mktio (tout s ++ match bad with Some a => put_text 2 (before ++ a ++ after) | None => [] end) (calls s ++ (mk <$> ps)))) ->
  wp (each_path sys mk before after argv) Q s.
Proof.
  intros Hb Ha. revert s. induction argv as [|a argv IH]; intros s HQ; cbn [each_path tried] in *.
  { apply wp_ret. destruct s. cbn in *. by rewrite !app_nil_r in HQ. }
  apply wp_bind, wp_syscall_. destruct (sys (calls s) (mk a) <? 0).
  - apply wp_fprintf_str; [done..|]. exact HQ.
  - apply IH. cbn [calls tout upd]. change (calls (s <| calls ::= fun l => l ++ [mk a] |>)) with (calls s ++ [mk a]).
    change (tout (s <| calls ::= fun l => l ++ [mk a] |>)) with (tout s).
    destruct (tried mk (calls s ++ [mk a]) argv) as [ps bad]. by rewrite <- app_assoc.
Qed.

Theorem mkdir_makes argv s : argv <> [] ->
  wp (mkdir_main sys argv) (fun c s' => c = 0 /\ let '(ps, bad) := tried Cmkdir (calls s) argv in
    calls s' = calls s ++ (Cmkdir <$> ps) /\
    tout s' = tout s ++ match bad with Some a => put_text 2 (str "mkdir: " ++ a ++ str " failed to create" ++ [10]) | None => [] end) s.
Proof.
  intros Hne. destruct argv as [|a argv]; [done|]. unfold mkdir_main. apply wp_bind, wp_each_path; [by split; [repeat constructor|]..|].
  destruct (tried Cmkdir (calls s) (a :: argv)) as [ps bad]. by apply wp_ret.
Qed.

Theorem rm_removes argv s : argv <> [] ->
  wp (rm_main sys argv) (fun c s' => c = 0 /\ let '(ps, bad) := tried Cunlink (calls s) argv in
    calls s' = calls s ++ (Cunlink <$> ps) /\
    tout s' = tout s ++ match bad with Some a => put_text 2 (str "rm: " ++ a ++ str " failed to delete" ++ [10]) | None => [] end) s.
Proof.
  intros Hne. destruct argv as [|a argv]; [done|]. unfold rm_main. apply wp_bind, wp_each_path; [by split; [repeat constructor|]..|].
  destruct (tried Cunlink (calls s) (a :: argv)) as [ps bad]. by apply wp_ret.
Qed.

(** trace with a name it knows asks the kernel for that system call, then
    runs the command with its arguments. *)
Theorem trace_runs name num cmd args s :
  (name, num) ∈ syscall_lookup ->
  wp (trace_main sys (str name :: cmd :: args)) (fun r s' =>
    calls s' = calls s ++ [Ctrace (2 ^ num); Cexec cmd (cmd :: args)] /\
    (r = None /\ tout s' = tout s \/ r = Some 1 /\ tout s' = tout s ++ put_text 1 (str "trace: exec " ++ cmd ++ str " failed" ++ [10]))) s.
Proof.
  intros Hin. assert (name_to_mask (str name) = 2 ^ num /\ name_to_mask (str name) <? 0 = false) as [Em Elt].
  {
    assert (Forall (fun '(name, num) => name_to_mask (str name) = 2 ^ num /\ name_to_mask (str name) <? 0 = false) syscall_lookup) as HF
      by (apply (bool_decide_unpack _); vm_compute; exact I).
    rewrite Forall_forall in HF. exact (HF _ Hin). }
  unfold trace_main. rewrite Elt. cbn [andb]. rewrite Em. apply wp_bind, wp_syscall_, wp_bind, wp_syscall_.
  destruct (sys _ _ <? 0).
  - apply wp_bind. apply (wp_fprintf_str 1 (str "trace: exec ") cmd (str " failed" ++ [10])); [by split; [repeat constructor|]..|].
    apply wp_ret. split; [by cbn; rewrite <- app_assoc|by right].
  - apply wp_ret. split; [by cbn; rewrite <- app_assoc|by left].
Qed.
End runs.

(** ** kill *)

Lemma atoi_str_numeral d : 0 <= d < 2 ^ 31 -> atoi_str (numeral 10 d) = d.
Proof.
  intros Hd. unfold atoi_str. set (st := mkust _ _).
  assert (wp (atoi 0) (fun v _ => v = d) st) as W.
  { destruct (numeral_digits d) as [HF Hv]; [lia|]. pose proof (numeral_length d ltac:(lia)).
    apply (wp_atoi 0 (numeral 10 d) 0); [done|done| |lia|lia|done].
    assert (Forall is_byte (numeral 10 d ++ [0])) as HB.
    { apply Forall_app. split; [|by repeat constructor]. eapply Forall_impl; [exact HF|]. intros c Hc. cbv beta in Hc. unfold is_digit in Hc.
      change (chr "0") with 48 in Hc. change (chr "9") with 57 in Hc. unfold is_byte. lia. }
    intros i Hi. pose proof (ldb_st_bytes _ ∅ 0 i HB Hi) as E. subst st. cbn [umem]. rewrite nth_lookup, <- E. done. }
  apply wp_inv in W as (v & s' & -> & ->). done.
Qed.

Section kill.
Context (sys : list call -> call -> Z).

Theorem kill_kills pids s : pids <> [] -> Forall (fun p => 0 <= p < 2 ^ 31) pids ->
  wp (kill_main sys (numeral 10 <$> pids)) (fun c s' => c = 0 /\ tout s' = tout s /\ calls s' = calls s ++ (Ckill <$> pids)) s.
Proof.
  intros Hne HF. assert (forall s (Q : unit -> tio -> Prop), Q tt (s <| calls ::= fun l => l ++ (Ckill <$> pids) |>) ->
    wp (kill_each sys (numeral 10 <$> pids)) Q s) as Hk.
  { clear Hne s. induction HF as [|p pids Hp HF IH]; intros s Q HQ; cbn [fmap list_fmap kill_each].
    - apply wp_ret. destruct s. unfold upd in HQ. cbn in HQ. by rewrite app_nil_r in HQ.
    - apply wp_bind, wp_syscall_. rewrite atoi_str_numeral by done. apply IH. unfold upd in *. cbn in *. by rewrite <- app_assoc. }
  destruct pids as [|p pids]; [done|]. unfold kill_main. cbn [fmap list_fmap]. apply wp_bind, Hk, wp_ret. done.
Qed.
End kill.

(** ** ls and listar *)

(** The start of the last name: the loop of [fmtname], with [n] one more than
    the index of [p]. *)
Fixpoint name_start (path : list Z) (n : nat) : nat :=
  match n with
  | O => 0%nat
  | S p => if nth p path 0 =? SLASH then S p else name_start path p
  end.

Definition fmtname (path : list Z) : list Z :=
  let p := drop (name_start path (S (length path))) path in
  if DIRSIZ <=? Z.of_nat (length p) then p else p ++ replicate (Z.to_nat DIRSIZ - length p) 32.

(** A directory entry as [read] delivers it, and the fields of [struct stat]. *)
Record de := mkde { d_inum : Z; d_name : list Z }.
Record st := mkst { st_type : Z; st_ino : Z; st_size : Z }.

Section listing.
(** What [open] and then [fstat] and the reads of whole entries give, and what [stat] gives. *)
Context (openf : list Z -> option (option st * list de)) (statf : list Z -> option st).

Definition ls_line (name : list Z) (s : st) : M tio unit :=
  fprintf 1 (str "%s %d %d %d" ++ [10]) [Astr name; Anum (st_type s); Anum (i32 (st_ino s)); Anum (i32 (st_size s))].

Fixpoint ls_entries (path : list Z) (des : list de) : M tio unit :=
  match des with
  | [] => mret tt
  | d :: des' =>
      (if d_inum d =? 0 then mret tt
       else
         let buf := path ++ [SLASH] ++ cname (d_name d) in
         match statf buf with
         | None => fprintf 1 (str "ls: cannot stat " ++ str "%s" ++ [10]) [Astr buf]
         | Some s => ls_line (fmtname buf) s
         end);;
      ls_entries path des'
  end.

Definition ls (path : list Z) : M tio unit :=
  match openf path with
  | None => fprintf 2 (str "ls: cannot open " ++ str "%s" ++ [10]) [Astr path]
  | Some (None, _) => fprintf 2 (str "ls: cannot stat " ++ str "%s" ++ [10]) [Astr path]
  | Some (Some s, des) =>
      if (st_type s =? T_DEVICE) || (st_type s =? T_FILE) then ls_line (fmtname path) s
      else if st_type s =? T_DIR then
        if 512 <? Z.of_nat (length path) + 1 + DIRSIZ + 1 then fprintf 1 (str "ls: path too long" ++ [10]) []
        else ls_entries path des
      else mret tt
  end.

Fixpoint ls_each (argv : list (list Z)) : M tio unit :=
  match argv with
  | [] => mret tt
  | a :: argv' => ls a;; ls_each argv'
  end.

Definition ls_main (argv : list (list Z)) : M tio Z :=
  match argv with
  | [] => ls (str ".");; mret 0
  | _ => ls_each argv;; mret 0
  end.

(** listar prints the name as a string: a name of [DIRSIZ] bytes goes on with
    [after], what the stack holds behind the entry. *)
Fixpoint listar_entries (after : list Z) (des : list de) : M tio unit :=
  match des with
  | [] => mret tt
  | d :: des' =>
      (if d_inum d =? 0 then mret tt else fprintf 1 ([] ++ str "%s" ++ [10]) [Astr (cname (d_name d ++ after))]);;
      listar_entries after des'
  end.

Definition listar_main (after : list Z) : M tio Z :=
  match openf (str ".") with
  | None => fprintf 1 (str "Error: no se pudo abrir el directorio" ++ [10]) [];; mret 1
  | Some (_, des) =>
      fprintf 1 (str "Contenido del directorio actual:" ++ [10]) [];;
      listar_entries after des;;
      mret 0
  end.
End listing.

(** ** What the listings print *)

Lemma name_start_spec path n : (n <= S (length path))%nat ->
  let k := name_start path n in (k <= n)%nat /\ (k <= length path)%nat /\ (k = 0%nat \/ nth (pred k) path 0 = SLASH) /\
  forall i, (k <= i < n)%nat -> nth i path 0 <> SLASH.
Proof.
  induction n as [|n IH]; intros Hn; cbn [name_start]; [split_and!; try lia; auto; lia|].
  destruct (Z.eqb_spec (nth n path 0) SLASH) as [E|E].
  - assert (n < length path)%nat.
    { destruct (decide (n < length path)%nat); [done|]. rewrite nth_overflow in E by lia. done. }
    split_and!; [lia|lia|by right|intros; lia].
  - destruct (IH ltac:(lia)) as (H1 & H2 & H3 & H4). split_and!; [lia|done|done|]. intros i Hi.
    destruct (decide (i = n)) as [->|]; [done|]. apply H4. lia.
Qed.

(** [fmtname] is the part behind the last slash, filled up with blanks to
    [DIRSIZ] bytes. *)
Theorem fmtname_spec path : exists dir base, path = dir ++ base /\ (SLASH ∉ base) /\ (dir = [] \/ last dir = Some SLASH) /\
  fmtname path = base ++ replicate (Z.to_nat DIRSIZ - length base) 32.
Proof.
  destruct (name_start_spec path (S (length path)) ltac:(lia)) as (_ & Hk & Hd & Hb). set (k := name_start path (S (length path))) in *.
  exists (take k path), (drop k path). split; [by rewrite take_drop|]. split; [|split].
  - intros Hin. apply list_elem_of_lookup in Hin as [i Hi]. pose proof (lookup_lt_Some _ _ _ Hi) as Hl. rewrite length_drop in Hl. rewrite lookup_drop in Hi.
    apply (Hb (k + i)%nat); [lia|]. by rewrite nth_lookup, Hi.
  - destruct Hd as [->|Hd]; [by left|]. destruct (decide (k = 0%nat)) as [->|Hk0]; [by left|right].
    rewrite last_lookup, length_take_le by done. rewrite lookup_take_lt by lia. destruct (lookup_lt_is_Some_2 path (pred k)) as [c Hc]; [lia|].
    rewrite nth_lookup, Hc in Hd. by rewrite Hc, <- Hd.
  - unfold fmtname. fold k. destruct (Z.leb_spec DIRSIZ (Z.of_nat (length (drop k path)))) as [H|H]; [|done].
    replace (Z.to_nat DIRSIZ - length (drop k path))%nat with 0%nat by lia. by rewrite app_nil_r.
Qed.

Section listing_spec.
Context (openf : list Z -> option (option st * list de)) (statf : list Z -> option st).

Definition line_text (name : list Z) (s : st) : list Z :=
  name ++ [32] ++ num_text 10 (st_type s) ++ [32] ++ num_text 10 (i32 (st_ino s)) ++ [32] ++ num_text 10 (i32 (st_size s)) ++ [10].

Lemma wp_ls_line name x (Q : unit -> tio -> Prop) s :
  - 2 ^ 15 <= st_type x < 2 ^ 15 -> Q tt (emit_out (put_text 1 (line_text name x)) s) -> wp (ls_line name x) Q s.
Proof.
  intros Ht HQ. unfold ls_line. pose proof (i32_range (st_ino x)). pose proof (i32_range (st_size x)).
  eapply (wp_fprintf 1 [Conv (Vstr (Some name)); Lit 32; Conv (Vint 0 (st_type x)); Lit 32; Conv (Vint 0 (i32 (st_ino x))); Lit 32;
    Conv (Vint 0 (i32 (st_size x))); Lit 10]); [reflexivity..| | |exact HQ]; [|done].
  repeat (apply Forall_cons_2; [first [exact I | by split | split; [lia|]; rewrite decide_True by done; lia]|]). by apply Forall_nil_2.
Qed.

(** The lines for the entries of a directory. *)
Definition dir_text (path : list Z) (des : list de) : list Z :=
  concat ((fun d => if d_inum d =? 0 then [] else
    let buf := path ++ [SLASH] ++ cname (d_name d) in
    match statf buf with None => str "ls: cannot stat " ++ buf ++ [10] | Some s => line_text (fmtname buf) s end) <$> des).

(** ls of a directory prints a line for each of its entries in use, in order. *)
Theorem ls_lists path x des s :
  openf path = Some (Some x, des) -> st_type x = T_DIR -> Z.of_nat (length path) <= 496 ->
  (forall p y, statf p = Some y -> - 2 ^ 15 <= st_type y < 2 ^ 15) ->
  wp (ls openf statf path) (fun _ s' => s' = emit_out (put_text 1 (dir_text path des)) s) s.
Proof.
  intros Ho Hx Hp Hst. unfold ls. rewrite Ho, Hx. change ((T_DIR =? T_DEVICE) || (T_DIR =? T_FILE)) with false. cbv iota.
  change (T_DIR =? T_DIR) with true. cbv iota. rewrite (proj2 (Z.ltb_ge 512 _)) by (change DIRSIZ with 14; lia). clear Ho.
  revert s. induction des as [|d des IH]; intros s; cbn [ls_entries].
  { apply wp_ret. by rewrite emit_out_nil. }
  assert (forall t s1, s1 = emit_out (put_text 1 t) s ->
    wp (ls_entries statf path des) (fun _ s' => s' = emit_out (put_text 1 (t ++ dir_text path des)) s) s1) as Hnext.
  { intros t s1 ->. eapply wp_mono; [apply IH|]. cbv beta. intros _ s' ->. apply emit_out_app. }
  apply wp_bind. unfold dir_text at 1. cbn [fmap list_fmap concat]. fold (dir_text path des). destruct (d_inum d =? 0).
  - apply wp_ret. apply Hnext. by rewrite emit_out_nil.
  - cbv zeta. destruct (statf (path ++ [SLASH] ++ cname (d_name d))) as [y|] eqn:Ey.
    + apply wp_ls_line; [by eapply Hst|]. by apply Hnext.
    + apply (wp_fprintf_str 1 (str "ls: cannot stat ") _ [10]); [by split; [repeat constructor|]..|]. by apply Hnext.
Qed.

(** listar prints the names of the entries in use; a name that fills its
    fourteen bytes is printed with what lies behind it. *)
Theorem listar_names after des x s :
  openf (str ".") = Some (x, des) ->
  wp (listar_main openf after) (fun c s' => c = 0 /\ s' = emit_out (put_text 1 (str "Contenido del directorio actual:" ++ [10] ++
    concat ((fun d => if d_inum d =? 0 then [] else cname (d_name d ++ after) ++ [10]) <$> des))) s) s.
Proof.
  intros Ho. unfold listar_main. rewrite Ho. apply wp_bind, wp_fprintf_plain; [by split; [repeat constructor|]|]. apply wp_bind.
  set (pre := str "Contenido del directorio actual:" ++ [10]). rewrite (app_assoc (str "Contenido del directorio actual:")). fold pre. clearbody pre. clear Ho.
  revert pre. induction des as [|d des IH]; intros pre; cbn [listar_entries fmap list_fmap concat].
  { do 2 apply wp_ret. split; [done|]. by rewrite app_nil_r. }
  apply wp_bind. rewrite (app_assoc pre). destruct (d_inum d =? 0).
  - apply wp_ret. rewrite app_nil_r. apply IH.
  - apply (wp_fprintf_str 1 []); [by split; [repeat constructor|]..|]. specialize (IH (pre ++ cname (d_name d ++ after) ++ [10])).
    rewrite emit_out_app. exact IH.
Qed.
End listing_spec.

(** ** The main of grep *)

Section grep_main.
(** The standard input, what the files hold, and how the system cuts an input
    into reads. *)
Context (stdin : list Z) (files : list Z -> option (list Z)) (rd : nat -> list Z -> nat).

(** [grep(pattern, fd)]: its output is that of Grep, on descriptor 1. *)
Definition grep_fd (pattern input : list Z) : M tio unit :=
  modify (emit_out (put_text 1 (grep rd (S (length input)) pattern [] input))).

Fixpoint grep_files (pattern : list Z) (argv : list (list Z)) : M tio Z :=
  match argv with
  | [] => mret 0
  | a :: argv' =>
      match files a with
      | None => fprintf 1 (str "grep: cannot open " ++ str "%s" ++ [10]) [Astr a];; mret 1
      | Some input => grep_fd pattern input;; grep_files pattern argv'
      end
  end.

Definition grep_main (argv : list (list Z)) : M tio Z :=
  match argv with
  | [] => fprintf 2 (str "usage: grep pattern [file ...]" ++ [10]) [];; mret 1
  | [pattern] => grep_fd pattern stdin;; mret 0
  | pattern :: argv' => grep_files pattern argv'
  end.

(** The lines of a text that match, and the output for a list of files: up to
    the first that cannot be opened. *)
Definition matching (pattern input : list Z) : list Z := selected pattern (lines_of input).1.

Fixpoint grep_text (pattern : list Z) (argv : list (list Z)) : list Z * Z :=
  match argv with
  | [] => ([], 0)
  | a :: argv' =>
      match files a with
      | None => (str "grep: cannot open " ++ a ++ [10], 1)
      | Some input => let '(t, c) := grep_text pattern argv' in (matching pattern input ++ t, c)
      end
  end.

Context (rd_le : forall k file, (rd k file <= k)%nat /\ (rd k file <= length file)%nat).
Context (rd_some : forall k file, rd k file = 0%nat -> k = 0%nat \/ file = []).

Lemma wp_grep_fd pattern input (Q : unit -> tio -> Prop) s :
  short_lines input -> Q tt (emit_out (put_text 1 (matching pattern input)) s) -> wp (grep_fd pattern input) Q s.
Proof using rd_le rd_some.
  intros Hs HQ. unfold grep_fd. apply wp_modify. by rewrite (grep_spec rd rd_le rd_some) by (lia || apply not_elem_of_nil || done).
Qed.

Lemma wp_grep_files pattern argv (Q : Z -> tio -> Prop) s :
  (forall a input, a ∈ argv -> files a = Some input -> short_lines input) ->
  Q (grep_text pattern argv).2 (emit_out (put_text 1 (grep_text pattern argv).1) s) -> wp (grep_files pattern argv) Q s.
Proof using rd_le rd_some.
  revert s. induction argv as [|a argv IH]; intros s Hs HQ; cbn [grep_files grep_text] in *.
  { apply wp_ret. by rewrite emit_out_nil in HQ. }
  destruct (files a) as [input|] eqn:Hf.
  - apply wp_bind, wp_grep_fd; [apply (Hs a); [by left|done]|]. destruct (grep_text pattern argv) as [t c]. apply IH.
    + intros b i Hb. apply (Hs b). by right.
    + by rewrite emit_out_app.
  - apply wp_bind. apply (wp_fprintf_str 1 (str "grep: cannot open ") a [10]); [by split; [repeat constructor|]..|]. by apply wp_ret.
Qed.

(** grep prints the matching lines of its files in order, or of its standard
    input when no file is named, and stops with code 1 at a file it cannot
    open. *)
Theorem grep_greps pattern argv s :
  short_lines stdin -> (forall a input, a ∈ argv -> files a = Some input -> short_lines input) ->
  wp (grep_main (pattern :: argv)) (fun c s' =>
    (s', c) = match argv with
              | [] => (emit_out (put_text 1 (matching pattern stdin)) s, 0)
              | _ => (emit_out (put_text 1 (grep_text pattern argv).1) s, (grep_text pattern argv).2)
              end) s.
Proof using rd_le rd_some.
  intros Hi Hs. unfold grep_main. destruct argv as [|a argv].
  - apply wp_bind, wp_grep_fd; [done|]. by apply wp_ret.
  - by apply wp_grep_files.
Qed.
End grep_main.
