(* ===== verification/Uinit.v ===== *)
(** * user/init.c: the first user program

    [init] opens the console as its three standard files, keeps one shell
    running, and collects the processes that lost their parent.  The program
    never ends by itself, so it is a machine whose state is the system call it
    is in: [init_next] says what it prints and which call it makes next, given
    what the call returned.  The kernel's side of the calls, the exits of the
    children and the adoption of orphans are the steps of the system, in any
    order.  A kill of [init] itself, which the kernel answers with a panic, is
    left out. *)

From S2P Require Import Prelude.

(** The calls of [main]; [Exec] is made by the child only. *)
Inductive ipc := Open1 | Mknod | Open2 | Dup1 | Dup2 | Fork | Exec | Wait (pid : Z) | Exited (code : Z).

Definition starting : list Z := str "init: starting sh" ++ [10].

Definition init_next (p : ipc) (r : Z) : list Z * ipc :=
  match p with
  | Open1 => ([], if r <? 0 then Mknod else Dup1)
  | Mknod => ([], Open2)
  | Open2 => ([], Dup1)
  | Dup1 => ([], Dup2)
  | Dup2 => (starting, Fork)
  | Fork =>
      if r <? 0 then (str "init: fork failed" ++ [10], Exited 1)
      else if r =? 0 then ([], Exec)
      else ([], Wait r)
  | Exec => (str "init: exec sh failed" ++ [10], Exited 1)
  | Wait pid =>
      if r =? pid then (starting, Fork)
      else if r <? 0 then (str "init: wait returned an error" ++ [10], Exited 1)
      else ([], Wait pid)
  | Exited code => ([], Exited code)
  end.

(** ** The system around it *)

Inductive obj := Console.

(** A child runs the code of [init] after [fork], or a program, or has exited. *)
Inductive child := At (p : ipc) | Program | Zombie.

Record isys := mkisys {
  pc : ipc;
  ifds : list obj;
  node : bool;                (* the path "console" exists *)
  kids : gmap Z child;        (* the processes whose parent is init *)
  shells : gset Z;            (* those it forked and has not waited for *)
  nofork : bool;              (* a fork has failed *)
  said : list Z               (* what reached the console *)
}.

#[export] Instance eta_isys : Eta isys := fun x => mkisys (pc x) (ifds x) (node x) (kids x) (shells x) (nofork x) (said x).

(** [printf] writes to descriptor 1, if it is open. *)
Definition say (t : list Z) (s : isys) : isys := match ifds s !! 1%nat with Some _ => s <| said ::= fun o => o ++ t |> | None => s end.

(** The call returns [r]. *)
Definition return_ (r : Z) (s : isys) : isys := let '(t, p) := init_next (pc s) r in say t (s <| pc := p |>).

(** The least free descriptor is the length of the table: nothing is closed. *)
Definition add_fd (o : obj) (s : isys) : isys := s <| ifds ::= fun l => l ++ [o] |>.

Inductive step : isys -> isys -> Prop :=
  | open_ok s : pc s = Open1 \/ pc s = Open2 -> node s = true ->
      step s (return_ (Z.of_nat (length (ifds s))) (add_fd Console s))
  | open_fails s : pc s = Open1 \/ pc s = Open2 -> step s (return_ (-1) s)
  | mknod_ok s : pc s = Mknod -> step s (return_ 0 (s <| node := true |>))
  | mknod_fails s : pc s = Mknod -> step s (return_ (-1) s)
  | dup_ok s o : pc s = Dup1 \/ pc s = Dup2 -> ifds s !! 0%nat = Some o ->
      step s (return_ (Z.of_nat (length (ifds s))) (add_fd o s))
  | dup_fails s : pc s = Dup1 \/ pc s = Dup2 -> ifds s !! 0%nat = None -> step s (return_ (-1) s)
  | fork_ok s pid : pc s = Fork -> 0 < pid -> kids s !! pid = None ->
      step s (return_ pid (s <| kids ::= <[pid := At (init_next Fork 0).2]> |> <| shells ::= union {[pid]} |>))
  | fork_fails s : pc s = Fork -> step s (return_ (-1) (s <| nofork := true |>))
  | wait_zombie s me pid : pc s = Wait me -> kids s !! pid = Some Zombie ->
      step s (return_ pid (s <| kids ::= delete pid |> <| shells ::= fun x => x ∖ {[pid]} |>))
  | wait_nobody s me : pc s = Wait me -> kids s = ∅ -> step s (return_ (-1) s)
  | exec_ok s pid : kids s !! pid = Some (At Exec) -> step s (s <| kids ::= <[pid := Program]> |>)
  | exec_fails s pid : kids s !! pid = Some (At Exec) ->
      step s (say (init_next Exec (-1)).1 (s <| kids ::= <[pid := Zombie]> |>))
  | exits s pid : kids s !! pid = Some Program -> step s (s <| kids ::= <[pid := Zombie]> |>)
  | adopts s pid c : 0 < pid -> kids s !! pid = None -> c = Program \/ c = Zombie -> step s (s <| kids ::= <[pid := c]> |>).

Definition boot_state (n : bool) : isys := mkisys Open1 [] n ∅ ∅ false [].

Inductive reaches : isys -> Prop :=
  | reaches_boot n : reaches (boot_state n)
  | reaches_step s s' : reaches s -> step s s' -> reaches s'.

(** ** The invariant *)

(** How many descriptors are open at each call when the console could be opened. *)
Definition opened (p : ipc) : nat := match p with Open1 | Mknod | Open2 => 0 | Dup1 => 1 | Dup2 => 2 | _ => 3 end.

Record init_ok (s : isys) : Prop := {
  io_fds : ifds s = [] \/ ifds s = replicate (opened (pc s)) Console;
  io_shells : shells s = match pc s with Wait pid => {[pid]} | _ => ∅ end;
  io_kids : forall pid, pid ∈ shells s -> is_Some (kids s !! pid);
  io_child : forall pid p, kids s !! pid = Some (At p) -> p = Exec;
  io_pos : forall pid, is_Some (kids s !! pid) -> 0 < pid;
  io_parent : pc s <> Exec;
  io_exit : forall c, pc s = Exited c -> c = 1 /\ nofork s = true
}.

Ltac unrec := cbv beta zeta iota delta [upd pc ifds node kids shells nofork said] in *.

Lemma say_ok t s : init_ok s -> init_ok (say t s).
Proof. intros H. unfold say. destruct (ifds s !! 1%nat); [|done]. destruct s, H. by constructor. Qed.

(** Changes to the children that keep the shell among them. *)
Lemma kids_ok s pid c :
  init_ok s -> 0 < pid -> (forall p, c = At p -> p = Exec) -> init_ok (s <| kids ::= <[pid := c]> |>).
Proof.
  intros [] Hp Hc. destruct s. unrec. constructor; unrec; [done|done|..].
  - intros q Hq. destruct (decide (q = pid)) as [->|]; [by rewrite lookup_insert_eq|]. rewrite lookup_insert_ne by done. auto.
  - intros q p. destruct (decide (q = pid)) as [->|]; [rewrite lookup_insert_eq; intros [=]; auto|]. rewrite lookup_insert_ne by done. eauto.
  - intros q Hq. destruct (decide (q = pid)) as [->|]; [done|]. rewrite lookup_insert_ne in Hq by done. auto.
  - done.
  - done.
Qed.

(** The state before a return, with the next call in it. *)
Lemma return_ok r p t s : init_next (pc s) r = (t, p) -> init_ok (s <| pc := p |>) -> init_ok (return_ r s).
Proof. intros E H. unfold return_. rewrite E. by apply say_ok. Qed.

(** A call other than [fork] and [wait] changes neither children nor shells. *)
Lemma move_ok s p l n f :
  init_ok s -> (forall me, pc s <> Wait me) -> (forall me, p <> Wait me) -> p <> Exec ->
  l = [] \/ l = replicate (opened p) Console -> (forall c, p = Exited c -> c = 1 /\ f = true) ->
  init_ok (mkisys p l n (kids s) (shells s) f (said s)).
Proof.
  intros [] Hs Hp He Hl Hx. destruct s as [q ? ? ? sh ? ?]. unrec.
  assert (sh = ∅) as -> by (destruct q; try done; by destruct (Hs pid)).
  constructor; unrec; try done. destruct p; try done. by destruct (Hp pid).
Qed.

Lemma forked_ok s pid :
  init_ok s -> pc s = Fork -> 0 < pid -> kids s !! pid = None ->
  init_ok (return_ pid (s <| kids ::= <[pid := At (init_next Fork 0).2]> |> <| shells ::= union {[pid]} |>)).
Proof.
  intros H Hpc Hpid Hk. apply (return_ok _ (Wait pid) []).
  { destruct s. unrec. subst pc0. cbn [init_next]. by rewrite (proj2 (Z.ltb_ge pid 0)), (proj2 (Z.eqb_neq pid 0)) by lia. }
  apply (kids_ok s pid (At Exec)) in H as [H1 H2 H3 H4 H5 H6 H7]; [|done|by intros p [= <-]].
  destruct s. unrec. subst pc0. constructor; unrec; [exact H1| | |done|done|done|done].
  - rewrite H2. by rewrite (right_id_L ∅ (∪)).
  - rewrite H2, (right_id_L ∅ (∪)). intros q ->%elem_of_singleton. by rewrite lookup_insert_eq.
Qed.

Lemma waited_ok s me pid :
  init_ok s -> pc s = Wait me -> kids s !! pid = Some Zombie ->
  init_ok (return_ pid (s <| kids ::= delete pid |> <| shells ::= fun x => x ∖ {[pid]} |>)).
Proof.
  intros H Hpc Hk. assert (0 < pid) as Hpos by (destruct H; eauto).
  apply (return_ok _ (if pid =? me then Fork else Wait me) (if pid =? me then starting else [])).
  { destruct s. unrec. subst pc0. cbn [init_next]. rewrite (proj2 (Z.ltb_ge pid 0)) by lia. by destruct (pid =? me). }
  destruct H as [H1 H2 H3 H4 H5 H6 H7]. destruct s. unrec. subst pc0.
  constructor; unrec.
  - by destruct (pid =? me).
  - rewrite H2. destruct (Z.eqb_spec pid me) as [->|]; [by rewrite difference_diag_L|]. by rewrite difference_disjoint_L by set_solver.
  - intros q [Hq Hq'%not_elem_of_singleton]%elem_of_difference. rewrite lookup_delete_ne by done. auto.
  - intros q p [_ Hq]%lookup_delete_Some. eauto.
  - intros q [c [_ Hq]%lookup_delete_Some]. eauto.
  - by destruct (pid =? me).
  - by destruct (pid =? me).
Qed.

(** The kernel's answers in a state of the invariant keep it. *)
Lemma step_ok s s' : init_ok s -> step s s' -> init_ok s'.
Proof.
  intros H. destruct 1 as [s Hpc Hn|s Hpc|s Hpc|s Hpc|s o Hpc Ho|s Hpc Ho|s pid Hpc Hpid Hk|s Hpc|s me pid Hpc Hk|s me Hpc Hk|s pid Hk|s pid Hk|s pid Hk|s pid c Hpid Hk Hc].
  7: by apply forked_ok.
  8: by eapply waited_ok.
  8: { destruct H as [_ H2 H3 _ _ _ _]. rewrite Hpc in H2. destruct (H3 me) as [c Hc]; [rewrite H2; by apply elem_of_singleton|]. by rewrite Hk in Hc. }
  8: { apply kids_ok; [done| |done]. destruct H; eauto. }
  8: { apply say_ok, kids_ok; [done| |done]. destruct H; eauto. }
  8: { apply kids_ok; [done| |done]. destruct H; eauto. }
  8: { apply kids_ok; [done..|]. by destruct Hc as [-> | ->]. }
  all: pose proof (io_fds s H) as Hf.
  all: try destruct Hpc as [Hpc|Hpc]; destruct s as [q l n k sh f t]; cbn [pc ifds node] in *; subst q.
  all: destruct Hf as [-> | ->]; try (cbn in Ho; simplify_eq).
  all: eapply return_ok; [by cbn|unrec; refine (move_ok _ _ _ _ _ H _ _ _ _ _)]; cbn; auto; try done.
  all: by intros c [= <-].
Qed.

Lemma reaches_ok s : reaches s -> init_ok s.
Proof. induction 1 as [n|s s' _ IH Hs]; [|by eapply step_ok]. constructor; cbn; try set_solver; auto; intros; by destruct H. Qed.

(** ** What init guarantees *)

(** While [init] waits, exactly one shell it started is among its children;
    between two waits there is none.  It ends only after a failed [fork]: its
    [wait] never fails. *)
Theorem init_keeps_one_shell s :
  reaches s ->
  match pc s with
  | Wait pid => shells s = {[pid]} /\ is_Some (kids s !! pid)
  | Exited c => c = 1 /\ nofork s = true
  | _ => shells s = ∅
  end.
Proof.
  intros [_ H2 H3 _ _ _ H7]%reaches_ok. destruct (pc s) as [| | | | | | |pid|c]; auto.
  split; [done|]. apply H3. rewrite H2. by apply elem_of_singleton.
Qed.

(** The shell starts with the console as its three standard files, or with no
    file when the console could not be opened. *)
Theorem init_standard_files s :
  reaches s -> pc s = Fork \/ (exists pid, pc s = Wait pid) -> ifds s = [] \/ ifds s = [Console; Console; Console].
Proof. intros [H1 _ _ _ _ _ _]%reaches_ok [E|[pid E]]; by rewrite E in H1. Qed.

(** [init] is never stuck: while it runs, it or the child it waits for can go on. *)
Theorem init_progress s : reaches s -> (exists c, pc s = Exited c) \/ exists s', step s s'.
Proof.
  intros H. pose proof (reaches_ok s H) as [H1 H2 H3 H4 H5 H6 _]. destruct (pc s) as [| | | | | | |pid|c] eqn:E; [right..|left; eauto].
  - eexists. apply open_fails. auto.
  - eexists. by apply mknod_fails.
  - eexists. apply open_fails. auto.
  - destruct (ifds s !! 0%nat) eqn:?; eexists; [eapply dup_ok|apply dup_fails]; eauto.
  - destruct (ifds s !! 0%nat) eqn:?; eexists; [eapply dup_ok|apply dup_fails]; eauto.
  - eexists. by apply fork_fails.
  - done.
  - destruct (H3 pid) as [c Hc]; [rewrite H2; by apply elem_of_singleton|].
    destruct c as [p| |]; [rewrite (H4 _ _ Hc) in Hc|..]; eexists; [eapply exec_ok|eapply exits|eapply wait_zombie]; eauto.
Qed.

(** When the shell has exited, [wait] collects it and [init] announces and
    starts the next one. *)
Theorem init_restarts s pid :
  reaches s -> pc s = Wait pid -> kids s !! pid = Some Zombie ->
  exists s', step s s' /\ pc s' = Fork /\ shells s' = ∅ /\ kids s' = delete pid (kids s) /\
    said s' = said s ++ (if decide (ifds s = []) then [] else starting).
Proof.
  intros H Hpc Hk. pose proof (reaches_ok s H) as [H1 H2 _ _ _ _ _]. eexists. split; [by eapply wait_zombie|].
  destruct s as [q l n k sh f t]. cbn in Hpc, H1, H2. subst q sh. unfold return_. cbn [pc init_next upd]. rewrite Z.eqb_refl.
  destruct H1 as [-> | ->]; cbn; (split; [done|]); (split; [apply difference_diag_L|]); (split; [done|]); [by rewrite app_nil_r|done].
Qed.

(** From the power-on state without a console node: [init] makes it, opens it,
    and starts a shell that exits and is replaced. *)
Example init_run : exists s, reaches s /\ pc s = Wait 2 /\ ifds s = [Console; Console; Console] /\ said s = starting ++ starting.
Proof.
  eexists. split.
  - eapply reaches_step; [|apply fork_ok with (pid := 2)].
    eapply reaches_step; [|eapply wait_zombie with (pid := 2)].
    eapply reaches_step; [|apply exits with (pid := 2)].
    eapply reaches_step; [|apply exec_ok with (pid := 2)].
    eapply reaches_step; [|apply fork_ok with (pid := 2)].
    eapply reaches_step; [|apply dup_ok]. eapply reaches_step; [|apply dup_ok].
    eapply reaches_step; [|apply open_ok]. eapply reaches_step; [|apply mknod_ok].
    eapply reaches_step; [|apply open_fails]. apply (reaches_boot false).
    all: vm_compute; auto.
  - by vm_compute.
Qed.
