(* ===== verification/Upipes.v ===== *)
(** * user/pipes.c: two processes and a pipe

    The demonstrations in which a parent writes to a pipe and a child reads
    from it until the end of the data.  The kernel's pipe is what PipeSpec
    proves of it: a queue of at most [PIPESIZE] bytes, a write that waits for
    room and may proceed in pieces, a read that waits for bytes and returns
    some of them, an end of data once no process has the write end open.  The
    steps of the two processes interleave in any order.  Every run ends, with
    the child having read exactly what the parent wrote ([pipe_transfers]); the
    child must close its own write end for that ([without_close_stuck]). *)

From stdpp Require Import relations.
From S2P Require Import Prelude KState.
From Stdlib Require Import Ascii.

Inductive pend := Rd | Wr.

(** The calls of the demonstrations.  [Write bs] is [write_exact] with [bs] left
    to write; [ReadLoop n] is the loop that reads at most [n] bytes at a time
    until [read] returns 0; [WaitChild] is [wait(0)]. *)
Inductive pinstr := Close (e : pend) | Write (bs : list Z) | ReadLoop (n : nat) | Pause | WaitChild.

Record process := mkprocess { code : list pinstr; has_rd : bool; has_wr : bool }.

Record psys := mkpsys { par : process; kid : process; queue : list Z; got : list Z; eof : bool }.

#[export] Instance eta_process : Eta process := fun x => mkprocess (code x) (has_rd x) (has_wr x).
#[export] Instance eta_psys : Eta psys := fun x => mkpsys (par x) (kid x) (queue x) (got x) (eof x).

Definition close_end (e : pend) (p : process) : process := match e with Rd => p <| has_rd := false |> | Wr => p <| has_wr := false |> end.

(** [write_exact] in a process: the kernel takes a piece that fits, or all is
    written, or there is no reader and [write] returns -1. *)
Inductive write_step (p : process) (readers : bool) (q : list Z) : process -> list Z -> Prop :=
  | w_piece w bs c : code p = Write (w ++ bs) :: c -> w <> [] -> readers = true -> has_wr p = true ->
      Z.of_nat (length q + length w) <= PIPESIZE -> write_step p readers q (p <| code := Write bs :: c |>) (q ++ w)
  | w_done c : code p = Write [] :: c -> write_step p readers q (p <| code := c |>) q
  | w_broken bs c : code p = Write bs :: c -> bs <> [] -> readers = false -> write_step p readers q (p <| code := c |>) q.

(** The loop of the reader: a piece of the queue, or the end of the data. *)
Inductive read_step (p : process) (writers : bool) (q : list Z) : process -> list Z -> list Z -> bool -> Prop :=
  | r_piece n w q' c : code p = ReadLoop n :: c -> has_rd p = true -> q = w ++ q' -> w <> [] -> (length w <= n)%nat ->
      read_step p writers q p q' w false
  | r_eof n c : code p = ReadLoop n :: c -> q = [] -> writers = false -> read_step p writers q (p <| code := c |>) q [] true.

(** The calls that do not touch the queue. *)
Inductive local_step (p other : process) : process -> Prop :=
  | l_close e c : code p = Close e :: c -> local_step p other (close_end e (p <| code := c |>))
  | l_pause c : code p = Pause :: c -> local_step p other (p <| code := c |>)
  | l_wait c : code p = WaitChild :: c -> code other = [] -> local_step p other (p <| code := c |>).

(** The parent writes and the child reads. *)
Inductive step : psys -> psys -> Prop :=
  | s_par s p : local_step (par s) (kid s) p -> step s (s <| par := p |>)
  | s_kid s p : local_step (kid s) (par s) p -> step s (s <| kid := p |>)
  | s_write s p q : write_step (par s) (has_rd (par s) || has_rd (kid s)) (queue s) p q -> step s (s <| par := p |> <| queue := q |>)
  | s_read s p q w e : read_step (kid s) (has_wr (par s) || has_wr (kid s)) (queue s) p q w e ->
      step s (s <| kid := p |> <| queue := q |> <| got ::= fun g => g ++ w |> <| eof := e |>).

(** After [fork] both processes have both ends. *)
Definition forked (pc kc : list pinstr) : psys := mkpsys (mkprocess pc true true) (mkprocess kc true true) [] [] false.

(** ** The demonstrations *)

Definition line1 : list Z := str "linea-1 en pipe" ++ [10].
Definition line2 : list Z := str "linea-2 en pipe" ++ [10].

Definition demo_fork_herencia : psys :=
  forked [Write line1; Write line2; Close Wr; WaitChild; Close Rd] [Close Wr; ReadLoop 64; Close Rd].

(** [fill_pattern(buf, n, base)]. *)
Definition fill_pattern (n : nat) (base : Z) : list Z := (fun i => u8 (base + Z.of_nat i `mod` 26)) <$> seq 0 n.

Definition demo_bloqueo_lleno : psys :=
  forked [Close Rd; Write (fill_pattern 2000 (chr "a")); Close Wr; WaitChild] [Close Wr; Pause; ReadLoop 128; Close Rd].

Definition wc_data : list Z := str "hola mundo" ++ [10] ++ str "segunda linea" ++ [10].

(** The child makes the pipe its standard input, closes both ends of its own and
    becomes wc, which reads its input to the end and exits: the read end stays
    open as descriptor 0 until then. *)
Definition demo_dup_exec_wc : psys :=
  forked [Close Rd; Write wc_data; Close Wr; WaitChild] [Close Wr; ReadLoop 512; Close Rd].

(** ** Producers and consumers *)

(** What is left to write. *)
Fixpoint to_write (c : list pinstr) : list Z :=
  match c with
  | [] => []
  | Write bs :: c' => bs ++ to_write c'
  | _ :: c' => to_write c'
  end.

(** Code that writes while its write end is open, then closes it and waits. *)
Inductive producer : list pinstr -> bool -> Prop :=
  | pr_end : producer [] false
  | pr_wait c : producer c false -> producer (WaitChild :: c) false
  | pr_close_wr c : producer c false -> producer (Close Wr :: c) true
  | pr_write bs c : producer c true -> producer (Write bs :: c) true
  | pr_pause c : producer c true -> producer (Pause :: c) true
  | pr_close_rd c w : producer c w -> producer (Close Rd :: c) w.

(** Code that closes the write end it inherited, reads to the end and closes
    the read end: the flags say which ends are open and whether it saw the end. *)
Inductive consumer : list pinstr -> bool -> bool -> bool -> Prop :=
  | co_end : consumer [] false false true
  | co_close_rd : consumer [Close Rd] false true true
  | co_loop n : (0 < n)%nat -> consumer [ReadLoop n; Close Rd] false true false
  | co_pause c : consumer c false true false -> consumer (Pause :: c) false true false
  | co_close_wr c : consumer c false true false -> consumer (Close Wr :: c) true true false.

Record transfer (data : list Z) (s : psys) : Prop := {
  tr_par : producer (code (par s)) (has_wr (par s));
  tr_kid : consumer (code (kid s)) (has_wr (kid s)) (has_rd (kid s)) (eof s);
  tr_data : data = got s ++ queue s ++ to_write (code (par s));
  tr_eof : eof s = true -> has_wr (par s) = false /\ queue s = []
}.

Lemma producer_closed c : producer c false -> to_write c = [].
Proof. remember false as w eqn:E. induction 1; try done; auto. Qed.

Ltac unsys := cbv beta zeta iota delta [upd close_end par kid queue got eof code has_rd has_wr] in *.

Lemma step_transfer data s s' : transfer data s -> step s s' -> transfer data s'.
Proof.
  intros [Hp Hk Hd He] Hs. destruct Hs as [s p Hl|s p Hl|s p q Hw|s p q w e Hr]; destruct s as [[pc prd pwr] [kc krd kwr] q0 g e0]; unsys.
  - destruct Hl as [e c E|c E|c E _]; unsys; subst pc; inversion Hp; subst; constructor; unsys; try done.
    intros H. destruct (He H); done.
  - destruct Hl as [e c E|c E|c E _]; unsys; subst kc; inversion Hk; subst; constructor; unsys; try done; constructor.
  - destruct Hw as [w bs c E Hw Hrd Hwr Hroom|c E|bs c E Hne Hrd]; unsys; subst pc; inversion Hp; subst; constructor; unsys; try done.
    + by constructor.
    + cbn [to_write]. by rewrite <- !(assoc_L (++)).
    + intros H. by destruct (He H).
    + apply orb_false_iff in Hrd as [_ Hrd]. subst krd. inversion Hk; subst. by destruct (He eq_refl).
  - destruct Hr as [n w q' c E Hrd Hq Hw Hn|n c E Hq Hwr]; unsys; subst kc; inversion Hk; subst; constructor; unsys; try done; try constructor; try done.
    + by rewrite <- !(assoc_L (++)).
    + by rewrite app_nil_r.
    + by apply orb_false_iff in Hwr as [? _].
Qed.

(** ** Every run ends, and not before the data has arrived *)

Definition finished (s : psys) : Prop := code (par s) = [] /\ code (kid s) = [].

Definition measure (s : psys) : nat :=
  (2 * length (to_write (code (par s))) + length (queue s) + length (code (par s)) + length (code (kid s)))%nat.

Lemma nonempty_length {A} (l : list A) : l <> [] -> (0 < length l)%nat.
Proof. destruct l; [done|cbn; lia]. Qed.

Lemma step_measure data s s' : transfer data s -> step s s' -> (measure s' < measure s)%nat.
Proof.
  intros [Hp Hk Hd He] Hs. unfold measure. destruct Hs as [s p Hl|s p Hl|s p q Hw|s p q w e Hr]; destruct s as [[pc prd pwr] [kc krd kwr] q0 g e0]; unsys.
  - destruct Hl as [[|] c E|c E|c E _]; unsys; subst pc; cbn [to_write length]; lia.
  - destruct Hl as [[|] c E|c E|c E _]; unsys; subst kc; cbn [length]; lia.
  - destruct Hw as [w bs c E Hw Hrd Hwr Hroom|c E|bs c E Hne Hrd]; unsys; subst pc; cbn [to_write length]; rewrite ?length_app; [|cbn; lia|lia].
    apply nonempty_length in Hw. lia.
  - destruct Hr as [n w q' c E Hrd Hq Hw Hn|n c E Hq Hwr]; unsys; subst; [|cbn [length]; lia].
    rewrite length_app. apply nonempty_length in Hw. lia.
Qed.

(** The parent can go on while the pipe is empty and the child still reads. *)
Lemma producer_goes_on s : producer (code (par s)) true -> has_wr (par s) = true -> has_rd (kid s) = true -> queue s = [] ->
  exists s', step s s'.
Proof.
  intros Hp Hw Hr Hq. destruct s as [[pc prd pwr] [kc krd kwr] q0 g e0]; unsys. subst pwr krd q0.
  inversion Hp as [| |c Hc E|bs c Hc E|c Hc E|c w Hc E]; subst pc.
  - eexists. apply s_par. by eapply l_close.
  - destruct bs as [|b bs]; eexists; apply s_write; [by eapply w_done|].
    eapply (w_piece _ _ _ [b] bs); [done|done|by rewrite orb_true_r|done|done].
  - eexists. apply s_par. by eapply l_pause.
  - eexists. apply s_par. by eapply l_close.
Qed.

Lemma transfer_goes_on data s : transfer data s -> ~ finished s -> exists s', step s s'.
Proof.
  intros [Hp Hk Hd He] Hf. destruct s as [[pc prd pwr] [kc krd kwr] q0 g e0]; unfold finished in Hf; unsys.
  inversion Hk as [E|E|n Hn E|c Hc E|c Hc E]; subst kc kwr krd e0.
  - destruct (He eq_refl) as [-> ->]. inversion Hp as [E|c Hc E| | | |c w Hc E]; subst pc; [by destruct Hf| |].
    + eexists. apply s_par. by eapply l_wait.
    + eexists. apply s_par. by eapply l_close.
  - eexists. apply s_kid. by eapply l_close.
  - destruct q0 as [|b q0]; [|eexists; eapply s_read, (r_piece _ _ _ n [b] q0); [done|done|done|done|cbn; lia]].
    destruct pwr; [by apply producer_goes_on|]. eexists. eapply s_read. by eapply r_eof.
  - eexists. apply s_kid. by eapply l_pause.
  - eexists. apply s_kid. by eapply l_close.
Qed.

(** A producer and a consumer on a pipe, in any interleaving: no run has more
    steps than [measure] allows, a run only stops when both have finished, and
    then the child has read exactly what the parent wrote, and its end. *)
Theorem pipe_transfers data s n s' :
  transfer data s -> nsteps step n s s' ->
  (n <= measure s)%nat /\ (finished s' -> got s' = data /\ eof s' = true) /\ (~ finished s' -> exists s'', step s' s'').
Proof.
  intros Ht Hn. assert (transfer data s' /\ (n + measure s' <= measure s)%nat) as [Ht' Hm].
  { induction Hn as [|n s s1 s2 Hs _ IH]; [split; [done|lia]|]. pose proof (step_measure _ _ _ Ht Hs).
    destruct IH as [? ?]; [by eapply step_transfer|]. split; [done|lia]. }
  split; [lia|]. split; [|by eapply transfer_goes_on].
  destruct Ht' as [Hp Hk Hd He]. intros [Ep Ek]. rewrite Ek in Hk. rewrite Ep in Hd. inversion Hk as [E| | | |]. split; [|done].
  destruct He as [_ Hq]; [done|]. rewrite Hd, Hq. cbn. by rewrite app_nil_r.
Qed.

(** The demonstrations start as transfers of their data. *)
Lemma herencia_transfer : transfer (line1 ++ line2) demo_fork_herencia.
Proof. constructor; cbn [demo_fork_herencia forked par kid code has_wr has_rd eof]; [repeat constructor|repeat constructor; lia|reflexivity|done]. Qed.

Lemma lleno_transfer : transfer (fill_pattern 2000 (chr "a")) demo_bloqueo_lleno.
Proof.
  constructor; cbn [demo_bloqueo_lleno forked par kid code has_wr has_rd eof queue got to_write]; [repeat constructor|repeat constructor; lia| |done].
  by rewrite app_nil_r.
Qed.

Lemma wc_transfer : transfer wc_data demo_dup_exec_wc.
Proof. constructor; cbn [demo_dup_exec_wc forked par kid code has_wr has_rd eof]; [repeat constructor|repeat constructor; lia|reflexivity|done]. Qed.

(** [demo_bloqueo_lleno]: the child counts the 2000 bytes, in every run. *)
Corollary lleno_counts n s : nsteps step n demo_bloqueo_lleno s -> finished s -> length (got s) = 2000%nat.
Proof.
  intros Hn Hf. destruct (pipe_transfers _ _ _ _ lleno_transfer Hn) as (_ & H & _). destruct (H Hf) as [-> _].
  unfold fill_pattern. by rewrite length_fmap, length_seq.
Qed.

(** A child that keeps the write end it inherited never sees the end of the
    data: both processes wait for ever. *)
Lemma without_close_stuck :
  exists s, rtc step (forked [Write [1]; Close Wr; WaitChild] [ReadLoop 64; Close Rd]) s /\ ~ finished s /\ forall s', ~ step s s'.
Proof.
  exists (mkpsys (mkprocess [WaitChild] true false) (mkprocess [ReadLoop 64; Close Rd] true true) [] [1] false). split; [|split; [by intros [? _]|]].
  - eapply rtc_l; [apply s_write, (w_piece _ _ _ [1] []); [done|done|done|done|done]|].
    eapply rtc_l; [apply s_write; by eapply w_done|]. eapply rtc_l; [apply s_par; by eapply l_close|].
    eapply rtc_l; [eapply s_read, (r_piece _ _ _ 64 [1] []); [done|done|done|done|cbn; lia]|]. apply rtc_refl.
  - intros s' Hs. inversion Hs as [? ? Hl|? ? Hl|? ? ? Hw|? ? ? ? ? Hr]; subst; [inversion Hl|inversion Hl|inversion Hw|inversion Hr]; unsys; simplify_eq/=.
    by destruct w.
Qed.
