(* ===== verification/ShMain.v ===== *)
(** * user/sh.c: the shell as a whole

    [main] of the shell, from the bytes of its standard input to the programs
    that run: [getcmd] reads a line into the buffer, the shell changes the
    directory itself, and a child parses and runs every other line.  The state
    is the memory with the input, what the shell writes, its open files, the
    directories it changed to, and the programs started (ShRun).  What the
    children write when a line has no command in it, or a file does not open,
    is not part of the state. *)

From S2P Require Import Prelude CMem KState Sh ShRun Printf Uprintf Ulib Uprog.
From Stdlib Require Import Ascii.

Record shst := mkshst { su : ust; sout : output; swork : world; sfds : fdtable; dirs : list (list Z) }.

#[export] Instance eta_shst : Eta shst := fun x => mkshst (su x) (sout x) (swork x) (sfds x) (dirs x).

#[export, program] Instance lens_su : Lens shst ust := { lget := su; lset := fun u s => s <| su := u |> }.
Solve Obligations with by intros; repeat match goal with x : shst |- _ => destruct x end.

#[export, program] Instance lens_sout : Lens shst output := { lget := sout; lset := fun o s => s <| sout := o |> }.
Solve Obligations with by intros; repeat match goal with x : shst |- _ => destruct x end.

#[export, program] Instance lens_swork : Lens shst world := { lget := swork; lset := fun w s => s <| swork := w |> }.
Solve Obligations with by intros; repeat match goal with x : shst |- _ => destruct x end.

(** The size of [buf] of [main]. *)
Definition SHBUF : Z := 100.

(** The string at [p], from the first [n] bytes there. *)
Fixpoint c_string (n : nat) (m : memory) (p : Z) : list Z :=
  match n with
  | O => []
  | S n' => let c := ldb m p in if c =? 0 then [] else c :: c_string n' m (p + 1)
  end.

Section shell.
(** Whether the [n]th [fork] succeeds, a file opens, and the directory can be
    changed to a path after the changes before it. *)
Context (forks : nat -> bool) (opens : list Z -> Z -> bool) (enters : list (list Z) -> list Z -> bool).
(** The address of [buf]. *)
Context (buf : Z).

Definition getcmd (nbuf : Z) : M shst Z :=
  modify (emit_out (put_text 2 (str "$ ")));;
  zoom (umemset buf 0 nbuf);;
  zoom (ugets buf nbuf);;
  c ← zoom (getb buf);
  if c =? 0 then mret (-1) else mret 0.

(** [runcmd(parsecmd(cmd))] in the child; an error of the parser ends it. *)
Definition child (cmd : list Z) : M shst unit :=
  t ← gets sfds;
  match parsecmd cmd with
  | Ok (c, mem) _ => zoom (runcmd forks opens (string_at mem) c t)
  | _ => mret tt
  end.

(** A round of the loop over the commands; the result is the exit code. *)
Definition sh_round (_ : unit) : M shst (unit + Z) :=
  r ← getcmd SHBUF;
  if r <? 0 then mret (inr 0)
  else
    line ← gets (fun s => c_string (Z.to_nat SHBUF) (umem (su s)) buf);
    match main_line line with
    | skip_line => mret (inl tt)
    | chdir path =>
        ds ← gets dirs;
        if enters ds path then modify (fun s => s <| dirs := ds ++ [path] |>);; mret (inl tt)
        else fprintf 2 (str "cannot cd " ++ str "%s" ++ [10]) [Astr path];; mret (inl tt)
    | run_child cmd =>
        b ← zoom (fork1 forks);
        if negb (b : bool) then fprintf 2 ([] ++ str "%s" ++ [10]) [Astr (str "fork")];; mret (inr 1)
        else child cmd;; mret (inl tt)
    end.

(** The loop that opens the console until three descriptors are in use. *)
Definition console_round (_ : unit) : M shst (unit + unit) :=
  t ← gets sfds;
  if opens (str "console") O_RDWR then
    match fd_alloc t (opened (str "console") O_RDWR) with
    | None => mret (inr tt)
    | Some (fd, t) =>
        if (3 <=? fd)%nat then modify (fun s => s <| sfds := close t fd |>);; mret (inr tt)
        else modify (fun s => s <| sfds := t |>);; mret (inl tt)
    end
  else mret (inr tt).

Definition banner1 : list Z := [10] ++ str "---------------------------" ++ [10].
Definition banner2 : list Z := str "   Bienvenido a EAFITos" ++ [10].
Definition banner3 : list Z := str "---------------------------" ++ [10; 10].

Definition sh_main : M shst Z :=
  fprintf 1 banner1 [];;
  fprintf 1 banner2 [];;
  fprintf 1 banner3 [];;
  loop console_round tt;;
  loop sh_round tt.

End shell.

(** ** Reading a line *)

Abbreviation chars := (Forall (fun c => 0 < c < 2 ^ 8)).

Lemma c_string_spec m p l n :
  chars l -> bytes_at m p l -> ldb m (p + Z.of_nat (length l)) = 0 -> (length l < n)%nat -> c_string n m p = l.
Proof.
  revert p n. induction l as [|c l IH]; intros p n Hc Hb Hz Hn; (destruct n as [|n]; [cbn in Hn; lia|]); cbn [c_string].
  - cbn in Hz. rewrite Z.add_0_r in Hz. by rewrite Hz.
  - inversion_clear Hc as [|? ? Hc1 Hc2]. pose proof (Hb 0%nat ltac:(cbn; lia)) as Hb0. cbn in Hb0. rewrite Z.add_0_r in Hb0.
    rewrite Hb0. rewrite (proj2 (Z.eqb_neq c 0)) by lia. f_equal. apply IH; [done| | |cbn in Hn; lia].
    + intros i Hi. specialize (Hb (S i) ltac:(cbn; lia)). cbn [nth] in Hb. rewrite <- Hb. f_equal. lia.
    + rewrite <- Hz. f_equal. cbn [length]. lia.
Qed.

Definition next_line (input : list Z) : list Z := first_line (Z.to_nat (SHBUF - 1)) input.

Lemma wp_getcmd buf (Q : Z -> shst -> Prop) s :
  chars (stdin (su s)) ->
  (forall u, stdin (su s) = next_line (stdin (su s)) ++ stdin u ->
     c_string (Z.to_nat SHBUF) (umem u) buf = next_line (stdin (su s)) ->
     Q (match next_line (stdin (su s)) with [] => -1 | _ => 0 end)
       (mkshst u (sout s ++ put_text 2 (str "$ ")) (swork s) (sfds s) (dirs s))) ->
  wp (getcmd buf SHBUF) Q s.
Proof.
  intros Hc HQ. set (line := next_line (stdin (su s))) in *. unfold getcmd.
  apply wp_bind, wp_modify. apply wp_bind, wp_zoom, wp_umemset; [done|]. intros u1 E1 _.
  apply wp_bind, wp_zoom. change (lget (lset u1 (emit_out (put_text 2 (str "$ ")) s))) with u1. apply wp_ugets; [done| |].
  { rewrite E1. eapply Forall_impl; [exact Hc|]. unfold is_byte. cbv beta. intros; lia. }
  change (lget (emit_out (put_text 2 (str "$ ")) s)) with (su s) in E1. rewrite E1. fold (next_line (stdin (su s))). fold line.
  intros u Hu Hb Hz _. assert (chars line) as Hl.
  { rewrite Hu in Hc. by apply Forall_app in Hc as [? _]. }
  assert (length line < Z.to_nat SHBUF)%nat as Hlen.
  { destruct (first_line_prefix (Z.to_nat (SHBUF - 1)) (stdin (su s))) as (l' & _ & Hle). unfold line, next_line.
    change (Z.to_nat SHBUF) with (S (Z.to_nat (SHBUF - 1))). lia. }
  specialize (HQ u Hu (c_string_spec _ _ _ _ Hl Hb Hz Hlen)).
  apply wp_bind, wp_zoom. unfold getb. apply wp_gets.
  match goal with |- wp (if ?x =? 0 then _ else _) _ _ => assert (x = nth 0 line 0) as -> end.
  { change (ldb (umem u) buf = nth 0 line 0). destruct line as [|c line']; [cbn in Hz; rewrite Z.add_0_r in Hz; done|].
    specialize (Hb 0%nat ltac:(cbn; lia)). by rewrite Z.add_0_r in Hb. }
  destruct line as [|c line']; cbn [nth]; [by apply wp_ret|]. inversion_clear Hl. rewrite (proj2 (Z.eqb_neq c 0)) by lia. by apply wp_ret.
Qed.

(** ** What a session does *)

(** The lines the shell reads: up to the newline, or as much as fits [buf]. *)
Fixpoint cut_lines (n : nat) (input : list Z) : list (list Z) :=
  match n with
  | O => []
  | S n' =>
      match next_line input with
      | [] => []
      | l => l :: cut_lines n' (drop (length l) input)
      end
  end.

Definition input_lines (input : list Z) : list (list Z) := cut_lines (length input) input.

Lemma next_line_nil input : next_line input = [] -> input = [].
Proof. unfold next_line. change (Z.to_nat (SHBUF - 1)) with (S 98). by destruct input. Qed.

Lemma cut_lines_enough n input : (length input <= n)%nat -> cut_lines n input = input_lines input.
Proof.
  unfold input_lines. revert input.
  assert (forall k n input, (length input <= k)%nat -> (length input <= n)%nat -> cut_lines n input = cut_lines k input) as H; [|intros input Hn; by apply H].
  intros k. induction k as [|k IH]; intros m input Hk Hm.
  { destruct input; [|cbn in Hk; lia]. by destruct m. }
  destruct m as [|m]; [by destruct input; [|cbn in Hm; lia]|]. cbn [cut_lines].
  destruct (next_line input) as [|c l] eqn:E; [done|]. f_equal. apply IH; rewrite length_drop; cbn [length]; lia.
Qed.

Lemma input_lines_next input rest :
  next_line input <> [] -> input = next_line input ++ rest -> input_lines input = next_line input :: input_lines rest.
Proof.
  intros Hne E. rewrite <- (cut_lines_enough (S (length input)) input) by lia. cbn [cut_lines].
  destruct (next_line input) as [|c l] eqn:El; [done|]. f_equal.
  assert (drop (length (c :: l)) input = rest) as -> by (rewrite E; apply drop_app_length).
  apply cut_lines_enough. rewrite E, length_app. lia.
Qed.

Section session.
Context (opens : list Z -> Z -> bool) (enters : list (list Z) -> list Z -> bool) (t : fdtable).

Definition prompt : output := put_text 2 (str "$ ").

(** [session ls k ds js ds' o]: the lines [ls], read when [k] pipes have been
    made and the directory was changed along [ds], start the programs [js],
    change the directory along [ds'] and show [o]. *)
Inductive session : list (list Z) -> nat -> list (list Z) -> list (list (list Z) * fdtable) -> list (list Z) -> output -> Prop :=
  | ses_end k ds : session [] k ds [] ds prompt
  | ses_blank l ls k ds js ds' o : main_line l = skip_line ->
      session ls k ds js ds' o -> session (l :: ls) k ds js ds' (prompt ++ o)
  | ses_cd l p ls k ds js ds' o : main_line l = chdir p -> enters ds p = true ->
      session ls k (ds ++ [p]) js ds' o -> session (l :: ls) k ds js ds' (prompt ++ o)
  | ses_cannot_cd l p ls k ds js ds' o : main_line l = chdir p -> enters ds p = false ->
      session ls k ds js ds' o ->
      session (l :: ls) k ds js ds' (prompt ++ put_text 2 (str "cannot cd " ++ p ++ [10]) ++ o)
  | ses_run l cmd tr ls k ds js ds' o : main_line l = run_child cmd -> gline (lex cmd) tr ->
      session ls (wires opens tr t k).2 ds js ds' o ->
      session (l :: ls) k ds ((wires opens tr t k).1 ++ js) ds' (prompt ++ o)
  | ses_no_command l cmd ls k ds js ds' o : main_line l = run_child cmd -> (forall tr, ~ gline (lex cmd) tr) ->
      session ls k ds js ds' o -> session (l :: ls) k ds js ds' (prompt ++ o).
End session.

(** The part of the line that the child runs has no NUL in it. *)
Lemma main_line_cmd l cmd : main_line l = run_child cmd -> exists n, cmd = drop n l.
Proof.
  unfold main_line. set (k := scan _ l). destruct (drop k l) as [|c0 l1] eqn:E; [intros [= <-]; eauto|].
  destruct (c0 =? 10); [done|]. destruct l1 as [|c1 [|c2 l3]]; [intros [= <-]; eauto..|]. destruct (_ && _ && _); [done|]. intros [= <-]; eauto.
Qed.

Section shell_spec.
Context (forks : nat -> bool) (opens : list Z -> Z -> bool) (enters : list (list Z) -> list Z -> bool) (buf : Z).
Context (Hforks : forall n, forks n = true).

(** A child starts the programs that the grammar gives for its line. *)
Lemma wp_child cmd (Q : unit -> shst -> Prop) s :
  chars cmd -> ready (sfds s) ->
  (forall w js, (exists tr, gline (lex cmd) tr /\ (js, npipes w) = wires opens tr (sfds s) (npipes (swork s))) \/
     (forall tr, ~ gline (lex cmd) tr) /\ js = [] /\ npipes w = npipes (swork s) ->
     jobs w = jobs (swork s) ++ js -> Q tt (mkshst (su s) (sout s) w (sfds s) (dirs s))) ->
  wp (child forks opens cmd) Q s.
Proof using Hforks.
  intros Hc Hr HQ. assert (Forall (fun c => c <> 0) cmd) as Hz by (eapply Forall_impl; [exact Hc|]; cbv beta; intros; lia).
  unfold child. apply wp_bind, wp_gets. pose proof (ends_parsecmd cmd Hz) as He.
  destruct (parsecmd cmd) as [[c mem] s1|msg| |] eqn:E; [|clear He|done|done].
  - destruct He as (HG & Ht & _). cbn [fst snd] in HG, Ht. apply wp_zoom.
    eapply wp_mono; [apply (runcmd_starts forks opens Hforks (string_at mem) c (sfds s) Hr); rewrite Ht; by eapply gline_std|].
    cbv beta. rewrite Ht. intros [] w [Hj Hk]. refine (HQ w _ _ Hj). left. eexists. split; [exact HG|].
    rewrite Hk. symmetry. apply surjective_pairing.
  - apply wp_ret. destruct s. apply (HQ swork0 []); [|by rewrite app_nil_r]. right. split; [|done].
    intros tr HG. destruct (wp_parsecmd cmd tr Hz HG) as (? & ? & ? & E' & _). congruence.
Qed.

(** What a session does from the state [s] on. *)
Abbreviation session_from := (fun s => session opens enters (sfds s) (input_lines (stdin (su s))) (npipes (swork s)) (dirs s)).

(** From [s] to [s'] the shell started [js] and wrote [o]; what remains to be
    done completes them to a session. *)
Record sofar (s s' : shst) (js : list (list (list Z) * fdtable)) (o : output) : Prop := {
  sf_jobs : jobs (swork s') = jobs (swork s) ++ js;
  sf_out : sout s' = sout s ++ o;
  sf_fds : sfds s' = sfds s;
  sf_input : exists done, stdin (su s) = done ++ stdin (su s');
  sf_session : forall js' ds' o', session_from s' js' ds' o' -> session_from s (js ++ js') ds' (o ++ o')
}.

Lemma sofar_refl s : sofar s s [] [].
Proof. constructor; [by rewrite app_nil_r..|done|by exists []|done]. Qed.

Lemma sofar_trans s1 s2 s3 js js' o o' : sofar s1 s2 js o -> sofar s2 s3 js' o' -> sofar s1 s3 (js ++ js') (o ++ o').
Proof.
  intros [J1 O1 F1 [d1 I1] S1] [J2 O2 F2 [d2 I2] S2]. constructor.
  - by rewrite J2, J1, (assoc_L (++)).
  - by rewrite O2, O1, (assoc_L (++)).
  - congruence.
  - exists (d1 ++ d2). by rewrite <- (assoc_L (++)), <- I2.
  - intros j d x H. rewrite <- !(assoc_L (++)). auto.
Qed.

(** A round ends the shell at the end of its input; otherwise it reads a line
    and does what the line says. *)
Lemma wp_sh_round (Q : unit + Z -> shst -> Prop) s :
  chars (stdin (su s)) -> ready (sfds s) ->
  (forall s', jobs (swork s') = jobs (swork s) -> sout s' = sout s ++ prompt -> session_from s [] (dirs s') prompt -> Q (inr 0) s') ->
  (forall s' js o, sofar s s' js o -> (length (stdin (su s')) < length (stdin (su s)))%nat -> Q (inl tt) s') ->
  wp (sh_round forks opens enters buf tt) Q s.
Proof using Hforks.
  intros Hc Hr Hend Hgo. unfold sh_round. apply wp_bind, wp_getcmd; [done|]. intros u Hu Hline.
  pose proof (input_lines_next (stdin (su s)) (stdin u)) as Hnext.
  destruct (next_line (stdin (su s))) as [|c l] eqn:El.
  { change (-1 <? 0) with true. cbv iota. apply wp_ret. apply Hend; [done..|]. cbn [dirs]. cbn [app] in Hu.
    apply next_line_nil in El. rewrite El. apply ses_end. }
  change (0 <? 0) with false. cbv iota. specialize (Hnext ltac:(done) Hu).
  assert (chars (c :: l)) as Hl by (rewrite Hu in Hc; by apply Forall_app in Hc as [? _]).
  assert (length (stdin u) < length (stdin (su s)))%nat as Hlen by (rewrite Hu; cbn [app length]; rewrite length_app; lia).
  apply wp_bind, wp_gets. cbn [su]. rewrite Hline. destruct (main_line (c :: l)) as [|path|cmd] eqn:Em.
  - apply wp_ret. apply (Hgo _ [] prompt); [|done]. constructor; [by rewrite app_nil_r|done|done|by eexists|]. intros js' ds' o' H.
    rewrite Hnext. by apply ses_blank.
  - apply wp_bind, wp_gets. cbn [dirs]. destruct (enters (dirs s) path) eqn:Ee.
    + apply wp_bind, wp_modify, wp_ret. apply (Hgo _ [] prompt); [|done].
      constructor; [by rewrite app_nil_r|done|done|by eexists|]. intros js' ds' o' H. rewrite Hnext. by eapply ses_cd.
    + apply wp_bind. apply (wp_fprintf_str 2 (str "cannot cd ") path [10]); [by split; [repeat constructor|]..|]. apply wp_ret.
      apply (Hgo _ [] (prompt ++ put_text 2 (str "cannot cd " ++ path ++ [10]))); [|done].
      constructor; [by rewrite app_nil_r|apply eq_sym, (assoc_L (++))|done|by eexists|].
      intros js' ds' o' H. rewrite Hnext. rewrite <- (assoc_L (++)). by eapply ses_cannot_cd.
  - apply wp_bind, wp_zoom, wp_fork1; [done|]. intros w1 Hj1 Hk1. change (npipes w1 = npipes (swork s)) in Hk1. cbv beta. cbn [negb].
    apply wp_bind, wp_child.
    + destruct (main_line_cmd _ _ Em) as [n ->]. by apply Forall_drop.
    + exact Hr.
    + intros w js Hw Hj. apply wp_ret. cbn in Hw, Hj. rewrite Hk1 in Hw. rewrite Hj1 in Hj. apply (Hgo _ js prompt); [|exact Hlen].
      constructor; [exact Hj|done|done|by eexists|]. intros js' ds' o' H. rewrite Hnext. cbn in H.
      destruct Hw as [(tr & HG & Ew)|(HG & -> & Ew)].
      * rewrite (f_equal fst Ew : js = _). eapply ses_run; [done|done|]. by rewrite <- Ew.
      * eapply ses_no_command; [done|done|]. by rewrite <- Ew.
Qed.

Lemma wp_sh_loop (Q : Z -> shst -> Prop) s :
  chars (stdin (su s)) -> ready (sfds s) -> Z.of_nat (length (stdin (su s))) < 2 ^ 64 ->
  (forall s' js o, jobs (swork s') = jobs (swork s) ++ js -> sout s' = sout s ++ o -> session_from s js (dirs s') o -> Q 0 s') ->
  wp (loop (sh_round forks opens enters buf) tt) Q s.
Proof using Hforks.
  intros Hc Hr Hn HQ.
  apply (wp_loop (fun n _ s' => n = Z.of_nat (length (stdin (su s'))) + 1 /\ exists js o, sofar s s' js o) _ _ (Z.of_nat (length (stdin (su s))) + 1));
    [|lia|split; [done|]; exists [], []; apply sofar_refl].
  intros n [] s1 (-> & js & o & Hs). split; [lia|]. apply wp_sh_round.
  - destruct (sf_input _ _ _ _ Hs) as [d E]. rewrite E in Hc. by apply Forall_app in Hc as [_ ?].
  - by rewrite (sf_fds _ _ _ _ Hs).
  - intros s2 Hj Ho Hses. apply (HQ s2 js (o ++ prompt)).
    + rewrite Hj. apply Hs.
    + rewrite Ho, (sf_out _ _ _ _ Hs). by rewrite (assoc_L (++)).
    + rewrite <- (app_nil_r js). by apply (sf_session _ _ _ _ Hs).
  - intros s2 js2 o2 H2 Hlt. eexists. split; [|split; [reflexivity|]; eexists _, _; by eapply sofar_trans]. lia.
Qed.

(** The console becomes the standard files that were not open. *)
Definition with_console (t : fdtable) : fdtable :=
  imap (fun i o => if decide (i < 3)%nat then Some (default (opened (str "console") O_RDWR) o) else o) t.

Hypothesis Hconsole : opens (str "console") O_RDWR = true.

Lemma lowest_spec t :
  match lowest t with
  | Some fd => is_free t fd /\ forall j, (j < fd)%nat -> is_open t j
  | None => forall j, (j < length t)%nat -> is_open t j
  end.
Proof using.
  induction t as [|[o|] t IH]; cbn [lowest].
  - cbn. intros; lia.
  - destruct (lowest t) as [fd|]; cbn [fmap option_fmap option_map].
    + destruct IH as [Hf Ho]. split; [done|]. intros [|j] Hj; [by eexists|]. apply (Ho j). lia.
    + intros [|j] Hj; [by eexists|]. apply (IH j). cbn in Hj. lia.
  - split; [done|]. intros j Hj. lia.
Qed.

Abbreviation con := (opened (str "console") O_RDWR).

Lemma with_console_id t : (forall j, (j < 3)%nat -> (j < length t)%nat -> is_open t j) -> with_console t = t.
Proof using.
  intros H. apply list_eq. intros i. unfold with_console. rewrite list_lookup_imap. destruct (t !! i) as [o|] eqn:E; [|done]. cbn. f_equal.
  case_decide; [|done]. destruct (H i) as [x Hx]; [done|by eapply lookup_lt_Some|]. rewrite E in Hx. by simplify_eq.
Qed.

Lemma with_console_insert t fd : is_free t fd -> (fd < 3)%nat -> with_console (<[fd := Some con]> t) = with_console t.
Proof using.
  unfold is_free. intros Hf H3. pose proof (lookup_lt_Some _ _ _ Hf) as Hlt. apply list_eq. intros i. unfold with_console. rewrite !list_lookup_imap.
  destruct (decide (i = fd)) as [->|]; [|by rewrite list_lookup_insert_ne]. rewrite list_lookup_insert_eq by done. rewrite Hf. cbn [fmap option_fmap option_map]. by destruct (decide (fd < 3)%nat); [|lia].
Qed.

(** The descriptors below the lowest free one, up to three. *)
Definition low3 (t : fdtable) : Z := match lowest t with Some fd => Z.of_nat (fd `min` 3) | None => 3 end.

Lemma low3_insert t fd o : lowest t = Some fd -> (fd < 3)%nat -> low3 t < low3 (<[fd := Some o]> t).
Proof using.
  intros E H3. pose proof (lowest_spec t) as Hl. unfold low3. rewrite E in Hl |- *. destruct Hl as [Hf Ho]. unfold is_free in Hf.
  generalize (lowest_spec (<[fd := Some o]> t)). destruct (lowest (<[fd := Some o]> t)) as [fd'|]; [|lia]. intros [Hf' _]. unfold is_free in Hf'.
  destruct (decide (fd' = fd)) as [->|Hne]; [rewrite list_lookup_insert_eq in Hf' by (by eapply lookup_lt_Some); done|].
  rewrite list_lookup_insert_ne in Hf' by done. destruct (decide (fd' < fd)%nat) as [Hlt|]; [|lia]. destruct (Ho fd' Hlt) as [x Hx]. congruence.
Qed.

Lemma wp_console_loop (Q : unit -> shst -> Prop) s :
  Q tt (s <| sfds ::= with_console |>) -> wp (loop (console_round opens) tt) Q s.
Proof using Hconsole.
  intros HQ. apply (wp_loop (fun n _ s' => n = 4 - low3 (sfds s') /\ s' <| sfds ::= with_console |> = s <| sfds ::= with_console |>) _ _ (4 - low3 (sfds s)));
    [|unfold low3; destruct (lowest _); lia|done].
  intros n [] s1 [-> Hs]. split; [unfold low3; destruct (lowest _); lia|]. unfold console_round. apply wp_bind, wp_gets. rewrite Hconsole.
  assert (s1 <| sfds ::= with_console |> = s <| sfds ::= with_console |> ->
    (forall j, (j < 3)%nat -> (j < length (sfds s1))%nat -> is_open (sfds s1) j) -> s1 = s <| sfds ::= with_console |>) as Hid.
  { intros <- Hj. destruct s1. unfold upd. cbv beta. cbn [su sout swork sfds dirs] in *. by rewrite with_console_id. }
  unfold fd_alloc. pose proof (lowest_spec (sfds s1)) as Hl. pose proof (low3_insert (sfds s1)) as Hlow.
  destruct (lowest (sfds s1)) as [fd|] eqn:E; cbn [mbind option_bind mret option_ret].
  - destruct Hl as [Hf Ho]. destruct (Nat.leb_spec 3 fd) as [H3|H3].
    + apply wp_bind, wp_modify, wp_ret. unfold close. rewrite list_insert_insert_eq.
      rewrite list_insert_id by exact Hf. rewrite <- (Hid Hs) in HQ by (intros; apply Ho; lia). by destruct s1.
    + apply wp_bind, wp_modify, wp_ret. eexists. split; [|split; [reflexivity|]].
      * specialize (Hlow fd con ltac:(done) H3). cbn. lia.
      * rewrite <- Hs. unfold upd. cbv beta. cbn [su sout swork sfds dirs]. by rewrite with_console_insert.
  - apply wp_ret. by rewrite <- (Hid Hs) in HQ by (intros; by apply Hl).
Qed.

End shell_spec.

(** Two lines of input, and a shell started with its standard input only. *)
Definition ex_input : list Z := str "cd d" ++ [10] ++ str "ls|wc>out" ++ [10].
Definition ex_shell : shst := mkshst (mkust ∅ ex_input) [] (mkworld [] 0 0) (Some (inherited 0) :: replicate 15 None) [].


Example shell_session_run :
  match sh_main (fun _ => true) (fun _ _ => true) (fun _ _ => true) 4096 ex_shell with
  | Ok code s' => code = 0 /\ dirs s' = [str "d"] /\ (jobs (swork s')).*1 = [[str "ls"]; [str "wc"]]
  | _ => False
  end.
Proof. vm_compute. done. Qed.
