(* ===== verification/Asm.v ===== *)
(** * The assembly of the kernel: trampoline.S, kernelvec.S, swtch.S, entry.S

    The instructions the files use, over the registers, the control registers
    and the physical memory.  A load or a store goes through the page table in
    [satp]: the translation is a parameter, of which the theorems assume only
    that it maps the region a sequence works on.  The listings are
    those of the files, one instruction for each line.

    The theorems are about registers: a trap from user space and the return
    ([uservec], [userret]) give every user register back, [swtch] resumes a
    context as it was saved, and [kernelvec] hides an interrupt from the
    kernel code it stops. *)

From S2P Require Import Prelude CMem Riscv Kalloc Vm KState.

Inductive reg :=
  | ra | sp | gp | tp | t0 | t1 | t2 | s0 | s1 | a0 | a1 | a2 | a3 | a4 | a5 | a6 | a7
  | s2 | s3 | s4 | s5 | s6 | s7 | s8 | s9 | s10 | s11 | t3 | t4 | t5 | t6.

#[export] Instance reg_eq_dec : EqDecision reg.
Proof. solve_decision. Defined.

Inductive csr := sscratch | satp | sepc | mhartid.

#[export] Instance csr_eq_dec : EqDecision csr.
Proof. solve_decision. Defined.

Inductive instr :=
  | Sd (src : reg) (off : Z) (base : reg)
  | Ld (dst : reg) (off : Z) (base : reg)
  | Addi (dst src : reg) (imm : Z)
  | Add (dst r1 r2 : reg)
  | Mul (dst r1 r2 : reg)
  | Li (dst : reg) (imm : Z)
  | Csrw (c : csr) (src : reg)
  | Csrr (dst : reg) (c : csr)
  | Sfence
  | Jalr (r : reg)
  | Ret
  | Sret.

Record mach := mkmach { regs : reg -> Z; csrs : csr -> Z; mem : memory; pc : Z }.

#[export] Instance eta_mach : Eta mach := fun x => mkmach (regs x) (csrs x) (mem x) (pc x).

Definition set_reg (r : reg) (v : Z) (m : mach) : mach := m <| regs ::= fun f x => if decide (x = r) then v else f x |>.
Definition set_csr (c : csr) (v : Z) (m : mach) : mach := m <| csrs ::= fun f x => if decide (x = c) then v else f x |>.

(** ** The machine *)

Section machine.
Context (xlate : Z -> Z -> Z) (next : Z).

(** The physical address an access goes to. *)
Definition addr (m : mach) (base : reg) (off : Z) : Z := xlate (csrs m satp) (u64 (regs m base + off)).

(** [next] is the address behind a [jalr]. *)
Definition exec (i : instr) (m : mach) : mach :=
  match i with
  | Sd src off base => m <| mem ::= fun h => st64 h (addr m base off) (regs m src) |>
  | Ld dst off base => set_reg dst (ld64 (mem m) (addr m base off)) m
  | Addi dst src imm => set_reg dst (u64 (regs m src + imm)) m
  | Add dst r1 r2 => set_reg dst (u64 (regs m r1 + regs m r2)) m
  | Mul dst r1 r2 => set_reg dst (u64 (regs m r1 * regs m r2)) m
  | Li dst imm => set_reg dst imm m
  | Csrw c src => set_csr c (regs m src) m
  | Csrr dst c => set_reg dst (csrs m c) m
  | Sfence => m
  | Jalr r => set_reg ra next (m <| pc := regs m r |>)
  | Ret => m <| pc := regs m ra |>
  | Sret => m <| pc := csrs m sepc |>
  end.

Definition run (code : list instr) (m : mach) : mach := foldl (fun m i => exec i m) m code.

Lemma run_app c1 c2 m : run (c1 ++ c2) m = run c2 (run c1 m).
Proof. apply foldl_app. Qed.

Lemma run_cons i c m : run (i :: c) m = run c (exec i m).
Proof. done. Qed.
End machine.

(** ** The listings *)

Definition uservec : list instr :=
  [ Csrw sscratch a0;
    Li a0 TRAPFRAME;
    Sd ra 40 a0; Sd sp 48 a0; Sd gp 56 a0; Sd tp 64 a0; Sd t0 72 a0; Sd t1 80 a0; Sd t2 88 a0; Sd s0 96 a0;
    Sd s1 104 a0; Sd a1 120 a0; Sd a2 128 a0; Sd a3 136 a0; Sd a4 144 a0; Sd a5 152 a0; Sd a6 160 a0; Sd a7 168 a0;
    Sd s2 176 a0; Sd s3 184 a0; Sd s4 192 a0; Sd s5 200 a0; Sd s6 208 a0; Sd s7 216 a0; Sd s8 224 a0; Sd s9 232 a0;
    Sd s10 240 a0; Sd s11 248 a0; Sd t3 256 a0; Sd t4 264 a0; Sd t5 272 a0; Sd t6 280 a0;
    Csrr t0 sscratch;
    Sd t0 112 a0;
    Ld sp 8 a0;
    Ld tp 32 a0;
    Ld t0 16 a0;
    Ld t1 0 a0;
    Sfence;
    Csrw satp t1;
    Sfence;
    Jalr t0 ].

Definition userret : list instr :=
  [ Sfence;
    Csrw satp a0;
    Sfence;
    Li a0 TRAPFRAME;
    Ld ra 40 a0; Ld sp 48 a0; Ld gp 56 a0; Ld tp 64 a0; Ld t0 72 a0; Ld t1 80 a0; Ld t2 88 a0; Ld s0 96 a0;
    Ld s1 104 a0; Ld a1 120 a0; Ld a2 128 a0; Ld a3 136 a0; Ld a4 144 a0; Ld a5 152 a0; Ld a6 160 a0; Ld a7 168 a0;
    Ld s2 176 a0; Ld s3 184 a0; Ld s4 192 a0; Ld s5 200 a0; Ld s6 208 a0; Ld s7 216 a0; Ld s8 224 a0; Ld s9 232 a0;
    Ld s10 240 a0; Ld s11 248 a0; Ld t3 256 a0; Ld t4 264 a0; Ld t5 272 a0; Ld t6 280 a0;
    Ld a0 112 a0;
    Sret ].

(** Before and after the call of [kerneltrap]. *)
Definition kernelvec_save : list instr :=
  [ Addi sp sp (-256);
    Sd ra 0 sp; Sd gp 16 sp; Sd tp 24 sp; Sd t0 32 sp; Sd t1 40 sp; Sd t2 48 sp; Sd a0 72 sp; Sd a1 80 sp; Sd a2 88 sp;
    Sd a3 96 sp; Sd a4 104 sp; Sd a5 112 sp; Sd a6 120 sp; Sd a7 128 sp; Sd t3 216 sp; Sd t4 224 sp; Sd t5 232 sp; Sd t6 240 sp ].

Definition kernelvec_restore : list instr :=
  [ Ld ra 0 sp; Ld gp 16 sp; Ld t0 32 sp; Ld t1 40 sp; Ld t2 48 sp; Ld a0 72 sp; Ld a1 80 sp; Ld a2 88 sp;
    Ld a3 96 sp; Ld a4 104 sp; Ld a5 112 sp; Ld a6 120 sp; Ld a7 128 sp; Ld t3 216 sp; Ld t4 224 sp; Ld t5 232 sp; Ld t6 240 sp;
    Addi sp sp 256;
    Sret ].

Definition swtch : list instr :=
  [ Sd ra 0 a0; Sd sp 8 a0; Sd s0 16 a0; Sd s1 24 a0; Sd s2 32 a0; Sd s3 40 a0; Sd s4 48 a0; Sd s5 56 a0; Sd s6 64 a0;
    Sd s7 72 a0; Sd s8 80 a0; Sd s9 88 a0; Sd s10 96 a0; Sd s11 104 a0;
    Ld ra 0 a1; Ld sp 8 a1; Ld s0 16 a1; Ld s1 24 a1; Ld s2 32 a1; Ld s3 40 a1; Ld s4 48 a1; Ld s5 56 a1; Ld s6 64 a1;
    Ld s7 72 a1; Ld s8 80 a1; Ld s9 88 a1; Ld s10 96 a1; Ld s11 104 a1;
    Ret ].

(** Up to the call of [start]; [stack0] is the address of the stacks. *)
Definition _entry (stack0 : Z) : list instr :=
  [ Li sp stack0; Li a0 (1024 * 4); Csrr a1 mhartid; Addi a1 a1 1; Mul a0 a0 a1; Add sp sp a0 ].

(** ** The structures *)

(** The registers in [struct trapframe], which start at offset 40, and in [struct context]. *)
Definition trapframe_regs : list reg :=
  [ra; sp; gp; tp; t0; t1; t2; s0; s1; a0; a1; a2; a3; a4; a5; a6; a7; s2; s3; s4; s5; s6; s7; s8; s9; s10; s11; t3; t4; t5; t6].

Definition context_regs : list reg := [ra; sp; s0; s1; s2; s3; s4; s5; s6; s7; s8; s9; s10; s11].

Fixpoint index (r : reg) (l : list reg) : Z :=
  match l with [] => 0 | x :: l' => if decide (x = r) then 0 else 1 + index r l' end.

Definition tf_off (r : reg) : Z := 40 + 8 * index r trapframe_regs.
Definition ctx_off (r : reg) : Z := 8 * index r context_regs.

(** ** Saving and loading registers *)

Definition saves (base : reg) (ps : list (reg * Z)) : list instr := (fun p => Sd p.1 p.2 base) <$> ps.
Definition loads (base : reg) (ps : list (reg * Z)) : list instr := (fun p => Ld p.1 p.2 base) <$> ps.

Definition wf (m : mach) : Prop := forall r, is_u64 (regs m r).

(** Offsets of 64-bit fields of a structure of [n] bytes. *)
Definition fields (n : Z) (os : list Z) : Prop := NoDup os /\ Forall (fun o => o `mod` 8 = 0 /\ 0 <= o <= n - 8) os.

Lemma fields_apart n os o o' : fields n os -> o ∈ os -> o' ∈ os -> o <> o' -> o + 8 <= o' \/ o' + 8 <= o.
Proof.
  intros [_ HF] Ho Ho' Hne. rewrite Forall_forall in HF. destruct (HF _ Ho) as [H1 _]. destruct (HF _ Ho') as [H2 _].
  apply Z.mod_divide in H1 as [k ->]; [|done]. apply Z.mod_divide in H2 as [k' ->]; [|done]. lia.
Qed.

Section regions.
Context (xlate : Z -> Z -> Z) (next : Z).

(** The [n] bytes at the virtual address [B] are the physical ones at [T]. *)
Definition maps (root B T n : Z) : Prop := forall o, 0 <= o < n -> xlate root (u64 (B + o)) = T + o.

Lemma run_saves base ps m T n :
  maps (csrs m satp) (regs m base) T n -> fields n ps.*2 -> wf m ->
  let m' := run xlate next (saves base ps) m in
  regs m' = regs m /\ csrs m' = csrs m /\ pc m' = pc m /\
  (forall r o, (r, o) ∈ ps -> ld64 (mem m') (T + o) = regs m r) /\
  agree (fun a => forall o, o ∈ ps.*2 -> ~ (T + o <= a < T + o + 8)) (mem m) (mem m').
Proof.
  intros HM. revert m HM. induction ps as [|[r o] ps IH]; intros m HM HF HW m'.
  - unfold m'. split_and!; try done. intros r o Ho. by apply not_elem_of_nil in Ho.
  - unfold m'. change (saves base ((r, o) :: ps)) with (Sd r o base :: saves base ps). rewrite run_cons.
    assert (fields n ps.*2) as HF2 by (destruct HF as [H1%NoDup_cons H2%Forall_cons]; split; tauto).
    assert (addr xlate m base o = T + o) as Ea.
    { destruct HF as [_ [Ho _]%Forall_cons]. apply HM. cbn in Ho. lia. }
    set (m1 := exec xlate next (Sd r o base) m). assert (mem m1 = st64 (mem m) (T + o) (regs m r)) as Em by (rewrite <- Ea; reflexivity).
    destruct (IH m1 HM HF2 HW) as (E1 & E2 & E3 & Hld & Hag). split_and!; try done.
    + intros r' o' [[= -> ->]|Ho']%elem_of_cons.
      * transitivity (ld64 (mem m1) (T + o)).
        { apply ld_ext. intros a Ha. apply Hag. intros o' Ho'.
          assert (o <> o') as Hne by (intros ->; destruct HF as [[Hni _]%NoDup_cons _]; done).
          destruct (fields_apart n ((r, o) :: ps).*2 o o' HF); [by left|by right|done|lia|lia]. }
        rewrite Em. apply ld64_st64_eq, HW.
      * by rewrite (Hld _ _ Ho').
    + intros a Ha. rewrite (Hag a) by (intros o' Ho'; apply Ha; by right). rewrite Em.
      apply (st_agree 8). apply (Ha o). by left.
Qed.

Lemma run_loads base ps m T n :
  maps (csrs m satp) (regs m base) T n -> base ∉ ps.*1 -> NoDup ps.*1 -> Forall (fun o => 0 <= o < n) ps.*2 ->
  let m' := run xlate next (loads base ps) m in
  mem m' = mem m /\ csrs m' = csrs m /\ pc m' = pc m /\
  (forall r o, (r, o) ∈ ps -> regs m' r = ld64 (mem m) (T + o)) /\ (forall r, r ∉ ps.*1 -> regs m' r = regs m r).
Proof.
  revert m. induction ps as [|[r o] ps IH]; intros m HM Hb HN HF m'.
  - unfold m'. split_and!; try done. intros r o Ho. by apply not_elem_of_nil in Ho.
  - unfold m'. change (loads base ((r, o) :: ps)) with (Ld r o base :: loads base ps). rewrite run_cons.
    apply NoDup_cons in HN as [Hni HN]. apply Forall_cons in HF as [Ho HF]. apply not_elem_of_cons in Hb as [Hbr Hb].
    assert (addr xlate m base o = T + o) as Ea by (by apply HM).
    set (m1 := exec xlate next (Ld r o base) m).
    assert (forall x, regs m1 x = if decide (x = r) then ld64 (mem m) (T + o) else regs m x) as E1 by (intros x; unfold m1; cbn; by rewrite Ea).
    destruct (IH m1) as (H1 & H2 & H3 & H4 & H5); [|done|done|done|].
    { rewrite (E1 base), decide_False by done. exact HM. }
    split_and!; try done.
    + intros r' o' [[= -> ->]|Ho']%elem_of_cons; [|by rewrite (H4 _ _ Ho')].
      rewrite H5 by done. by rewrite E1, decide_True.
    + intros r' [Hne Hr']%not_elem_of_cons. rewrite H5 by done. by rewrite E1, decide_False.
Qed.
End regions.

(** ** swtch *)

Definition context_fields : list (reg * Z) := (fun r => (r, ctx_off r)) <$> context_regs.

Lemma swtch_parts : swtch = saves a0 context_fields ++ loads a1 context_fields ++ [Ret].
Proof. reflexivity. Qed.

Lemma context_ok : fields 112 context_fields.*2 /\ NoDup context_fields.*1 /\ Forall (fun o => 0 <= o < 112) context_fields.*2.
Proof. split; [split|split]; apply (bool_decide_unpack _); vm_compute; exact I. Qed.

Lemma context_elem r : r ∈ context_regs <-> (r, ctx_off r) ∈ context_fields.
Proof.
  unfold context_fields. rewrite list_elem_of_fmap. split; [eauto|]. intros (r' & [= -> _] & H). done.
Qed.

Lemma context_fst : context_fields.*1 = context_regs.
Proof. reflexivity. Qed.

Section swtch.
Context (xlate : Z -> Z -> Z) (next : Z).

(** The registers of a call of [swtch] with the contexts at [O] and [N]. *)
Definition swtch_call (m : mach) (O N : Z) : Prop :=
  maps xlate (csrs m satp) (regs m a0) O 112 /\ maps xlate (csrs m satp) (regs m a1) N 112 /\ wf m /\ (O + 112 <= N \/ N + 112 <= O).

Lemma swtch_spec m O N : swtch_call m O N ->
  let m' := run xlate next swtch m in
  (forall r, r ∈ context_regs -> ld64 (mem m') (O + ctx_off r) = regs m r) /\
  (forall r, r ∈ context_regs -> regs m' r = ld64 (mem m) (N + ctx_off r)) /\
  (forall r, r ∉ context_regs -> regs m' r = regs m r) /\
  pc m' = ld64 (mem m) N /\ csrs m' = csrs m /\ agree (fun a => ~ (O <= a < O + 112)) (mem m) (mem m').
Proof.
  intros (HO & HN & HW & Hap) m'. destruct context_ok as (Hf & Hnd & Hr). unfold m'. rewrite swtch_parts, !run_app.
  destruct (run_saves xlate next a0 context_fields m O 112 HO Hf HW) as (E1 & E2 & E3 & Hld & Hag).
  set (m1 := run xlate next (saves a0 context_fields) m) in *.
  destruct (run_loads xlate next a1 context_fields m1 N 112) as (L1 & L2 & L3 & L4 & L5);
    [by rewrite E1, E2|by rewrite context_fst; apply (bool_decide_unpack _); vm_compute; exact I|done|done|].
  set (m2 := run xlate next (loads a1 context_fields) m1) in *.
  assert (agree (fun a => ~ (O <= a < O + 112)) (mem m) (mem m1)) as Hag'.
  { eapply agree_sub; [exact Hag|]. cbv beta. intros a Ha o Ho. rewrite Forall_forall in Hr. destruct Hf as [_ Hf]. rewrite Forall_forall in Hf.
    specialize (Hf _ Ho). cbv beta in Hf. lia. }
  assert (forall o, o ∈ context_fields.*2 -> ld64 (mem m1) (N + o) = ld64 (mem m) (N + o)) as HNl.
  { intros o Ho. apply ld_ext. intros a Ha. apply Hag'. destruct Hf as [_ Hf]. rewrite Forall_forall in Hf. specialize (Hf _ Ho). cbv beta in Hf. lia. }
  assert (forall r, r ∈ context_regs -> ctx_off r ∈ context_fields.*2) as Hin.
  { intros r Hr'. apply context_elem in Hr'. apply list_elem_of_fmap. by exists (r, ctx_off r). }
  change (run xlate next [Ret] m2) with (m2 <| pc := regs m2 ra |>). clearbody m2 m1. split_and!; simpl regs; simpl mem; simpl pc; simpl csrs.
  - intros r Hr'. rewrite L1. apply Hld. by apply context_elem.
  - intros r Hr'. rewrite (L4 r (ctx_off r)) by (by apply context_elem). apply HNl. by apply Hin.
  - intros r Hr'. rewrite L5 by (by rewrite context_fst). by rewrite E1.
  - rewrite (L4 ra 0) by (apply (context_elem ra); left). rewrite HNl by (apply (Hin ra); left). by rewrite Z.add_0_r.
  - by rewrite L2, E2.
  - by rewrite L1.
Qed.

(** C25: A context that was switched away from is resumed as it was: when any
    later call of [swtch] loads the context that this call saved, and nothing
    wrote to it in between, the return address, the stack pointer and the
    callee-saved registers have the values of this call, and execution
    continues behind it, on whatever stack the other call was made. *)
Theorem swtch_roundtrip m O N m2 O2 :
  swtch_call m O N ->
  let m1 := run xlate next swtch m in
  swtch_call m2 O2 O -> agree (fun a => O <= a < O + 112) (mem m1) (mem m2) ->
  let m3 := run xlate next swtch m2 in
  pc m3 = regs m ra /\ forall r, r ∈ context_regs -> regs m3 r = regs m r.
Proof.
  intros H1 m1 H2 Hag m3. destruct (swtch_spec m O N H1) as (Hs & _). fold m1 in Hs.
  destruct (swtch_spec m2 O2 O H2) as (_ & Hl & _ & Hpc & _). fold m3 in Hl, Hpc.
  assert (forall r, r ∈ context_regs -> ld64 (mem m2) (O + ctx_off r) = regs m r) as Hb.
  { intros r Hr. rewrite <- Hs by done. apply ld_ext. intros a Ha. apply Hag. destruct context_ok as ([_ Hf] & _). rewrite Forall_forall in Hf.
    assert (ctx_off r ∈ context_fields.*2) as Hin by (apply list_elem_of_fmap; exists (r, ctx_off r); split; [done|by apply context_elem]).
    specialize (Hf _ Hin). cbv beta in Hf. lia. }
  split; [|intros r Hr; rewrite Hl by done; by apply Hb].
  rewrite Hpc. pose proof (Hb ra ltac:(left)) as Hra. by rewrite Z.add_0_r in Hra.
Qed.
End swtch.

(** ** uservec and userret *)

Definition tf_fields : list (reg * Z) := (fun r => (r, tf_off r)) <$> filter (fun r => r <> a0) trapframe_regs.

Lemma uservec_parts :
  uservec = [Csrw sscratch a0; Li a0 TRAPFRAME] ++ saves a0 tf_fields ++ [Csrr t0 sscratch] ++ saves a0 [(t0, 112)] ++
    loads a0 [(sp, TF_kernel_sp); (tp, TF_kernel_hartid); (t0, TF_kernel_trap); (t1, TF_kernel_satp)] ++ [Sfence; Csrw satp t1; Sfence; Jalr t0].
Proof. reflexivity. Qed.

Lemma userret_parts :
  userret = [Sfence; Csrw satp a0; Sfence; Li a0 TRAPFRAME] ++ loads a0 tf_fields ++ [Ld a0 112 a0; Sret].
Proof. reflexivity. Qed.

Lemma tf_fields_ok : fields 288 tf_fields.*2 /\ NoDup tf_fields.*1 /\ Forall (fun o => 40 <= o < 288) tf_fields.*2 /\ a0 ∉ tf_fields.*1 /\ (112 : Z) ∉ tf_fields.*2.
Proof. split; [split|split_and!]; apply (bool_decide_unpack _); vm_compute; exact I. Qed.

Lemma tf_elem r : r <> a0 -> (r, tf_off r) ∈ tf_fields.
Proof.
  intros Hr. apply list_elem_of_fmap. exists r. split; [done|]. apply list_elem_of_filter. split; [done|].
  destruct r; apply (bool_decide_unpack _); vm_compute; exact I.
Qed.

Lemma tf_elem_off r : r <> a0 -> tf_off r ∈ tf_fields.*2.
Proof. intros Hr. apply list_elem_of_fmap. exists (r, tf_off r). split; [done|by apply tf_elem]. Qed.

(** The offsets of the C code are those of the assembly. *)
Lemma tf_off_C : tf_off sp = TF_sp /\ (tf_off <$> [a0; a1; a2; a3; a4; a5; a6; a7]) = (TF_a <$> [0; 1; 2; 3; 4; 5; 6; 7]) /\ tf_off t6 + 8 = TF_SIZE.
Proof. split_and!; reflexivity. Qed.

Lemma trapframe_u64 : is_u64 TRAPFRAME.
Proof. vm_compute. split; [discriminate|reflexivity]. Qed.

Section trap.
Context (xlate : Z -> Z -> Z) (next : Z).

(** What [usertrap] finds: the user registers in the trapframe, the kernel's
    stack, hart and page table, and [userret] as its return address. *)
Record entered (tf : Z) (m m' : mach) : Prop := {
  en_saved : forall r, ld64 (mem m') (tf + tf_off r) = regs m r;
  en_agree : agree (fun a => ~ (tf + 40 <= a < tf + 288)) (mem m) (mem m');
  en_sp : regs m' sp = ld64 (mem m) (tf + TF_kernel_sp);
  en_tp : regs m' tp = ld64 (mem m) (tf + TF_kernel_hartid);
  en_satp : csrs m' satp = ld64 (mem m) (tf + TF_kernel_satp);
  en_pc : pc m' = ld64 (mem m) (tf + TF_kernel_trap);
  en_ra : regs m' ra = next;
  en_sepc : csrs m' sepc = csrs m sepc;
}.

Lemma run_csrr d c m : let m' := run xlate next [Csrr d c] m in
  regs m' = (fun x => if decide (x = d) then csrs m c else regs m x) /\ csrs m' = csrs m /\ mem m' = mem m.
Proof. split_and!; reflexivity. Qed.

Lemma run_enter m : let m' := run xlate next [Sfence; Csrw satp t1; Sfence; Jalr t0] m in
  regs m' = (fun x => if decide (x = ra) then next else regs m x) /\
  csrs m' = (fun c => if decide (c = satp) then regs m t1 else csrs m c) /\ mem m' = mem m /\ pc m' = regs m t0.
Proof. split_and!; reflexivity. Qed.

Lemma uservec_enters m tf : maps xlate (csrs m satp) TRAPFRAME tf 288 -> wf m -> entered tf m (run xlate next uservec m).
Proof.
  intros HM HW. destruct tf_fields_ok as (Hf & Hnd & Hr & Ha0 & H112). rewrite uservec_parts, !run_app.
  set (m0 := run xlate next [Csrw sscratch a0; Li a0 TRAPFRAME] m).
  assert (wf m0) as HW0 by (intros r; unfold m0; cbn; case_decide; [apply trapframe_u64|apply HW]).
  assert (regs m0 = fun x => if decide (x = a0) then TRAPFRAME else regs m x) as R0 by reflexivity.
  assert (csrs m0 = fun c => if decide (c = sscratch) then regs m a0 else csrs m c) as C0 by reflexivity.
  assert (mem m0 = mem m) as M0 by reflexivity. clearbody m0.
  assert (regs m0 a0 = TRAPFRAME /\ csrs m0 satp = csrs m satp /\ csrs m0 sepc = csrs m sepc) as (Ra & Cs & Ce) by (rewrite R0, C0; split_and!; reflexivity).
  destruct (run_saves xlate next a0 tf_fields m0 tf 288) as (E1 & E2 & E3 & Hld & Hag); [by rewrite Ra, Cs|done|done|].
  set (m1 := run xlate next (saves a0 tf_fields) m0) in *.
  clearbody m1.
  destruct (run_csrr t0 sscratch m1) as (R2 & C2 & M2). set (m2 := run xlate next [Csrr t0 sscratch] m1) in *. clearbody m2.
  rewrite E1, E2, C0, decide_True in R2 by done. rewrite E2 in C2.
  destruct (run_saves xlate next a0 [(t0, 112)] m2 tf 288) as (F1 & F2 & F3 & Hld2 & Hag2).
  { rewrite R2, C2, Cs, decide_False, Ra by done. exact HM. }
  { split; [apply NoDup_singleton|]. constructor; [by vm_compute|constructor]. }
  { intros x. rewrite R2. case_decide; [apply HW|apply HW0]. }
  set (m3 := run xlate next (saves a0 [(t0, 112)]) m2) in *. clearbody m3.
  destruct (run_loads xlate next a0 [(sp, TF_kernel_sp); (tp, TF_kernel_hartid); (t0, TF_kernel_trap); (t1, TF_kernel_satp)] m3 tf 288) as (L1 & L2 & L3 & L4 & L5).
  { rewrite F1, F2, R2, C2, Cs, decide_False, Ra by done. exact HM. }
  1-3: apply (bool_decide_unpack _); vm_compute; exact I.
  set (m4 := run xlate next (loads a0 _) m3) in *. clearbody m4.
  assert (agree (fun a => ~ (tf + 40 <= a < tf + 288)) (mem m) (mem m3)) as Hout.
  { intros a Ha. rewrite (Hag2 a), M2, (Hag a), M0; [done| |].
    - intros o Ho. rewrite Forall_forall in Hr. specialize (Hr _ Ho). destruct Hf as [_ Hf]. rewrite Forall_forall in Hf. specialize (Hf _ Ho). cbv beta in *. lia.
    - cbn. intros o ->%list_elem_of_singleton. lia. }
  assert (forall o, o ∈ [TF_kernel_sp; TF_kernel_hartid; TF_kernel_trap; TF_kernel_satp] -> ld64 (mem m3) (tf + o) = ld64 (mem m) (tf + o)) as Hk.
  { intros o Ho. assert (0 <= o <= 32) as Hb by (repeat (apply elem_of_cons in Ho as [->|Ho]; [by vm_compute|]); by apply not_elem_of_nil in Ho).
    apply ld_ext. intros a Ha. apply Hout. lia. }
  destruct (run_enter m4) as (R5 & C5 & M5 & P5). set (m5 := run xlate next _ m4) in *. clearbody m5. rewrite <- M5 in L1.
  split; rewrite ?R5, ?C5, ?P5; cbv beta; rewrite ?decide_True, ?decide_False by done.
  - intros r. rewrite L1. destruct (decide (r = a0)) as [->|Hne].
    + change (tf_off a0) with 112. rewrite (Hld2 t0 112) by left. by rewrite R2.
    + transitivity (ld64 (mem m1) (tf + tf_off r)).
      * rewrite <- M2. apply ld_ext. intros a Ha. apply Hag2. cbn. intros o ->%list_elem_of_singleton. pose proof (tf_elem_off r Hne) as Hin.
        destruct Hf as [_ Hf]. rewrite Forall_forall in Hf. destruct (Hf _ Hin) as [Hm _]. apply Z.mod_divide in Hm as [q Hq]; [|done].
        assert (tf_off r <> 112) by (intros E; by rewrite E in Hin). lia.
      * rewrite (Hld r (tf_off r)) by (by apply tf_elem). by rewrite R0, decide_False.
  - rewrite L1. exact Hout.
  - rewrite (L4 sp TF_kernel_sp) by left. apply Hk. left.
  - rewrite (L4 tp TF_kernel_hartid) by (right; left). apply Hk. right; left.
  - rewrite (L4 t1 TF_kernel_satp) by (do 3 right; left). apply Hk. do 3 right; left.
  - rewrite (L4 t0 TF_kernel_trap) by (do 2 right; left). apply Hk. do 2 right; left.
  - done.
  - by rewrite L2, F2, C2, Ce.
Qed.

(** [userret] loads every user register from the trapframe. *)
Lemma userret_returns m tf : maps xlate (regs m a0) TRAPFRAME tf 288 ->
  let m' := run xlate next userret m in
  (forall r, regs m' r = ld64 (mem m) (tf + tf_off r)) /\ mem m' = mem m /\ csrs m' satp = regs m a0 /\ pc m' = csrs m sepc.
Proof.
  intros HM m'. destruct tf_fields_ok as (Hf & Hnd & Hr & Ha0 & _). unfold m'. rewrite userret_parts, !run_app.
  set (m0 := run xlate next [Sfence; Csrw satp a0; Sfence; Li a0 TRAPFRAME] m).
  assert (regs m0 a0 = TRAPFRAME /\ csrs m0 satp = regs m a0 /\ csrs m0 sepc = csrs m sepc /\ mem m0 = mem m) as (R0 & C0 & C1 & M0) by done.
  clearbody m0. destruct (run_loads xlate next a0 tf_fields m0 tf 288) as (L1 & L2 & L3 & L4 & L5); [by rewrite R0, C0|done|done| |].
  { eapply Forall_impl; [exact Hr|]. cbv beta. lia. }
  set (m1 := run xlate next (loads a0 tf_fields) m0) in *. clearbody m1.
  assert (addr xlate m1 a0 112 = tf + 112) as Ea by (unfold addr; rewrite L2, C0, L5, R0 by done; apply HM; lia).
  change (run xlate next [Ld a0 112 a0; Sret] m1) with ((set_reg a0 (ld64 (mem m1) (addr xlate m1 a0 112)) m1) <| pc := csrs m1 sepc |>).
  rewrite Ea. split_and!; simpl regs; simpl csrs; simpl mem; simpl pc.
  - intros r. destruct (decide (r = a0)) as [->|Hne]; [by rewrite L1, M0|]. rewrite (L4 r (tf_off r)) by (by apply tf_elem). by rewrite M0.
  - by rewrite L1.
  - by rewrite L2.
  - by rewrite L2.
Qed.

(** C24: A trap from user space gives every register back.  [uservec] stores the
    user registers in the trapframe of the process, changes no other memory, and enters
    [usertrap] on the kernel stack, with the kernel page table and the hart id
    that [prepare_return] put there.  When the kernel returns through
    [userret], every register whose slot in the trapframe was left alone has
    the value it had at the trap, the others have the value in their slot (the
    result of a system call in a0), and execution continues at [sepc] with the user page table. *)
Theorem trap_roundtrip m tf :
  maps xlate (csrs m satp) TRAPFRAME tf 288 -> wf m ->
  let m1 := run xlate next uservec m in
  entered tf m m1 /\
  forall m2 changed, maps xlate (regs m2 a0) TRAPFRAME tf 288 ->
    (forall r, r ∉ changed -> ld64 (mem m2) (tf + tf_off r) = ld64 (mem m1) (tf + tf_off r)) ->
    let m3 := run xlate next userret m2 in
    (forall r, r ∉ (changed : list reg) -> regs m3 r = regs m r) /\ (forall r, regs m3 r = ld64 (mem m2) (tf + tf_off r)) /\
    mem m3 = mem m2 /\ csrs m3 satp = regs m2 a0 /\ pc m3 = csrs m2 sepc.
Proof.
  intros HM HW m1. pose proof (uservec_enters m tf HM HW) as HE. split; [exact HE|]. intros m2 changed HM2 Hkeep m3.
  destruct (userret_returns m2 tf HM2) as (Hr & Hm & Hs & Hpc). fold m3 in Hr, Hm, Hs, Hpc. split_and!; try done.
  intros r Hc. rewrite Hr, Hkeep by done. apply (en_saved _ _ _ HE).
Qed.
End trap.

(** A process whose trapframe is at [ex_tf]; the result 42 of a system call is put into a0. *)
Definition ex_tf : Z := 0x87000000.
Definition ex_xlate (root va : Z) : Z := if (TRAPFRAME <=? va) && (va <? TRAPFRAME + 4096) then va - TRAPFRAME + ex_tf else va.
Definition ex_user : mach := mkmach (fun r => 1000 + index r trapframe_regs) (fun _ => 5) ∅ 0.
Definition ex_back : mach :=
  mkmach (fun _ => 5) (fun _ => 5) (st64 (mem (run ex_xlate 0 uservec ex_user)) (ex_tf + tf_off a0) 42) 0.

Lemma ex_maps root : maps ex_xlate root TRAPFRAME ex_tf 288.
Proof.
  intros o Ho. unfold u64. rewrite Z.mod_small by (pose proof trapframe_u64; unfold is_u64 in *; change TRAPFRAME with 274877898752 in *; lia).
  unfold ex_xlate. rewrite (proj2 (Z.leb_le _ _)), (proj2 (Z.ltb_lt _ _)) by lia. cbn [andb]. lia.
Qed.

Lemma ex_user_wf : wf ex_user.
Proof. intros r. destruct r; vm_compute; split; (discriminate || reflexivity). Qed.

Lemma trap_roundtrip_witness :
  let m3 := run ex_xlate 0 userret ex_back in (forall r, r ∉ [a0] -> regs m3 r = regs ex_user r) /\ regs m3 a0 = 42.
Proof.
  destruct (trap_roundtrip ex_xlate 0 ex_user ex_tf (ex_maps _) ex_user_wf) as [_ H].
  destruct (H ex_back [a0] (ex_maps _)) as (H1 & H2 & _).
  - intros r Hr. assert (r <> a0) as Hne by (intros ->; apply Hr; left). apply ld64_st64_ne. change (tf_off a0) with 112.
    destruct r; try done; vm_compute; (left; discriminate) || (right; discriminate).
  - split; [exact H1|]. rewrite H2. apply ld64_st64_eq. split; [discriminate|reflexivity].
Defined.

Definition ex_thread (v old new : Z) (h : memory) : mach :=
  mkmach (fun r => if decide (r = a0) then old else if decide (r = a1) then new else v + index r trapframe_regs) (fun _ => 5) h 0.

Lemma ex_call v old new h : 0 <= v < 2 ^ 32 -> 0 <= old < 2 ^ 32 -> 0 <= new < 2 ^ 32 -> old + 112 <= new \/ new + 112 <= old ->
  swtch_call (fun _ va => va) (ex_thread v old new h) old new.
Proof.
  intros Hv Ho Hn Hap. split_and!; [| | |done].
  - intros o Hoo. cbn. unfold u64. apply Z.mod_small. lia.
  - intros o Hoo. cbn. unfold u64. apply Z.mod_small. lia.
  - intros r. change (is_u64 (if decide (r = a0) then old else if decide (r = a1) then new else v + index r trapframe_regs)).
    destruct (decide (r = a0)); [unfold is_u64; lia|]. destruct (decide (r = a1)); [unfold is_u64; lia|].
    assert (0 <= index r trapframe_regs < 32) by (destruct r; vm_compute; split; (discriminate || reflexivity)). unfold is_u64. lia.
Qed.

Definition ex_first : mach := ex_thread 1000 4096 8192 ∅.
Definition ex_second : mach := ex_thread 2000 8192 4096 (mem (run (fun _ va => va) 0 swtch ex_first)).

Lemma ex_thread_mem v old new h : mem (ex_thread v old new h) = h.
Proof. reflexivity. Qed.

Lemma swtch_roundtrip_witness :
  let m3 := run (fun _ va => va) 0 swtch ex_second in pc m3 = regs ex_first ra /\ regs m3 s11 = regs ex_first s11.
Proof.
  destruct (swtch_roundtrip (fun _ va => va) 0 ex_first 4096 8192 ex_second 8192) as [Hpc Hr].
  - apply ex_call; lia.
  - apply ex_call; lia.
  - unfold ex_second. rewrite ex_thread_mem. apply agree_refl.
  - split; [exact Hpc|]. apply (Hr s11). apply (bool_decide_unpack _). vm_compute. exact I.
Defined.

(** ** kernelvec *)

Definition kv_saved : list (reg * Z) :=
  [(ra, 0); (gp, 16); (tp, 24); (t0, 32); (t1, 40); (t2, 48); (a0, 72); (a1, 80); (a2, 88); (a3, 96); (a4, 104); (a5, 112);
   (a6, 120); (a7, 128); (t3, 216); (t4, 224); (t5, 232); (t6, 240)].

Definition kv_loaded : list (reg * Z) := filter (fun p => p.1 <> tp) kv_saved.

Lemma kernelvec_parts :
  kernelvec_save = [Addi sp sp (-256)] ++ saves sp kv_saved /\ kernelvec_restore = loads sp kv_loaded ++ [Addi sp sp 256; Sret].
Proof. split; reflexivity. Qed.

Lemma kv_ok : fields 256 kv_saved.*2 /\ NoDup kv_loaded.*1 /\ Forall (fun o => 0 <= o < 256) kv_loaded.*2 /\ sp ∉ kv_loaded.*1.
Proof. split; [split|split_and!]; apply (bool_decide_unpack _); vm_compute; exact I. Qed.

(** The registers that a C function preserves. *)
Definition callee_saved : list reg := [sp; s0; s1; s2; s3; s4; s5; s6; s7; s8; s9; s10; s11].

Lemma kv_cover r : r <> tp -> r ∉ callee_saved -> r ∈ kv_loaded.*1.
Proof. destruct r; intros H1 H2; try done; try (destruct H2; apply (bool_decide_unpack _); vm_compute; exact I); apply (bool_decide_unpack _); vm_compute; exact I. Qed.

Lemma kv_callee : Forall (fun r => r ∉ kv_loaded.*1) callee_saved.
Proof. apply (bool_decide_unpack _). vm_compute. exact I. Qed.

Section kernelvec.
Context (xlate : Z -> Z -> Z) (next : Z).

Lemma run_addi d v m : let m' := run xlate next [Addi d d v] m in
  regs m' = (fun x => if decide (x = d) then u64 (regs m d + v) else regs m x) /\ csrs m' = csrs m /\ mem m' = mem m /\ pc m' = pc m.
Proof. split_and!; reflexivity. Qed.

Lemma run_sret m : let m' := run xlate next [Sret] m in regs m' = regs m /\ csrs m' = csrs m /\ mem m' = mem m /\ pc m' = csrs m sepc.
Proof. split_and!; reflexivity. Qed.

(** An interrupt in kernel code is not seen by it: [kernelvec] saves what a C
    function may change in a new frame of the stack, and when [kerneltrap] has
    returned, having preserved its callee-saved registers and the frame, every
    register but [tp] has its old value; [tp] keeps the id of the hart the
    code now runs on. *)
Theorem kernelvec_transparent m S :
  wf m -> maps xlate (csrs m satp) (u64 (regs m sp - 256)) S 256 ->
  let m1 := run xlate next kernelvec_save m in
  forall m2, csrs m2 satp = csrs m satp -> (forall r, r ∈ callee_saved -> regs m2 r = regs m1 r) ->
    agree (fun a => S <= a < S + 256) (mem m1) (mem m2) ->
    let m3 := run xlate next kernelvec_restore m2 in
    (forall r, r <> tp -> regs m3 r = regs m r) /\ regs m3 tp = regs m2 tp /\ pc m3 = csrs m2 sepc /\ mem m3 = mem m2.
Proof.
  intros HW HM m1 m2 Hsatp Hcs Hag m3. destruct kv_ok as (Hf & Hnd & Hr & Hsp). destruct kernelvec_parts as [P1 P2].
  unfold m1, m3 in *. clear m1 m3. rewrite P1, run_app in *. rewrite P2, run_app.
  destruct (run_addi sp (-256) m) as (R0 & C0 & M0 & _). set (m0 := run xlate next [Addi sp sp (-256)] m) in *. clearbody m0.
  assert (regs m0 sp = u64 (regs m sp - 256)) as Esp by (by rewrite R0, decide_True).
  destruct (run_saves xlate next sp kv_saved m0 S 256) as (E1 & E2 & _ & Hld & _); [by rewrite Esp, C0|done| |].
  { intros r. rewrite R0. case_decide; [unfold u64; apply Z.mod_pos_bound; lia|apply HW]. }
  set (m1 := run xlate next (saves sp kv_saved) m0) in *. clearbody m1.
  assert (regs m2 sp = u64 (regs m sp - 256)) as Esp2 by (rewrite Hcs by left; by rewrite E1).
  destruct (run_loads xlate next sp kv_loaded m2 S 256) as (L1 & L2 & L3 & L4 & L5); [by rewrite Esp2, Hsatp|done|done|done|].
  set (m4 := run xlate next (loads sp kv_loaded) m2) in *. clearbody m4.
  change [Addi sp sp 256; Sret] with ([Addi sp sp 256] ++ [Sret]). rewrite run_app.
  destruct (run_addi sp 256 m4) as (R5 & C5 & M5 & _). set (m5 := run xlate next [Addi sp sp 256] m4) in *. clearbody m5.
  destruct (run_sret m5) as (R6 & C6 & M6 & P6). set (m6 := run xlate next [Sret] m5) in *. clearbody m6.
  rewrite R6, M6, P6, R5, C5, M5, L1, L2. cbv beta. split_and!; [|by rewrite decide_False, L5 by (done || apply (bool_decide_unpack _); vm_compute; exact I)|done|done].
  intros r Hne. case_decide as E.
  - subst r. rewrite L5 by done. rewrite Esp2. unfold u64. rewrite Zplus_mod_idemp_l. replace (regs m sp - 256 + 256) with (regs m sp) by lia.
    apply Z.mod_small, HW.
  - destruct (decide (r ∈ callee_saved)) as [Hc|Hc].
    + rewrite L5; [rewrite Hcs, E1, R0 by done; by rewrite decide_False|]. pose proof kv_callee as Hk. rewrite Forall_forall in Hk. by apply Hk.
    + destruct (list_elem_of_fmap_1 _ _ _ (kv_cover r Hne Hc)) as ([r' o] & Er & Hin). cbn in Er. subst r'. rewrite (L4 r o Hin).
      apply list_elem_of_filter in Hin as [_ Hin]. transitivity (ld64 (mem m1) (S + o)).
      * apply ld_ext. intros a Ha. apply Hag. destruct Hf as [_ Hf]. rewrite Forall_forall in Hf.
        specialize (Hf o ltac:(apply list_elem_of_fmap; by exists (r, o))). cbv beta in Hf. lia.
      * rewrite (Hld r o Hin), R0. by rewrite decide_False.
Qed.

(** ** _entry *)

(** Each hart starts on a stack of its own, inside [stack0]. *)
Lemma entry_stack stack0 m : let h := csrs m mhartid in
  0 <= h < NCPU -> 0 <= stack0 -> stack0 + 4096 * NCPU < 2 ^ 64 ->
  regs (run xlate next (_entry stack0) m) sp = stack0 + 4096 * (h + 1).
Proof.
  intros h Hh Hs Hb. change (u64 (stack0 + u64 (1024 * 4 * u64 (h + 1))) = stack0 + 4096 * (h + 1)). unfold u64. change NCPU with 8 in *.
  rewrite (Z.mod_small (h + 1)), (Z.mod_small (1024 * 4 * (h + 1))) by lia. rewrite Z.mod_small by lia. lia.
Qed.
End kernelvec.
