(* ===== verification/Boot.v ===== *)
(** * The boot: kernel/start.c, kernel/main.c, kernel/plic.c and uartinit

    Every hart runs [start] in machine mode, which hands the machine to the
    supervisor and enters [main]; hart 0 initialises the kernel while the
    others wait for [started].  The control registers that [start] writes are
    those of riscv.h; what a register keeps of the bits written to it is left
    to the machine ([Machine]), of which the theorems assume that it has the
    supervisor mode, the delegation and the timer the kernel relies on.  The harts of [main] interleave in any
    order. *)

From S2P Require Import Prelude CMem Riscv.

(** ** The machine *)

Inductive csrno := Cmstatus | Cmepc | Csatp | Cmedeleg | Cmideleg | Cmie | Cpmpaddr0 | Cpmpcfg0 | Cmenvcfg | Cmcounteren | Cstimecmp.

(** [mode]: 3 machine, 1 supervisor, 0 user. *)
Record hart := mkhart {
  mstatus : Z; mepc : Z; satp : Z; medeleg : Z; mideleg : Z; mie : Z; pmpaddr0 : Z; pmpcfg0 : Z; menvcfg : Z; mcounteren : Z;
  stimecmp : Z; time : Z; mhartid : Z; tp : Z; mode : Z; pc : Z
}.

#[export] Instance eta_hart : Eta hart := fun x =>
  mkhart (mstatus x) (mepc x) (satp x) (medeleg x) (mideleg x) (mie x) (pmpaddr0 x) (pmpcfg0 x) (menvcfg x) (mcounteren x)
    (stimecmp x) (time x) (mhartid x) (tp x) (mode x) (pc x).

Definition MSTATUS_MPP_MASK : Z := Z.shiftl 3 11.
Definition MSTATUS_MPP_S : Z := Z.shiftl 1 11.
Definition SIE_SEIE : Z := Z.shiftl 1 9.
Definition SIE_STIE : Z := Z.shiftl 1 5.
Definition MIE_STIE : Z := Z.shiftl 1 5.

(** The exceptions that reach [usertrap] and [kerneltrap]: an instruction, load
    or store that the memory refuses, an illegal instruction, a breakpoint, a
    system call, and the three page faults. *)
Definition kernel_exceptions : list Z := [0; 1; 2; 3; 4; 5; 6; 7; 8; 12; 13; 15].

(** [legal c x]: what register [c] holds after [x] is written to it. *)
Class Machine := {
  legal : csrno -> Z -> Z;
  legal_mpp : forall x, Z.land x MSTATUS_MPP_MASK = MSTATUS_MPP_S -> Z.land (legal Cmstatus x) MSTATUS_MPP_MASK = MSTATUS_MPP_S;
  legal_mepc : forall x, is_u64 x -> x `mod` 2 = 0 -> legal Cmepc x = x;
  legal_satp : legal Csatp 0 = 0;
  legal_medeleg : forall x i, i ∈ kernel_exceptions -> Z.testbit (legal Cmedeleg x) i = Z.testbit x i;
  legal_mideleg : forall x i, i ∈ [5; 9] -> Z.testbit (legal Cmideleg x) i = Z.testbit x i;
  legal_mie : forall x i, i ∈ [5; 9] -> Z.testbit (legal Cmie x) i = Z.testbit x i;
  legal_pmpaddr0 : forall x, 0 <= x < 2 ^ 54 -> legal Cpmpaddr0 x = x;
  legal_pmpcfg0 : legal Cpmpcfg0 0xf = 0xf;
  legal_menvcfg : forall x, Z.testbit (legal Cmenvcfg x) 63 = Z.testbit x 63;
  legal_mcounteren : forall x, Z.testbit (legal Cmcounteren x) 1 = Z.testbit x 1;
  legal_stimecmp : forall x, is_u64 x -> legal Cstimecmp x = x
}.

(** A machine whose registers keep every bit. *)
#[export, program] Instance plain_machine : Machine := { legal := fun _ x => x }.
Solve Obligations with done.

Section start.
Context {MC : Machine}.

(** ** riscv.h *)

Definition r_mhartid : M hart Z := gets mhartid.
Definition r_mstatus : M hart Z := gets mstatus.
Definition w_mstatus (x : Z) : M hart unit := modify (fun h => h <| mstatus := legal Cmstatus x |>).
Definition w_mepc (x : Z) : M hart unit := modify (fun h => h <| mepc := legal Cmepc x |>).
Definition w_satp (x : Z) : M hart unit := modify (fun h => h <| satp := legal Csatp x |>).
Definition w_medeleg (x : Z) : M hart unit := modify (fun h => h <| medeleg := legal Cmedeleg x |>).
Definition w_mideleg (x : Z) : M hart unit := modify (fun h => h <| mideleg := legal Cmideleg x |>).

(** sie shows the delegated bits of mie. *)
Definition r_sie : M hart Z := gets (fun h => Z.land (mie h) (mideleg h)).
Definition w_sie (x : Z) : M hart unit :=
  modify (fun h => h <| mie := legal Cmie (Z.lor (Z.land (mie h) (Z.lnot (mideleg h))) (Z.land x (mideleg h))) |>).
Definition r_mie : M hart Z := gets mie.
Definition w_mie (x : Z) : M hart unit := modify (fun h => h <| mie := legal Cmie x |>).
Definition w_pmpaddr0 (x : Z) : M hart unit := modify (fun h => h <| pmpaddr0 := legal Cpmpaddr0 x |>).
Definition w_pmpcfg0 (x : Z) : M hart unit := modify (fun h => h <| pmpcfg0 := legal Cpmpcfg0 x |>).
Definition r_menvcfg : M hart Z := gets menvcfg.
Definition w_menvcfg (x : Z) : M hart unit := modify (fun h => h <| menvcfg := legal Cmenvcfg x |>).
Definition r_mcounteren : M hart Z := gets mcounteren.
Definition w_mcounteren (x : Z) : M hart unit := modify (fun h => h <| mcounteren := legal Cmcounteren x |>).
Definition r_time : M hart Z := gets time.
Definition w_stimecmp (x : Z) : M hart unit := modify (fun h => h <| stimecmp := legal Cstimecmp x |>).
Definition w_tp (x : Z) : M hart unit := modify (fun h => h <| tp := x |>).

(** The previous mode becomes the mode, the user mode the previous one; MIE
    (bit 3) is taken from MPIE (bit 7), which becomes 1. *)
Definition mret_status (x : Z) : Z :=
  let x1 := Z.lor (Z.land x (Z.lnot MSTATUS_MPP_MASK)) (Z.shiftl 1 7) in
  if Z.testbit x 7 then Z.lor x1 (Z.shiftl 1 3) else Z.land x1 (Z.lnot (Z.shiftl 1 3)).

Definition mret_insn : M hart unit :=
  modify (fun h => h <| mode := Z.shiftr (Z.land (mstatus h) MSTATUS_MPP_MASK) 11 |> <| pc := mepc h |> <| mstatus ::= mret_status |>).

(** ** start.c *)

Definition timerinit : M hart unit :=
  x ← r_mie; w_mie (Z.lor x MIE_STIE);;
  x ← r_menvcfg; w_menvcfg (Z.lor x (Z.shiftl 1 63));;
  x ← r_mcounteren; w_mcounteren (Z.lor x 2);;
  t ← r_time; w_stimecmp (u64 (t + 1000000)).

(** [main] is the address of the function. *)
Definition start (main : Z) : M hart unit :=
  x ← r_mstatus;
  let x := Z.land x (Z.lnot MSTATUS_MPP_MASK) in
  let x := Z.lor x MSTATUS_MPP_S in
  w_mstatus x;;
  w_mepc main;;
  w_satp 0;;
  w_medeleg 0xffff;;
  w_mideleg 0xffff;;
  x ← r_sie;
  w_sie (Z.lor (Z.lor x SIE_SEIE) SIE_STIE);;
  w_pmpaddr0 0x3fffffffffffff;;
  w_pmpcfg0 0xf;;
  timerinit;;
  id ← r_mhartid;
  w_tp (u64 (i32 id));;
  mret_insn.

(** ** What the supervisor gets *)

(** The first entry of the memory protection: with 1 in its address-matching
    field it covers the addresses below four times [pmpaddr0]; the low three
    bits allow reads, writes and execution. *)
Definition pmp_allows (h : hart) (a n : Z) : Prop :=
  Z.land (Z.shiftr (pmpcfg0 h) 3) 3 = 1 /\ Z.land (pmpcfg0 h) 7 = 7 /\ 0 <= a /\ a + n <= 4 * pmpaddr0 h.

Definition delegated (h : hart) (cause : Z) : Prop := Z.testbit (medeleg h) cause = true.

(** A timer (5) or external (9) interrupt is enabled and goes to the supervisor. *)
Definition takes_interrupt (h : hart) (i : Z) : Prop := Z.testbit (mideleg h) i = true /\ Z.testbit (mie h) i = true.

Record supervisor (h : hart) (main hartid now : Z) : Prop := {
  sv_mode : mode h = 1;
  sv_pc : pc h = main;
  sv_tp : tp h = hartid;
  sv_bare : satp h = 0;
  sv_exceptions : forall c, c ∈ kernel_exceptions -> delegated h c;
  sv_interrupts : forall i, i ∈ [5; 9] -> takes_interrupt h i;
  sv_memory : forall a n, 0 <= a -> a + n <= 2 ^ 56 - 4 -> pmp_allows h a n;
  sv_timer : Z.testbit (menvcfg h) 63 = true /\ Z.testbit (mcounteren h) 1 = true /\ stimecmp h = u64 (now + 1000000)
}.

Lemma mpp_set x : Z.land (Z.lor (Z.land x (Z.lnot MSTATUS_MPP_MASK)) MSTATUS_MPP_S) MSTATUS_MPP_MASK = MSTATUS_MPP_S.
Proof.
  rewrite Z.land_lor_distr_l, <- Z.land_assoc, (Z.land_comm (Z.lnot _)), Z.land_lnot_diag, Z.land_0_r. done.
Qed.

(** Every hart enters [main] in supervisor mode with its number in [tp] and
    paging off; the traps the kernel handles, the timer and the devices go to
    the supervisor, which may access all of physical memory and has asked for
    its first timer interrupt. *)
Theorem start_enters_main main h :
  is_u64 main -> main `mod` 2 = 0 -> 0 <= mhartid h < 2 ^ 31 ->
  wp (start main) (fun _ h' => supervisor h' main (mhartid h) (time h)) h.
Proof.
  intros Hm Hm2 Hid. destruct h. unfold start, timerinit.
  repeat (first [apply wp_bind | apply wp_gets | apply wp_modify];
    cbv beta zeta iota delta [upd eta_hart mstatus mepc satp medeleg mideleg mie pmpaddr0 pmpcfg0 menvcfg mcounteren stimecmp time mhartid tp mode pc] in *).
  split; cbv beta iota delta [mode pc tp satp].
  - by rewrite legal_mpp by apply mpp_set.
  - by apply legal_mepc.
  - rewrite i32_id by lia. apply Z.mod_small. lia.
  - apply legal_satp.
  - intros c Hc. unfold delegated. cbn [medeleg]. rewrite legal_medeleg by done.
    repeat (apply elem_of_cons in Hc as [->|Hc]; [done|]). by apply elem_of_nil in Hc.
  - intros i Hi. unfold takes_interrupt. cbn [mideleg mie]. rewrite legal_mideleg, legal_mie, Z.lor_spec, legal_mie, Z.lor_spec by done.
    rewrite !Z.land_spec, !Z.lor_spec, legal_mideleg by done.
    repeat (apply elem_of_cons in Hi as [->|Hi]; [cbn [Z.testbit]; by rewrite ?orb_true_r, ?andb_true_r, ?orb_true_r|]). by apply elem_of_nil in Hi.
  - intros a n Ha Hn. unfold pmp_allows. cbn [pmpcfg0 pmpaddr0]. rewrite legal_pmpcfg0, legal_pmpaddr0 by lia. split_and!; [done..|lia].
  - cbn [menvcfg mcounteren stimecmp]. rewrite legal_menvcfg, legal_mcounteren, !Z.lor_spec, orb_true_r, legal_stimecmp; [by rewrite orb_true_r|].
    unfold is_u64, u64. apply Z.mod_pos_bound. lia.
Qed.
End start.

Lemma start_enters_main_instance :
  wp (start 0x80000da0) (fun _ h' => supervisor h' 0x80000da0 2 5) (mkhart 0xa00001800 0 0 0 0 0 0 0 0 0 0 5 2 0 3 0).
Proof. apply start_enters_main; [done..|cbn; lia]. Qed.

(** ** plic.c *)

Module Plic.

(** The registers written so far, by address; the others read as 0. *)
Abbreviation pregs := (gmap Z Z).

Definition store32 (a v : Z) : M pregs unit := modify <[a := v]>.

Definition plicinit : M pregs unit :=
  store32 (PLIC + UART0_IRQ * 4) 1;;
  store32 (PLIC + VIRTIO0_IRQ * 4) 1.

Definition plicinithart (hart : Z) : M pregs unit :=
  store32 (PLIC_SENABLE hart) (Z.lor (Z.shiftl 1 UART0_IRQ) (Z.shiftl 1 VIRTIO0_IRQ));;
  store32 (PLIC_SPRIORITY hart) 0.

(** The claim register is the device's: it reads as the interrupt [pick] gives. *)
Definition plic_claim (pick : pregs -> Z -> Z) (hart : Z) : M pregs Z := gets (fun r => i32 (pick r hart)).

Definition plic_complete (hart irq : Z) : M pregs unit := store32 (PLIC_SCLAIM hart) irq.

(** Interrupt [i] is delivered to the hart: its priority is above the hart's
    threshold and its enable bit is set. *)
Definition rd (r : pregs) (a : Z) : Z := default 0 (r !! a).

Definition routed (r : pregs) (hart i : Z) : Prop :=
  rd r (PLIC_SPRIORITY hart) < rd r (PLIC + i * 4) /\ Z.testbit (rd r (PLIC_SENABLE hart + 4 * (i / 32))) (i `mod` 32) = true.

(** The values the driver writes. *)
Inductive value_ok : Z -> Z -> Prop :=
  | vo_uart : value_ok (PLIC + UART0_IRQ * 4) 1
  | vo_disk : value_ok (PLIC + VIRTIO0_IRQ * 4) 1
  | vo_enable h : 0 <= h < NCPU -> value_ok (PLIC_SENABLE h) 1026
  | vo_threshold h : 0 <= h < NCPU -> value_ok (PLIC_SPRIORITY h) 0
  | vo_complete h irq : 0 <= h < NCPU -> value_ok (PLIC_SCLAIM h) irq.

Definition written (r : pregs) : Prop := forall a v, r !! a = Some v -> value_ok a v.

Definition set_up (r : pregs) : Prop :=
  is_Some (r !! (PLIC + UART0_IRQ * 4)) /\ is_Some (r !! (PLIC + VIRTIO0_IRQ * 4)).
Definition set_up_hart (r : pregs) (h : Z) : Prop := is_Some (r !! PLIC_SENABLE h) /\ is_Some (r !! PLIC_SPRIORITY h).

Lemma written_insert r a v : written r -> value_ok a v -> written (<[a := v]> r).
Proof. intros Hr Hv a' v' H. apply lookup_insert_Some in H as [[<- <-]|[_ H]]; [done|by apply Hr]. Qed.

Lemma insert_Some (r : pregs) a v a' : is_Some (r !! a') -> is_Some (<[a := v]> r !! a').
Proof. intros H. destruct (decide (a = a')) as [->|?]; [by rewrite lookup_insert_eq|by rewrite lookup_insert_ne]. Qed.

(** Different registers have different addresses. *)
Ltac plic_addr :=
  unfold UART0_IRQ, VIRTIO0_IRQ, PLIC_SENABLE, PLIC_SPRIORITY, PLIC_SCLAIM, PLIC, NCPU in *; lia.

Lemma rd_value r a (P : Z -> Prop) : written r -> is_Some (r !! a) -> (forall v, value_ok a v -> P v) -> P (rd r a).
Proof. intros Hr [v Hv] HP. unfold rd. rewrite Hv. by apply HP, Hr. Qed.

Lemma rd_other r a : written r -> (forall v, ~ value_ok a v) -> rd r a = 0.
Proof. intros Hr Ha. unfold rd. destruct (r !! a) as [v|] eqn:E; [|done]. by apply Hr, Ha in E. Qed.

Lemma enable_bits i : 0 < i < 32 -> Z.testbit 1026 i = true <-> i = UART0_IRQ \/ i = VIRTIO0_IRQ.
Proof.
  intros Hi. change 1026 with (Z.lor (2 ^ 10) (2 ^ 1)). rewrite Z.lor_spec, orb_true_iff, !Z.pow2_bits_eqb, !Z.eqb_eq by lia.
  unfold UART0_IRQ, VIRTIO0_IRQ. lia.
Qed.

(** Once a hart is set up it takes the interrupts of the UART and of the disk, and no others. *)
Lemma routed_iff r h i :
  written r -> set_up r -> set_up_hart r h -> 0 <= h < NCPU -> 0 < i < 1024 -> routed r h i <-> i = UART0_IRQ \/ i = VIRTIO0_IRQ.
Proof.
  intros Hr [Hu Hd] [He Ht] Hh Hi. unfold routed.
  assert (rd r (PLIC_SPRIORITY h) = 0) as -> by (apply rd_value; [done..|]; inversion 1; plic_addr).
  assert (rd r (PLIC_SENABLE h) = 1026) as Hen by (apply rd_value; [done..|]; inversion 1; plic_addr).
  destruct (decide (i < 32)) as [Hlt|Hge].
  - rewrite Z.div_small, Z.mod_small, Z.mul_0_r, Z.add_0_r, Hen, enable_bits by lia. split; [tauto|]. intros Hor. split; [|done].
    destruct Hor as [-> | ->]; (apply rd_value; [done..|]; inversion 1; plic_addr).
  - rewrite (rd_other r (PLIC_SENABLE h + 4 * (i / 32))), Z.bits_0; [split; [by intros [_ ?]|]; plic_addr|done|].
    assert (1 <= i / 32 < 32) by (Z.div_mod_to_equations; lia). intros v Hv; inversion Hv; plic_addr.
Qed.

(** The interrupt that [plic_claim] returns is one that [devintr] knows, when
    the device answers with an interrupt that is routed to the hart, or 0. *)
Lemma plic_claim_known (pick : pregs -> Z -> Z) r h :
  written r -> set_up r -> set_up_hart r h -> 0 <= h < NCPU ->
  (pick r h = 0 \/ 0 < pick r h < 1024 /\ routed r h (pick r h)) ->
  wp (plic_claim pick h) (fun irq r' => r' = r /\ (irq = 0 \/ irq = UART0_IRQ \/ irq = VIRTIO0_IRQ)) r.
Proof.
  intros Hr Hs Hsh Hh Hp. unfold plic_claim. apply wp_gets. split; [done|]. rewrite i32_id by lia.
  destruct Hp as [->|[Hi Hp]]; [by left|right]. by apply (routed_iff r h) in Hp.
Qed.

Lemma wp_plicinit r (Q : unit -> pregs -> Prop) :
  written r -> (forall r', written r' -> set_up r' -> (forall a, is_Some (r !! a) -> is_Some (r' !! a)) -> Q tt r') -> wp plicinit Q r.
Proof.
  intros Hr HQ. unfold plicinit, store32. apply wp_bind. do 2 apply wp_modify. apply HQ.
  - apply written_insert; [apply written_insert; [done|]|]; constructor.
  - split; [apply insert_Some|]; by rewrite lookup_insert_eq.
  - intros a Ha. by do 2 apply insert_Some.
Qed.

Lemma wp_plicinithart r h (Q : unit -> pregs -> Prop) :
  written r -> 0 <= h < NCPU ->
  (forall r', written r' -> set_up_hart r' h -> (forall a, is_Some (r !! a) -> is_Some (r' !! a)) -> Q tt r') -> wp (plicinithart h) Q r.
Proof.
  intros Hr Hh HQ. unfold plicinithart, store32. apply wp_bind. do 2 apply wp_modify. apply HQ.
  - apply written_insert; [apply written_insert; [done|]|]; by constructor.
  - split; [apply insert_Some|]; by rewrite lookup_insert_eq.
  - intros a Ha. by do 2 apply insert_Some.
Qed.
End Plic.

(** ** uartinit of uart.c *)

Module Uart.

(** The registers of the 16550: while the latch bit of LCR is set, the first
    two addresses are the divisor of the baud rate. *)
Record uart := mkuart { ier : Z; fcr : Z; lcr : Z; dll : Z; dlm : Z; sent : list Z }.

#[export] Instance eta_uart : Eta uart := fun x => mkuart (ier x) (fcr x) (lcr x) (dll x) (dlm x) (sent x).

Definition IER : Z := 1.
Definition IER_RX_ENABLE : Z := Z.shiftl 1 0.
Definition IER_TX_ENABLE : Z := Z.shiftl 1 1.
Definition FCR : Z := 2.
Definition FCR_FIFO_ENABLE : Z := Z.shiftl 1 0.
Definition FCR_FIFO_CLEAR : Z := Z.shiftl 3 1.
Definition LCR : Z := 3.
Definition LCR_EIGHT_BITS : Z := Z.shiftl 3 0.
Definition LCR_BAUD_LATCH : Z := Z.shiftl 1 7.

Definition WriteReg (reg v : Z) : M uart unit := modify (fun u =>
  let latch := has (lcr u) LCR_BAUD_LATCH in
  if reg =? 0 then if latch then u <| dll := v |> else u <| sent ::= fun l => l ++ [v] |>
  else if reg =? IER then if latch then u <| dlm := v |> else u <| ier := v |>
  else if reg =? FCR then u <| fcr := v |>
  else if reg =? LCR then u <| lcr := v |>
  else u).

Definition uartinit : M uart unit :=
  WriteReg IER 0x00;;
  WriteReg LCR LCR_BAUD_LATCH;;
  WriteReg 0 0x03;;
  WriteReg 1 0x00;;
  WriteReg LCR LCR_EIGHT_BITS;;
  WriteReg FCR (Z.lor FCR_FIFO_ENABLE FCR_FIFO_CLEAR);;
  WriteReg IER (Z.lor IER_TX_ENABLE IER_RX_ENABLE).

(** Started with the latch off, the initialisation sends nothing, leaves the
    latch off, divides by three, and enables both interrupts. *)
Lemma uartinit_ready u :
  has (lcr u) LCR_BAUD_LATCH = false ->
  wp uartinit (fun _ u' => u' = mkuart 3 7 3 3 0 (sent u)) u.
Proof.
  intros Hl. destruct u. cbn [lcr] in Hl. unfold uartinit, WriteReg. apply wp_bind, wp_modify. cbn [lcr]. rewrite Hl.
  cbv beta zeta iota delta [upd ier fcr lcr dll dlm sent Z.eqb IER].
  repeat (first [apply wp_bind | apply wp_modify]; cbn). done.
Qed.
End Uart.

(** ** main.c *)

Module Main.
Import Plic.

(** The calls of [main]; [banner] are its three [printf], [hart_starting] the one of the other harts. *)
Inductive act :=
  | consoleinit | printfinit | banner | kinit | kvminit | kvminithart | procinit | trapinit | trapinithart | plicinit | plicinithart
  | binit | iinit | fileinit | virtio_disk_init | userinit | synchronize | set_started
  | wait_started | hart_starting | scheduler.

#[export] Instance act_eq_dec : EqDecision act.
Proof. solve_decision. Defined.

Definition main (cpuid : nat) : list act :=
  if decide (cpuid = 0%nat) then
    [consoleinit; printfinit; banner; kinit; kvminit; kvminithart; procinit; trapinit; trapinithart; plicinit; plicinithart;
     binit; iinit; fileinit; virtio_disk_init; userinit; synchronize; set_started; scheduler]
  else [wait_started; synchronize; hart_starting; kvminithart; trapinithart; plicinithart; scheduler].

(** What the harts share, what each has in its own registers, the calls it
    still has to make, and the calls made so far, the oldest first. *)
Record boot := mkboot {
  kernel_pagetable : Z; started : bool; plic : pregs;
  hsatp : nat -> Z; hstvec : nat -> Z; todo : nat -> list act; ran : list (nat * act)
}.

#[export] Instance eta_boot : Eta boot := fun x =>
  mkboot (kernel_pagetable x) (started x) (plic x) (hsatp x) (hstvec x) (todo x) (ran x).

Definition fupd {A} (f : nat -> A) (h : nat) (v : A) : nat -> A := fun x => if decide (x = h) then v else f x.

Section main.
(** The page table [kvmmake] returns, and the entry of kernelvec.S. *)
Context (root kernelvec : Z).

Definition run_plic (m : M pregs unit) (r : pregs) : pregs := match m r with Ok _ r' => r' | _ => r end.

(** [kernel_pagetable = kvmmake()], whose theorem is in KernelSpace. *)
Definition do_kvminit (s : boot) : boot := s <| kernel_pagetable := root |>.
Definition do_kvminithart (h : nat) (s : boot) : boot := s <| hsatp ::= fun f => fupd f h (MAKE_SATP (kernel_pagetable s)) |>.
Definition do_trapinithart (h : nat) (s : boot) : boot := s <| hstvec ::= fun f => fupd f h kernelvec |>.

(** What a call does to the registers and variables of the boot. *)
Definition effect (h : nat) (a : act) (s : boot) : boot :=
  match a with
  | kvminit => do_kvminit s
  | kvminithart => do_kvminithart h s
  | trapinithart => do_trapinithart h s
  | plicinit => s <| plic ::= run_plic Plic.plicinit |>
  | plicinithart => s <| plic ::= run_plic (Plic.plicinithart (Z.of_nat h)) |>
  | set_started => s <| started := true |>
  | _ => s
  end.

Definition advance (h : nat) (a : act) (rest : list act) (s : boot) : boot :=
  s <| todo ::= fun f => fupd f h rest |> <| ran ::= fun l => l ++ [(h, a)] |>.

Inductive step : boot -> boot -> Prop :=
  | step_call h a rest s : (Z.of_nat h < NCPU) -> todo s h = a :: rest -> a <> wait_started -> a <> scheduler ->
      step s (effect h a (advance h a rest s))
  | step_spin h rest s : (Z.of_nat h < NCPU) -> todo s h = wait_started :: rest -> started s = false -> step s s
  | step_go h rest s : (Z.of_nat h < NCPU) -> todo s h = wait_started :: rest -> started s = true ->
      step s (advance h wait_started rest s).

Definition power_on (satp0 stvec0 : nat -> Z) : boot := mkboot 0 false ∅ satp0 stvec0 main [].

Inductive reachable satp0 stvec0 : boot -> Prop :=
  | reach_init : reachable satp0 stvec0 (power_on satp0 stvec0)
  | reach_step s s' : reachable satp0 stvec0 s -> step s s' -> reachable satp0 stvec0 s'.

(** ** Progress *)

Definition acts_of (h : nat) (tr : list (nat * act)) : list act := (filter (fun p => p.1 = h) tr).*2.

Lemma acts_of_snoc h tr h' a : acts_of h (tr ++ [(h', a)]) = acts_of h tr ++ (if decide (h' = h) then [a] else []).
Proof. unfold acts_of. rewrite filter_app, fmap_app, filter_cons, filter_nil. cbn [fst]. by destruct (decide (h' = h)). Qed.

Lemma elem_of_acts h a tr : a ∈ acts_of h tr <-> (h, a) ∈ tr.
Proof.
  unfold acts_of. rewrite list_elem_of_fmap. split.
  - intros ([h' a'] & -> & [E H]%list_elem_of_filter). cbn in E. by subst.
  - intros H. exists (h, a). split; [done|]. by apply list_elem_of_filter.
Qed.

(** The calls that set up what the harts share. *)
Definition global_inits : list act :=
  [consoleinit; printfinit; kinit; kvminit; procinit; trapinit; plicinit; binit; iinit; fileinit; virtio_disk_init; userinit].

(** In the calls of hart 0, [started] comes after all of them. *)
Lemma started_last n : set_started ∈ take n (main 0) -> forall g, g ∈ global_inits -> g ∈ take n (main 0).
Proof.
  intros Hs g Hg. destruct (decide (18 <= n)%nat) as [Hn|Hn].
  - assert (g ∈ take 18 (main 0)) as H.
    { assert (Forall (fun g => g ∈ take 18 (main 0)) global_inits) as HF by (apply (bool_decide_unpack _); by vm_compute).
      rewrite Forall_forall in HF. by apply HF. }
    replace (take 18 (main 0)) with (take 18 (take n (main 0))) in H by (rewrite take_take; f_equal; lia).
    rewrite <- (take_drop 18 (take n (main 0))). apply elem_of_app. by left.
  - exfalso. assert (Forall (fun n => set_started ∉ take n (main 0)) (seq 0 18)) as HF by (apply (bool_decide_unpack _); by vm_compute).
    rewrite Forall_forall in HF. apply (HF n); [apply elem_of_seq; lia|done].
Qed.

Record progress (s : boot) : Prop := {
  pr_prog : forall h, acts_of h (ran s) ++ todo s h = main h;
  pr_hart : forall h a, (h, a) ∈ ran s -> Z.of_nat h < NCPU;
  pr_wait : forall h, h <> 0%nat -> acts_of h (ran s) <> [] -> started s = true;
  pr_started : started s = true -> set_started ∈ acts_of 0 (ran s);
  pr_order : forall tr1 h a tr2, ran s = tr1 ++ (h, a) :: tr2 -> h <> 0%nat -> forall g, g ∈ global_inits -> (0%nat, g) ∈ tr1
}.

Lemma inits_done s g : progress s -> started s = true -> g ∈ global_inits -> g ∈ acts_of 0 (ran s).
Proof.
  intros Hp Hst Hg. assert (acts_of 0 (ran s) = take (length (acts_of 0 (ran s))) (main 0)) as E.
  { rewrite <- (pr_prog s Hp 0). by rewrite take_app_length. }
  rewrite E. apply started_last; [|done]. rewrite <- E. by apply pr_started.
Qed.

(** A hart other than 0 that is past its loop knows that everything is set up. *)
Lemma past_wait s h a rest : progress s -> h <> 0%nat -> todo s h = a :: rest -> a <> wait_started -> started s = true.
Proof.
  intros Hp Hh Ht Ha. apply (pr_wait s Hp h Hh). intros E. pose proof (pr_prog s Hp h) as Hm. rewrite E, Ht in Hm.
  unfold main in Hm. rewrite decide_False in Hm by done. by injection Hm as -> _.
Qed.

(** What hart 0 has done before each of its calls. *)
Lemma hart0_before s a rest : progress s -> todo s 0 = a :: rest ->
  (a = kvminithart -> kvminit ∈ acts_of 0 (ran s)) /\ a <> wait_started.
Proof.
  intros Hp Ht. pose proof (pr_prog s Hp 0) as Hm. rewrite Ht in Hm. set (n := length (acts_of 0 (ran s))).
  assert (main 0 !! n = Some a) as Hn by (rewrite <- Hm; by apply list_lookup_middle).
  assert (acts_of 0 (ran s) = take n (main 0)) as E by (unfold n; rewrite <- Hm; by rewrite take_app_length).
  assert (n < 19)%nat as Hlt by (by apply lookup_lt_Some in Hn).
  assert (Forall (fun n => (main 0 !! n = Some kvminithart -> kvminit ∈ take n (main 0)) /\ main 0 !! n <> Some wait_started) (seq 0 19)) as HF
    by (apply (bool_decide_unpack _); by vm_compute).
  rewrite Forall_forall in HF. destruct (HF n) as [H1 H2]; [apply elem_of_seq; lia|]. rewrite E. rewrite Hn in H1, H2.
  split; [by intros ->; apply H1|by intros ->].
Qed.

Lemma effect_ran h a s : ran (effect h a s) = ran s /\ todo (effect h a s) = todo s.
Proof. by destruct a. Qed.

Lemma effect_started h a s : started (effect h a s) = if decide (a = set_started) then true else started s.
Proof. by destruct a. Qed.

Lemma set_started_hart0 s h rest : progress s -> todo s h = set_started :: rest -> h = 0%nat.
Proof.
  intros Hp Ht. destruct (decide (h = 0%nat)) as [|Hh]; [done|]. exfalso. pose proof (pr_prog s Hp h) as Hm. rewrite Ht in Hm.
  unfold main in Hm. rewrite decide_False in Hm by done.
  assert (set_started ∈ [wait_started; synchronize; hart_starting; kvminithart; trapinithart; plicinithart; scheduler]) as H.
  { rewrite <- Hm. apply elem_of_app. right. left. }
  revert H. apply (bool_decide_unpack _). by vm_compute.
Qed.

Lemma progress_advance s s' h a rest :
  progress s -> Z.of_nat h < NCPU -> todo s h = a :: rest ->
  ran s' = ran s ++ [(h, a)] -> todo s' = fupd (todo s) h rest ->
  started s' = (if decide (a = set_started) then true else started s) -> (h <> 0%nat -> started s = true) -> progress s'.
Proof.
  intros Hp Hh Ht Er Et Es Hnz. split.
  - intros h'. rewrite Er, Et, acts_of_snoc, <- (pr_prog s Hp h'), <- app_assoc. f_equal. unfold fupd.
    destruct (decide (h = h')) as [->|Hne]; [rewrite decide_True by done; by rewrite Ht|by rewrite decide_False by done].
  - intros h' a' Hin. rewrite Er in Hin. apply elem_of_app in Hin as [Hin| [= -> ->]%list_elem_of_singleton]; [by eapply pr_hart|done].
  - intros h' Hh' Hne. rewrite Es. destruct (decide (a = set_started)); [done|]. rewrite Er, acts_of_snoc in Hne.
    destruct (decide (h = h')) as [->|]; [by apply Hnz|]. rewrite app_nil_r in Hne. by eapply pr_wait.
  - rewrite Es, Er, acts_of_snoc. intros Hs. apply elem_of_app. destruct (decide (a = set_started)) as [->|].
    + right. rewrite (set_started_hart0 s h rest Hp Ht). by left.
    + left. by apply pr_started.
  - intros tr1 h' a' tr2 E Hh' g Hg. rewrite Er in E. destruct tr2 as [|x tr2 _] using rev_ind.
    + apply app_inj_tail in E as [<- [= <- <-]]. apply elem_of_acts, inits_done; [done|by apply Hnz|done].
    + rewrite app_comm_cons, app_assoc in E. apply app_inj_tail in E as [E _]. by eapply (pr_order s Hp).
Qed.

(** ** The registers *)

Record ready_data (s : boot) : Prop := {
  da_kpt : kvminit ∈ acts_of 0 (ran s) -> kernel_pagetable s = root;
  da_satp : forall h, kvminithart ∈ acts_of h (ran s) -> hsatp s h = MAKE_SATP root;
  da_stvec : forall h, trapinithart ∈ acts_of h (ran s) -> hstvec s h = kernelvec;
  da_written : written (plic s);
  da_plic : plicinit ∈ acts_of 0 (ran s) -> set_up (plic s);
  da_plichart : forall h, plicinithart ∈ acts_of h (ran s) -> set_up_hart (plic s) (Z.of_nat h)
}.

Lemma run_plicinit r : written r ->
  let r' := run_plic Plic.plicinit r in written r' /\ set_up r' /\ forall a, is_Some (r !! a) -> is_Some (r' !! a).
Proof.
  intros Hr. assert (wp Plic.plicinit (fun _ r' => written r' /\ set_up r' /\ forall a, is_Some (r !! a) -> is_Some (r' !! a)) r) as H
    by (by apply wp_plicinit).
  apply wp_inv in H as ([] & r' & E & H). unfold run_plic. by rewrite E.
Qed.

Lemma run_plicinithart r h : written r -> 0 <= h < NCPU ->
  let r' := run_plic (Plic.plicinithart h) r in written r' /\ set_up_hart r' h /\ forall a, is_Some (r !! a) -> is_Some (r' !! a).
Proof.
  intros Hr Hh. assert (wp (Plic.plicinithart h) (fun _ r' => written r' /\ set_up_hart r' h /\ forall a, is_Some (r !! a) -> is_Some (r' !! a)) r) as H
    by (by apply wp_plicinithart).
  apply wp_inv in H as ([] & r' & E & H). unfold run_plic. by rewrite E.
Qed.

(** The interrupt controller after a call. *)
Lemma effect_plic h a s : written (plic s) -> Z.of_nat h < NCPU ->
  written (plic (effect h a s)) /\ (forall x, is_Some (plic s !! x) -> is_Some (plic (effect h a s) !! x)) /\
  (a = plicinit -> set_up (plic (effect h a s))) /\ (a = plicinithart -> set_up_hart (plic (effect h a s)) (Z.of_nat h)).
Proof.
  intros Hw Hh. destruct (run_plicinit _ Hw) as (A1 & A2 & A3). destruct (run_plicinithart _ (Z.of_nat h) Hw) as (B1 & B2 & B3); [lia|].
  destruct a; cbn [effect]; unfold upd; cbn [plic]; split_and!; done.
Qed.

Lemma effect_kpt h a s : kernel_pagetable (effect h a s) = if decide (a = kvminit) then root else kernel_pagetable s.
Proof. by destruct a. Qed.

Lemma effect_satp h a s h' : hsatp (effect h a s) h' = if decide (a = kvminithart /\ h' = h) then MAKE_SATP (kernel_pagetable s) else hsatp s h'.
Proof.
  destruct a; try (rewrite decide_False by naive_solver; done). cbn [effect]. unfold do_kvminithart, upd. cbn [hsatp]. unfold fupd.
  destruct (decide (h' = h)); [by rewrite decide_True|by rewrite decide_False by naive_solver].
Qed.

Lemma effect_stvec h a s h' : hstvec (effect h a s) h' = if decide (a = trapinithart /\ h' = h) then kernelvec else hstvec s h'.
Proof.
  destruct a; try (rewrite decide_False by naive_solver; done). cbn [effect]. unfold do_trapinithart, upd. cbn [hstvec]. unfold fupd.
  destruct (decide (h' = h)); [by rewrite decide_True|by rewrite decide_False by naive_solver].
Qed.

Lemma acts_snoc_elem h h' tr a x : x ∈ acts_of h' (tr ++ [(h, a)]) -> x ∈ acts_of h' tr \/ h = h' /\ x = a.
Proof.
  rewrite acts_of_snoc. intros [H|H]%elem_of_app; [by left|right]. destruct (decide (h = h')); [|by apply elem_of_nil in H].
  by apply list_elem_of_singleton in H.
Qed.

(** [kvminithart] is only called when the page table is there. *)
Lemma kvminit_before s h rest : progress s -> todo s h = kvminithart :: rest -> kvminit ∈ acts_of 0 (ran s).
Proof.
  intros Hp Ht. destruct (decide (h = 0%nat)) as [->|Hh]; [by apply (hart0_before s kvminithart rest)|].
  apply inits_done; [done|by eapply past_wait|]. apply (bool_decide_unpack _). by vm_compute.
Qed.

Lemma ready_effect s h a rest : progress s -> ready_data s -> Z.of_nat h < NCPU -> todo s h = a :: rest -> a <> wait_started ->
  ready_data (effect h a (advance h a rest s)).
Proof.
  intros Hp Hd Hh Ht Ha. set (s1 := advance h a rest s).
  destruct (effect_plic h a s1 (da_written s Hd) Hh) as (W1 & W2 & W3 & W4). destruct (effect_ran h a s1) as [Er _]. split; rewrite ?Er; cbn [ran s1].
  - intros [H|[-> <-]]%acts_snoc_elem; rewrite effect_kpt; case_decide; try done. by apply (da_kpt s Hd).
  - intros h' H%acts_snoc_elem. rewrite effect_satp. case_decide as Hc.
    + destruct Hc as [-> ->]. f_equal. by eapply (da_kpt s Hd), kvminit_before.
    + destruct H as [H|[-> <-]]; [by apply (da_satp s Hd)|by destruct Hc].
  - intros h' H%acts_snoc_elem. rewrite effect_stvec. case_decide as Hc; [done|].
    destruct H as [H|[-> <-]]; [by apply (da_stvec s Hd)|by destruct Hc].
  - done.
  - intros [H|[-> <-]]%acts_snoc_elem; [|by apply W3]. destruct (da_plic s Hd H). split; by apply W2.
  - intros h' [H|[-> <-]]%acts_snoc_elem; [|by apply W4]. destruct (da_plichart s Hd h' H). split; by apply W2.
Qed.

Lemma boot_invariant satp0 stvec0 s : reachable satp0 stvec0 s -> progress s /\ ready_data s.
Proof.
  induction 1 as [|s s' _ [Hp Hd] Hs].
  - split; split; cbn; try done; try (by intros ? ?%elem_of_nil); try (by intros ?%elem_of_nil).
    + by intros h a ?%elem_of_nil.
    + intros tr1 h a tr2 E. by destruct tr1.
  - destruct Hs as [h a rest s Hh Ht Ha _|h rest s Hh Ht Hst|h rest s Hh Ht Hst]; [|done|].
    + destruct (effect_ran h a (advance h a rest s)) as [Er Et]. split; [|by apply ready_effect].
      eapply (progress_advance s _ h a rest); [done|done|done|by rewrite Er|by rewrite Et|by rewrite effect_started|].
      intros Hh0. by eapply past_wait.
    + split; [by eapply (progress_advance s _ h wait_started rest)|]. destruct Hd as [D1 D2 D3 D4 D5 D6]. split; cbn; try done.
      * intros [?|[_ ?]]%acts_snoc_elem; [by apply D1|done].
      * intros h' [?|[_ ?]]%acts_snoc_elem; [by apply D2|done].
      * intros h' [?|[_ ?]]%acts_snoc_elem; [by apply D3|done].
      * intros [?|[_ ?]]%acts_snoc_elem; [by apply D5|done].
      * intros h' [?|[_ ?]]%acts_snoc_elem; [by apply D6|done].
Qed.

(** ** Executions *)

(** A turn of hart [h]. *)
Definition turn (h : nat) (s : boot) : boot :=
  if negb (Z.of_nat h <? NCPU) then s else
  match todo s h with
  | [] | scheduler :: _ => s
  | wait_started :: rest => if started s then advance h wait_started rest s else s
  | a :: rest => effect h a (advance h a rest s)
  end.

Lemma turn_reachable satp0 stvec0 h s : reachable satp0 stvec0 s -> reachable satp0 stvec0 (turn h s).
Proof.
  intros Hr. unfold turn. destruct (Z.ltb_spec (Z.of_nat h) NCPU) as [Hh|]; cbn [negb]; [|done].
  destruct (todo s h) as [|a rest] eqn:Ht; [done|]. destruct (decide (a = scheduler)) as [->|Hs]; [done|].
  destruct (decide (a = wait_started)) as [->|Hw].
  - destruct (started s) eqn:Hst; [|done]. eapply reach_step; [exact Hr|]. by apply step_go.
  - replace (match a with scheduler => s | wait_started => if started s then advance h wait_started rest s else s | _ => effect h a (advance h a rest s) end)
      with (effect h a (advance h a rest s)) by (by destruct a). eapply reach_step; [exact Hr|]. by apply step_call.
Qed.

Definition turns (hs : list nat) (s : boot) : boot := foldl (fun s h => turn h s) s hs.

Lemma turns_reachable satp0 stvec0 hs s : reachable satp0 stvec0 s -> reachable satp0 stvec0 (turns hs s).
Proof. revert s. induction hs as [|h hs IH]; intros s Hr; [done|]. apply IH. by apply turn_reachable. Qed.

Lemma turn_todo h s a rest : Z.of_nat h < NCPU -> todo s h = a :: rest -> a <> scheduler -> (a = wait_started -> started s = true) ->
  todo (turn h s) = fupd (todo s) h rest /\ started (turn h s) = if decide (a = set_started) then true else started s.
Proof.
  intros Hh Ht Hs Hw. unfold turn. rewrite (proj2 (Z.ltb_lt _ _)) by done. cbn [negb]. rewrite Ht.
  destruct a; try done. pose proof (Hw eq_refl) as Hst. rewrite Hst. split; [done|]. exact Hst.
Qed.

(** The last call of a hart is [scheduler]. *)
Lemma todo_ends s h : progress s -> todo s h <> [] -> last (todo s h) = Some scheduler.
Proof.
  intros Hp Hne. pose proof (pr_prog s Hp h) as Hm. assert (last (main h) = Some scheduler) as Hl by (unfold main; by destruct (decide (h = 0%nat))).
  rewrite <- Hm, last_app in Hl. destruct (last (todo s h)) eqn:E; [done|]. by apply last_None in E.
Qed.

Lemma main_NoDup h : NoDup (main h).
Proof. unfold main. destruct (decide (h = 0%nat)); apply (bool_decide_unpack _); by vm_compute. Qed.

Lemma scheduler_last s h rest : progress s -> todo s h = scheduler :: rest -> rest = [].
Proof.
  intros Hp Ht. destruct rest as [|b rest]; [done|exfalso]. pose proof (main_NoDup h) as Hnd. rewrite <- (pr_prog s Hp h), Ht in Hnd.
  apply NoDup_app in Hnd as (_ & _ & Hnd). apply NoDup_cons in Hnd as [Hni _]. apply Hni, last_Some_elem_of.
  pose proof (todo_ends s h Hp) as Hl. rewrite Ht in Hl. by apply Hl.
Qed.

(** A hart that does not have to wait reaches its scheduler by its own turns. *)
Lemma hart_finishes satp0 stvec0 n : forall h s, reachable satp0 stvec0 s -> Z.of_nat h < NCPU -> (h = 0%nat \/ started s = true) ->
  length (todo s h) = S n -> let s' := turns (replicate n h) s in
  todo s' h = [scheduler] /\ (forall h', h' <> h -> todo s' h' = todo s h') /\ (started s = true -> started s' = true).
Proof.
  induction n as [|n IH]; intros h s Hr Hh Hw Hn; destruct (boot_invariant _ _ _ Hr) as [Hp _].
  - pose proof (todo_ends s h Hp) as Hl. cbn [replicate turns foldl]. destruct (todo s h) as [|a [|b l]]; try done. injection (Hl ltac:(done)) as ->. by split_and!.
  - destruct (todo s h) as [|a rest] eqn:Ht; [done|]. cbn [length] in Hn. injection Hn as Hn.
    assert (a <> scheduler) as Ha. { intros ->. by rewrite (scheduler_last s h rest Hp Ht) in Hn. }
    destruct (turn_todo h s a rest Hh Ht Ha) as [Et Es]. { intros ->. destruct Hw as [->|?]; [|done]. by destruct (hart0_before s _ _ Hp Ht). }
    specialize (IH h (turn h s) (turn_reachable _ _ h s Hr) Hh). rewrite Et in IH. unfold fupd in IH at 1. rewrite decide_True in IH by done.
    destruct IH as (I1 & I2 & I3); [destruct Hw as [?|Hw]; [by left|right; rewrite Es, Hw; by case_decide]|done|]. cbn [replicate turns foldl].
    split; [done|]. split; [intros h' Hne; etrans; [exact (I2 h' Hne)|]; unfold fupd; by rewrite decide_False|].
    intros Hst. apply I3. rewrite Es, Hst. by case_decide.
Qed.

(** ** The theorem *)

Lemma acts_done s h : progress s -> todo s h = [scheduler] -> acts_of h (ran s) ++ [scheduler] = main h.
Proof. intros Hp Ht. rewrite <- Ht. apply (pr_prog s Hp). Qed.

Lemma own_inits s h : progress s -> todo s h = [scheduler] ->
  forall a, a ∈ [kvminithart; trapinithart; plicinithart] -> a ∈ acts_of h (ran s).
Proof.
  intros Hp Ht a Ha. pose proof (acts_done s h Hp Ht) as E. assert (a ∈ main h) as Hm.
  { unfold main. destruct (decide (h = 0%nat)); revert a Ha; apply Forall_forall; apply (bool_decide_unpack _); by vm_compute. }
  rewrite <- E in Hm. apply elem_of_app in Hm as [?| ->%list_elem_of_singleton]; [done|]. exfalso. revert Ha. apply (bool_decide_unpack _). by vm_compute.
Qed.

Lemma global_hart0 s h g : progress s -> (h, g) ∈ ran s -> g ∈ global_inits -> h = 0%nat.
Proof.
  intros Hp Hin Hg. destruct (decide (h = 0%nat)) as [|Hh]; [done|exfalso]. apply elem_of_acts in Hin. pose proof (pr_prog s Hp h) as Hm.
  assert (g ∈ main h) as H by (rewrite <- Hm; apply elem_of_app; by left). unfold main in H. rewrite decide_False in H by done.
  assert (Forall (fun g => g ∉ [wait_started; synchronize; hart_starting; kvminithart; trapinithart; plicinithart; scheduler]) global_inits) as HF
    by (apply (bool_decide_unpack _); by vm_compute).
  rewrite Forall_forall in HF. by apply (HF g).
Qed.

(** C10: whatever the interleaving of the harts, a hart that has reached
    [scheduler] translates addresses with the page table that [kvminit] built,
    takes its traps in [kernelvec], and is sent the interrupts of the UART and
    of the disk and no others; by then hart 0, and hart 0 alone, has
    initialised everything the harts share, and no other hart made a call
    before that. *)
Theorem harts_enter_ready satp0 stvec0 s h :
  reachable satp0 stvec0 s -> Z.of_nat h < NCPU -> todo s h = [scheduler] ->
  hsatp s h = MAKE_SATP root /\ hstvec s h = kernelvec /\
  (forall i, 0 < i < 1024 -> routed (plic s) (Z.of_nat h) i <-> i = UART0_IRQ \/ i = VIRTIO0_IRQ) /\
  (forall g, g ∈ global_inits -> (0%nat, g) ∈ ran s /\ forall h', (h', g) ∈ ran s -> h' = 0%nat) /\
  (forall tr1 h' a tr2, ran s = tr1 ++ (h', a) :: tr2 -> h' <> 0%nat -> forall g, g ∈ global_inits -> (0%nat, g) ∈ tr1).
Proof.
  intros Hr Hh Ht. destruct (boot_invariant _ _ _ Hr) as [Hp Hd]. pose proof (own_inits s h Hp Ht) as Hown.
  assert (forall g, g ∈ global_inits -> g ∈ acts_of 0 (ran s)) as Hg.
  { intros g Hg. destruct (decide (h = 0%nat)) as [->|Hh0]; [|apply inits_done; [done|by eapply past_wait|done]].
    pose proof (acts_done s 0 Hp Ht) as E. assert (g ∈ main 0) as Hm.
    { revert g Hg. apply Forall_forall. apply (bool_decide_unpack _). by vm_compute. }
    rewrite <- E in Hm. apply elem_of_app in Hm as [?| ->%list_elem_of_singleton]; [done|].
    exfalso. revert Hg. apply (bool_decide_unpack _). by vm_compute. }
  split_and!.
  - apply (da_satp s Hd), Hown. by left.
  - apply (da_stvec s Hd), Hown. right. by left.
  - intros i Hi. apply routed_iff; [apply (da_written s Hd)| | |lia|done].
    + apply (da_plic s Hd), Hg. apply (bool_decide_unpack _). by vm_compute.
    + apply (da_plichart s Hd), Hown. right. right. by left.
  - intros g Hgi. split; [by apply elem_of_acts, Hg|]. intros h' Hin. by eapply global_hart0.
  - apply (pr_order s Hp).
Qed.
End main.

(** Hart 0 boots while hart 2 waits; then hart 2 follows. *)
Definition two_harts : list nat := replicate 5 2%nat ++ replicate 18 0%nat ++ replicate 6 2%nat.

Lemma harts_enter_ready_witness :
  let s := turns 0x87fff000 0x80005ab0 two_harts (power_on (fun _ => 0) (fun _ => 0)) in
  hsatp s 2 = MAKE_SATP 0x87fff000 /\ hstvec s 2 = 0x80005ab0 /\
  (forall i, 0 < i < 1024 -> routed (plic s) (Z.of_nat 2) i <-> i = UART0_IRQ \/ i = VIRTIO0_IRQ) /\
  (forall g, g ∈ global_inits -> (0%nat, g) ∈ ran s /\ forall h', (h', g) ∈ ran s -> h' = 0%nat) /\
  (forall tr1 h' a tr2, ran s = tr1 ++ (h', a) :: tr2 -> h' <> 0%nat -> forall g, g ∈ global_inits -> (0%nat, g) ∈ tr1).
Proof.
  intros s. apply (harts_enter_ready 0x87fff000 0x80005ab0 (fun _ => 0) (fun _ => 0) s 2).
  - apply turns_reachable. constructor.
  - reflexivity.
  - vm_compute. reflexivity.
Defined.
End Main.
